(** * A shallow embedding of the "Enhanced Devilish Platformer"

    The repository holds two variants of one game:
    - [gmae.py], the desktop variant, embedded in module [Desktop];
    - [New folder/main.py], the web variant, embedded in module [Web].

    Conventions of the embedding.
    - Python floats are idealised as exact rationals ([Q]); integers
      (every [pygame.Rect] coordinate) are [Z].  A timer that is counted
      down frame by frame is described by the field the program tests,
      against zero or against the length of one frame, not by the sum of
      the frames, which floating point rounds.
    - [pygame.Rect] is modelled after pygame's C implementation: four
      integers, derived attributes computed with C integer division.
    - The process-global [random] module is a cursor into a source of
      unit samples that every frame receives as an input.
    - [time.time()] is an input of the frame.
    - Rendering ([draw], surfaces, fonts) is left out of [update] and
      [run]: it reads state only, but for the web variant's [Player.draw],
      which may start a blink; [Web_main] is the web loop with that
      write. *)

From Stdlib Require Import ZArith QArith Qabs Qround Bool List Lia Lqa.
Import ListNotations.

Open Scope Z_scope.

(** ** Numbers *)

Definition Qlt_bool (a b : Q) : bool := negb (Qle_bool b a).
Definition Qgt_bool (a b : Q) : bool := Qlt_bool b a.
Definition Qge_bool (a b : Q) : bool := Qle_bool b a.

(** Python's [int(x)] on a float: truncation toward zero. *)
Definition to_int (q : Q) : Z := Z.quot (Qnum q) (Zpos (Qden q)).

Definition Qmin (a b : Q) : Q := if Qle_bool a b then a else b.
Definition Qmax (a b : Q) : Q := if Qle_bool a b then b else a.

(** The [math] module: its sine and its pi are floats the embedding does
    not compute; the functions that use them take them as a parameter. *)
Record Math : Type := mkMath { m_sin : Q -> Q; m_pi : Q }.

(** Python's [a % b] on floats. *)
Definition fmod (a b : Q) : Q := (a - b * inject_Z (Qfloor (a / b)))%Q.

(** ** CONFIG *)

Definition WIDTH : Z := 1280.
Definition HEIGHT : Z := 720.
Definition GRAVITY : Q := 8 # 10.
Definition JUMP_VELOCITY : Q := (-15) # 1.
Definition DOUBLE_JUMP_VELOCITY : Q := (-135) # 10.
Definition MOVE_SPEED : Q := 65 # 10.
Definition AIR_CONTROL : Q := 7 # 10.
Definition FRICTION : Q := 88 # 100.
Definition AIR_RESISTANCE : Q := 96 # 100.
Definition TERMINAL_VELOCITY : Q := 18 # 1.

Definition Color : Type := (Z * Z * Z)%type.
Definition COLOR_WALL_CRACK : Color := (240, 245, 255).
Definition COLOR_DOOR : Color := (120, 200, 180).
Definition COLOR_DUST : Color := (180, 180, 200).
Definition COLOR_IMPACT : Color := (255, 180, 80).

Inductive GameState : Type := PLAYING | DEAD | WON | PAUSED.

Definition GameState_eqb (a b : GameState) : bool :=
  match a, b with
  | PLAYING, PLAYING | DEAD, DEAD | WON, WON | PAUSED, PAUSED => true
  | _, _ => false
  end.

(** ** pygame.Rect *)

Record Rect : Type := mkRect { rx : Z; ry : Z; rw : Z; rh : Z }.

Definition left (r : Rect) : Z := rx r.
Definition top (r : Rect) : Z := ry r.
Definition right (r : Rect) : Z := rx r + rw r.
Definition bottom (r : Rect) : Z := ry r + rh r.
Definition centerx (r : Rect) : Z := rx r + Z.quot (rw r) 2.
Definition centery (r : Rect) : Z := ry r + Z.quot (rh r) 2.
Definition center (r : Rect) : Z * Z := (centerx r, centery r).

Definition set_x (r : Rect) (v : Z) : Rect := mkRect v (ry r) (rw r) (rh r).
Definition set_y (r : Rect) (v : Z) : Rect := mkRect (rx r) v (rw r) (rh r).
Definition set_left (r : Rect) (v : Z) : Rect := set_x r v.
Definition set_top (r : Rect) (v : Z) : Rect := set_y r v.
Definition set_right (r : Rect) (v : Z) : Rect := set_x r (v - rw r).
Definition set_bottom (r : Rect) (v : Z) : Rect := set_y r (v - rh r).
Definition set_topleft (r : Rect) (p : Z * Z) : Rect :=
  mkRect (fst p) (snd p) (rw r) (rh r).

(** [Rect.inflate(dx, dy)]: grows the rectangle around its centre. *)
Definition inflate (r : Rect) (dx dy : Z) : Rect :=
  mkRect (rx r - Z.quot dx 2) (ry r - Z.quot dy 2) (rw r + dx) (rh r + dy).

(** [Rect.colliderect]: rectangles of zero width or height collide with
    nothing; edges that only touch do not overlap. *)
Definition colliderect (a b : Rect) : bool :=
  if (rw a =? 0) || (rh a =? 0) || (rw b =? 0) || (rh b =? 0) then false
  else
    (Z.min (rx a) (rx a + rw a) <? Z.max (rx b) (rx b + rw b)) &&
    (Z.min (ry a) (ry a + rh a) <? Z.max (ry b) (ry b + rh b)) &&
    (Z.max (rx a) (rx a + rw a) >? Z.min (rx b) (rx b + rw b)) &&
    (Z.max (ry a) (ry a + rh a) >? Z.min (ry b) (ry b + rh b)).

(** ** The random module *)

Record Rng : Type := mkRng { source : nat -> Q; cursor : nat }.

(** [random.random()]: the next unit sample. *)
Definition random (g : Rng) : Q * Rng :=
  (source g (cursor g), mkRng (source g) (S (cursor g))).

(** [random.uniform(a, b)] is [a + (b - a) * random()]. *)
Definition uniform (a b : Q) (g : Rng) : Q * Rng :=
  let (u, g') := random g in ((a + (b - a) * u)%Q, g').

(** [random.randint(a, b)]: an integer picked from the next sample. *)
Definition randint (a b : Z) (g : Rng) : Z * Rng :=
  let (u, g') := random g in
  (a + to_int (u * inject_Z (b - a + 1))%Q, g').

(** ** Keyboard state and frame inputs *)

Record Keys : Type := mkKeys {
  K_a : bool; K_LEFT : bool; K_d : bool; K_RIGHT : bool;
  K_w : bool; K_SPACE : bool; K_UP : bool;
  K_r : bool; K_ESCAPE : bool
}.

Definition no_keys : Keys :=
  mkKeys false false false false false false false false false.
Definition jump_key : Keys :=
  mkKeys false false false false false true false false false.
Definition reset_key : Keys :=
  mkKeys false false false false false false false true false.

Definition jump_pressed (k : Keys) : bool := K_w k || K_SPACE k || K_UP k.

Record Frame : Type := mkFrame {
  f_keys : Keys;      (* pygame.key.get_pressed() *)
  f_dt : Q;           (* clock.tick(FPS) / 1000.0 *)
  f_now : Q;          (* time.time() *)
  f_rng : Rng         (* state of the random module at the frame *)
}.

(** ** Platform *)

Record Platform : Type := mkPlatform { p_rect : Rect }.

Definition new_Platform (x y w h : Z) : Platform := mkPlatform (mkRect x y w h).

(** ** Particles *)

Record Particle : Type := mkParticle {
  pt_pos : Q * Q;
  pt_vel : Q * Q;
  pt_life : Q;
  pt_max_life : Q;
  pt_color : Color;
  pt_size : Q
}.

Definition Qpos_of (p : Z * Z) : Q * Q := (inject_Z (fst p), inject_Z (snd p)).

(** One pass of the particle loop body, shared by both variants. *)
Definition step_particle (dt : Q) (p : Particle) : Particle :=
  let vy := (snd (pt_vel p) + GRAVITY * (3 # 10))%Q in
  let vx := fst (pt_vel p) in
  mkParticle ((fst (pt_pos p) + vx)%Q, (snd (pt_pos p) + vy)%Q)
             (vx, vy) (pt_life p - dt)%Q (pt_max_life p) (pt_color p) (pt_size p).

(** ** Camera (identical in both variants) *)

Record Camera : Type := mkCamera {
  cam_x : Q; cam_y : Q; target_x : Q; target_y : Q;
  shake_intensity : Q; shake_duration : Q
}.

Definition new_Camera : Camera := mkCamera 0 0 0 0 0 0.

Definition Camera_follow (c : Camera) (target : Rect) (smooth : Q) : Camera :=
  let tx := inject_Z (centerx target - WIDTH / 2) in
  let ty := inject_Z (centery target - HEIGHT / 2) in
  let x := (cam_x c + (tx - cam_x c) * smooth)%Q in
  let y := (cam_y c + (ty - cam_y c) * smooth)%Q in
  let x := Qmax 0 (Qmin x (inject_Z (WIDTH - WIDTH))) in
  let y := Qmax (inject_Z (- HEIGHT / 4)) (Qmin y (inject_Z (HEIGHT / 4))) in
  mkCamera x y tx ty (shake_intensity c) (shake_duration c).

Definition Camera_add_shake (c : Camera) (intensity duration : Q) : Camera :=
  mkCamera (cam_x c) (cam_y c) (target_x c) (target_y c)
           (Qmax (shake_intensity c) intensity)
           (Qmax (shake_duration c) duration).

Definition Camera_update (c : Camera) (dt : Q) : Camera :=
  if Qgt_bool (shake_duration c) 0 then
    let d := (shake_duration c - dt)%Q in
    mkCamera (cam_x c) (cam_y c) (target_x c) (target_y c)
             (if Qle_bool d 0 then 0%Q else shake_intensity c) d
  else c.

(** ** MagicWall (identical in both variants) *)

Record MagicWall : Type := mkMagicWall {
  mw_rect : Rect;
  mw_alive : bool;
  cracked : bool;
  crack_timer : Q;
  crack_progress : Q;
  health : Z;
  mw_shake_timer : Q
}.

Definition new_MagicWall (x y w h : Z) : MagicWall :=
  mkMagicWall (mkRect x y w h) true false 0 0 2 0.

(** [MagicWall.hit]: the new wall and the returned flag. *)
Definition hit (m : MagicWall) : MagicWall * bool :=
  if negb (mw_alive m) then (m, false)
  else
    let h := health m - 1 in
    if h <=? 0 then
      (mkMagicWall (mw_rect m) false (cracked m) (crack_timer m)
                   (crack_progress m) h (3 # 10), true)
    else
      (mkMagicWall (mw_rect m) (mw_alive m) true (8 # 10)
                   (crack_progress m) h (3 # 10), false).

Definition MagicWall_update (m : MagicWall) (dt : Q) : MagicWall :=
  let st := if Qgt_bool (mw_shake_timer m) 0
            then (mw_shake_timer m - dt)%Q else mw_shake_timer m in
  if cracked m && Qgt_bool (crack_timer m) 0 then
    let ct := (crack_timer m - dt)%Q in
    mkMagicWall (mw_rect m) (mw_alive m) (cracked m) ct
                (1 - ct / (8 # 10))%Q (health m) st
  else
    mkMagicWall (mw_rect m) (mw_alive m) (cracked m) (crack_timer m)
                (crack_progress m) (health m) st.

(** ** Spike (identical in both variants) *)

Inductive MovePattern : Type :=
| MoveNone
| MoveHorizontal (speed range : Q)
| MoveVertical (speed range : Q).

Record Spike : Type := mkSpike {
  sp_rect : Rect;
  popup : bool;
  sp_timer : Q;
  sp_active : bool;
  warn_phase : Q;
  move_pattern : MovePattern;
  move_timer : Q;
  original_pos : Z * Z
}.

Definition new_Spike (x y w h : Z) (pop : bool) (delay : Q)
           (mp : MovePattern) : Spike :=
  mkSpike (mkRect x y w h) pop delay (negb pop) 0 mp 0 (x, y).

(** [math.sin] comes from the [Math] parameter; a float assigned to a Rect
    coordinate is truncated. *)
Definition Spike_update (m : Math) (s : Spike) (dt : Q) : Spike :=
  let counting := popup s && negb (sp_active s) in
  let timer := if counting then (sp_timer s - dt)%Q else sp_timer s in
  let phase := if counting then (warn_phase s + dt * 8)%Q else warn_phase s in
  let active := if counting then
                  (if Qle_bool timer 0 then true else sp_active s)
                else sp_active s in
  let mt := (move_timer s + dt)%Q in
  let r :=
    match move_pattern s with
    | MoveHorizontal speed range =>
        set_x (sp_rect s)
              (to_int (inject_Z (fst (original_pos s)) + m_sin m (mt * speed) * range)%Q)
    | MoveVertical speed range =>
        set_y (sp_rect s)
              (to_int (inject_Z (snd (original_pos s)) + m_sin m (mt * speed) * range)%Q)
    | MoveNone => sp_rect s
    end in
  mkSpike r (popup s) timer active phase (move_pattern s) mt (original_pos s).

Definition Point : Type := (Q * Q)%type.
Definition Triangle : Type := (Point * Point * Point)%type.

Definition ZPoint (x y : Z) : Point := (inject_Z x, inject_Z y).

(** [Spike.get_danger_zone]: [None] while the spike is not active. *)
Definition get_danger_zone (s : Spike) : option Triangle :=
  if negb (sp_active s) then None
  else Some (ZPoint (centerx (sp_rect s)) (top (sp_rect s)),
             ZPoint (left (sp_rect s) + 4) (bottom (sp_rect s) - 4),
             ZPoint (right (sp_rect s) - 4) (bottom (sp_rect s) - 4)).

(** [Game.point_in_triangle]: barycentric test.  A danger zone always has
    exactly three vertices, so the web variant's length check is carried
    by the type. *)
Definition denominator (t : Triangle) : Q :=
  let '((x1, y1), (x2, y2), (x3, y3)) := t in
  ((y2 - y3) * (x1 - x3) + (x3 - x2) * (y1 - y3))%Q.

Definition point_in_triangle (pt : Point) (t : Triangle) : bool :=
  let '(x, y) := pt in
  let '((x1, y1), (x2, y2), (x3, y3)) := t in
  let den := ((y2 - y3) * (x1 - x3) + (x3 - x2) * (y1 - y3))%Q in
  if Qlt_bool (Qabs den) (1 # 1000) then false
  else
    let a := (((y2 - y3) * (x - x3) + (x3 - x2) * (y - y3)) / den)%Q in
    let b := (((y3 - y1) * (x - x3) + (x1 - x3) * (y - y3)) / den)%Q in
    let c := (1 - a - b)%Q in
    Qge_bool a 0 && Qge_bool b 0 && Qge_bool c 0.

(** The five sample points of a rectangle: four corners and the centre. *)
Definition corners (r : Rect) : list Point :=
  [ ZPoint (left r) (top r); ZPoint (right r) (top r);
    ZPoint (left r) (bottom r); ZPoint (right r) (bottom r);
    ZPoint (centerx r) (centery r) ].

Definition point_in_triangle_collision (r : Rect) (t : Triangle) : bool :=
  existsb (fun c => point_in_triangle c t) (corners r).

(** * The desktop variant: [gmae.py] *)

Module Desktop.

(** ** ParticleSystem: an unbounded list of particles *)

Definition ParticleSystem : Type := list Particle.

Definition new_ParticleSystem : ParticleSystem := [].

(** The body of the [for _ in range(count)] loop of [add_explosion]. *)
Definition explosion_particle (pos : Q * Q) (color : Color) (vel_range : Q * Q)
           (g : Rng) : Particle * Rng :=
  let (vx, g1) := uniform (fst vel_range) (snd vel_range) g in
  let (vy, g2) := uniform (fst vel_range) (-1) g1 in
  let (life, g3) := uniform (5 # 10) (12 # 10) g2 in
  let (size, g4) := uniform 2 5 g3 in
  (mkParticle pos (vx, vy) life life color size, g4).

Fixpoint add_explosion_loop (n : nat) (pos : Q * Q) (color : Color)
         (vel_range : Q * Q) (ps : ParticleSystem) (g : Rng)
  : ParticleSystem * Rng :=
  match n with
  | O => (ps, g)
  | S n' =>
      let (p, g') := explosion_particle pos color vel_range g in
      add_explosion_loop n' pos color vel_range (ps ++ [p]) g'
  end.

(** [range(count)] is empty for a count that is not positive. *)
Definition add_explosion (ps : ParticleSystem) (pos : Q * Q) (count : Z)
           (color : Color) (vel_range : Q * Q) (g : Rng)
  : ParticleSystem * Rng :=
  add_explosion_loop (Z.to_nat count) pos color vel_range ps g.

Definition dust_particle (pos : Q * Q) (g : Rng) : Particle * Rng :=
  let (vx, g1) := uniform (-1) 1 g in
  let (vy, g2) := uniform (-2) (- (5 # 10)) g1 in
  let (life, g3) := uniform (3 # 10) (8 # 10) g2 in
  let (size, g4) := uniform 1 3 g3 in
  (mkParticle pos (vx, vy) life life COLOR_DUST size, g4).

Fixpoint add_dust_loop (n : nat) (pos : Q * Q) (ps : ParticleSystem) (g : Rng)
  : ParticleSystem * Rng :=
  match n with
  | O => (ps, g)
  | S n' =>
      let (p, g') := dust_particle pos g in
      add_dust_loop n' pos (ps ++ [p]) g'
  end.

Definition add_dust (ps : ParticleSystem) (pos : Q * Q) (count : Z) (g : Rng)
  : ParticleSystem * Rng :=
  add_dust_loop (Z.to_nat count) pos ps g.

(** [update]: every particle of the snapshot is stepped in place and
    removed once its life is used up.  [list.remove] drops the first equal
    element; a particle stepped earlier in the pass is still alive, so that
    element is the particle at hand. *)
Definition ParticleSystem_update (ps : ParticleSystem) (dt : Q) : ParticleSystem :=
  filter (fun p => negb (Qle_bool (pt_life p) 0)) (map (step_particle dt) ps).

(** ** FallingStone *)

Record FallingStone : Type := mkFallingStone {
  fs_rect : Rect;
  fs_vy : Q;
  fs_vx : Q;
  rotation : Q;
  angular_velocity : Q;
  dropped : bool;
  settled : bool;
  warning : bool;
  warning_timer : Q;
  trigger_range : Z * Z;
  bounces : Z;
  max_bounces : Z
}.

Definition new_FallingStone (x top_y : Z) (range : Z * Z) (warning_time : Q)
  : FallingStone :=
  mkFallingStone (mkRect x top_y 45 45) 0 0 0 0 false false false
                 warning_time range 0 2.

Definition trigger_check (s : FallingStone) (player_x : Z) : FallingStone :=
  if negb (dropped s) && negb (warning s) then
    if (fst (trigger_range s) <=? player_x) && (player_x <=? snd (trigger_range s))
    then mkFallingStone (fs_rect s) (fs_vy s) (fs_vx s) (rotation s)
                        (angular_velocity s) (dropped s) (settled s) true
                        (warning_timer s) (trigger_range s) (bounces s)
                        (max_bounces s)
    else s
  else s.

(** First half of [FallingStone.update]: the warning countdown. *)
Definition countdown (s : FallingStone) (dt : Q) (g : Rng) : FallingStone * Rng :=
  if warning s && negb (dropped s) then
    let t := (warning_timer s - dt)%Q in
    if Qle_bool t 0 then
      let (av, g') := uniform (-5) 5 g in
      (mkFallingStone (fs_rect s) 0 (fs_vx s) (rotation s) av true (settled s)
                      (warning s) t (trigger_range s) (bounces s) (max_bounces s),
       g')
    else
      (mkFallingStone (fs_rect s) (fs_vy s) (fs_vx s) (rotation s)
                      (angular_velocity s) (dropped s) (settled s) (warning s) t
                      (trigger_range s) (bounces s) (max_bounces s), g)
  else (s, g).

(** Second half: fall, then bounce or settle on the first platform hit. *)
Definition fall (s : FallingStone) (dt : Q) (platforms : list Platform)
           (ps : ParticleSystem) (g : Rng)
  : FallingStone * ParticleSystem * Rng :=
  if dropped s && negb (settled s) then
    let vy := Qmin (fs_vy s + GRAVITY * (15 # 10))%Q TERMINAL_VELOCITY in
    let r := set_y (set_x (fs_rect s) (rx (fs_rect s) + to_int (fs_vx s)))
                   (ry (fs_rect s) + to_int vy) in
    let rot := (rotation s + angular_velocity s * dt)%Q in
    match find (fun p => colliderect r (p_rect p)) platforms with
    | None =>
        (mkFallingStone r vy (fs_vx s) rot (angular_velocity s) (dropped s)
                        (settled s) (warning s) (warning_timer s)
                        (trigger_range s) (bounces s) (max_bounces s), ps, g)
    | Some p =>
        let r' := set_bottom r (top (p_rect p)) in
        if bounces s <? max_bounces s then
          let (dvx, g1) := uniform (-2) 2 g in
          let (ps', g2) :=
            add_explosion ps (Qpos_of (centerx r', bottom r')) 15 COLOR_IMPACT
                          (-5, 5)%Q g1 in
          (mkFallingStone r' (- vy * (4 # 10))%Q (fs_vx s + dvx)%Q rot
                          (angular_velocity s * (7 # 10))%Q (dropped s)
                          (settled s) (warning s) (warning_timer s)
                          (trigger_range s) (bounces s + 1) (max_bounces s),
           ps', g2)
        else
          let vx := (fs_vx s * (8 # 10))%Q in
          let av := (angular_velocity s * (9 # 10))%Q in
          let st := if Qlt_bool (Qabs vx) (1 # 10) && Qlt_bool (Qabs av) (1 # 10)
                    then true else settled s in
          let (ps', g1) :=
            add_explosion ps (Qpos_of (centerx r', bottom r')) 25 COLOR_IMPACT
                          (-5, 5)%Q g in
          (mkFallingStone r' 0 vx rot av (dropped s) st (warning s)
                          (warning_timer s) (trigger_range s) (bounces s)
                          (max_bounces s), ps', g1)
    end
  else (s, ps, g).

Definition FallingStone_update (s : FallingStone) (dt : Q)
           (platforms : list Platform) (ps : ParticleSystem) (g : Rng)
  : FallingStone * ParticleSystem * Rng :=
  let (s1, g1) := countdown s dt g in
  fall s1 dt platforms ps g1.

(** ** Door *)

Record Door : Type := mkDoor {
  d_rect : Rect;
  alt_pos : Z * Z;
  trolled_once : bool;
  d_open : bool;
  pulse : Q;
  glow_intensity : Q
}.

Definition new_Door (pos1 pos2 : Z * Z) : Door :=
  mkDoor (mkRect (fst pos1) (snd pos1) 40 60) pos2 false false 0 0.

(** The test guarding the troll: not yet trolled, the player overlaps the
    inflated door and does not come from below. *)
Definition troll_fires (d : Door) (player_rect : Rect) : bool :=
  negb (trolled_once d) &&
  colliderect player_rect (inflate (d_rect d) 60 20) &&
  (centery player_rect <=? centery (d_rect d)).

Definition maybe_troll (d : Door) (player_rect : Rect) (ps : ParticleSystem)
           (g : Rng) : Door * ParticleSystem * Rng :=
  if troll_fires d player_rect then
    let old_pos := center (d_rect d) in
    let r := set_topleft (d_rect d) (alt_pos d) in
    let (ps1, g1) := add_explosion ps (Qpos_of old_pos) 30 COLOR_DOOR (-5, 5)%Q g in
    let (ps2, g2) := add_explosion ps1 (Qpos_of (center r)) 30 COLOR_DOOR
                                   (-5, 5)%Q g1 in
    (mkDoor r (alt_pos d) true (d_open d) (pulse d) (glow_intensity d), ps2, g2)
  else (d, ps, g).

Definition set_open (d : Door) : Door :=
  mkDoor (d_rect d) (alt_pos d) (trolled_once d) true (pulse d) 1.

Definition Door_update (d : Door) (dt : Q) : Door :=
  mkDoor (d_rect d) (alt_pos d) (trolled_once d) (d_open d)
         (pulse d + dt * 3)%Q
         (if d_open d && Qgt_bool (glow_intensity d) 0
          then Qmin 1 (glow_intensity d + dt * 2)%Q else glow_intensity d).

Definition check_win_collision (d : Door) (player_rect : Rect) : bool :=
  d_open d &&
  colliderect player_rect (inflate (d_rect d) (-5) (-5)) &&
  (centery player_rect <=? centery (d_rect d) + 10).

(** ** Player *)

Record Player : Type := mkPlayer {
  rect : Rect;
  vx : Q;
  vy : Q;
  on_ground : bool;
  can_double_jump : bool;
  has_double_jumped : bool;
  dead : bool;
  win : bool;
  facing_right : bool;
  animation_timer : Q;
  squash_stretch : Q;
  coyote_time : Q;
  coyote_timer : Q;
  jump_buffer_time : Q;
  jump_buffer_timer : Q;
  wall_slide_timer : Q;
  dust_timer : Q
}.

Definition new_Player (x y : Z) : Player :=
  mkPlayer (mkRect x y 32 44) 0 0 false false false false false true 0 1
           (1 # 10) 0 (1 # 10) 0 0 0.

Definition set_rect (p : Player) (r : Rect) : Player :=
  mkPlayer r (vx p) (vy p) (on_ground p) (can_double_jump p)
           (has_double_jumped p) (dead p) (win p) (facing_right p)
           (animation_timer p) (squash_stretch p) (coyote_time p)
           (coyote_timer p) (jump_buffer_time p) (jump_buffer_timer p)
           (wall_slide_timer p) (dust_timer p).

Definition set_vx (p : Player) (v : Q) : Player :=
  mkPlayer (rect p) v (vy p) (on_ground p) (can_double_jump p)
           (has_double_jumped p) (dead p) (win p) (facing_right p)
           (animation_timer p) (squash_stretch p) (coyote_time p)
           (coyote_timer p) (jump_buffer_time p) (jump_buffer_timer p)
           (wall_slide_timer p) (dust_timer p).

Definition set_vy (p : Player) (v : Q) : Player :=
  mkPlayer (rect p) (vx p) v (on_ground p) (can_double_jump p)
           (has_double_jumped p) (dead p) (win p) (facing_right p)
           (animation_timer p) (squash_stretch p) (coyote_time p)
           (coyote_timer p) (jump_buffer_time p) (jump_buffer_timer p)
           (wall_slide_timer p) (dust_timer p).

Definition set_on_ground (p : Player) (b : bool) : Player :=
  mkPlayer (rect p) (vx p) (vy p) b (can_double_jump p)
           (has_double_jumped p) (dead p) (win p) (facing_right p)
           (animation_timer p) (squash_stretch p) (coyote_time p)
           (coyote_timer p) (jump_buffer_time p) (jump_buffer_timer p)
           (wall_slide_timer p) (dust_timer p).

Definition set_dead (p : Player) (b : bool) : Player :=
  mkPlayer (rect p) (vx p) (vy p) (on_ground p) (can_double_jump p)
           (has_double_jumped p) b (win p) (facing_right p)
           (animation_timer p) (squash_stretch p) (coyote_time p)
           (coyote_timer p) (jump_buffer_time p) (jump_buffer_timer p)
           (wall_slide_timer p) (dust_timer p).

Definition set_win (p : Player) (b : bool) : Player :=
  mkPlayer (rect p) (vx p) (vy p) (on_ground p) (can_double_jump p)
           (has_double_jumped p) (dead p) b (facing_right p)
           (animation_timer p) (squash_stretch p) (coyote_time p)
           (coyote_timer p) (jump_buffer_time p) (jump_buffer_timer p)
           (wall_slide_timer p) (dust_timer p).

Definition set_squash_stretch (p : Player) (v : Q) : Player :=
  mkPlayer (rect p) (vx p) (vy p) (on_ground p) (can_double_jump p)
           (has_double_jumped p) (dead p) (win p) (facing_right p)
           (animation_timer p) v (coyote_time p)
           (coyote_timer p) (jump_buffer_time p) (jump_buffer_timer p)
           (wall_slide_timer p) (dust_timer p).

Definition set_coyote_timer (p : Player) (v : Q) : Player :=
  mkPlayer (rect p) (vx p) (vy p) (on_ground p) (can_double_jump p)
           (has_double_jumped p) (dead p) (win p) (facing_right p)
           (animation_timer p) (squash_stretch p) (coyote_time p)
           v (jump_buffer_time p) (jump_buffer_timer p)
           (wall_slide_timer p) (dust_timer p).

Definition set_dust_timer (p : Player) (v : Q) : Player :=
  mkPlayer (rect p) (vx p) (vy p) (on_ground p) (can_double_jump p)
           (has_double_jumped p) (dead p) (win p) (facing_right p)
           (animation_timer p) (squash_stretch p) (coyote_time p)
           (coyote_timer p) (jump_buffer_time p) (jump_buffer_timer p)
           (wall_slide_timer p) v.

Definition set_animation_timer (p : Player) (v : Q) : Player :=
  mkPlayer (rect p) (vx p) (vy p) (on_ground p) (can_double_jump p)
           (has_double_jumped p) (dead p) (win p) (facing_right p)
           v (squash_stretch p) (coyote_time p)
           (coyote_timer p) (jump_buffer_time p) (jump_buffer_timer p)
           (wall_slide_timer p) (dust_timer p).

(** [Player.control], in the order of the source: horizontal input, friction,
    jump buffering, the jump itself, the timers. *)
Definition control (p : Player) (keys : Keys) (dt : Q) : Player :=
  let go_left := K_a keys || K_LEFT keys in
  let go_right := K_d keys || K_RIGHT keys in
  let move_input := ((if go_left then -1 else 0) + (if go_right then 1 else 0))%Z in
  let facing := if go_right then true
                else if go_left then false else facing_right p in
  let control_strength := if on_ground p then 1%Q else AIR_CONTROL in
  let target_vx := (inject_Z move_input * MOVE_SPEED)%Q in
  let accel := if on_ground p then (8 # 10)%Q else (4 # 10)%Q in
  let vx1 := (vx p + (target_vx - vx p) * accel * control_strength)%Q in
  let vx2 := if on_ground p then
               (if Qlt_bool (Qabs (inject_Z move_input)) (1 # 10)
                then (vx1 * FRICTION)%Q else vx1)
             else (vx1 * AIR_RESISTANCE)%Q in
  let jb := if jump_pressed keys then jump_buffer_time p
            else jump_buffer_timer p in
  (* (vy, on_ground, can_double_jump, has_double_jumped, coyote, buffer) *)
  let '(vy', og, cdj, hdj, ct, jb') :=
    if Qgt_bool jb 0 then
      if Qgt_bool (coyote_timer p) 0 then
        (JUMP_VELOCITY, false, true, has_double_jumped p, 0%Q, 0%Q)
      else if can_double_jump p && negb (has_double_jumped p) then
        (DOUBLE_JUMP_VELOCITY, on_ground p, false, true, coyote_timer p, 0%Q)
      else
        (vy p, on_ground p, can_double_jump p, has_double_jumped p,
         coyote_timer p, jb)
    else
      (vy p, on_ground p, can_double_jump p, has_double_jumped p,
       coyote_timer p, jb) in
  let jb'' := if Qgt_bool jb' 0 then (jb' - dt)%Q else jb' in
  let ct' := if Qgt_bool ct 0 then (ct - dt)%Q else ct in
  mkPlayer (rect p) vx2 vy' og cdj hdj (dead p) (win p) facing
           (animation_timer p) (squash_stretch p) (coyote_time p) ct'
           (jump_buffer_time p) jb'' (wall_slide_timer p) (dust_timer p).

(** Body of the horizontal collision loop. *)
Definition horizontal_step (p : Player) (pl : Platform) : Player :=
  if colliderect (rect p) (p_rect pl) then
    if Qgt_bool (vx p) 0 then
      set_vx (set_rect p (set_right (rect p) (left (p_rect pl)))) 0
    else if Qlt_bool (vx p) 0 then
      set_vx (set_rect p (set_left (rect p) (right (p_rect pl)))) 0
    else p
  else p.

(** Body of the vertical collision loop; it carries the particle system
    and the random state for the hard-landing dust. *)
Definition vertical_step (st : Player * ParticleSystem * Rng) (pl : Platform)
  : Player * ParticleSystem * Rng :=
  let '(p, ps, g) := st in
  if colliderect (rect p) (p_rect pl) then
    if Qgt_bool (vy p) 0 then
      let r := set_bottom (rect p) (top (p_rect pl)) in
      let hard := Qgt_bool (vy p) 8 in
      let '(ps', g') :=
        if hard then add_dust ps (Qpos_of (centerx r, bottom r)) 8 g
        else (ps, g) in
      (mkPlayer r (vx p) 0 true true false (dead p) (win p) (facing_right p)
                (animation_timer p)
                (if hard then (7 # 10)%Q else squash_stretch p)
                (coyote_time p) (coyote_timer p) (jump_buffer_time p)
                (jump_buffer_timer p) (wall_slide_timer p) (dust_timer p),
       ps', g')
    else if Qlt_bool (vy p) 0 then
      (set_vy (set_rect p (set_top (rect p) (bottom (p_rect pl)))) 0, ps, g)
    else (p, ps, g)
  else (p, ps, g).

(** Vertical collision resolution: the loop over the platform list, run
    on the player once it has been moved and its grounded flag cleared. *)
Definition vertical_collisions (p : Player) (platforms : list Platform)
           (ps : ParticleSystem) (g : Rng) : Player * ParticleSystem * Rng :=
  fold_left vertical_step platforms (p, ps, g).

Definition gravity_step (p : Player) : Player :=
  if negb (on_ground p) then
    set_vy p (Qmin (vy p + GRAVITY)%Q TERMINAL_VELOCITY)
  else p.

Definition move_x (p : Player) : Player :=
  set_rect p (set_x (rect p) (rx (rect p) + to_int (vx p))).

Definition move_y (p : Player) : Player :=
  set_rect p (set_y (rect p) (ry (rect p) + to_int (vy p))).

(** What follows the collision loops: coyote time, level bounds, walking
    dust, animation. *)
Definition coyote_update (was_on_ground : bool) (p : Player) : Player :=
  if was_on_ground && negb (on_ground p)
  then set_coyote_timer p (coyote_time p)
  else if on_ground p then set_coyote_timer p (coyote_time p)
  else p.

Definition keep_in_bounds (p : Player) : Player :=
  let p := set_rect p (set_left (rect p) (Z.max 0 (left (rect p)))) in
  let p := set_rect p (set_right (rect p) (Z.min WIDTH (right (rect p)))) in
  let p := if top (rect p) <? 0
           then set_vy (set_rect p (set_top (rect p) 0)) (Qmax 0 (vy p))
           else p in
  if bottom (rect p) >? HEIGHT
  then set_on_ground (set_vy (set_rect p (set_bottom (rect p) HEIGHT)) 0) true
  else p.

Definition walking_dust (dt : Q) (st : Player * ParticleSystem * Rng)
  : Player * ParticleSystem * Rng :=
  let '(p, ps, g) := st in
  if on_ground p && Qgt_bool (Qabs (vx p)) 2 then
    let p := set_dust_timer p (dust_timer p + dt)%Q in
    if Qgt_bool (dust_timer p) (1 # 10) then
      let (off, g1) := randint (-8) 8 g in
      let (ps', g2) :=
        add_dust ps (Qpos_of (centerx (rect p) + off, bottom (rect p))) 5 g1 in
      (set_dust_timer p 0, ps', g2)
    else (p, ps, g)
  else (p, ps, g).

Definition animate (dt : Q) (p : Player) : Player :=
  let p := set_animation_timer p (animation_timer p + dt)%Q in
  if Qlt_bool (squash_stretch p) 1
  then set_squash_stretch p (Qmin 1 (squash_stretch p + dt * 4)%Q)
  else p.

Definition after_collisions (was_on_ground : bool) (dt : Q)
           (st : Player * ParticleSystem * Rng) : Player * ParticleSystem * Rng :=
  let '(p, ps, g) := st in
  let p := keep_in_bounds (coyote_update was_on_ground p) in
  let '(p, ps, g) := walking_dust dt (p, ps, g) in
  (animate dt p, ps, g).

Definition physics (p : Player) (dt : Q) (platforms : list Platform)
           (ps : ParticleSystem) (g : Rng) : Player * ParticleSystem * Rng :=
  let p := gravity_step p in
  let p := move_x p in
  let p := fold_left horizontal_step platforms p in
  let p := move_y p in
  let was_on_ground := on_ground p in
  after_collisions was_on_ground dt
    (vertical_collisions (set_on_ground p false) platforms ps g).

(** ** Game *)

Record Game : Type := mkGame {
  state : GameState;
  camera : Camera;
  particles : ParticleSystem;
  start_time : Q;
  death_time : option Q;
  win_time : option Q;
  best_time : option Q;          (* [None] is [float('inf')] *)
  attempts : Z;
  platforms : list Platform;
  magic_wall : MagicWall;
  spikes : list Spike;
  falling_stones : list FallingStone;
  door : Door;
  win_trigger : Rect;
  player : Player
}.

(** The part of a game that [setup_level] builds. *)
Record Level : Type := mkLevel {
  l_platforms : list Platform;
  l_magic_wall : MagicWall;
  l_spikes : list Spike;
  l_falling_stones : list FallingStone;
  l_door : Door;
  l_win_trigger : Rect;
  l_player : Player
}.

Definition setup_level : Level :=
  mkLevel
    [ new_Platform 0 (HEIGHT - 50) WIDTH 50;
      new_Platform 120 (HEIGHT - 160) 200 20;
      new_Platform 400 (HEIGHT - 240) 160 20;
      new_Platform 640 (HEIGHT - 320) 180 20;
      new_Platform 900 (HEIGHT - 200) 200 20;
      new_Platform 1100 (HEIGHT - 280) 120 20;
      new_Platform 300 (HEIGHT - 120) 80 16;
      new_Platform 580 (HEIGHT - 160) 60 16;
      new_Platform 820 (HEIGHT - 240) 70 16 ]
    (new_MagicWall 350 (HEIGHT - 140) 70 80)
    [ new_Spike 180 (HEIGHT - 178) 32 26 false 0 MoveNone;
      new_Spike 450 (HEIGHT - 258) 32 26 true 2 MoveNone;
      new_Spike 700 (HEIGHT - 338) 32 26 false 0 (MoveHorizontal 2 60);
      new_Spike 950 (HEIGHT - 218) 32 26 true 1 MoveNone;
      new_Spike 1150 (HEIGHT - 298) 32 26 false 0 (MoveVertical (15 # 10) 30) ]
    [ new_FallingStone 480 50 (420, 540) (15 # 10);
      new_FallingStone 680 30 (600, 720) 1;
      new_FallingStone 980 40 (920, 1020) 2 ]
    (new_Door (1140, HEIGHT - 340) (160, HEIGHT - 220))
    (mkRect (WIDTH - 60) 0 60 HEIGHT)
    (new_Player 60 (HEIGHT - 100)).

Definition level_of (g : Game) : Level :=
  mkLevel (platforms g) (magic_wall g) (spikes g) (falling_stones g)
          (door g) (win_trigger g) (player g).

(** [Game.__init__]. *)
Definition new_Game (now : Q) : Game :=
  let l := setup_level in
  mkGame PLAYING new_Camera new_ParticleSystem now None None None 0
         (l_platforms l) (l_magic_wall l) (l_spikes l) (l_falling_stones l)
         (l_door l) (l_win_trigger l) (l_player l).

Definition reset_game (g : Game) (now : Q) : Game :=
  let l := setup_level in
  mkGame PLAYING new_Camera new_ParticleSystem now None None
         (best_time g) (attempts g)
         (l_platforms l) (l_magic_wall l) (l_spikes l) (l_falling_stones l)
         (l_door l) (l_win_trigger l) (l_player l).

Definition kill_player (g : Game) (now : Q) (r : Rng) : Game * Rng :=
  let (ps, r') := add_explosion (particles g) (Qpos_of (center (rect (player g))))
                                40 (255, 100, 100) (-8, 8)%Q r in
  (mkGame DEAD (Camera_add_shake (camera g) 12 (8 # 10)) ps (start_time g)
          (Some now) (win_time g) (best_time g) (attempts g + 1)
          (platforms g) (magic_wall g) (spikes g) (falling_stones g)
          (door g) (win_trigger g) (set_dead (player g) true), r').

Definition win_game (g : Game) (now : Q) (r : Rng) : Game * Rng :=
  let current_time := (now - start_time g)%Q in
  let best := match best_time g with
              | None => Some current_time
              | Some b => if Qlt_bool current_time b then Some current_time
                          else Some b
              end in
  let (ps, r') := add_explosion (particles g) (Qpos_of (center (rect (player g))))
                                60 COLOR_DOOR (-6, 6)%Q r in
  (mkGame WON (Camera_add_shake (camera g) 6 (5 # 10)) ps (start_time g)
          (death_time g) (Some now) best (attempts g)
          (platforms g) (magic_wall g) (spikes g) (falling_stones g)
          (door g) (win_trigger g) (set_win (player g) true), r').

Definition set_magic_wall (g : Game) (m : MagicWall) (c : Camera)
           (ps : ParticleSystem) : Game :=
  mkGame (state g) c ps (start_time g) (death_time g) (win_time g)
         (best_time g) (attempts g) (platforms g) m (spikes g)
         (falling_stones g) (door g) (win_trigger g) (player g).

Definition set_door (g : Game) (d : Door) (ps : ParticleSystem) : Game :=
  mkGame (state g) (camera g) ps (start_time g) (death_time g) (win_time g)
         (best_time g) (attempts g) (platforms g) (magic_wall g) (spikes g)
         (falling_stones g) d (win_trigger g) (player g).

(** First block of [handle_collisions]: the magic wall takes one hit per
    frame in which the player overlaps its inflated rectangle. *)
Definition wall_collision (g : Game) (r : Rng) : Game * Rng :=
  if mw_alive (magic_wall g) &&
     colliderect (rect (player g)) (inflate (mw_rect (magic_wall g)) 5 5) then
    let (m, destroyed) := hit (magic_wall g) in
    if destroyed then
      let (ps, r') := add_explosion (particles g) (Qpos_of (center (mw_rect m)))
                                    50 COLOR_WALL_CRACK (-5, 5)%Q r in
      (set_magic_wall g m (Camera_add_shake (camera g) 8 (5 # 10)) ps, r')
    else
      let (ps, r') :=
        add_explosion (particles g)
                      (Qpos_of (centerx (rect (player g)), centery (mw_rect m)))
                      20 COLOR_WALL_CRACK (-5, 5)%Q r in
      (set_magic_wall g m (Camera_add_shake (camera g) 4 (3 # 10)) ps, r')
  else (g, r).

(** The spike loop stops at the first spike whose danger zone holds one of
    the player's sample points. *)
Definition spike_hits (pr : Rect) (s : Spike) : bool :=
  match get_danger_zone s with
  | Some zone => point_in_triangle_collision pr zone
  | None => false
  end.

(** Last block: the door, reached only when nothing killed the player. *)
Definition door_interactions (g : Game) (now : Q) (r : Rng) : Game * Rng :=
  let '(d, ps, r1) := maybe_troll (door g) (rect (player g)) (particles g) r in
  let d := if colliderect (rect (player g)) (win_trigger g)
           then set_open d else d in
  let g := set_door g d ps in
  if check_win_collision d (rect (player g)) then win_game g now r1
  else (g, r1).

Definition handle_collisions (g : Game) (now : Q) (r : Rng) : Game * Rng :=
  if negb (GameState_eqb (state g) PLAYING) then (g, r)
  else
    let (g, r) := wall_collision g r in
    if existsb (spike_hits (rect (player g))) (spikes g) then kill_player g now r
    else if existsb (fun st => colliderect (fs_rect st) (rect (player g)))
                    (falling_stones g)
    then kill_player g now r
    else door_interactions g now r.

(** The list the player is resolved against: the static platforms, then
    the magic wall as a platform while it is alive. *)
Definition platforms_for_collision (g : Game) : list Platform :=
  platforms g ++
  (if mw_alive (magic_wall g)
   then [new_Platform (rx (mw_rect (magic_wall g))) (ry (mw_rect (magic_wall g)))
                      (rw (mw_rect (magic_wall g))) (rh (mw_rect (magic_wall g)))]
   else []).

(** The stone loop of [update]: trigger check, then update, stone by stone,
    sharing the particle system and the random state. *)
Fixpoint update_stones (stones : list FallingStone) (player_x : Z) (dt : Q)
         (pfs : list Platform) (ps : ParticleSystem) (r : Rng)
  : list FallingStone * ParticleSystem * Rng :=
  match stones with
  | [] => ([], ps, r)
  | s :: rest =>
      let '(s', ps1, r1) :=
        FallingStone_update (trigger_check s player_x) dt pfs ps r in
      let '(rest', ps2, r2) := update_stones rest player_x dt pfs ps1 r1 in
      (s' :: rest', ps2, r2)
  end.

(** The body of [Game.update] between the input handling and the collision
    detection: player, hazards, particles and camera move on by one frame. *)
Definition advance (m : Math) (g : Game) (f : Frame) : Game * Rng :=
  let keys := f_keys f in
  let dt := f_dt f in
  let p := if GameState_eqb (state g) PLAYING
           then control (player g) keys dt else player g in
  let '(p, ps, r) :=
    physics p dt (platforms_for_collision g) (particles g) (f_rng f) in
  let spikes' := map (fun s => Spike_update m s dt) (spikes g) in
  let '(stones', ps, r) :=
    update_stones (falling_stones g) (centerx (rect p)) dt (platforms g) ps r in
  let wall := MagicWall_update (magic_wall g) dt in
  let d := Door_update (door g) dt in
  let ps := ParticleSystem_update ps dt in
  let cam := Camera_update (Camera_follow (camera g) (rect p) (12 # 100)) dt in
  (mkGame (state g) cam ps (start_time g) (death_time g) (win_time g)
          (best_time g) (attempts g) (platforms g) wall spikes'
          stones' d (win_trigger g) p, r).

(** [Game.update]: the new game and the flag the main loop tests. *)
Definition update (m : Math) (g : Game) (f : Frame) : Game * bool :=
  if K_r (f_keys f) then (reset_game g (f_now f), true)
  else if K_ESCAPE (f_keys f) then (g, false)
  else
    let (g', r) := advance m g f in
    (fst (handle_collisions g' (f_now f) r), true).

(** The main loop: frames are played in order until [update] asks to quit. *)
Fixpoint run (m : Math) (g : Game) (fs : list Frame) : Game :=
  match fs with
  | [] => g
  | f :: rest =>
      let (g', running) := update m g f in
      if running then run m g' rest else g'
  end.

End Desktop.

(** * The web variant: [New folder/main.py] *)

Module Web.

(** ** ParticleSystem: a list of particles with a cap *)

Record ParticleSystem : Type := mkParticleSystem {
  particles : list Particle;
  max_particles : Z
}.

Definition new_ParticleSystem : ParticleSystem := mkParticleSystem [] 100.

Definition len (ps : ParticleSystem) : Z := Z.of_nat (length (particles ps)).

(** Python's [l[i:]] for any integer [i]. *)
Definition slice_from {A : Type} (i : Z) (l : list A) : list A :=
  let n := Z.of_nat (length l) in
  let start := if i <? 0 then Z.max (n + i) 0 else Z.min i n in
  skipn (Z.to_nat start) l.

Definition explosion_particle (pos : Q * Q) (color : Color) (vel_range : Q * Q)
           (g : Rng) : Particle * Rng :=
  let (vx, g1) := uniform (fst vel_range) (snd vel_range) g in
  let (vy, g2) := uniform (fst vel_range) (-1) g1 in
  let (life, g3) := uniform (5 # 10) 1 g2 in
  let (size, g4) := uniform 2 4 g3 in
  (mkParticle pos (vx, vy) life life color size, g4).

Fixpoint add_explosion_loop (n : nat) (pos : Q * Q) (color : Color)
         (vel_range : Q * Q) (l : list Particle) (g : Rng)
  : list Particle * Rng :=
  match n with
  | O => (l, g)
  | S n' =>
      let (p, g') := explosion_particle pos color vel_range g in
      add_explosion_loop n' pos color vel_range (l ++ [p]) g'
  end.

Definition add_explosion (ps : ParticleSystem) (pos : Q * Q) (count : Z)
           (color : Color) (vel_range : Q * Q) (g : Rng)
  : ParticleSystem * Rng :=
  let count := Z.min count 10 in
  let kept := if len ps + count >? max_particles ps
              then slice_from (- (max_particles ps - count)) (particles ps)
              else particles ps in
  let (l, g') := add_explosion_loop (Z.to_nat count) pos color vel_range kept g in
  (mkParticleSystem l (max_particles ps), g').

Definition dust_particle (pos : Q * Q) (g : Rng) : Particle * Rng :=
  let (vx, g1) := uniform (-1) 1 g in
  let (vy, g2) := uniform (-2) (- (5 # 10)) g1 in
  let (life, g3) := uniform (2 # 10) (6 # 10) g2 in
  let (size, g4) := uniform 1 2 g3 in
  (mkParticle pos (vx, vy) life life COLOR_DUST size, g4).

Fixpoint add_dust_loop (n : nat) (pos : Q * Q) (l : list Particle) (g : Rng)
  : list Particle * Rng :=
  match n with
  | O => (l, g)
  | S n' =>
      let (p, g') := dust_particle pos g in
      add_dust_loop n' pos (l ++ [p]) g'
  end.

Definition add_dust (ps : ParticleSystem) (pos : Q * Q) (count : Z) (g : Rng)
  : ParticleSystem * Rng :=
  if len ps + count >? max_particles ps then (ps, g)
  else
    let (l, g') := add_dust_loop (Z.to_nat count) pos (particles ps) g in
    (mkParticleSystem l (max_particles ps), g').

(** [update] keeps the particles whose stepped life is still positive. *)
Definition ParticleSystem_update (ps : ParticleSystem) (dt : Q) : ParticleSystem :=
  mkParticleSystem
    (filter (fun p => Qgt_bool (pt_life p) 0) (map (step_particle dt) (particles ps)))
    (max_particles ps).

(** ** FakePlatform *)

Record FakePlatform : Type := mkFakePlatform {
  fp_rect : Rect;
  fp_active : bool;
  fp_triggered : bool;
  disappear_timer : Q;
  disappear_delay : Q;
  alpha : Z
}.

Definition new_FakePlatform (x y w h : Z) (delay : Q) : FakePlatform :=
  mkFakePlatform (mkRect x y w h) true false 0 delay 255.

Definition trigger (f : FakePlatform) : FakePlatform :=
  if fp_active f && negb (fp_triggered f) then
    mkFakePlatform (fp_rect f) (fp_active f) true (disappear_delay f)
                   (disappear_delay f) (alpha f)
  else f.

Definition FakePlatform_update (f : FakePlatform) (dt : Q) : FakePlatform :=
  if fp_triggered f then
    let t := (disappear_timer f - dt)%Q in
    if Qle_bool t 0 then
      mkFakePlatform (fp_rect f) false (fp_triggered f) t (disappear_delay f)
                     (alpha f)
    else
      mkFakePlatform (fp_rect f) (fp_active f) (fp_triggered f) t
                     (disappear_delay f)
                     (to_int (255 * (t / disappear_delay f))%Q)
  else f.

(** ** TeleportTrap *)

Record TeleportTrap : Type := mkTeleportTrap {
  tt_rect : Rect;
  destination : Z * Z;
  cooldown : Q;
  cooldown_max : Q;
  tt_pulse : Q
}.

Definition new_TeleportTrap (x y w h : Z) (dest : Z * Z) : TeleportTrap :=
  mkTeleportTrap (mkRect x y w h) dest 0 3 0.

Definition TeleportTrap_update (m : Math) (t : TeleportTrap) (dt : Q)
  : TeleportTrap :=
  mkTeleportTrap (tt_rect t) (destination t)
                 (if Qgt_bool (cooldown t) 0 then (cooldown t - dt)%Q
                  else cooldown t)
                 (cooldown_max t)
                 (fmod (tt_pulse t + dt * 5)%Q (2 * m_pi m)%Q).

(** [check_teleport]: the destination when the trap fires, [None] otherwise. *)
Definition check_teleport (t : TeleportTrap) (player_rect : Rect)
           (ps : ParticleSystem) (g : Rng)
  : TeleportTrap * option (Z * Z) * ParticleSystem * Rng :=
  if Qle_bool (cooldown t) 0 && colliderect player_rect (tt_rect t) then
    let (ps', g') := add_explosion ps (Qpos_of (center player_rect)) 40
                                   (100, 200, 255) (-6, 6)%Q g in
    (mkTeleportTrap (tt_rect t) (destination t) (cooldown_max t)
                    (cooldown_max t) (tt_pulse t),
     Some (destination t), ps', g')
  else (t, None, ps, g).

(** ** FakeDoor *)

Record FakeDoor : Type := mkFakeDoor {
  fd_rect : Rect;
  fd_pulse : Q;
  fd_triggered : bool;
  trigger_timer : Q
}.

Definition new_FakeDoor (x y : Z) : FakeDoor :=
  mkFakeDoor (mkRect x y 40 60) 0 false 0.

Definition FakeDoor_update (d : FakeDoor) (dt : Q) : FakeDoor :=
  mkFakeDoor (fd_rect d) (fd_pulse d + dt * 2)%Q (fd_triggered d)
             (if fd_triggered d then (trigger_timer d - dt)%Q
              else trigger_timer d).

Definition check_collision (d : FakeDoor) (player_rect : Rect) : bool :=
  colliderect player_rect (inflate (fd_rect d) (-10) (-10)).

(** ** FallingStone *)

Record FallingStone : Type := mkFallingStone {
  fs_rect : Rect;
  fs_vy : Q;
  fs_vx : Q;
  rotation : Q;
  angular_velocity : Q;
  dropped : bool;
  settled : bool;
  warning : bool;
  warning_timer : Q;
  trigger_range : Z * Z;
  bounces : Z;
  max_bounces : Z
}.

Definition new_FallingStone (x top_y : Z) (range : Z * Z) (warning_time : Q)
  : FallingStone :=
  mkFallingStone (mkRect x top_y 45 45) 0 0 0 0 false false false
                 warning_time range 0 2.

Definition trigger_check (s : FallingStone) (player_x : Z) : FallingStone :=
  if negb (dropped s) && negb (warning s) then
    if (fst (trigger_range s) <=? player_x) && (player_x <=? snd (trigger_range s))
    then mkFallingStone (fs_rect s) (fs_vy s) (fs_vx s) (rotation s)
                        (angular_velocity s) (dropped s) (settled s) true
                        (warning_timer s) (trigger_range s) (bounces s)
                        (max_bounces s)
    else s
  else s.

(** First half of [FallingStone.update]: the warning countdown. *)
Definition countdown (s : FallingStone) (dt : Q) (g : Rng) : FallingStone * Rng :=
  if warning s && negb (dropped s) then
    let t := (warning_timer s - dt)%Q in
    if Qle_bool t 0 then
      let (av, g') := uniform (-5) 5 g in
      (mkFallingStone (fs_rect s) 0 (fs_vx s) (rotation s) av true (settled s)
                      (warning s) t (trigger_range s) (bounces s) (max_bounces s),
       g')
    else
      (mkFallingStone (fs_rect s) (fs_vy s) (fs_vx s) (rotation s)
                      (angular_velocity s) (dropped s) (settled s) (warning s) t
                      (trigger_range s) (bounces s) (max_bounces s), g)
  else (s, g).

(** Body of the platform loop of a falling stone: a bounce with damping,
    and the stone settles after enough bounces or when it is slow. *)
Definition bounce_step (st : FallingStone * ParticleSystem * Rng) (pl : Platform)
  : FallingStone * ParticleSystem * Rng :=
  let '(s, ps, g) := st in
  if colliderect (fs_rect s) (p_rect pl) && Qgt_bool (fs_vy s) 0 then
    let r := set_bottom (fs_rect s) (top (p_rect pl)) in
    let vy := (- fs_vy s * (4 # 10))%Q in
    let vx := (fs_vx s * (7 # 10))%Q in
    let av := (angular_velocity s * (7 # 10))%Q in
    let (ps', g') :=
      add_explosion ps (Qpos_of (centerx r, bottom r))
                    (to_int (Qabs vy * (15 # 10))%Q) COLOR_DUST (-5, 5)%Q g in
    let b := bounces s + 1 in
    if (b >=? max_bounces s) || Qlt_bool (Qabs vy) 2 then
      (mkFallingStone r 0 0 (rotation s) 0 (dropped s) true (warning s)
                      (warning_timer s) (trigger_range s) b (max_bounces s),
       ps', g')
    else
      (mkFallingStone r vy vx (rotation s) av (dropped s) (settled s) (warning s)
                      (warning_timer s) (trigger_range s) b (max_bounces s),
       ps', g')
  else st.

Definition fall (s : FallingStone) (dt : Q) (platforms : list Platform)
           (ps : ParticleSystem) (g : Rng)
  : FallingStone * ParticleSystem * Rng :=
  if dropped s && negb (settled s) then
    let vy := (fs_vy s + GRAVITY * (15 # 10) * dt)%Q in
    let r := set_x (set_y (fs_rect s) (ry (fs_rect s) + to_int vy))
                   (rx (fs_rect s) + to_int (fs_vx s)) in
    let s1 := mkFallingStone r vy (fs_vx s) (rotation s + angular_velocity s)%Q
                             (angular_velocity s) (dropped s) (settled s)
                             (warning s) (warning_timer s) (trigger_range s)
                             (bounces s) (max_bounces s) in
    fold_left bounce_step platforms (s1, ps, g)
  else (s, ps, g).

Definition FallingStone_update (s : FallingStone) (dt : Q)
           (platforms : list Platform) (ps : ParticleSystem) (g : Rng)
  : FallingStone * ParticleSystem * Rng :=
  let (s1, g1) := countdown s dt g in
  fall s1 dt platforms ps g1.

(** ** Door *)

Record Door : Type := mkDoor {
  rect1 : Rect;
  rect2 : Rect;
  d_open : bool;
  trolled_once : bool;
  troll_cooldown : Q;
  active_rect : Rect;
  glow_phase : Q
}.

Definition new_Door (pos1 pos2 : Z * Z) : Door :=
  let r1 := mkRect (fst pos1) (snd pos1) 40 60 in
  mkDoor r1 (mkRect (fst pos2) (snd pos2) 40 60) false false 0 r1 0.

Definition set_open (d : Door) : Door :=
  mkDoor (rect1 d) (rect2 d) true (trolled_once d) (troll_cooldown d)
         (active_rect d) (glow_phase d).

(** The test guarding the troll: not yet trolled, the door still locked, no
    cooldown running, and the player close to the first door. *)
Definition troll_fires (d : Door) (player_rect : Rect) : bool :=
  negb (trolled_once d || d_open d || Qgt_bool (troll_cooldown d) 0) &&
  colliderect player_rect (inflate (rect1 d) 60 60).

Definition maybe_troll (d : Door) (player_rect : Rect) (ps : ParticleSystem)
           (g : Rng) : Door * ParticleSystem * Rng :=
  if trolled_once d || d_open d || Qgt_bool (troll_cooldown d) 0 then (d, ps, g)
  else if colliderect player_rect (inflate (rect1 d) 60 60) then
    let (ps1, g1) := add_explosion ps (Qpos_of (center (rect1 d))) 30
                                   (100, 100, 255) (-5, 5)%Q g in
    let (ps2, g2) := add_explosion ps1 (Qpos_of (center (rect2 d))) 30
                                   (100, 100, 255) (-5, 5)%Q g1 in
    (mkDoor (rect1 d) (rect2 d) (d_open d) true 2 (rect2 d) (glow_phase d),
     ps2, g2)
  else (d, ps, g).

Definition check_win_collision (d : Door) (player_rect : Rect) : bool :=
  d_open d && colliderect player_rect (active_rect d).

Definition Door_update (d : Door) (dt : Q) : Door :=
  mkDoor (rect1 d) (rect2 d) (d_open d) (trolled_once d)
         (if Qgt_bool (troll_cooldown d) 0 then (troll_cooldown d - dt)%Q
          else troll_cooldown d)
         (active_rect d) (glow_phase d + dt * 3)%Q.

(** ** Player *)

Record Player : Type := mkPlayer {
  rect : Rect;
  vx : Q;
  vy : Q;
  on_ground : bool;
  facing_right : bool;
  can_double_jump : bool;
  has_double_jumped : bool;
  jump_buffer : Q;
  coyote_time : Q;
  dead : bool;
  win : bool;
  blink_timer : Q;
  squash : Q;
  stretch : Q
}.

Definition new_Player (x y : Z) : Player :=
  mkPlayer (mkRect x y 30 50) 0 0 false true true false 0 0 false false 0 1 1.

Definition set_rect (p : Player) (r : Rect) : Player :=
  mkPlayer r (vx p) (vy p) (on_ground p) (facing_right p) (can_double_jump p)
           (has_double_jumped p) (jump_buffer p) (coyote_time p) (dead p)
           (win p) (blink_timer p) (squash p) (stretch p).

Definition set_vx (p : Player) (v : Q) : Player :=
  mkPlayer (rect p) v (vy p) (on_ground p) (facing_right p) (can_double_jump p)
           (has_double_jumped p) (jump_buffer p) (coyote_time p) (dead p)
           (win p) (blink_timer p) (squash p) (stretch p).

Definition set_vy (p : Player) (v : Q) : Player :=
  mkPlayer (rect p) (vx p) v (on_ground p) (facing_right p) (can_double_jump p)
           (has_double_jumped p) (jump_buffer p) (coyote_time p) (dead p)
           (win p) (blink_timer p) (squash p) (stretch p).

Definition set_on_ground (p : Player) (b : bool) : Player :=
  mkPlayer (rect p) (vx p) (vy p) b (facing_right p) (can_double_jump p)
           (has_double_jumped p) (jump_buffer p) (coyote_time p) (dead p)
           (win p) (blink_timer p) (squash p) (stretch p).

Definition set_coyote_time (p : Player) (v : Q) : Player :=
  mkPlayer (rect p) (vx p) (vy p) (on_ground p) (facing_right p)
           (can_double_jump p) (has_double_jumped p) (jump_buffer p) v (dead p)
           (win p) (blink_timer p) (squash p) (stretch p).

Definition set_dead (p : Player) (b : bool) : Player :=
  mkPlayer (rect p) (vx p) (vy p) (on_ground p) (facing_right p)
           (can_double_jump p) (has_double_jumped p) (jump_buffer p)
           (coyote_time p) b (win p) (blink_timer p) (squash p) (stretch p).

Definition set_win (p : Player) (b : bool) : Player :=
  mkPlayer (rect p) (vx p) (vy p) (on_ground p) (facing_right p)
           (can_double_jump p) (has_double_jumped p) (jump_buffer p)
           (coyote_time p) (dead p) b (blink_timer p) (squash p) (stretch p).

(** [Player.control]: nothing for a dead or winning player; otherwise the
    horizontal input, the two timers, then the jump input. *)
Definition control (p : Player) (keys : Keys) (dt : Q) : Player :=
  if dead p || win p then p
  else
    let go_left := K_LEFT keys || K_a keys in
    let go_right := K_RIGHT keys || K_d keys in
    let move_x := if go_right then 1 else if go_left then -1 else 0 in
    let facing := if go_right then true
                  else if go_left then false else facing_right p in
    let control_factor := if on_ground p then 1%Q else AIR_CONTROL in
    let vx' := (vx p + inject_Z move_x * control_factor)%Q in
    let jb := if Qgt_bool (jump_buffer p) 0 then (jump_buffer p - dt)%Q
              else jump_buffer p in
    let ct := if Qgt_bool (coyote_time p) 0 then (coyote_time p - dt)%Q
              else coyote_time p in
    if K_UP keys || K_w keys || K_SPACE keys then
      if on_ground p || Qgt_bool ct 0 then
        mkPlayer (rect p) vx' JUMP_VELOCITY false facing true false jb 0
                 (dead p) (win p) (blink_timer p) (7 # 10) (13 # 10)
      else if can_double_jump p && negb (has_double_jumped p) then
        mkPlayer (rect p) vx' DOUBLE_JUMP_VELOCITY (on_ground p) facing false
                 true jb ct (dead p) (win p) (blink_timer p) (7 # 10) (13 # 10)
      else
        mkPlayer (rect p) vx' (vy p) (on_ground p) facing (can_double_jump p)
                 (has_double_jumped p) (15 # 100) ct (dead p) (win p)
                 (blink_timer p) (squash p) (stretch p)
    else
      mkPlayer (rect p) vx' (vy p) (on_ground p) facing (can_double_jump p)
               (has_double_jumped p) jb ct (dead p) (win p) (blink_timer p)
               (squash p) (stretch p).

(** Body of the horizontal collision loop. *)
Definition horizontal_step (p : Player) (pl : Platform) : Player :=
  if colliderect (rect p) (p_rect pl) then
    if Qgt_bool (vx p) 0 then
      set_vx (set_rect p (set_right (rect p) (left (p_rect pl)))) 0
    else if Qlt_bool (vx p) 0 then
      set_vx (set_rect p (set_left (rect p) (right (p_rect pl)))) 0
    else p
  else p.

(** Body of the vertical collision loop.  On landing a buffered jump fires
    at once; otherwise the velocity is zeroed, and the dust test that
    follows reads the zeroed velocity. *)
Definition vertical_step (st : Player * ParticleSystem * Rng) (pl : Platform)
  : Player * ParticleSystem * Rng :=
  let '(p, ps, g) := st in
  if colliderect (rect p) (p_rect pl) then
    if Qgt_bool (vy p) 0 then
      let r := set_bottom (rect p) (top (p_rect pl)) in
      if Qgt_bool (jump_buffer p) 0 then
        (mkPlayer r (vx p) JUMP_VELOCITY false (facing_right p) true false 0
                  (coyote_time p) (dead p) (win p) (blink_timer p)
                  (7 # 10) (13 # 10), ps, g)
      else
        let v := 0%Q in
        let '(ps', g') :=
          if Qgt_bool (Qabs v) 2
          then add_dust ps (Qpos_of (centerx r, bottom r))
                        (to_int (Qabs v / 2)%Q) g
          else (ps, g) in
        (mkPlayer r (vx p) v true (facing_right p) (can_double_jump p)
                  (has_double_jumped p) (jump_buffer p) (coyote_time p)
                  (dead p) (win p) (blink_timer p) (13 # 10) (7 # 10), ps', g')
    else if Qlt_bool (vy p) 0 then
      (set_vy (set_rect p (set_top (rect p) (bottom (p_rect pl)))) 0, ps, g)
    else (p, ps, g)
  else (p, ps, g).

(** A float added to a Rect coordinate is truncated. *)
Definition move_y (p : Player) : Player :=
  set_rect p (set_y (rect p) (to_int (inject_Z (ry (rect p)) + vy p)%Q)).

(** Vertical collision resolution: the loop over the platform list, run
    on the player once its grounded flag has been cleared and it has been
    moved. *)
Definition vertical_collisions (p : Player) (platforms : list Platform)
           (ps : ParticleSystem) (g : Rng) : Player * ParticleSystem * Rng :=
  fold_left vertical_step platforms (p, ps, g).

Definition move_x (p : Player) : Player :=
  set_rect p (set_x (rect p) (to_int (inject_Z (rx (rect p)) + vx p)%Q)).

Definition friction_gravity (p : Player) : Player :=
  let v := if on_ground p then (vx p * FRICTION)%Q else (vx p * AIR_RESISTANCE)%Q in
  let v := Qmax (- MOVE_SPEED) (Qmin MOVE_SPEED v) in
  let w := (vy p + GRAVITY)%Q in
  let w := if Qgt_bool w TERMINAL_VELOCITY then TERMINAL_VELOCITY else w in
  set_vy (set_vx p v) w.

Definition after_collisions (was_on_ground : bool) (dt : Q) (p : Player) : Player :=
  let ct := if was_on_ground && negb (on_ground p) then (1 # 10)%Q
            else coyote_time p in
  mkPlayer (rect p) (vx p) (vy p) (on_ground p) (facing_right p)
           (can_double_jump p) (has_double_jumped p) (jump_buffer p) ct
           (dead p) (win p)
           (if Qgt_bool (blink_timer p) 0 then (blink_timer p - dt)%Q
            else blink_timer p)
           (squash p + (1 - squash p) * (2 # 10))%Q
           (stretch p + (1 - stretch p) * (2 # 10))%Q.

Definition physics (p : Player) (dt : Q) (platforms : list Platform)
           (ps : ParticleSystem) (g : Rng) : Player * ParticleSystem * Rng :=
  if dead p || win p then (p, ps, g)
  else
    let p := friction_gravity p in
    let p := move_x p in
    let p := fold_left horizontal_step platforms p in
    let was_on_ground := on_ground p in
    let '(p, ps, g) :=
      vertical_collisions (move_y (set_on_ground p false)) platforms ps g in
    (after_collisions was_on_ground dt p, ps, g).

(** ** Game *)

Record Game : Type := mkGame {
  state : GameState;
  start_time : Q;
  death_time : option Q;
  win_time : option Q;
  attempts : Z;
  best_time : option Q;          (* [None] is [float('inf')] *)
  g_particles : ParticleSystem;
  camera : Camera;
  platforms : list Platform;
  fake_platforms : list FakePlatform;
  magic_wall : MagicWall;
  spikes : list Spike;
  falling_stones : list FallingStone;
  teleport_traps : list TeleportTrap;
  door : Door;
  fake_doors : list FakeDoor;
  win_trigger : Rect;
  player : Player
}.

(** The part of a game that [setup_level] builds. *)
Record Level : Type := mkLevel {
  l_platforms : list Platform;
  l_fake_platforms : list FakePlatform;
  l_magic_wall : MagicWall;
  l_spikes : list Spike;
  l_falling_stones : list FallingStone;
  l_teleport_traps : list TeleportTrap;
  l_door : Door;
  l_fake_doors : list FakeDoor;
  l_win_trigger : Rect;
  l_player : Player
}.

Definition setup_level : Level :=
  mkLevel
    [ new_Platform 0 (HEIGHT - 50) WIDTH 50;
      new_Platform 120 (HEIGHT - 160) 220 20;
      new_Platform 400 (HEIGHT - 240) 180 20;
      new_Platform 640 (HEIGHT - 320) 200 20;
      new_Platform 900 (HEIGHT - 200) 220 20;
      new_Platform 1100 (HEIGHT - 280) 140 20;
      new_Platform 300 (HEIGHT - 120) 80 16;
      new_Platform 580 (HEIGHT - 160) 60 16;
      new_Platform 820 (HEIGHT - 240) 70 16 ]
    [ new_FakePlatform 220 (HEIGHT - 200) 60 16 (8 # 10);
      new_FakePlatform 750 (HEIGHT - 260) 50 16 (7 # 10) ]
    (new_MagicWall 350 (HEIGHT - 140) 70 80)
    [ new_Spike 180 (HEIGHT - 178) 32 26 false 0 MoveNone;
      new_Spike 450 (HEIGHT - 258) 32 26 true (15 # 10) MoveNone;
      new_Spike 700 (HEIGHT - 338) 32 26 false 0 (MoveHorizontal 2 60);
      new_Spike 950 (HEIGHT - 218) 32 26 true (12 # 10) MoveNone;
      new_Spike 580 (HEIGHT - 178) 32 26 true (8 # 10) MoveNone ]
    [ new_FallingStone 480 50 (420, 540) (15 # 10);
      new_FallingStone 680 30 (600, 720) (12 # 10);
      new_FallingStone 980 40 (920, 1020) 1;
      new_FallingStone 350 40 (300, 400) (8 # 10) ]
    [ new_TeleportTrap 900 (HEIGHT - 220) 30 10 (600, HEIGHT - 340) ]
    (new_Door (1140, HEIGHT - 340) (160, HEIGHT - 220))
    [ new_FakeDoor 500 (HEIGHT - 260) ]
    (mkRect (WIDTH - 60) 0 60 HEIGHT)
    (new_Player 60 (HEIGHT - 100)).

Definition level_of (g : Game) : Level :=
  mkLevel (platforms g) (fake_platforms g) (magic_wall g) (spikes g)
          (falling_stones g) (teleport_traps g) (door g) (fake_doors g)
          (win_trigger g) (player g).

(** [Game.__init__]. *)
Definition new_Game (now : Q) : Game :=
  let l := setup_level in
  mkGame PLAYING now None None 1 None new_ParticleSystem new_Camera
         (l_platforms l) (l_fake_platforms l) (l_magic_wall l) (l_spikes l)
         (l_falling_stones l) (l_teleport_traps l) (l_door l) (l_fake_doors l)
         (l_win_trigger l) (l_player l).

Definition reset_game (g : Game) (now : Q) : Game :=
  let l := setup_level in
  mkGame PLAYING now None None (attempts g) (best_time g)
         new_ParticleSystem new_Camera
         (l_platforms l) (l_fake_platforms l) (l_magic_wall l) (l_spikes l)
         (l_falling_stones l) (l_teleport_traps l) (l_door l) (l_fake_doors l)
         (l_win_trigger l) (l_player l).

Definition kill_player (g : Game) (now : Q) (r : Rng) : Game * Rng :=
  let (ps, r') := add_explosion (g_particles g)
                                (Qpos_of (center (rect (player g))))
                                40 (255, 100, 100) (-8, 8)%Q r in
  (mkGame DEAD (start_time g) (Some now) (win_time g) (attempts g + 1)
          (best_time g) ps (Camera_add_shake (camera g) 12 (8 # 10))
          (platforms g) (fake_platforms g) (magic_wall g) (spikes g)
          (falling_stones g) (teleport_traps g) (door g) (fake_doors g)
          (win_trigger g) (set_dead (player g) true), r').

Definition win_game (g : Game) (now : Q) (r : Rng) : Game * Rng :=
  let current_time := (now - start_time g)%Q in
  let best := match best_time g with
              | None => Some current_time
              | Some b => if Qlt_bool current_time b then Some current_time
                          else Some b
              end in
  let (ps, r') := add_explosion (g_particles g)
                                (Qpos_of (center (rect (player g))))
                                60 COLOR_DOOR (-6, 6)%Q r in
  (mkGame WON (start_time g) (death_time g) (Some now) (attempts g) best ps
          (Camera_add_shake (camera g) 6 (5 # 10))
          (platforms g) (fake_platforms g) (magic_wall g) (spikes g)
          (falling_stones g) (teleport_traps g) (door g) (fake_doors g)
          (win_trigger g) (set_win (player g) true), r').

(** The mutable pieces [handle_collisions] works on before the kill checks. *)
Definition set_magic_wall (g : Game) (m : MagicWall) (c : Camera)
           (ps : ParticleSystem) : Game :=
  mkGame (state g) (start_time g) (death_time g) (win_time g) (attempts g)
         (best_time g) ps c (platforms g) (fake_platforms g) m (spikes g)
         (falling_stones g) (teleport_traps g) (door g) (fake_doors g)
         (win_trigger g) (player g).

Definition set_fake_platforms (g : Game) (fps : list FakePlatform) (c : Camera)
  : Game :=
  mkGame (state g) (start_time g) (death_time g) (win_time g) (attempts g)
         (best_time g) (g_particles g) c (platforms g) fps (magic_wall g)
         (spikes g) (falling_stones g) (teleport_traps g) (door g)
         (fake_doors g) (win_trigger g) (player g).

Definition set_teleport (g : Game) (traps : list TeleportTrap) (p : Player)
           (c : Camera) (ps : ParticleSystem) : Game :=
  mkGame (state g) (start_time g) (death_time g) (win_time g) (attempts g)
         (best_time g) ps c (platforms g) (fake_platforms g) (magic_wall g)
         (spikes g) (falling_stones g) traps (door g) (fake_doors g)
         (win_trigger g) p.

Definition set_door (g : Game) (d : Door) (ps : ParticleSystem) : Game :=
  mkGame (state g) (start_time g) (death_time g) (win_time g) (attempts g)
         (best_time g) ps (camera g) (platforms g) (fake_platforms g)
         (magic_wall g) (spikes g) (falling_stones g) (teleport_traps g) d
         (fake_doors g) (win_trigger g) (player g).

Definition wall_collision (g : Game) (r : Rng) : Game * Rng :=
  if mw_alive (magic_wall g) &&
     colliderect (rect (player g)) (inflate (mw_rect (magic_wall g)) 5 5) then
    let (m, destroyed) := hit (magic_wall g) in
    if destroyed then
      let (ps, r') := add_explosion (g_particles g) (Qpos_of (center (mw_rect m)))
                                    10 COLOR_WALL_CRACK (-5, 5)%Q r in
      (set_magic_wall g m (Camera_add_shake (camera g) 6 (4 # 10)) ps, r')
    else
      let (ps, r') :=
        add_explosion (g_particles g)
                      (Qpos_of (centerx (rect (player g)), centery (mw_rect m)))
                      5 COLOR_WALL_CRACK (-5, 5)%Q r in
      (set_magic_wall g m (Camera_add_shake (camera g) 3 (2 # 10)) ps, r')
  else (g, r).

(** The fake-platform loop: a platform the player lands on is triggered. *)
Definition fake_platform_step (pl : Player) (st : list FakePlatform * Camera)
           (f : FakePlatform) : list FakePlatform * Camera :=
  let (done, c) := st in
  if fp_active f && negb (fp_triggered f) && colliderect (rect pl) (fp_rect f)
     && Qgt_bool (vy pl) 0
  then (done ++ [trigger f], Camera_add_shake c 1 (1 # 10))
  else (done ++ [f], c).

Definition fake_platform_collisions (g : Game) : Game :=
  let (fps, c) := fold_left (fake_platform_step (player g)) (fake_platforms g)
                            ([], camera g) in
  set_fake_platforms g fps c.

(** The teleport loop: the first trap that fires moves the player and ends
    the loop. *)
Fixpoint teleport_loop (traps : list TeleportTrap) (pl : Player) (c : Camera)
         (ps : ParticleSystem) (r : Rng)
  : list TeleportTrap * Player * Camera * ParticleSystem * Rng :=
  match traps with
  | [] => ([], pl, c, ps, r)
  | t :: rest =>
      let '(t', dest, ps', r') := check_teleport t (rect pl) ps r in
      match dest with
      | Some new_pos =>
          let pl' := set_vy (set_vx (set_rect pl (set_y (set_x (rect pl) (fst new_pos))
                                                        (snd new_pos))) 0) 0 in
          (t' :: rest, pl', Camera_add_shake c 3 (3 # 10), ps', r')
      | None =>
          let '(rest', pl', c', ps'', r'') := teleport_loop rest pl c ps' r' in
          (t' :: rest', pl', c', ps'', r'')
      end
  end.

Definition teleport_collisions (g : Game) (r : Rng) : Game * Rng :=
  let '(traps, pl, c, ps, r') :=
    teleport_loop (teleport_traps g) (player g) (camera g) (g_particles g) r in
  (set_teleport g traps pl c ps, r').

Definition spike_hits (pr : Rect) (s : Spike) : bool :=
  match get_danger_zone s with
  | Some zone => point_in_triangle_collision pr zone
  | None => false
  end.

(** The kill checks in their order: fake doors, spikes, falling stones. *)
Definition player_killed (g : Game) : bool :=
  existsb (fun d => check_collision d (rect (player g))) (fake_doors g) ||
  existsb (spike_hits (rect (player g))) (spikes g) ||
  existsb (fun st => colliderect (fs_rect st) (rect (player g)))
          (falling_stones g).

Definition door_interactions (g : Game) (now : Q) (r : Rng) : Game * Rng :=
  let '(d, ps, r1) := maybe_troll (door g) (rect (player g)) (g_particles g) r in
  let d := if colliderect (rect (player g)) (win_trigger g)
           then set_open d else d in
  let g := set_door g d ps in
  if check_win_collision d (rect (player g)) then win_game g now r1
  else (g, r1).

(** The state [handle_collisions] has reached when the kill checks start:
    the wall, the fake platforms and the teleport traps are done. *)
Definition before_kill_checks (g : Game) (r : Rng) : Game * Rng :=
  let (g, r) := wall_collision g r in
  teleport_collisions (fake_platform_collisions g) r.

Definition handle_collisions (g : Game) (now : Q) (r : Rng) : Game * Rng :=
  if negb (GameState_eqb (state g) PLAYING) then (g, r)
  else
    let (g, r) := before_kill_checks g r in
    if player_killed g then kill_player g now r
    else door_interactions g now r.

Definition near (limit : Z) (r : Rect) (player_x : Z) : bool :=
  Z.abs (centerx r - player_x) <? limit.

Definition as_platform (r : Rect) : Platform :=
  new_Platform (rx r) (ry r) (rw r) (rh r).

(** The list the player is resolved against, built after the fake
    platforms were updated: every entry has to be near the player. *)
Definition platforms_for_collision (g : Game) (player_x : Z) : list Platform :=
  filter (fun p => near 800 (p_rect p) player_x) (platforms g) ++
  map (fun f => as_platform (fp_rect f))
      (filter (fun f => fp_active f && negb (fp_triggered f) &&
                        near 800 (fp_rect f) player_x)
              (fake_platforms g)) ++
  (if mw_alive (magic_wall g) && near 800 (mw_rect (magic_wall g)) player_x
   then [as_platform (mw_rect (magic_wall g))] else []).

Fixpoint update_stones (stones : list FallingStone) (player_x : Z) (dt : Q)
         (pfs : list Platform) (ps : ParticleSystem) (r : Rng)
  : list FallingStone * ParticleSystem * Rng :=
  match stones with
  | [] => ([], ps, r)
  | s :: rest =>
      let '(s', ps1, r1) :=
        if near 1000 (fs_rect s) player_x
        then FallingStone_update (trigger_check s player_x) dt pfs ps r
        else (s, ps, r) in
      let '(rest', ps2, r2) := update_stones rest player_x dt pfs ps1 r1 in
      (s' :: rest', ps2, r2)
  end.

(** The body of [Game.update] between the input handling and the collision
    detection: player, hazards, particles and camera move on by one frame. *)
Definition advance (m : Math) (g : Game) (f : Frame) : Game * Rng :=
  let keys := f_keys f in
  let dt := f_dt f in
  let p := if GameState_eqb (state g) PLAYING
           then control (player g) keys dt else player g in
  let player_x := centerx (rect p) in
  let fakes := map (fun x => if near 800 (fp_rect x) player_x
                             then FakePlatform_update x dt else x)
                   (fake_platforms g) in
  let traps := map (fun x => if near 800 (tt_rect x) player_x
                             then TeleportTrap_update m x dt else x)
                   (teleport_traps g) in
  let fdoors := map (fun x => if near 800 (fd_rect x) player_x
                              then FakeDoor_update x dt else x)
                    (fake_doors g) in
  let g1 := mkGame (state g) (start_time g) (death_time g) (win_time g)
                   (attempts g) (best_time g) (g_particles g) (camera g)
                   (platforms g) fakes (magic_wall g) (spikes g)
                   (falling_stones g) traps (door g) fdoors (win_trigger g) p in
  let pfc := platforms_for_collision g1 player_x in
  let '(p, ps, r) := physics p dt pfc (g_particles g) (f_rng f) in
  let spikes' := map (fun s => if near 800 (sp_rect s) player_x
                               then Spike_update m s dt else s) (spikes g) in
  let '(stones', ps, r) :=
    update_stones (falling_stones g) player_x dt pfc ps r in
  let wall := if near 800 (mw_rect (magic_wall g)) player_x
              then MagicWall_update (magic_wall g) dt else magic_wall g in
  let d := Door_update (door g) dt in
  let ps := ParticleSystem_update ps dt in
  let cam := Camera_update (Camera_follow (camera g) (rect p) (15 # 100)) dt in
  (mkGame (state g) (start_time g) (death_time g) (win_time g)
          (attempts g) (best_time g) ps cam (platforms g) fakes wall
          spikes' stones' traps d fdoors (win_trigger g) p, r).

(** [Game.update]: the new game and the flag the main loop tests. *)
Definition update (m : Math) (g : Game) (f : Frame) : Game * bool :=
  if K_r (f_keys f) then (reset_game g (f_now f), true)
  else if K_ESCAPE (f_keys f) then (g, false)
  else
    let (g', r) := advance m g f in
    (fst (handle_collisions g' (f_now f) r), true).

Fixpoint run (m : Math) (g : Game) (fs : list Frame) : Game :=
  match fs with
  | [] => g
  | f :: rest =>
      let (g', running) := update m g f in
      if running then run m g' rest else g'
  end.

End Web.

(** * Specification-side definitions *)

(** A triangle is degenerate when its three vertices lie on one line. *)
Definition collinear (t : Triangle) : Prop :=
  let '((x1, y1), (x2, y2), (x3, y3)) := t in
  ((x2 - x1) * (y3 - y1) == (x3 - x1) * (y2 - y1))%Q.

(** The right triangle of the classification example. *)
Definition right_triangle : Triangle := (ZPoint 0 0, ZPoint 0 10, ZPoint 10 0).

(** [n] successive calls of [MagicWall.hit]. *)
Fixpoint hits (n : nat) (m : MagicWall) : MagicWall :=
  match n with
  | O => m
  | S n' => hits n' (fst (hit m))
  end.

(** A session without reset: no frame has the reset key down. *)
Definition no_reset (fs : list Frame) : Prop :=
  Forall (fun f => K_r (f_keys f) = false) fs.

Definition idle_frame : Frame :=
  mkFrame no_keys (1 # 60) 0 (mkRng (fun _ => 1 # 2) 0).

Definition trivial_math : Math := mkMath (fun _ => 0%Q) (355 # 113).

(** The collision list as the specification words it for the web variant:
    all static platforms, the fake platforms that are active and not yet
    triggered, and the magic wall while it is alive. *)
Definition spec_collision_list (g : Web.Game) : list Platform :=
  Web.platforms g ++
  map (fun f => Web.as_platform (Web.fp_rect f))
      (filter (fun f => Web.fp_active f && negb (Web.fp_triggered f))
              (Web.fake_platforms g)) ++
  (if mw_alive (Web.magic_wall g)
   then [Web.as_platform (mw_rect (Web.magic_wall g))] else []).

(** A game of the desktop variant whose wall has taken its two hits. *)
Definition desktop_game_wall_gone : Desktop.Game :=
  let g := Desktop.new_Game 0 in
  Desktop.set_magic_wall g (hits 2 (Desktop.magic_wall g)) (Desktop.camera g)
                         (Desktop.particles g).

(** The level as first built by the web variant, and the far static
    platform of its final approach. *)
Definition web_start : Web.Game := Web.new_Game 0.
Definition far_platform : Platform := new_Platform 1100 (HEIGHT - 280) 140 20.

Definition reset_frame : Frame :=
  mkFrame reset_key (1 # 60) 5 (mkRng (fun _ => 1 # 2) 0).

(** The player a frame hands to [physics]: [control] runs only while the
    game is being played. *)
Definition Desktop_controlled (g : Desktop.Game) (f : Frame) : Desktop.Player :=
  if GameState_eqb (Desktop.state g) PLAYING
  then Desktop.control (Desktop.player g) (f_keys f) (f_dt f)
  else Desktop.player g.

Definition Web_controlled (g : Web.Game) (f : Frame) : Web.Player :=
  if GameState_eqb (Web.state g) PLAYING
  then Web.control (Web.player g) (f_keys f) (f_dt f)
  else Web.player g.

(** The list a frame of the web variant resolves the player against: it is
    built once the fake platforms have had their update, around the
    player's centre. *)
Definition Web_frame_collision_list (g : Web.Game) (f : Frame) : list Platform :=
  let x := centerx (Web.rect (Web_controlled g f)) in
  let fakes := map (fun fp => if Web.near 800 (Web.fp_rect fp) x
                              then Web.FakePlatform_update fp (f_dt f) else fp)
                   (Web.fake_platforms g) in
  Web.platforms_for_collision (Web.set_fake_platforms g fakes (Web.camera g)) x.

(** Calls made on a particle system, in the order they are made. *)
Inductive ParticleOp : Type :=
| OpExplosion (pos : Q * Q) (count : Z) (color : Color) (vel_range : Q * Q)
| OpDust (pos : Q * Q) (count : Z)
| OpUpdate (dt : Q).

Definition Desktop_apply (st : Desktop.ParticleSystem * Rng) (op : ParticleOp)
  : Desktop.ParticleSystem * Rng :=
  match op with
  | OpExplosion pos count color vr =>
      Desktop.add_explosion (fst st) pos count color vr (snd st)
  | OpDust pos count => Desktop.add_dust (fst st) pos count (snd st)
  | OpUpdate dt => (Desktop.ParticleSystem_update (fst st) dt, snd st)
  end.

Definition Desktop_particle_run (ops : list ParticleOp) (g : Rng)
  : Desktop.ParticleSystem * Rng :=
  fold_left Desktop_apply ops (Desktop.new_ParticleSystem, g).

Definition Web_apply (st : Web.ParticleSystem * Rng) (op : ParticleOp)
  : Web.ParticleSystem * Rng :=
  match op with
  | OpExplosion pos count color vr =>
      Web.add_explosion (fst st) pos count color vr (snd st)
  | OpDust pos count => Web.add_dust (fst st) pos count (snd st)
  | OpUpdate dt => (Web.ParticleSystem_update (fst st) dt, snd st)
  end.

Definition Web_particle_run (ops : list ParticleOp) (g : Rng)
  : Web.ParticleSystem * Rng :=
  fold_left Web_apply ops (Web.new_ParticleSystem, g).

(** The cap invariant of the web variant. *)
Definition capped (ps : Web.ParticleSystem) : Prop :=
  Web.max_particles ps = 100 /\ Web.len ps <= 100.

Definition some_rng : Rng := mkRng (fun _ => 1 # 2) 0.


(** A player of each variant caught four pixels into the ground platform
    while falling. *)
Definition ground : Platform := new_Platform 0 (HEIGHT - 50) WIDTH 50.








(** What a falling stone is handed in one frame: the player's x position,
    the elapsed time, the platforms, the particle system and the random
    state. *)
Record StoneFrame (PS : Type) : Type := mkStoneFrame {
  sf_x : Z;
  sf_dt : Q;
  sf_platforms : list Platform;
  sf_particles : PS;
  sf_rng : Rng
}.
Arguments mkStoneFrame {PS} _ _ _ _ _.
Arguments sf_x {PS} _.
Arguments sf_dt {PS} _.
Arguments sf_platforms {PS} _.
Arguments sf_particles {PS} _.
Arguments sf_rng {PS} _.

(** One frame of a stone, as the stone loop of [Game.update] runs it. *)
Definition Desktop_stone_frame (s : Desktop.FallingStone)
           (f : StoneFrame Desktop.ParticleSystem) : Desktop.FallingStone :=
  fst (fst (Desktop.FallingStone_update (Desktop.trigger_check s (sf_x f))
              (sf_dt f) (sf_platforms f) (sf_particles f) (sf_rng f))).

Definition Desktop_stone_run (s : Desktop.FallingStone)
           (fs : list (StoneFrame Desktop.ParticleSystem)) : Desktop.FallingStone :=
  fold_left Desktop_stone_frame fs s.

(** In the web variant a stone far from the player is skipped. *)
Definition Web_stone_frame (s : Web.FallingStone)
           (f : StoneFrame Web.ParticleSystem) : Web.FallingStone :=
  if Web.near 1000 (Web.fs_rect s) (sf_x f) then
    fst (fst (Web.FallingStone_update (Web.trigger_check s (sf_x f))
                (sf_dt f) (sf_platforms f) (sf_particles f) (sf_rng f)))
  else s.

Definition Web_stone_run (s : Web.FallingStone)
           (fs : list (StoneFrame Web.ParticleSystem)) : Web.FallingStone :=
  fold_left Web_stone_frame fs s.

Definition in_range (range : Z * Z) (x : Z) : Prop :=
  fst range <= x <= snd range.

(** The invariant of a stone's life, frame after frame. *)
Definition Desktop_stone_inv (wt : Q) (range : Z * Z)
           (fs : list (StoneFrame Desktop.ParticleSystem))
           (s : Desktop.FallingStone) : Prop :=
  Desktop.trigger_range s = range /\
  (Desktop.dropped s = true <->
   Desktop.warning s = true /\ (Desktop.warning_timer s <= 0)%Q) /\
  (Desktop.warning s = false -> Desktop.warning_timer s = wt) /\
  (Desktop.warning s = true -> exists f, In f fs /\ in_range range (sf_x f)).

Definition Web_stone_inv (wt : Q) (range : Z * Z)
           (fs : list (StoneFrame Web.ParticleSystem))
           (s : Web.FallingStone) : Prop :=
  Web.trigger_range s = range /\
  (Web.dropped s = true <->
   Web.warning s = true /\ (Web.warning_timer s <= 0)%Q) /\
  (Web.warning s = false -> Web.warning_timer s = wt) /\
  (Web.warning s = true -> exists f, In f fs /\ in_range range (sf_x f)).

Definition Rect_eqb (a b : Rect) : bool :=
  (rx a =? rx b) && (ry a =? ry b) && (rw a =? rw b) && (rh a =? rh b).

(** How a door may change between two moments of a session: once trolled
    it stays trolled where it is, and it moves only by being trolled. *)
Definition Desktop_door_rel (d d' : Desktop.Door) : Prop :=
  Desktop.alt_pos d' = Desktop.alt_pos d /\
  (Desktop.trolled_once d = true ->
   Desktop.trolled_once d' = true /\ Desktop.d_rect d' = Desktop.d_rect d) /\
  (Desktop.trolled_once d' = false -> Desktop.d_rect d' = Desktop.d_rect d).

Definition Web_door_rel (d d' : Web.Door) : Prop :=
  Web.rect1 d' = Web.rect1 d /\ Web.rect2 d' = Web.rect2 d /\
  (Web.trolled_once d = true ->
   Web.trolled_once d' = true /\ Web.active_rect d' = Web.active_rect d) /\
  (Web.trolled_once d' = false -> Web.active_rect d' = Web.active_rect d).

(** The number of frames of a session in which the door changes place. *)
Fixpoint Desktop_door_moves (m : Math) (g : Desktop.Game) (fs : list Frame)
  : nat :=
  match fs with
  | [] => 0
  | f :: rest =>
      let (g', running) := Desktop.update m g f in
      ((if Rect_eqb (Desktop.d_rect (Desktop.door g))
                    (Desktop.d_rect (Desktop.door g')) then 0 else 1)
       + (if running then Desktop_door_moves m g' rest else 0))%nat
  end.

Fixpoint Web_door_moves (m : Math) (g : Web.Game) (fs : list Frame) : nat :=
  match fs with
  | [] => 0
  | f :: rest =>
      let (g', running) := Web.update m g f in
      ((if Rect_eqb (Web.active_rect (Web.door g))
                    (Web.active_rect (Web.door g')) then 0 else 1)
       + (if running then Web_door_moves m g' rest else 0))%nat
  end.

(** A door of each variant with the player standing in its trigger zone. *)
Definition desktop_door : Desktop.Door :=
  Desktop.new_Door (1140, HEIGHT - 340) (160, HEIGHT - 220).
Definition web_door : Web.Door :=
  Web.new_Door (1140, HEIGHT - 340) (160, HEIGHT - 220).
Definition at_the_door : Rect := mkRect 1130 380 32 44.

(** A stone with a short warning and a frame with the player under it. *)
Definition desktop_stone : Desktop.FallingStone :=
  Desktop.new_FallingStone 480 50 (420, 540) (1 # 60).
Definition desktop_stone_frame : StoneFrame Desktop.ParticleSystem :=
  mkStoneFrame 450 (1 # 60) [] [] some_rng.
Definition web_stone : Web.FallingStone :=
  Web.new_FallingStone 480 50 (420, 540) (1 # 60).
Definition web_stone_frame : StoneFrame Web.ParticleSystem :=
  mkStoneFrame 450 (1 # 60) [] Web.new_ParticleSystem some_rng.

(** States of the jump scenario.  A standing player of the desktop variant
    is as a landing leaves it: grounded, the coyote timer running, no double
    jump used ([jump_buffer_time] is the positive constant set at
    construction). *)
Definition Desktop_standing (p : Desktop.Player) : Prop :=
  Desktop.on_ground p = true /\
  (0 < Desktop.coyote_timer p)%Q /\
  (0 < Desktop.jump_buffer_time p)%Q /\
  Desktop.has_double_jumped p = false.

(** Airborne with the double jump available. *)
Definition Desktop_airborne_fresh (p : Desktop.Player) : Prop :=
  Desktop.on_ground p = false /\
  (Desktop.coyote_timer p <= 0)%Q /\
  (0 < Desktop.jump_buffer_time p)%Q /\
  Desktop.can_double_jump p = true /\
  Desktop.has_double_jumped p = false.

(** Airborne with the double jump used. *)
Definition Desktop_airborne_spent (p : Desktop.Player) : Prop :=
  Desktop.on_ground p = false /\
  (Desktop.coyote_timer p <= 0)%Q /\
  (0 < Desktop.jump_buffer_time p)%Q /\
  Desktop.can_double_jump p = false /\
  Desktop.has_double_jumped p = true.

Definition Web_standing (p : Web.Player) : Prop :=
  Web.dead p = false /\ Web.win p = false /\ Web.on_ground p = true.

Definition Web_airborne_fresh (p : Web.Player) : Prop :=
  Web.dead p = false /\ Web.win p = false /\
  Web.on_ground p = false /\
  (Web.coyote_time p <= 0)%Q /\
  Web.can_double_jump p = true /\
  Web.has_double_jumped p = false.

Definition Web_airborne_spent (p : Web.Player) : Prop :=
  Web.dead p = false /\ Web.win p = false /\
  Web.on_ground p = false /\
  (Web.coyote_time p <= 0)%Q /\
  Web.can_double_jump p = false /\
  Web.has_double_jumped p = true.

Definition no_direction (k : Keys) : Prop :=
  K_a k = false /\ K_LEFT k = false /\ K_d k = false /\ K_RIGHT k = false.

(** The players of both variants once the first frames of a new game have
    put them on the ground. *)
Definition desktop_landed : Desktop.Player :=
  Desktop.player (Desktop.run trivial_math (Desktop.new_Game 0)
                              (repeat idle_frame 5)).
Definition web_landed : Web.Player :=
  Web.player (Web.run trivial_math (Web.new_Game 0) (repeat idle_frame 2)).

(** The fields the jump logic reads besides the grounded flag. *)
Definition Desktop_flags (p : Desktop.Player) : Q * Q * bool * bool :=
  (Desktop.coyote_timer p, Desktop.jump_buffer_time p,
   Desktop.can_double_jump p, Desktop.has_double_jumped p).

Definition Web_flags (p : Web.Player) : bool * bool * Q * bool * bool :=
  (Web.dead p, Web.win p, Web.coyote_time p,
   Web.can_double_jump p, Web.has_double_jumped p).

(** One of the five sample points of the rectangle lies inside the danger
    triangle of the spike, which the spike has only while it is active. *)
Definition overlaps_spike (pr : Rect) (s : Spike) : Prop :=
  exists zone pt,
    get_danger_zone s = Some zone /\ In pt (corners pr) /\
    point_in_triangle pt zone = true.

(** The test of [TeleportTrap.check_teleport]. *)
Definition trap_fires (t : Web.TeleportTrap) (pr : Rect) : bool :=
  Qle_bool (Web.cooldown t) 0 && colliderect pr (Web.tt_rect t).

(** A player of each variant standing on the first ledge of a new game
    with its right foot in the first static spike. *)
Definition on_the_spike : Rect := mkRect 170 516 32 44.
Definition web_on_the_spike : Rect := mkRect 172 510 30 50.

Definition desktop_on_spike : Desktop.Game :=
  let g := Desktop.new_Game 0 in
  Desktop.mkGame (Desktop.state g) (Desktop.camera g) (Desktop.particles g)
                 (Desktop.start_time g) (Desktop.death_time g)
                 (Desktop.win_time g) (Desktop.best_time g) (Desktop.attempts g)
                 (Desktop.platforms g) (Desktop.magic_wall g) (Desktop.spikes g)
                 (Desktop.falling_stones g) (Desktop.door g)
                 (Desktop.win_trigger g)
                 (Desktop.set_rect (Desktop.player g) on_the_spike).

Definition web_on_spike : Web.Game :=
  let g := Web.new_Game 0 in
  Web.set_teleport g (Web.teleport_traps g)
                   (Web.set_rect (Web.player g) web_on_the_spike)
                   (Web.camera g) (Web.g_particles g).

Definition first_spike : Spike := new_Spike 180 (HEIGHT - 178) 32 26 false 0 MoveNone.

(** A web game in which the player touches an armed teleport trap and,
    with its right foot, an active spike next to it. *)
Definition popped_spike : Spike :=
  mkSpike (mkRect 950 (HEIGHT - 218) 32 26) true 0 true 0 MoveNone 0
          (950, HEIGHT - 218).

Definition web_trap_and_spike : Web.Game :=
  let g := Web.new_Game 0 in
  Web.mkGame (Web.state g) (Web.start_time g) (Web.death_time g)
             (Web.win_time g) (Web.attempts g) (Web.best_time g)
             (Web.g_particles g) (Web.camera g) (Web.platforms g)
             (Web.fake_platforms g) (Web.magic_wall g) [popped_spike]
             (Web.falling_stones g) (Web.teleport_traps g) (Web.door g)
             (Web.fake_doors g) (Web.win_trigger g)
             (Web.set_rect (Web.player g) (mkRect 927 470 30 50)).

(** * Further properties: definitions *)

(** The point is the combination of the three vertices with the weights
    [a], [b], [c]: none negative, summing to one. *)
Definition convex_combination (pt : Point) (t : Triangle) (a b c : Q) : Prop :=
  let '(x, y) := pt in
  let '((x1, y1), (x2, y2), (x3, y3)) := t in
  (0 <= a)%Q /\ (0 <= b)%Q /\ (0 <= c)%Q /\ (a + b + c == 1)%Q /\
  (x == a * x1 + b * x2 + c * x3)%Q /\ (y == a * y1 + b * y2 + c * y3)%Q.

(** A point with whole-number coordinates of at most a million either
    way, as all the points of the game are.  On such points the products
    and sums of the barycentric test are whole numbers far below 2^53. *)
Definition grid_point (x y : Z) : Prop :=
  Z.abs x <= 1000000 /\ Z.abs y <= 1000000.

(** Successive calls of [Spike.update]. *)
Definition Spike_updates (m : Math) (s : Spike) (dts : list Q) : Spike :=
  fold_left (Spike_update m) dts s.

(** No frame takes a negative time. *)
Definition nonneg (dts : list Q) : Prop := Forall (fun d => (0 <= d)%Q) dts.

(** ** The bookkeeping of a session *)

(** The fields that tell how a session stands: the state, the death
    counter, the record, the time stamps and the player's two flags. *)
Record Book : Type := mkBook {
  b_state : GameState;
  b_attempts : Z;
  b_best : option Q;
  b_death : option Q;
  b_won_at : option Q;
  b_start : Q;
  b_dead : bool;
  b_win : bool
}.

Definition Desktop_book (g : Desktop.Game) : Book :=
  mkBook (Desktop.state g) (Desktop.attempts g) (Desktop.best_time g)
         (Desktop.death_time g) (Desktop.win_time g) (Desktop.start_time g)
         (Desktop.dead (Desktop.player g)) (Desktop.win (Desktop.player g)).

Definition Web_book (g : Web.Game) : Book :=
  mkBook (Web.state g) (Web.attempts g) (Web.best_time g)
         (Web.death_time g) (Web.win_time g) (Web.start_time g)
         (Web.dead (Web.player g)) (Web.win (Web.player g)).

(** What [reset_game], [kill_player] and [win_game] do to these fields. *)
Definition book_reset (now : Q) (b : Book) : Book :=
  mkBook PLAYING (b_attempts b) (b_best b) None None now false false.

Definition book_killed (now : Q) (b : Book) : Book :=
  mkBook DEAD (b_attempts b + 1) (b_best b) (Some now) (b_won_at b) (b_start b)
         true (b_win b).

Definition improved (now : Q) (b : Book) : option Q :=
  let t := (now - b_start b)%Q in
  match b_best b with
  | None => Some t
  | Some best => if Qlt_bool t best then Some t else Some best
  end.

Definition book_won (now : Q) (b : Book) : Book :=
  mkBook WON (b_attempts b) (improved now b) (b_death b) (Some now) (b_start b)
         (b_dead b) true.

(** One frame: a reset, nothing, or, while the game is played, a death or
    a win. *)
Definition book_step (f : Frame) (b b' : Book) : Prop :=
  if K_r (f_keys f) then b' = book_reset (f_now f) b
  else b' = b \/
       (b_state b = PLAYING /\
        (b' = book_killed (f_now f) b \/ b' = book_won (f_now f) b)).

(** A session: frame after frame, possibly left before the frames are used
    up. *)
Fixpoint book_path (fs : list Frame) (b b' : Book) : Prop :=
  match fs with
  | [] => b' = b
  | f :: rest => exists b1, book_step f b b1 /\ (b' = b1 \/ book_path rest b1 b')
  end.

(** [new] is at least as good a record as [old]; no record is the worst. *)
Definition best_le (new old : option Q) : Prop :=
  match old, new with
  | None, _ => True
  | Some b, Some n => (n <= b)%Q
  | Some _, None => False
  end.

(** The state, the player's flags and the time stamps tell the same story;
    a won game holds a record no worse than the time just played. *)
Definition book_ok (b : Book) : Prop :=
  b_state b <> PAUSED /\
  (b_dead b = true <-> b_state b = DEAD) /\
  (b_win b = true <-> b_state b = WON) /\
  (b_death b <> None <-> b_state b = DEAD) /\
  (b_won_at b <> None <-> b_state b = WON) /\
  (b_state b = WON ->
   exists t w, b_best b = Some t /\ b_won_at b = Some w /\
               (t <= w - b_start b)%Q).

Definition Desktop_life (p : Desktop.Player) : bool * bool :=
  (Desktop.dead p, Desktop.win p).

Definition Web_life (p : Web.Player) : bool * bool :=
  (Web.dead p, Web.win p).

(** A game that was just won, and one that was just lost. *)
Definition desktop_won : Desktop.Game :=
  fst (Desktop.win_game (Desktop.new_Game 0) 30 some_rng).

Definition web_lost : Web.Game :=
  fst (Web.kill_player (Web.new_Game 0) 12 some_rng).

(** Games whose door stands open at its second place, the player at it,
    with a record of forty seconds to beat. *)
Definition desktop_at_open_door : Desktop.Game :=
  let g := Desktop.new_Game 0 in
  Desktop.mkGame PLAYING (Desktop.camera g) (Desktop.particles g) 0 None None
                 (Some 40%Q) 3
                 (Desktop.platforms g) (Desktop.magic_wall g) (Desktop.spikes g)
                 (Desktop.falling_stones g)
                 (Desktop.mkDoor (mkRect 160 500 40 60) (160, 500) true true 0 1)
                 (Desktop.win_trigger g)
                 (Desktop.set_rect (Desktop.player g) (mkRect 150 505 32 44)).

Definition web_at_open_door : Web.Game :=
  let g := Web.new_Game 0 in
  Web.mkGame PLAYING 0 None None 3 (Some 40%Q) (Web.g_particles g) (Web.camera g)
             (Web.platforms g) (Web.fake_platforms g) (Web.magic_wall g)
             (Web.spikes g) (Web.falling_stones g) (Web.teleport_traps g)
             (Web.mkDoor (mkRect 1140 380 40 60) (mkRect 160 500 40 60) true true
                         0 (mkRect 160 500 40 60) 0)
             (Web.fake_doors g) (Web.win_trigger g)
             (Web.set_rect (Web.player g) (mkRect 150 505 30 50)).

Definition late_frame : Frame := mkFrame no_keys (1 # 60) 25 some_rng.

(** ** The camera *)

(** [Camera.get_offset]: the offset the scene is drawn with, truncated to
    whole pixels; a running shake adds one uniform sample per axis. *)
Definition get_offset (c : Camera) (g : Rng) : (Z * Z) * Rng :=
  if Qgt_bool (shake_intensity c) 0 then
    let (sx, g1) := uniform (- shake_intensity c) (shake_intensity c) g in
    let (sy, g2) := uniform (- shake_intensity c) (shake_intensity c) g1 in
    ((to_int (- cam_x c + sx)%Q, to_int (- cam_y c + sy)%Q), g2)
  else ((to_int (- cam_x c)%Q, to_int (- cam_y c)%Q), g).

(** The camera does not scroll sideways, stays within a quarter of the
    screen height, and shakes by at most twelve pixels while a shake lasts. *)
Definition Camera_inv (c : Camera) : Prop :=
  (cam_x c == 0)%Q /\
  (- (180 # 1) <= cam_y c)%Q /\ (cam_y c <= 180 # 1)%Q /\
  (0 <= shake_intensity c)%Q /\ (shake_intensity c <= 12 # 1)%Q /\
  ((shake_duration c <= 0)%Q -> (shake_intensity c == 0)%Q).

(** Every sample of the random source lies in the unit interval. *)
Definition unit_samples (g : Rng) : Prop :=
  forall n, (0 <= source g n)%Q /\ (source g n <= 1)%Q.

(** ** The traps of the web variant *)

Definition FakePlatform_updates (f : Web.FakePlatform) (dts : list Q)
  : Web.FakePlatform :=
  fold_left Web.FakePlatform_update dts f.

Definition TeleportTrap_updates (m : Math) (t : Web.TeleportTrap) (dts : list Q)
  : Web.TeleportTrap :=
  fold_left (Web.TeleportTrap_update m) dts t.

(** A trap as [check_teleport] leaves it when it fires. *)
Definition fired (t : Web.TeleportTrap) : Web.TeleportTrap :=
  Web.mkTeleportTrap (Web.tt_rect t) (Web.destination t) (Web.cooldown_max t)
                     (Web.cooldown_max t) (Web.tt_pulse t).

(** A player put at a trap's destination, standing still. *)
Definition teleported (pl : Web.Player) (t : Web.TeleportTrap) : Web.Player :=
  Web.set_vy
    (Web.set_vx
       (Web.set_rect pl (mkRect (fst (Web.destination t)) (snd (Web.destination t))
                                (rw (Web.rect pl)) (rh (Web.rect pl)))) 0) 0.

(** ** Hazards *)

(** The two kill checks of the desktop variant, in their order: spikes,
    then falling stones. *)
Definition Desktop_player_killed (g : Desktop.Game) : bool :=
  existsb (Desktop.spike_hits (Desktop.rect (Desktop.player g))) (Desktop.spikes g) ||
  existsb (fun st => colliderect (Desktop.fs_rect st) (Desktop.rect (Desktop.player g)))
          (Desktop.falling_stones g).

(** ** The player over a session *)

(** The player keeps its size and stays on the screen. *)
Definition on_screen (r : Rect) : Prop :=
  0 <= left r /\ right r <= WIDTH /\ 0 <= top r /\ bottom r <= HEIGHT.

(** The speed limits: horizontally the walking speed either way,
    vertically between the jump velocity and the terminal velocity. *)
Definition speed_ok (vx vy : Q) : Prop :=
  (- MOVE_SPEED <= vx)%Q /\ (vx <= MOVE_SPEED)%Q /\
  (JUMP_VELOCITY <= vy)%Q /\ (vy <= TERMINAL_VELOCITY)%Q.

(** ** The clock of the user interface *)

(** A time stamp counts for [draw_ui] when it is set and not zero. *)
Definition truthy (t : option Q) : option Q :=
  match t with
  | Some d => if Qeq_bool d 0 then None else Some d
  | None => None
  end.

(** The time [draw_ui] shows when the clock reads [now]: the running time,
    replaced in state DEAD by the time of death and in state WON by the
    time of the win. *)
Definition shown_time (b : Book) (now : Q) : Q :=
  match b_state b with
  | DEAD => match truthy (b_death b) with
            | Some d => (d - b_start b)%Q
            | None => (now - b_start b)%Q
            end
  | WON => match truthy (b_won_at b) with
           | Some w => (w - b_start b)%Q
           | None => (now - b_start b)%Q
           end
  | _ => (now - b_start b)%Q
  end.

(** The clock of every frame reads a positive time. *)
Definition clock_runs (fs : list Frame) : Prop :=
  Forall (fun f => (0 < f_now f)%Q) fs.

Definition stamps_positive (b : Book) : Prop :=
  (forall d, b_death b = Some d -> (0 < d)%Q) /\
  (forall w, b_won_at b = Some w -> (0 < w)%Q).

(** ** Where the spikes are *)

(** [math.sin] stays within minus one and one. *)
Definition sine_bounded (m : Math) : Prop :=
  forall t, (- (1) <= m_sin m t)%Q /\ (m_sin m t <= 1)%Q.

(** A spike without a move pattern sits at its original position; a moving
    spike keeps the other coordinate and, for a whole number of pixels as
    range, stays within that range of its original position. *)
Definition spike_in_place (s : Spike) : Prop :=
  match move_pattern s with
  | MoveNone =>
      rx (sp_rect s) = fst (original_pos s) /\ ry (sp_rect s) = snd (original_pos s)
  | MoveHorizontal _ range =>
      ry (sp_rect s) = snd (original_pos s) /\
      forall R, 0 <= R -> (range == inject_Z R)%Q ->
                fst (original_pos s) - R <= rx (sp_rect s) <= fst (original_pos s) + R
  | MoveVertical _ range =>
      rx (sp_rect s) = fst (original_pos s) /\
      forall R, 0 <= R -> (range == inject_Z R)%Q ->
                snd (original_pos s) - R <= ry (sp_rect s) <= snd (original_pos s) + R
  end.

(** ** Falling stones, from the ceiling to the ground *)

(** What holds of a stone built at [(x, y)] through all its frames: it
    keeps its size, bounces at most twice, hangs where it was built until
    it is dropped, and is settled only after it was dropped. *)
Definition Desktop_stone_ok (x y : Z) (s : Desktop.FallingStone) : Prop :=
  rw (Desktop.fs_rect s) = 45 /\ rh (Desktop.fs_rect s) = 45 /\
  Desktop.max_bounces s = 2 /\ 0 <= Desktop.bounces s <= 2 /\
  (Desktop.dropped s = false ->
   Desktop.fs_rect s = mkRect x y 45 45 /\ Desktop.settled s = false) /\
  (Desktop.settled s = true -> Desktop.dropped s = true).

(** The web stone besides falls straight down. *)
Definition Web_stone_ok (x y : Z) (s : Web.FallingStone) : Prop :=
  rw (Web.fs_rect s) = 45 /\ rh (Web.fs_rect s) = 45 /\
  Web.max_bounces s = 2 /\ 0 <= Web.bounces s <= 2 /\
  (Web.dropped s = false ->
   Web.fs_rect s = mkRect x y 45 45 /\ Web.settled s = false) /\
  (Web.settled s = true -> Web.dropped s = true) /\
  rx (Web.fs_rect s) = x /\ (Web.fs_vx s == 0)%Q /\
  (Web.settled s = false -> Web.bounces s < 2) /\
  (Web.settled s = true -> Qgt_bool (Web.fs_vy s) 0 = false).

(** ** Particles on screen *)

(** What [ParticleSystem.draw] computes for a particle: its opacity and
    its radius, both fading with the share of life it has left. *)
Definition particle_alpha (p : Particle) : Z :=
  to_int (255 * (pt_life p / pt_max_life p))%Q.

Definition particle_radius (p : Particle) : Z :=
  Z.max 1 (to_int (pt_size p * (pt_life p / pt_max_life p))%Q).

(** The particle has more life left than a frame of length [dt] takes. *)
Definition outlives (dt : Q) (p : Particle) : bool := Qgt_bool (pt_life p) dt.

(** A particle with life left, created with at most [cap] seconds of life
    and a size of at most [big]. *)
Definition particle_ok (cap big : Q) (p : Particle) : Prop :=
  (0 < pt_life p)%Q /\ (pt_life p <= pt_max_life p)%Q /\
  (pt_max_life p <= cap)%Q /\ (0 <= pt_size p)%Q /\ (pt_size p <= big)%Q.

(** Time does not run backwards in the updates of a sequence of calls. *)
Definition ops_forward (ops : list ParticleOp) : Prop :=
  forall dt, In (OpUpdate dt) ops -> (0 <= dt)%Q.

(** ** The web loop with its drawing *)

Definition Web_set_blink_timer (p : Web.Player) (b : Q) : Web.Player :=
  Web.mkPlayer (Web.rect p) (Web.vx p) (Web.vy p) (Web.on_ground p)
               (Web.facing_right p) (Web.can_double_jump p)
               (Web.has_double_jumped p) (Web.jump_buffer p) (Web.coyote_time p)
               (Web.dead p) (Web.win p) b (Web.squash p) (Web.stretch p).

(** [Player.draw] writes one field of the game: when the sample that
    [random.random()] hands it is below 0.002 and no blink is running, it
    starts one.  [None] stands for a [draw] that an exception, caught in
    the main loop, ended before that line. *)
Definition Web_Player_draw (p : Web.Player) (u : option Q) : Web.Player :=
  match u with
  | Some x =>
      if Qlt_bool x (2 # 1000) && Qle_bool (Web.blink_timer p) 0
      then Web_set_blink_timer p (1 # 10)
      else p
  | None => p
  end.

Definition Web_Game_draw (g : Web.Game) (u : option Q) : Web.Game :=
  Web.mkGame (Web.state g) (Web.start_time g) (Web.death_time g)
             (Web.win_time g) (Web.attempts g) (Web.best_time g)
             (Web.g_particles g) (Web.camera g) (Web.platforms g)
             (Web.fake_platforms g) (Web.magic_wall g) (Web.spikes g)
             (Web.falling_stones g) (Web.teleport_traps g) (Web.door g)
             (Web.fake_doors g) (Web.win_trigger g)
             (Web_Player_draw (Web.player g) u).

(** The main loop: [update], then [draw], until [update] returns False;
    each frame comes with what [Player.draw] reads. *)
Fixpoint Web_main (m : Math) (g : Web.Game) (fs : list (Frame * option Q))
  : Web.Game :=
  match fs with
  | [] => g
  | (f, u) :: rest =>
      let (g', running) := Web.update m g f in
      let g'' := Web_Game_draw g' u in
      if running then Web_main m g'' rest else g''
  end.

(** A lost web game, shown for two frames, the first of which starts a
    blink. *)
Definition blinking_frames : list (Frame * option Q) :=
  [(idle_frame, Some (1 # 1000)); (idle_frame, Some (1 # 2))].

(** A game whose player has the blink timer set to [b]. *)
Definition Web_with_blink (g : Web.Game) (b : Q) : Web.Game :=
  Web.mkGame (Web.state g) (Web.start_time g) (Web.death_time g)
             (Web.win_time g) (Web.attempts g) (Web.best_time g)
             (Web.g_particles g) (Web.camera g) (Web.platforms g)
             (Web.fake_platforms g) (Web.magic_wall g) (Web.spikes g)
             (Web.falling_stones g) (Web.teleport_traps g) (Web.door g)
             (Web.fake_doors g) (Web.win_trigger g)
             (Web_set_blink_timer (Web.player g) b).

(** Proof steps used throughout. *)
Ltac break_let :=
  match goal with
  | |- context [let (_, _) := ?x in _] => destruct x eqn:?
  | |- context [match ?x with (_, _) => _ end] => destruct x eqn:?
  end.

Ltac break_if :=
  match goal with
  | |- context [if ?b then _ else _] => destruct b eqn:?
  end.

(** * Properties *)

(** ** Comparisons on rationals *)

Lemma Qlt_bool_iff (a b : Q) : Qlt_bool a b = true <-> (a < b)%Q.
Proof.
  unfold Qlt_bool. rewrite negb_true_iff. split; intro H.
  - apply Qnot_le_lt. intro Hle. apply Qle_bool_iff in Hle. congruence.
  - destruct (Qle_bool b a) eqn:E; [|reflexivity].
    apply Qle_bool_iff in E. exfalso. exact (Qlt_not_le _ _ H E).
Qed.

Lemma Qlt_bool_false_iff (a b : Q) : Qlt_bool a b = false <-> (b <= a)%Q.
Proof.
  unfold Qlt_bool. rewrite negb_false_iff. apply Qle_bool_iff.
Qed.

Lemma Qgt_bool_iff (a b : Q) : Qgt_bool a b = true <-> (b < a)%Q.
Proof. unfold Qgt_bool. apply Qlt_bool_iff. Qed.

Lemma Qgt_bool_false_iff (a b : Q) : Qgt_bool a b = false <-> (a <= b)%Q.
Proof. unfold Qgt_bool. apply Qlt_bool_false_iff. Qed.

(** ** Point in triangle *)

Lemma denominator_collinear (t : Triangle) :
  collinear t -> (denominator t == 0)%Q.
Proof.
  destruct t as [[[x1 y1] [x2 y2]] [x3 y3]]. unfold collinear, denominator.
  intro H.
  assert (E : ((y2 - y3) * (x1 - x3) + (x3 - x2) * (y1 - y3)
               == (x2 - x1) * (y3 - y1) - (x3 - x1) * (y2 - y1))%Q) by ring.
  rewrite E, H. ring.
Qed.

Lemma point_in_triangle_guard (pt : Point) (t : Triangle) :
  (Qabs (denominator t) < 1 # 1000)%Q -> point_in_triangle pt t = false.
Proof.
  destruct pt as [x y]. destruct t as [[[x1 y1] [x2 y2]] [x3 y3]].
  unfold denominator, point_in_triangle. intro H.
  apply Qlt_bool_iff in H. rewrite H. reflexivity.
Qed.

(** C7.  For the right triangle (0,0), (0,10), (10,0) the point (2,2) is
    inside and (9,9) is outside; a collinear triangle has a zero barycentric
    denominator, and any triangle whose denominator is below 0.001 in
    absolute value classifies every point as outside. *)
Theorem point_in_triangle_classification :
  point_in_triangle (ZPoint 2 2) right_triangle = true /\
  point_in_triangle (ZPoint 9 9) right_triangle = false /\
  (forall (t : Triangle) (pt : Point),
      collinear t ->
      (Qabs (denominator t) < 1 # 1000)%Q /\ point_in_triangle pt t = false) /\
  (forall (t : Triangle) (pt : Point),
      (Qabs (denominator t) < 1 # 1000)%Q -> point_in_triangle pt t = false).
Proof.
  split; [reflexivity|]. split; [reflexivity|]. split.
  - intros t pt H.
    assert (Hd : (Qabs (denominator t) < 1 # 1000)%Q).
    { rewrite (denominator_collinear t H). reflexivity. }
    split; [exact Hd | apply point_in_triangle_guard; exact Hd].
  - intros t pt H. apply point_in_triangle_guard; exact H.
Qed.

Lemma point_in_triangle_classification_witness :
  collinear (ZPoint 1 1, ZPoint 2 2, ZPoint 3 3) /\
  point_in_triangle (ZPoint 5 0) (ZPoint 1 1, ZPoint 2 2, ZPoint 3 3) = false.
Proof.
  split.
  - vm_compute. reflexivity.
  - apply (proj1 (proj2 (proj2 point_in_triangle_classification))).
    vm_compute. reflexivity.
Defined.

(** ** The magic wall *)

Lemma hit_alive_health (m : MagicWall) :
  mw_alive m = true ->
  mw_alive (fst (hit m)) = (1 <? health m) /\
  health (fst (hit m)) = health m - 1 /\
  snd (hit m) = negb (1 <? health m).
Proof.
  intro Ha. unfold hit. rewrite Ha. cbn [negb].
  destruct (health m - 1 <=? 0) eqn:E; cbn [fst snd mw_alive health].
  - apply Z.leb_le in E.
    assert (H1 : (1 <? health m) = false) by (apply Z.ltb_ge; lia).
    rewrite H1. auto.
  - apply Z.leb_gt in E.
    assert (H1 : (1 <? health m) = true) by (apply Z.ltb_lt; lia).
    rewrite H1. auto.
Qed.

Lemma hit_destroyed (m : MagicWall) : mw_alive m = false -> hit m = (m, false).
Proof. intro Ha. unfold hit. rewrite Ha. reflexivity. Qed.

Lemma hits_destroyed (n : nat) (m : MagicWall) :
  mw_alive m = false -> hits n m = m.
Proof.
  induction n as [|n IH]; intro Ha; cbn [hits]; [reflexivity|].
  rewrite (hit_destroyed m Ha). cbn [fst]. apply IH, Ha.
Qed.

Lemma MagicWall_update_alive (m : MagicWall) (dt : Q) :
  mw_alive (MagicWall_update m dt) = mw_alive m.
Proof.
  unfold MagicWall_update.
  destruct (cracked m && Qgt_bool (crack_timer m) 0); reflexivity.
Qed.

Lemma hits_fresh_wall (m : MagicWall) (n : nat) :
  mw_alive m = true -> health m = 2 ->
  mw_alive (hits n m) = (n <? 2)%nat.
Proof.
  intros Ha Hh.
  destruct n as [|[|n]]; cbn [hits].
  - exact Ha.
  - destruct (hit_alive_health m Ha) as [H1 _]. rewrite H1, Hh. reflexivity.
  - destruct (hit_alive_health m Ha) as [H1 [H2 _]].
    rewrite Hh in H1, H2. cbn in H1.
    destruct (hit_alive_health (fst (hit m)) H1) as [H3 _].
    rewrite H2 in H3. cbn in H3.
    rewrite (hits_destroyed n _ H3). exact H3.
Qed.

Lemma Desktop_wall_collision_wall (g : Desktop.Game) (r : Rng) :
  Desktop.magic_wall (fst (Desktop.wall_collision g r)) =
  if mw_alive (Desktop.magic_wall g) &&
     colliderect (Desktop.rect (Desktop.player g))
                 (inflate (mw_rect (Desktop.magic_wall g)) 5 5)
  then fst (hit (Desktop.magic_wall g)) else Desktop.magic_wall g.
Proof.
  unfold Desktop.wall_collision.
  destruct (mw_alive (Desktop.magic_wall g) && _); [|reflexivity].
  destruct (hit (Desktop.magic_wall g)) as [m d]. cbn [fst].
  destruct d.
  - destruct (Desktop.add_explosion _ _ _ _ _ _). reflexivity.
  - destruct (Desktop.add_explosion _ _ _ _ _ _). reflexivity.
Qed.

Lemma Web_wall_collision_wall (g : Web.Game) (r : Rng) :
  Web.magic_wall (fst (Web.wall_collision g r)) =
  if mw_alive (Web.magic_wall g) &&
     colliderect (Web.rect (Web.player g))
                 (inflate (mw_rect (Web.magic_wall g)) 5 5)
  then fst (hit (Web.magic_wall g)) else Web.magic_wall g.
Proof.
  unfold Web.wall_collision.
  destruct (mw_alive (Web.magic_wall g) && _); [|reflexivity].
  destruct (hit (Web.magic_wall g)) as [m d]. cbn [fst].
  destruct d.
  - destruct (Web.add_explosion _ _ _ _ _ _). reflexivity.
  - destruct (Web.add_explosion _ _ _ _ _ _). reflexivity.
Qed.

(** ** What [handle_collisions] and [update] leave alone *)

Lemma Desktop_kill_player_spec (g : Desktop.Game) (now : Q) (r : Rng) :
  let g' := fst (Desktop.kill_player g now r) in
  Desktop.state g' = DEAD /\
  Desktop.attempts g' = Desktop.attempts g + 1 /\
  Desktop.magic_wall g' = Desktop.magic_wall g /\
  Desktop.door g' = Desktop.door g /\
  Desktop.best_time g' = Desktop.best_time g.
Proof.
  unfold Desktop.kill_player. break_let. cbn. auto.
Qed.

Lemma Desktop_win_game_spec (g : Desktop.Game) (now : Q) (r : Rng) :
  let g' := fst (Desktop.win_game g now r) in
  Desktop.state g' = WON /\
  Desktop.attempts g' = Desktop.attempts g /\
  Desktop.magic_wall g' = Desktop.magic_wall g /\
  Desktop.door g' = Desktop.door g.
Proof.
  unfold Desktop.win_game. break_let. cbn. auto.
Qed.

Lemma Desktop_wall_collision_frame (g : Desktop.Game) (r : Rng) :
  let g' := fst (Desktop.wall_collision g r) in
  Desktop.state g' = Desktop.state g /\
  Desktop.attempts g' = Desktop.attempts g /\
  Desktop.best_time g' = Desktop.best_time g /\
  Desktop.door g' = Desktop.door g /\
  Desktop.player g' = Desktop.player g /\
  Desktop.spikes g' = Desktop.spikes g /\
  Desktop.falling_stones g' = Desktop.falling_stones g /\
  Desktop.platforms g' = Desktop.platforms g /\
  Desktop.win_trigger g' = Desktop.win_trigger g.
Proof.
  unfold Desktop.wall_collision.
  repeat first [break_if | break_let]; cbn; repeat split; reflexivity.
Qed.

Lemma Desktop_door_interactions_spec (g : Desktop.Game) (now : Q) (r : Rng) :
  let g' := fst (Desktop.door_interactions g now r) in
  (Desktop.state g' = Desktop.state g \/ Desktop.state g' = WON) /\
  Desktop.attempts g' = Desktop.attempts g /\
  Desktop.magic_wall g' = Desktop.magic_wall g.
Proof.
  unfold Desktop.door_interactions.
  destruct (Desktop.maybe_troll _ _ _ _) as [[d ps] r1].
  match goal with
  | |- context [Desktop.check_win_collision ?d ?p] =>
      destruct (Desktop.check_win_collision d p)
  end.
  - destruct (Desktop_win_game_spec
                (Desktop.set_door g
                   (if colliderect (Desktop.rect (Desktop.player g))
                                   (Desktop.win_trigger g)
                    then Desktop.set_open d else d) ps) now r1)
      as (H1 & H2 & H3 & _).
    cbn zeta in *. rewrite H1, H2, H3. cbn. auto.
  - cbn. auto.
Qed.

Lemma Desktop_handle_collisions_not_playing (g : Desktop.Game) (now : Q) (r : Rng) :
  Desktop.state g <> PLAYING -> Desktop.handle_collisions g now r = (g, r).
Proof.
  intro H. unfold Desktop.handle_collisions.
  destruct (Desktop.state g); try reflexivity. congruence.
Qed.

Lemma Desktop_handle_collisions_wall (g : Desktop.Game) (now : Q) (r : Rng) :
  Desktop.magic_wall (fst (Desktop.handle_collisions g now r)) =
  if GameState_eqb (Desktop.state g) PLAYING
  then Desktop.magic_wall (fst (Desktop.wall_collision g r))
  else Desktop.magic_wall g.
Proof.
  unfold Desktop.handle_collisions.
  destruct (GameState_eqb (Desktop.state g) PLAYING); cbn [negb]; [|reflexivity].
  destruct (Desktop.wall_collision g r) as [g1 r1]. cbn [fst].
  repeat break_if.
  - apply Desktop_kill_player_spec.
  - apply Desktop_kill_player_spec.
  - apply Desktop_door_interactions_spec.
Qed.

(** A frame that neither resets nor quits ends in [handle_collisions], run
    on a game whose bookkeeping fields are those of the frame's start. *)
Lemma Desktop_update_shape (m : Math) (g : Desktop.Game) (f : Frame) :
  K_r (f_keys f) = false -> K_ESCAPE (f_keys f) = false ->
  exists g' r,
    Desktop.update m g f = (fst (Desktop.handle_collisions g' (f_now f) r), true) /\
    Desktop.state g' = Desktop.state g /\
    Desktop.attempts g' = Desktop.attempts g /\
    Desktop.best_time g' = Desktop.best_time g /\
    Desktop.magic_wall g' = MagicWall_update (Desktop.magic_wall g) (f_dt f) /\
    Desktop.door g' = Desktop.Door_update (Desktop.door g) (f_dt f) /\
    Desktop.platforms g' = Desktop.platforms g.
Proof.
  intros Hr He. unfold Desktop.update, Desktop.advance. rewrite Hr, He.
  destruct (Desktop.physics _ _ _ _ _) as [[p ps] r].
  destruct (Desktop.update_stones _ _ _ _ _ _) as [[st ps'] r'].
  eexists. eexists. split; [reflexivity|]. cbn. repeat split; reflexivity.
Qed.

Lemma Desktop_update_wall_stays_destroyed (m : Math) (g : Desktop.Game) (f : Frame) :
  mw_alive (Desktop.magic_wall g) = false ->
  K_r (f_keys f) = false ->
  mw_alive (Desktop.magic_wall (fst (Desktop.update m g f))) = false.
Proof.
  intros Ha Hr.
  destruct (K_ESCAPE (f_keys f)) eqn:He.
  - unfold Desktop.update. rewrite Hr, He. exact Ha.
  - destruct (Desktop_update_shape m g f Hr He)
      as (g' & r & Hu & _ & _ & _ & Hw & _).
    rewrite Hu. cbn [fst]. rewrite Desktop_handle_collisions_wall.
    assert (Ha' : mw_alive (Desktop.magic_wall g') = false).
    { rewrite Hw, MagicWall_update_alive. exact Ha. }
    destruct (GameState_eqb (Desktop.state g') PLAYING); [|exact Ha'].
    rewrite Desktop_wall_collision_wall, Ha'. exact Ha'.
Qed.

Lemma Web_kill_player_spec (g : Web.Game) (now : Q) (r : Rng) :
  let g' := fst (Web.kill_player g now r) in
  Web.state g' = DEAD /\
  Web.attempts g' = Web.attempts g + 1 /\
  Web.magic_wall g' = Web.magic_wall g /\
  Web.door g' = Web.door g /\
  Web.best_time g' = Web.best_time g.
Proof.
  unfold Web.kill_player. break_let. cbn. auto.
Qed.

Lemma Web_win_game_spec (g : Web.Game) (now : Q) (r : Rng) :
  let g' := fst (Web.win_game g now r) in
  Web.state g' = WON /\
  Web.attempts g' = Web.attempts g /\
  Web.magic_wall g' = Web.magic_wall g /\
  Web.door g' = Web.door g.
Proof.
  unfold Web.win_game. break_let. cbn. auto.
Qed.

Lemma Web_wall_collision_frame (g : Web.Game) (r : Rng) :
  let g' := fst (Web.wall_collision g r) in
  Web.state g' = Web.state g /\
  Web.attempts g' = Web.attempts g /\
  Web.best_time g' = Web.best_time g /\
  Web.door g' = Web.door g /\
  Web.player g' = Web.player g /\
  Web.spikes g' = Web.spikes g /\
  Web.falling_stones g' = Web.falling_stones g /\
  Web.fake_doors g' = Web.fake_doors g /\
  Web.teleport_traps g' = Web.teleport_traps g.
Proof.
  unfold Web.wall_collision.
  repeat first [break_if | break_let]; cbn; repeat split; reflexivity.
Qed.

Lemma Web_fake_platform_collisions_frame (g : Web.Game) :
  let g' := Web.fake_platform_collisions g in
  Web.state g' = Web.state g /\
  Web.attempts g' = Web.attempts g /\
  Web.best_time g' = Web.best_time g /\
  Web.magic_wall g' = Web.magic_wall g /\
  Web.door g' = Web.door g /\
  Web.player g' = Web.player g /\
  Web.spikes g' = Web.spikes g /\
  Web.falling_stones g' = Web.falling_stones g /\
  Web.fake_doors g' = Web.fake_doors g /\
  Web.teleport_traps g' = Web.teleport_traps g.
Proof.
  unfold Web.fake_platform_collisions. break_let. cbn.
  repeat split; reflexivity.
Qed.

Lemma Web_teleport_collisions_frame (g : Web.Game) (r : Rng) :
  let g' := fst (Web.teleport_collisions g r) in
  Web.state g' = Web.state g /\
  Web.attempts g' = Web.attempts g /\
  Web.best_time g' = Web.best_time g /\
  Web.magic_wall g' = Web.magic_wall g /\
  Web.door g' = Web.door g /\
  Web.spikes g' = Web.spikes g /\
  Web.falling_stones g' = Web.falling_stones g /\
  Web.fake_doors g' = Web.fake_doors g.
Proof.
  unfold Web.teleport_collisions.
  destruct (Web.teleport_loop _ _ _ _ _) as [[[[tr pl] c] ps] r'].
  cbn. repeat split; reflexivity.
Qed.

Lemma Web_before_kill_checks_frame (g : Web.Game) (r : Rng) :
  let g' := fst (Web.before_kill_checks g r) in
  Web.state g' = Web.state g /\
  Web.attempts g' = Web.attempts g /\
  Web.best_time g' = Web.best_time g /\
  Web.magic_wall g' = Web.magic_wall (fst (Web.wall_collision g r)) /\
  Web.door g' = Web.door g /\
  Web.spikes g' = Web.spikes g /\
  Web.falling_stones g' = Web.falling_stones g /\
  Web.fake_doors g' = Web.fake_doors g.
Proof.
  unfold Web.before_kill_checks.
  pose proof (Web_wall_collision_frame g r) as Hw.
  destruct (Web.wall_collision g r) as [g1 r1]. cbn [fst] in *.
  pose proof (Web_fake_platform_collisions_frame g1) as Hf.
  pose proof (Web_teleport_collisions_frame (Web.fake_platform_collisions g1) r1)
    as Ht.
  cbn zeta in *.
  destruct Hw as (W1 & W2 & W3 & W4 & W5 & W6 & W7 & W8 & W9).
  destruct Hf as (F1 & F2 & F3 & F4 & F5 & F6 & F7 & F8 & F9 & F10).
  destruct Ht as (T1 & T2 & T3 & T4 & T5 & T6 & T7 & T8).
  repeat split; congruence.
Qed.

Lemma Web_door_interactions_spec (g : Web.Game) (now : Q) (r : Rng) :
  let g' := fst (Web.door_interactions g now r) in
  (Web.state g' = Web.state g \/ Web.state g' = WON) /\
  Web.attempts g' = Web.attempts g /\
  Web.magic_wall g' = Web.magic_wall g.
Proof.
  unfold Web.door_interactions.
  destruct (Web.maybe_troll _ _ _ _) as [[d ps] r1].
  match goal with
  | |- context [Web.check_win_collision ?d ?p] =>
      destruct (Web.check_win_collision d p)
  end.
  - destruct (Web_win_game_spec
                (Web.set_door g
                   (if colliderect (Web.rect (Web.player g)) (Web.win_trigger g)
                    then Web.set_open d else d) ps) now r1)
      as (H1 & H2 & H3 & _).
    cbn zeta in *. rewrite H1, H2, H3. cbn. auto.
  - cbn. auto.
Qed.

Lemma Web_handle_collisions_not_playing (g : Web.Game) (now : Q) (r : Rng) :
  Web.state g <> PLAYING -> Web.handle_collisions g now r = (g, r).
Proof.
  intro H. unfold Web.handle_collisions.
  destruct (Web.state g); try reflexivity. congruence.
Qed.

Lemma Web_handle_collisions_wall (g : Web.Game) (now : Q) (r : Rng) :
  Web.magic_wall (fst (Web.handle_collisions g now r)) =
  if GameState_eqb (Web.state g) PLAYING
  then Web.magic_wall (fst (Web.wall_collision g r))
  else Web.magic_wall g.
Proof.
  unfold Web.handle_collisions.
  destruct (GameState_eqb (Web.state g) PLAYING); cbn [negb]; [|reflexivity].
  pose proof (Web_before_kill_checks_frame g r) as Hb.
  destruct (Web.before_kill_checks g r) as [g1 r1]. cbn [fst] in *.
  destruct Hb as (_ & _ & _ & Hw & _). rewrite <- Hw.
  break_if.
  - apply Web_kill_player_spec.
  - apply Web_door_interactions_spec.
Qed.

Lemma Web_update_shape (m : Math) (g : Web.Game) (f : Frame) :
  K_r (f_keys f) = false -> K_ESCAPE (f_keys f) = false ->
  exists g' r,
    Web.update m g f = (fst (Web.handle_collisions g' (f_now f) r), true) /\
    Web.state g' = Web.state g /\
    Web.attempts g' = Web.attempts g /\
    Web.best_time g' = Web.best_time g /\
    mw_alive (Web.magic_wall g') = mw_alive (Web.magic_wall g) /\
    Web.door g' = Web.Door_update (Web.door g) (f_dt f) /\
    Web.platforms g' = Web.platforms g.
Proof.
  intros Hr He. unfold Web.update, Web.advance. rewrite Hr, He.
  destruct (Web.physics _ _ _ _ _) as [[p ps] r].
  destruct (Web.update_stones _ _ _ _ _ _) as [[st ps'] r'].
  eexists. eexists. split; [reflexivity|]. cbn.
  repeat split; try reflexivity.
  break_if; [apply MagicWall_update_alive | reflexivity].
Qed.

Lemma Web_update_wall_stays_destroyed (m : Math) (g : Web.Game) (f : Frame) :
  mw_alive (Web.magic_wall g) = false ->
  K_r (f_keys f) = false ->
  mw_alive (Web.magic_wall (fst (Web.update m g f))) = false.
Proof.
  intros Ha Hr.
  destruct (K_ESCAPE (f_keys f)) eqn:He.
  - unfold Web.update. rewrite Hr, He. exact Ha.
  - destruct (Web_update_shape m g f Hr He)
      as (g' & r & Hu & _ & _ & _ & Hw & _).
    rewrite Hu. cbn [fst]. rewrite Web_handle_collisions_wall.
    assert (Ha' : mw_alive (Web.magic_wall g') = false) by congruence.
    destruct (GameState_eqb (Web.state g') PLAYING); [|exact Ha'].
    rewrite Web_wall_collision_wall, Ha'. exact Ha'.
Qed.

Lemma Desktop_run_wall_stays_destroyed (m : Math) (fs : list Frame) :
  forall g : Desktop.Game,
    no_reset fs -> mw_alive (Desktop.magic_wall g) = false ->
    mw_alive (Desktop.magic_wall (Desktop.run m g fs)) = false.
Proof.
  induction fs as [|f fs IH]; intros g Hn Ha; cbn [Desktop.run]; [exact Ha|].
  inversion Hn as [|? ? Hf Hrest]; subst.
  pose proof (Desktop_update_wall_stays_destroyed m g f Ha Hf) as H1.
  destruct (Desktop.update m g f) as [g' running]. cbn [fst] in H1.
  destruct running; [apply IH; assumption | exact H1].
Qed.

Lemma Web_run_wall_stays_destroyed (m : Math) (fs : list Frame) :
  forall g : Web.Game,
    no_reset fs -> mw_alive (Web.magic_wall g) = false ->
    mw_alive (Web.magic_wall (Web.run m g fs)) = false.
Proof.
  induction fs as [|f fs IH]; intros g Hn Ha; cbn [Web.run]; [exact Ha|].
  inversion Hn as [|? ? Hf Hrest]; subst.
  pose proof (Web_update_wall_stays_destroyed m g f Ha Hf) as H1.
  destruct (Web.update m g f) as [g' running]. cbn [fst] in H1.
  destruct running; [apply IH; assumption | exact H1].
Qed.

Lemma Desktop_list_without_wall (g : Desktop.Game) :
  mw_alive (Desktop.magic_wall g) = false ->
  Desktop.platforms_for_collision g = Desktop.platforms g.
Proof.
  intro Ha. unfold Desktop.platforms_for_collision. rewrite Ha.
  apply app_nil_r.
Qed.

Lemma Web_list_without_wall (g : Web.Game) (x : Z) :
  mw_alive (Web.magic_wall g) = false ->
  Web.platforms_for_collision g x =
  filter (fun p => Web.near 800 (p_rect p) x) (Web.platforms g) ++
  map (fun f => Web.as_platform (Web.fp_rect f))
      (filter (fun f => Web.fp_active f && negb (Web.fp_triggered f) &&
                        Web.near 800 (Web.fp_rect f) x)
              (Web.fake_platforms g)).
Proof.
  intro Ha. unfold Web.platforms_for_collision. rewrite Ha. cbn [andb].
  rewrite app_nil_r. reflexivity.
Qed.

(** C1.  A wall that is alive with health 2 is alive after [n] hits exactly
    when [n < 2]: one hit cracks it, the second destroys it.  In both
    variants a frame hits the wall once when the player overlaps it.  Once
    the wall is destroyed it stays destroyed through every session without
    reset, and the collision list built from such a game holds no entry for
    the wall. *)
Theorem magic_wall_two_hits_then_gone :
  (forall (w : MagicWall) (n : nat),
      mw_alive w = true -> health w = 2 ->
      mw_alive (hits n w) = (n <? 2)%nat) /\
  (forall (g : Desktop.Game) (r : Rng),
      Desktop.magic_wall (fst (Desktop.wall_collision g r)) =
      if mw_alive (Desktop.magic_wall g) &&
         colliderect (Desktop.rect (Desktop.player g))
                     (inflate (mw_rect (Desktop.magic_wall g)) 5 5)
      then fst (hit (Desktop.magic_wall g)) else Desktop.magic_wall g) /\
  (forall (g : Web.Game) (r : Rng),
      Web.magic_wall (fst (Web.wall_collision g r)) =
      if mw_alive (Web.magic_wall g) &&
         colliderect (Web.rect (Web.player g))
                     (inflate (mw_rect (Web.magic_wall g)) 5 5)
      then fst (hit (Web.magic_wall g)) else Web.magic_wall g) /\
  (forall (m : Math) (g : Desktop.Game) (fs : list Frame),
      mw_alive (Desktop.magic_wall g) = false -> no_reset fs ->
      let g' := Desktop.run m g fs in
      mw_alive (Desktop.magic_wall g') = false /\
      Desktop.platforms_for_collision g' = Desktop.platforms g') /\
  (forall (m : Math) (g : Web.Game) (fs : list Frame) (x : Z),
      mw_alive (Web.magic_wall g) = false -> no_reset fs ->
      let g' := Web.run m g fs in
      mw_alive (Web.magic_wall g') = false /\
      Web.platforms_for_collision g' x =
      filter (fun p => Web.near 800 (p_rect p) x) (Web.platforms g') ++
      map (fun f => Web.as_platform (Web.fp_rect f))
          (filter (fun f => Web.fp_active f && negb (Web.fp_triggered f) &&
                            Web.near 800 (Web.fp_rect f) x)
                  (Web.fake_platforms g'))).
Proof.
  split; [intros w n Ha Hh; apply hits_fresh_wall; assumption|].
  split; [exact Desktop_wall_collision_wall|].
  split; [exact Web_wall_collision_wall|].
  split.
  - intros m g fs Ha Hn g'.
    assert (H : mw_alive (Desktop.magic_wall g') = false)
      by (apply Desktop_run_wall_stays_destroyed; assumption).
    split; [exact H | apply Desktop_list_without_wall, H].
  - intros m g fs x Ha Hn g'.
    assert (H : mw_alive (Web.magic_wall g') = false)
      by (apply Web_run_wall_stays_destroyed; assumption).
    split; [exact H | apply Web_list_without_wall, H].
Qed.

Lemma magic_wall_two_hits_then_gone_witness :
  mw_alive (hits 1 (new_MagicWall 350 580 70 80)) = true /\
  mw_alive (hits 2 (new_MagicWall 350 580 70 80)) = false /\
  Desktop.platforms_for_collision
    (Desktop.run trivial_math desktop_game_wall_gone [idle_frame; idle_frame]) =
  Desktop.platforms
    (Desktop.run trivial_math desktop_game_wall_gone [idle_frame; idle_frame]).
Proof.
  split; [|split].
  - apply (proj1 magic_wall_two_hits_then_gone (new_MagicWall 350 580 70 80) 1%nat);
      reflexivity.
  - apply (proj1 magic_wall_two_hits_then_gone (new_MagicWall 350 580 70 80) 2%nat);
      reflexivity.
  - apply (proj1 (proj2 (proj2 (proj2 magic_wall_two_hits_then_gone)))
             trivial_math desktop_game_wall_gone [idle_frame; idle_frame]).
    + reflexivity.
    + repeat constructor.
Defined.

(** ** Reset *)

(** C10.  In both variants [reset_game] sets the state to PLAYING, rebuilds
    the whole level as [setup_level] builds it for a new game, installs a
    fresh particle system and a fresh camera, clears the death and win
    times, and keeps the attempts counter and the best time; a frame with
    the reset key down does exactly that. *)
Theorem reset_game_rebuilds_level_keeps_record :
  (forall (g : Desktop.Game) (now : Q),
      let g' := Desktop.reset_game g now in
      Desktop.state g' = PLAYING /\
      Desktop.level_of g' = Desktop.setup_level /\
      Desktop.level_of g' = Desktop.level_of (Desktop.new_Game now) /\
      Desktop.particles g' = Desktop.new_ParticleSystem /\
      Desktop.camera g' = new_Camera /\
      Desktop.death_time g' = None /\ Desktop.win_time g' = None /\
      Desktop.attempts g' = Desktop.attempts g /\
      Desktop.best_time g' = Desktop.best_time g) /\
  (forall (g : Web.Game) (now : Q),
      let g' := Web.reset_game g now in
      Web.state g' = PLAYING /\
      Web.level_of g' = Web.setup_level /\
      Web.level_of g' = Web.level_of (Web.new_Game now) /\
      Web.g_particles g' = Web.new_ParticleSystem /\
      Web.camera g' = new_Camera /\
      Web.death_time g' = None /\ Web.win_time g' = None /\
      Web.attempts g' = Web.attempts g /\
      Web.best_time g' = Web.best_time g) /\
  (forall (m : Math) (g : Desktop.Game) (f : Frame),
      K_r (f_keys f) = true ->
      Desktop.update m g f = (Desktop.reset_game g (f_now f), true)) /\
  (forall (m : Math) (g : Web.Game) (f : Frame),
      K_r (f_keys f) = true ->
      Web.update m g f = (Web.reset_game g (f_now f), true)).
Proof.
  split; [|split; [|split]].
  - intros g now g'. unfold g', Desktop.reset_game. cbn.
    repeat split; reflexivity.
  - intros g now g'. unfold g', Web.reset_game. cbn.
    repeat split; reflexivity.
  - intros m g f Hr. unfold Desktop.update. rewrite Hr. reflexivity.
  - intros m g f Hr. unfold Web.update. rewrite Hr. reflexivity.
Qed.

Lemma reset_game_rebuilds_level_keeps_record_witness :
  K_r (f_keys reset_frame) = true /\
  Desktop.update trivial_math desktop_game_wall_gone reset_frame =
  (Desktop.reset_game desktop_game_wall_gone 5, true) /\
  Web.update trivial_math web_start reset_frame =
  (Web.reset_game web_start 5, true).
Proof.
  split; [reflexivity|]. split.
  - apply (proj1 (proj2 (proj2 reset_game_rebuilds_level_keeps_record))
             trivial_math desktop_game_wall_gone reset_frame).
    reflexivity.
  - apply (proj2 (proj2 (proj2 reset_game_rebuilds_level_keeps_record))
             trivial_math web_start reset_frame).
    reflexivity.
Defined.

(** ** The per-frame collision list *)

Lemma Desktop_collision_list_members (g : Desktop.Game) (p : Platform) :
  In p (Desktop.platforms_for_collision g) <->
  In p (Desktop.platforms g) \/
  (mw_alive (Desktop.magic_wall g) = true /\
   p = mkPlatform (mw_rect (Desktop.magic_wall g))).
Proof.
  unfold Desktop.platforms_for_collision. rewrite in_app_iff.
  destruct (mw_alive (Desktop.magic_wall g)).
  - unfold new_Platform. destruct (mw_rect (Desktop.magic_wall g)) as [x y w h].
    cbn. intuition congruence.
  - cbn. intuition congruence.
Qed.

Lemma Web_collision_list_members (g : Web.Game) (x : Z) (p : Platform) :
  In p (Web.platforms_for_collision g x) <->
  (In p (Web.platforms g) /\ Web.near 800 (p_rect p) x = true) \/
  (exists f, In f (Web.fake_platforms g) /\
             Web.fp_active f = true /\ Web.fp_triggered f = false /\
             Web.near 800 (Web.fp_rect f) x = true /\
             p = mkPlatform (Web.fp_rect f)) \/
  (mw_alive (Web.magic_wall g) = true /\
   Web.near 800 (mw_rect (Web.magic_wall g)) x = true /\
   p = mkPlatform (mw_rect (Web.magic_wall g))).
Proof.
  assert (Hp : forall r, Web.as_platform r = mkPlatform r)
    by (intros [a b c d]; reflexivity).
  unfold Web.platforms_for_collision. rewrite !in_app_iff, filter_In, in_map_iff.
  split.
  - intros [H | [[f [Hf Hin]] | H]].
    + left. exact H.
    + right. left. apply filter_In in Hin. destruct Hin as [Hin Hc].
      apply andb_true_iff in Hc. destruct Hc as [Hc Hn].
      apply andb_true_iff in Hc. destruct Hc as [Hac Htr].
      apply negb_true_iff in Htr.
      exists f. rewrite <- Hf, Hp. auto.
    + right. right.
      destruct (mw_alive (Web.magic_wall g)); cbn [andb] in H; [|destruct H].
      destruct (Web.near 800 (mw_rect (Web.magic_wall g)) x); [|destruct H].
      destruct H as [H | []]. rewrite <- H, Hp. auto.
  - intros [H | [[f (Hin & Hac & Htr & Hn & Hf)] | (Ha & Hn & Hw)]].
    + left. exact H.
    + right. left. exists f. split; [rewrite Hp; auto|].
      apply filter_In. split; [exact Hin|]. rewrite Hac, Htr, Hn. reflexivity.
    + right. right. rewrite Ha, Hn. cbn [andb]. left. rewrite Hp. auto.
Qed.

(** The player the collision checks of a frame see is the outcome of
    [physics] run against the collision list. *)
Lemma Desktop_advance_physics (m : Math) (g : Desktop.Game) (f : Frame) :
  Desktop.player (fst (Desktop.advance m g f)) =
  fst (fst (Desktop.physics (Desktop_controlled g f) (f_dt f)
                            (Desktop.platforms_for_collision g)
                            (Desktop.particles g) (f_rng f))).
Proof.
  unfold Desktop.advance, Desktop_controlled.
  destruct (Desktop.physics _ _ _ _ _) as [[p ps] r].
  destruct (Desktop.update_stones _ _ _ _ _ _) as [[st ps'] r'].
  reflexivity.
Qed.

Lemma Web_advance_physics (m : Math) (g : Web.Game) (f : Frame) :
  Web.player (fst (Web.advance m g f)) =
  fst (fst (Web.physics (Web_controlled g f) (f_dt f)
                        (Web_frame_collision_list g f)
                        (Web.g_particles g) (f_rng f))).
Proof.
  unfold Web.advance, Web_frame_collision_list.
  fold (Web_controlled g f).
  set (x := centerx (Web.rect (Web_controlled g f))).
  set (fakes := map _ (Web.fake_platforms g)).
  unfold Web.platforms_for_collision at 1 2.
  cbn [Web.platforms Web.fake_platforms Web.magic_wall Web.set_fake_platforms].
  fold (Web.platforms_for_collision (Web.set_fake_platforms g fakes (Web.camera g)) x).
  destruct (Web.physics _ _ _ _ _) as [[p ps] r].
  destruct (Web.update_stones _ _ _ _ _ _) as [[st ps'] r'].
  reflexivity.
Qed.

(** C8, as the code has it.  The player a frame hands to the collision
    checks is the outcome of [physics] run against the collision list.  In
    the desktop variant the members of that list are the static platforms
    and, while the wall is alive, the wall's rectangle.  In the web variant
    they are the static platforms, the fake platforms that are active and
    not triggered, and the wall while alive, each only if its centre is less
    than 800 pixels from the player's centre on the x axis. *)
Theorem collision_list_contents :
  (forall (m : Math) (g : Desktop.Game) (f : Frame),
      Desktop.player (fst (Desktop.advance m g f)) =
      fst (fst (Desktop.physics (Desktop_controlled g f) (f_dt f)
                                (Desktop.platforms_for_collision g)
                                (Desktop.particles g) (f_rng f)))) /\
  (forall (g : Desktop.Game) (p : Platform),
      In p (Desktop.platforms_for_collision g) <->
      In p (Desktop.platforms g) \/
      (mw_alive (Desktop.magic_wall g) = true /\
       p = mkPlatform (mw_rect (Desktop.magic_wall g)))) /\
  (forall (m : Math) (g : Web.Game) (f : Frame),
      Web.player (fst (Web.advance m g f)) =
      fst (fst (Web.physics (Web_controlled g f) (f_dt f)
                            (Web_frame_collision_list g f)
                            (Web.g_particles g) (f_rng f)))) /\
  (forall (g : Web.Game) (x : Z) (p : Platform),
      In p (Web.platforms_for_collision g x) <->
      (In p (Web.platforms g) /\ Web.near 800 (p_rect p) x = true) \/
      (exists fp, In fp (Web.fake_platforms g) /\
                  Web.fp_active fp = true /\ Web.fp_triggered fp = false /\
                  Web.near 800 (Web.fp_rect fp) x = true /\
                  p = mkPlatform (Web.fp_rect fp)) \/
      (mw_alive (Web.magic_wall g) = true /\
       Web.near 800 (mw_rect (Web.magic_wall g)) x = true /\
       p = mkPlatform (mw_rect (Web.magic_wall g)))).
Proof.
  split; [exact Desktop_advance_physics|].
  split; [exact Desktop_collision_list_members|].
  split; [exact Web_advance_physics|].
  exact Web_collision_list_members.
Qed.

Lemma collision_list_contents_witness :
  In ground (Web.platforms web_start) /\
  Web.near 800 (p_rect ground) 75 = true /\
  In ground (Web.platforms_for_collision web_start 75).
Proof.
  assert (H1 : In ground (Web.platforms web_start)) by (left; reflexivity).
  assert (H2 : Web.near 800 (p_rect ground) 75 = true) by reflexivity.
  split; [exact H1|]. split; [exact H2|].
  apply (proj2 (proj2 (proj2 collision_list_contents)) web_start 75 ground).
  left. split; [exact H1 | exact H2].
Defined.

(** C8 as stated fails in the web variant: in the first frame of a new game
    the player stands at x = 75, the static platform of the final approach
    is centred at x = 1170, and the list the player is resolved against
    leaves that platform out. *)
Lemma web_collision_list_omits_static_platform :
  In far_platform (Web.platforms web_start) /\
  In far_platform (spec_collision_list web_start) /\
  ~ In far_platform (Web_frame_collision_list web_start idle_frame) /\
  Web_frame_collision_list web_start idle_frame <> spec_collision_list web_start.
Proof.
  assert (Hin : In far_platform (Web.platforms web_start)).
  { cbn. right. right. right. right. right. left. reflexivity. }
  assert (Hspec : In far_platform (spec_collision_list web_start)).
  { unfold spec_collision_list. apply in_or_app. left. exact Hin. }
  assert (Hout : ~ In far_platform (Web_frame_collision_list web_start idle_frame)).
  { vm_compute. intros H.
    repeat (destruct H as [H | H]; [discriminate H|]). exact H. }
  repeat split; try assumption.
  intro E. apply Hout. rewrite E. exact Hspec.
Qed.

(** ** Particles *)

Lemma Desktop_explosion_loop_length (n : nat) (pos : Q * Q) (color : Color)
      (vr : Q * Q) :
  forall (l : list Particle) (g : Rng),
    length (fst (Desktop.add_explosion_loop n pos color vr l g)) = (length l + n)%nat.
Proof.
  induction n as [|n IH]; intros l g; cbn [Desktop.add_explosion_loop].
  - cbn. lia.
  - destruct (Desktop.explosion_particle pos color vr g) as [p g'].
    rewrite IH, length_app. cbn. lia.
Qed.

Lemma Desktop_dust_loop_length (n : nat) (pos : Q * Q) :
  forall (l : list Particle) (g : Rng),
    length (fst (Desktop.add_dust_loop n pos l g)) = (length l + n)%nat.
Proof.
  induction n as [|n IH]; intros l g; cbn [Desktop.add_dust_loop].
  - cbn. lia.
  - destruct (Desktop.dust_particle pos g) as [p g'].
    rewrite IH, length_app. cbn. lia.
Qed.

Lemma Web_explosion_loop_app (n : nat) (pos : Q * Q) (color : Color) (vr : Q * Q) :
  forall (l : list Particle) (g : Rng),
  exists fresh,
    fst (Web.add_explosion_loop n pos color vr l g) = l ++ fresh /\
    length fresh = n.
Proof.
  induction n as [|n IH]; intros l g; cbn [Web.add_explosion_loop].
  - exists []. cbn. rewrite app_nil_r. auto.
  - destruct (Web.explosion_particle pos color vr g) as [p g'].
    destruct (IH (l ++ [p]) g') as [fresh [E L]].
    exists (p :: fresh). rewrite E, <- app_assoc. cbn. auto.
Qed.

Lemma Web_dust_loop_length (n : nat) (pos : Q * Q) :
  forall (l : list Particle) (g : Rng),
    length (fst (Web.add_dust_loop n pos l g)) = (length l + n)%nat.
Proof.
  induction n as [|n IH]; intros l g; cbn [Web.add_dust_loop].
  - cbn. lia.
  - destruct (Web.dust_particle pos g) as [p g'].
    rewrite IH, length_app. cbn. lia.
Qed.

Lemma slice_from_eviction {A : Type} (l : list A) (c : Z) :
  Z.of_nat (length l) <= 100 -> Z.of_nat (length l) + c > 100 -> c <= 10 ->
  Web.slice_from (- (100 - c)) l =
  skipn (Z.to_nat (Z.of_nat (length l) + c - 100)) l.
Proof.
  intros Hl Hc Hc'. unfold Web.slice_from.
  assert (E : (- (100 - c) <? 0) = true) by (apply Z.ltb_lt; lia).
  rewrite E. f_equal. f_equal. lia.
Qed.

Lemma Web_add_explosion_evicts (ps : Web.ParticleSystem) (pos : Q * Q) (count : Z)
      (color : Color) (vr : Q * Q) (g : Rng) :
  capped ps -> Web.len ps + Z.min count 10 > 100 ->
  exists fresh,
    Web.particles (fst (Web.add_explosion ps pos count color vr g)) =
      skipn (Z.to_nat (Web.len ps + Z.min count 10 - 100)) (Web.particles ps)
      ++ fresh /\
    length fresh = Z.to_nat (Z.min count 10).
Proof.
  intros [Hm Hl] Hc. unfold Web.add_explosion. rewrite Hm.
  assert (E : (Web.len ps + Z.min count 10 >? 100) = true)
    by (apply Z.gtb_lt; lia).
  rewrite E. unfold Web.len in *.
  rewrite slice_from_eviction by lia.
  match goal with
  | |- context [Web.add_explosion_loop ?n ?a ?b ?c ?l ?r] =>
      destruct (Web_explosion_loop_app n a b c l r) as [fresh [Ef Lf]];
      destruct (Web.add_explosion_loop n a b c l r) as [l' g'] eqn:El
  end.
  cbn [fst Web.particles] in *. exists fresh. auto.
Qed.

Lemma Web_add_explosion_capped (ps : Web.ParticleSystem) (pos : Q * Q) (count : Z)
      (color : Color) (vr : Q * Q) (g : Rng) :
  capped ps -> capped (fst (Web.add_explosion ps pos count color vr g)).
Proof.
  intros Hc.
  destruct (Z_gt_le_dec (Web.len ps + Z.min count 10) 100) as [Hgt | Hle].
  - destruct (Web_add_explosion_evicts ps pos count color vr g Hc Hgt)
      as [fresh [E L]].
    destruct Hc as [Hm Hl]. split.
    + unfold Web.add_explosion. break_let. exact Hm.
    + unfold Web.len in *. rewrite E, length_app, length_skipn, L. lia.
  - destruct Hc as [Hm Hl]. unfold Web.add_explosion. rewrite Hm.
    assert (E : (Web.len ps + Z.min count 10 >? 100) = false).
    { destruct (Web.len ps + Z.min count 10 >? 100) eqn:G; [|reflexivity].
      apply Z.gtb_lt in G. lia. }
    rewrite E.
    match goal with
    | |- context [Web.add_explosion_loop ?n ?a ?b ?c ?l ?r] =>
        destruct (Web_explosion_loop_app n a b c l r) as [fresh [Ef Lf]];
        destruct (Web.add_explosion_loop n a b c l r) as [l' g'] eqn:El
    end.
    cbn [fst] in *. split; [reflexivity|].
    unfold Web.len in *. cbn [Web.particles]. rewrite Ef, length_app, Lf. lia.
Qed.

Lemma Web_add_dust_skipped (ps : Web.ParticleSystem) (pos : Q * Q) (count : Z)
      (g : Rng) :
  Web.len ps + count > Web.max_particles ps ->
  Web.add_dust ps pos count g = (ps, g).
Proof.
  intro H. unfold Web.add_dust.
  assert (E : (Web.len ps + count >? Web.max_particles ps) = true)
    by (apply Z.gtb_lt; lia).
  rewrite E. reflexivity.
Qed.

Lemma Web_add_dust_capped (ps : Web.ParticleSystem) (pos : Q * Q) (count : Z)
      (g : Rng) :
  capped ps -> capped (fst (Web.add_dust ps pos count g)).
Proof.
  intros [Hm Hl]. unfold Web.add_dust.
  destruct (Web.len ps + count >? Web.max_particles ps) eqn:E.
  - split; assumption.
  - pose proof (Web_dust_loop_length (Z.to_nat count) pos (Web.particles ps) g) as L.
    destruct (Web.add_dust_loop _ _ _ _) as [l g']. cbn [fst] in *.
    split; [exact Hm|]. unfold Web.len in *. cbn [Web.particles].
    rewrite L. rewrite Hm in E.
    destruct (Z.gtb_spec (Z.of_nat (length (Web.particles ps)) + count) 100);
      [discriminate|]. lia.
Qed.

Lemma Web_update_capped (ps : Web.ParticleSystem) (dt : Q) :
  capped ps -> capped (Web.ParticleSystem_update ps dt).
Proof.
  intros [Hm Hl]. split; [exact Hm|].
  unfold Web.len, Web.ParticleSystem_update in *. cbn [Web.particles].
  pose proof (filter_length_le (fun p => Qgt_bool (pt_life p) 0)
                (map (step_particle dt) (Web.particles ps))) as H.
  rewrite length_map in H. lia.
Qed.

Lemma Web_apply_capped (st : Web.ParticleSystem * Rng) (op : ParticleOp) :
  capped (fst st) -> capped (fst (Web_apply st op)).
Proof.
  intro H. destruct op; cbn [Web_apply].
  - apply Web_add_explosion_capped, H.
  - apply Web_add_dust_capped, H.
  - apply Web_update_capped, H.
Qed.

Lemma Web_fold_capped (ops : list ParticleOp) :
  forall st, capped (fst st) -> capped (fst (fold_left Web_apply ops st)).
Proof.
  induction ops as [|op ops IH]; intros st H; cbn [fold_left]; [exact H|].
  apply IH, Web_apply_capped, H.
Qed.

(** C9, as the code has it.  In the web variant the particle system never
    holds more than 100 particles, whatever calls are made on it: an
    explosion (at most 10 particles a call) that would pass the cap first
    drops the oldest particles, and dust that would pass the cap is skipped.
    The desktop variant has no cap: every explosion and every dust call adds
    [count] particles. *)
Theorem particle_cap_web_only :
  (forall (ops : list ParticleOp) (g : Rng),
      Web.len (fst (Web_particle_run ops g)) <= 100) /\
  (forall (ps : Web.ParticleSystem) (pos : Q * Q) (count : Z) (color : Color)
          (vr : Q * Q) (g : Rng),
      capped ps -> Web.len ps + Z.min count 10 > 100 ->
      exists fresh,
        Web.particles (fst (Web.add_explosion ps pos count color vr g)) =
          skipn (Z.to_nat (Web.len ps + Z.min count 10 - 100)) (Web.particles ps)
          ++ fresh /\
        length fresh = Z.to_nat (Z.min count 10)) /\
  (forall (ps : Web.ParticleSystem) (pos : Q * Q) (count : Z) (g : Rng),
      Web.len ps + count > Web.max_particles ps ->
      Web.add_dust ps pos count g = (ps, g)) /\
  (forall (ps : Desktop.ParticleSystem) (pos : Q * Q) (count : Z) (color : Color)
          (vr : Q * Q) (g : Rng),
      length (fst (Desktop.add_explosion ps pos count color vr g)) =
      (length ps + Z.to_nat count)%nat) /\
  (forall (ps : Desktop.ParticleSystem) (pos : Q * Q) (count : Z) (g : Rng),
      length (fst (Desktop.add_dust ps pos count g)) =
      (length ps + Z.to_nat count)%nat).
Proof.
  split; [|split; [|split; [|split]]].
  - intros ops g. unfold Web_particle_run.
    apply (Web_fold_capped ops (Web.new_ParticleSystem, g)).
    split; [reflexivity | cbn; lia].
  - exact Web_add_explosion_evicts.
  - exact Web_add_dust_skipped.
  - intros. apply Desktop_explosion_loop_length.
  - intros. apply Desktop_dust_loop_length.
Qed.

Lemma particle_cap_web_only_witness :
  Web.len (fst (Web_particle_run [OpDust (0, 0)%Q 100] some_rng)) + 3
    > Web.max_particles (fst (Web_particle_run [OpDust (0, 0)%Q 100] some_rng)) /\
  Web.add_dust (fst (Web_particle_run [OpDust (0, 0)%Q 100] some_rng))
               (0, 0)%Q 3 some_rng =
  (fst (Web_particle_run [OpDust (0, 0)%Q 100] some_rng), some_rng).
Proof.
  split.
  - vm_compute. reflexivity.
  - apply (proj1 (proj2 (proj2 particle_cap_web_only))).
    vm_compute. reflexivity.
Defined.

(** C9 as stated fails in the desktop variant: no number bounds its particle
    list, since one explosion of [cap + 1] particles on the empty system
    already passes [cap]. *)
Lemma desktop_particles_have_no_cap :
  ~ exists cap : nat,
      forall (ops : list ParticleOp) (g : Rng),
        (length (fst (Desktop_particle_run ops g)) <= cap)%nat.
Proof.
  intros [cap H].
  specialize (H [OpExplosion (0, 0)%Q (Z.of_nat (S cap)) COLOR_IMPACT (-5, 5)%Q]
                some_rng).
  unfold Desktop_particle_run in H. cbn [fold_left Desktop_apply fst snd] in H.
  unfold Desktop.add_explosion in H.
  rewrite Desktop_explosion_loop_length in H.
  rewrite Nat2Z.id in H. cbn [Desktop.new_ParticleSystem length] in H. lia.
Qed.

(** ** Landing *)


Lemma Desktop_vertical_step_still (p : Desktop.Player) (ps : Desktop.ParticleSystem)
      (g : Rng) (q : Platform) :
  Qgt_bool (Desktop.vy p) 0 = false -> Qlt_bool (Desktop.vy p) 0 = false ->
  Desktop.vertical_step (p, ps, g) q = (p, ps, g).
Proof.
  intros H1 H2. unfold Desktop.vertical_step. rewrite H1, H2.
  destruct (colliderect _ _); reflexivity.
Qed.

Lemma Desktop_vertical_fold_still (platforms : list Platform) :
  forall (p : Desktop.Player) (ps : Desktop.ParticleSystem) (g : Rng),
    Qgt_bool (Desktop.vy p) 0 = false -> Qlt_bool (Desktop.vy p) 0 = false ->
    fold_left Desktop.vertical_step platforms (p, ps, g) = (p, ps, g).
Proof.
  induction platforms as [|q rest IH]; intros p ps g H1 H2; cbn [fold_left].
  - reflexivity.
  - rewrite Desktop_vertical_step_still by assumption. apply IH; assumption.
Qed.



Lemma Web_vertical_step_still (p : Web.Player) (ps : Web.ParticleSystem)
      (g : Rng) (q : Platform) :
  Qgt_bool (Web.vy p) 0 = false -> Qlt_bool (Web.vy p) 0 = false ->
  Web.vertical_step (p, ps, g) q = (p, ps, g).
Proof.
  intros H1 H2. unfold Web.vertical_step. rewrite H1, H2.
  destruct (colliderect _ _); reflexivity.
Qed.

Lemma Web_vertical_fold_still (platforms : list Platform) :
  forall (p : Web.Player) (ps : Web.ParticleSystem) (g : Rng),
    Qgt_bool (Web.vy p) 0 = false -> Qlt_bool (Web.vy p) 0 = false ->
    fold_left Web.vertical_step platforms (p, ps, g) = (p, ps, g).
Proof.
  induction platforms as [|q rest IH]; intros p ps g H1 H2; cbn [fold_left].
  - reflexivity.
  - rewrite Web_vertical_step_still by assumption. apply IH; assumption.
Qed.

















(** ** Falling stones *)

Lemma Desktop_trigger_check_core (s : Desktop.FallingStone) (x : Z) :
  let s' := Desktop.trigger_check s x in
  Desktop.dropped s' = Desktop.dropped s /\
  Desktop.warning_timer s' = Desktop.warning_timer s /\
  Desktop.trigger_range s' = Desktop.trigger_range s /\
  (Desktop.warning s = true -> Desktop.warning s' = true) /\
  (Desktop.warning s = false -> Desktop.warning s' = true ->
   in_range (Desktop.trigger_range s) x).
Proof.
  unfold Desktop.trigger_check, in_range.
  destruct (negb (Desktop.dropped s) && negb (Desktop.warning s)).
  - destruct ((fst (Desktop.trigger_range s) <=? x) &&
              (x <=? snd (Desktop.trigger_range s))) eqn:E; cbn.
    + apply andb_true_iff in E. destruct E as [E1 E2].
      apply Z.leb_le in E1. apply Z.leb_le in E2. repeat split; auto.
    + repeat split; auto; congruence.
  - cbn. repeat split; auto; congruence.
Qed.

Lemma Desktop_countdown_core (s : Desktop.FallingStone) (dt : Q) (g : Rng) :
  let s' := fst (Desktop.countdown s dt g) in
  Desktop.warning s' = Desktop.warning s /\
  Desktop.trigger_range s' = Desktop.trigger_range s /\
  (if Desktop.warning s && negb (Desktop.dropped s)
   then Desktop.warning_timer s' = (Desktop.warning_timer s - dt)%Q /\
        Desktop.dropped s' = Qle_bool (Desktop.warning_timer s - dt) 0
   else s' = s).
Proof.
  unfold Desktop.countdown.
  destruct (Desktop.warning s && negb (Desktop.dropped s)) eqn:E.
  - apply andb_true_iff in E. destruct E as [_ E]. apply negb_true_iff in E.
    destruct (Qle_bool (Desktop.warning_timer s - dt) 0).
    + destruct (uniform (-5) 5 g). cbn. auto.
    + cbn. auto.
  - cbn. auto.
Qed.

Lemma Desktop_fall_core (s : Desktop.FallingStone) (dt : Q)
      (platforms : list Platform) (ps : Desktop.ParticleSystem) (g : Rng) :
  let s' := fst (fst (Desktop.fall s dt platforms ps g)) in
  Desktop.dropped s' = Desktop.dropped s /\
  Desktop.warning s' = Desktop.warning s /\
  Desktop.warning_timer s' = Desktop.warning_timer s /\
  Desktop.trigger_range s' = Desktop.trigger_range s.
Proof.
  unfold Desktop.fall.
  repeat first [break_if | break_let
               | match goal with
                 | |- context [match ?x with Some _ => _ | None => _ end] =>
                     destruct x
                 end];
    cbn; auto.
Qed.

(** How the three fields that decide the drop move in one frame. *)
Lemma Desktop_stone_frame_core (s : Desktop.FallingStone)
      (f : StoneFrame Desktop.ParticleSystem) :
  let s' := Desktop_stone_frame s f in
  Desktop.trigger_range s' = Desktop.trigger_range s /\
  (Desktop.warning s = true -> Desktop.warning s' = true) /\
  (Desktop.warning s = false -> Desktop.warning s' = true ->
   in_range (Desktop.trigger_range s) (sf_x f)) /\
  (if Desktop.warning s' && negb (Desktop.dropped s)
   then Desktop.warning_timer s' = (Desktop.warning_timer s - sf_dt f)%Q /\
        Desktop.dropped s' = Qle_bool (Desktop.warning_timer s - sf_dt f) 0
   else Desktop.warning_timer s' = Desktop.warning_timer s /\
        Desktop.dropped s' = Desktop.dropped s).
Proof.
  unfold Desktop_stone_frame, Desktop.FallingStone_update.
  destruct (Desktop_trigger_check_core s (sf_x f)) as (T1 & T2 & T3 & T4 & T5).
  set (s0 := Desktop.trigger_check s (sf_x f)) in *.
  pose proof (Desktop_countdown_core s0 (sf_dt f) (sf_rng f)) as C.
  destruct (Desktop.countdown s0 (sf_dt f) (sf_rng f)) as [s1 g1].
  cbn [fst] in C. destruct C as (C1 & C2 & C3).
  destruct (Desktop_fall_core s1 (sf_dt f) (sf_platforms f) (sf_particles f) g1)
    as (F1 & F2 & F3 & F4).
  set (s2 := fst (fst (Desktop.fall s1 (sf_dt f) (sf_platforms f)
                                    (sf_particles f) g1))) in *.
  rewrite F4, C2, T3, F2, C1, F3, F1.
  split; [reflexivity|]. split; [exact T4|]. split; [exact T5|].
  rewrite <- T1.
  destruct (Desktop.warning s0 && negb (Desktop.dropped s0)).
  - destruct C3 as [C3 C4]. rewrite C3, C4, T2. auto.
  - rewrite C3. auto.
Qed.

Lemma Desktop_stone_frame_drop (s : Desktop.FallingStone)
      (f : StoneFrame Desktop.ParticleSystem) :
  Desktop.dropped s = false ->
  let s' := Desktop_stone_frame s f in
  (Desktop.dropped s' = true <->
   Desktop.warning s' = true /\ (Desktop.warning_timer s' <= 0)%Q) /\
  (Desktop.dropped s' = true ->
   Desktop.warning_timer s' = (Desktop.warning_timer s - sf_dt f)%Q).
Proof.
  intros Hd s'.
  destruct (Desktop_stone_frame_core s f) as (_ & _ & _ & H). fold s' in H.
  rewrite Hd in H. cbn [negb] in H. rewrite andb_true_r in H.
  destruct (Desktop.warning s').
  - destruct H as [Ht Hdr]. rewrite Hdr, Ht. split.
    + rewrite Qle_bool_iff. tauto.
    + auto.
  - destruct H as [Ht Hdr]. rewrite Hdr. split.
    + split; [discriminate | intros [H _]; discriminate].
    + discriminate.
Qed.

Lemma Desktop_stone_inv_step (wt : Q) (range : Z * Z)
      (fs : list (StoneFrame Desktop.ParticleSystem)) (s : Desktop.FallingStone)
      (f : StoneFrame Desktop.ParticleSystem) :
  Desktop_stone_inv wt range fs s ->
  Desktop_stone_inv wt range (fs ++ [f]) (Desktop_stone_frame s f).
Proof.
  intros (Ir & Id & It & Iw).
  destruct (Desktop_stone_frame_core s f) as (Cr & Cw1 & Cw2 & Cc).
  set (s' := Desktop_stone_frame s f) in *.
  unfold Desktop_stone_inv. rewrite Cr, Ir. split; [reflexivity|].
  destruct (Desktop.dropped s) eqn:Hd.
  - (* already dropped: nothing moves *)
    destruct (proj1 Id eq_refl) as [Hw Ht].
    rewrite (Cw1 Hw) in *. cbn in Cc. destruct Cc as [Ct Cd].
    rewrite Ct, Cd. repeat split; auto; try discriminate.
    intros _. destruct (Iw Hw) as [f0 [Hin Hr]].
    exists f0. split; [apply in_or_app; left; exact Hin | exact Hr].
  - cbn [negb] in Cc. rewrite andb_true_r in Cc.
    destruct (Desktop.warning s') eqn:Hw'.
    + destruct Cc as [Ct Cd]. rewrite Ct, Cd. split; [|split].
      * rewrite Qle_bool_iff. tauto.
      * discriminate.
      * intros _. destruct (Desktop.warning s) eqn:Hw.
        -- destruct (Iw eq_refl) as [f0 [Hin Hr]].
           exists f0. split; [apply in_or_app; left; exact Hin | exact Hr].
        -- exists f. split; [apply in_or_app; right; left; reflexivity|].
           rewrite <- Ir. apply Cw2; reflexivity.
    + destruct Cc as [Ct Cd]. rewrite Ct, Cd. split; [|split].
      * split; [discriminate | intros [H _]; discriminate].
      * intros _. apply It. destruct (Desktop.warning s) eqn:Hw; [|reflexivity].
        specialize (Cw1 eq_refl). congruence.
      * discriminate.
Qed.

Lemma Desktop_stone_run_inv (x top_y : Z) (range : Z * Z) (wt : Q)
      (fs : list (StoneFrame Desktop.ParticleSystem)) :
  Desktop_stone_inv wt range fs
    (Desktop_stone_run (Desktop.new_FallingStone x top_y range wt) fs).
Proof.
  induction fs as [|f fs IH] using rev_ind.
  - cbn. unfold Desktop_stone_inv. cbn. repeat split; try discriminate.
    intros [H _]. discriminate.
  - unfold Desktop_stone_run in *. rewrite fold_left_app. cbn [fold_left].
    apply Desktop_stone_inv_step, IH.
Qed.

Lemma Web_trigger_check_core (s : Web.FallingStone) (x : Z) :
  let s' := Web.trigger_check s x in
  Web.dropped s' = Web.dropped s /\
  Web.warning_timer s' = Web.warning_timer s /\
  Web.trigger_range s' = Web.trigger_range s /\
  (Web.warning s = true -> Web.warning s' = true) /\
  (Web.warning s = false -> Web.warning s' = true ->
   in_range (Web.trigger_range s) x).
Proof.
  unfold Web.trigger_check, in_range.
  destruct (negb (Web.dropped s) && negb (Web.warning s)).
  - destruct ((fst (Web.trigger_range s) <=? x) &&
              (x <=? snd (Web.trigger_range s))) eqn:E; cbn.
    + apply andb_true_iff in E. destruct E as [E1 E2].
      apply Z.leb_le in E1. apply Z.leb_le in E2. repeat split; auto.
    + repeat split; auto; congruence.
  - cbn. repeat split; auto; congruence.
Qed.

Lemma Web_countdown_core (s : Web.FallingStone) (dt : Q) (g : Rng) :
  let s' := fst (Web.countdown s dt g) in
  Web.warning s' = Web.warning s /\
  Web.trigger_range s' = Web.trigger_range s /\
  (if Web.warning s && negb (Web.dropped s)
   then Web.warning_timer s' = (Web.warning_timer s - dt)%Q /\
        Web.dropped s' = Qle_bool (Web.warning_timer s - dt) 0
   else s' = s).
Proof.
  unfold Web.countdown.
  destruct (Web.warning s && negb (Web.dropped s)) eqn:E.
  - apply andb_true_iff in E. destruct E as [_ E]. apply negb_true_iff in E.
    destruct (Qle_bool (Web.warning_timer s - dt) 0).
    + destruct (uniform (-5) 5 g). cbn. auto.
    + cbn. auto.
  - cbn. auto.
Qed.

Lemma Web_bounce_step_core (st : Web.FallingStone * Web.ParticleSystem * Rng)
      (pl : Platform) :
  let s := fst (fst st) in
  let s' := fst (fst (Web.bounce_step st pl)) in
  Web.dropped s' = Web.dropped s /\
  Web.warning s' = Web.warning s /\
  Web.warning_timer s' = Web.warning_timer s /\
  Web.trigger_range s' = Web.trigger_range s.
Proof.
  destruct st as [[s ps] g]. unfold Web.bounce_step.
  repeat first [break_if | break_let]; cbn; auto.
Qed.

Lemma Web_bounce_fold_core (platforms : list Platform) :
  forall st : Web.FallingStone * Web.ParticleSystem * Rng,
    let s := fst (fst st) in
    let s' := fst (fst (fold_left Web.bounce_step platforms st)) in
    Web.dropped s' = Web.dropped s /\
    Web.warning s' = Web.warning s /\
    Web.warning_timer s' = Web.warning_timer s /\
    Web.trigger_range s' = Web.trigger_range s.
Proof.
  induction platforms as [|pl rest IH]; intros st; cbn [fold_left].
  - cbn. auto.
  - destruct (IH (Web.bounce_step st pl)) as (A1 & A2 & A3 & A4).
    destruct (Web_bounce_step_core st pl) as (B1 & B2 & B3 & B4).
    cbn zeta in *. repeat split; congruence.
Qed.

Lemma Web_fall_core (s : Web.FallingStone) (dt : Q)
      (platforms : list Platform) (ps : Web.ParticleSystem) (g : Rng) :
  let s' := fst (fst (Web.fall s dt platforms ps g)) in
  Web.dropped s' = Web.dropped s /\
  Web.warning s' = Web.warning s /\
  Web.warning_timer s' = Web.warning_timer s /\
  Web.trigger_range s' = Web.trigger_range s.
Proof.
  unfold Web.fall.
  destruct (Web.dropped s && negb (Web.settled s)); [|cbn; auto].
  match goal with
  | |- context [fold_left Web.bounce_step platforms ?st] =>
      destruct (Web_bounce_fold_core platforms st) as (A1 & A2 & A3 & A4)
  end.
  cbn in *. auto.
Qed.

(** A frame of a web stone skips a far stone and moves the three deciding
    fields of a near one as in the desktop variant. *)
Lemma Web_stone_frame_core (s : Web.FallingStone)
      (f : StoneFrame Web.ParticleSystem) :
  let s' := Web_stone_frame s f in
  (Web.near 1000 (Web.fs_rect s) (sf_x f) = false -> s' = s) /\
  (Web.near 1000 (Web.fs_rect s) (sf_x f) = true ->
   Web.trigger_range s' = Web.trigger_range s /\
   (Web.warning s = true -> Web.warning s' = true) /\
   (Web.warning s = false -> Web.warning s' = true ->
    in_range (Web.trigger_range s) (sf_x f)) /\
   (if Web.warning s' && negb (Web.dropped s)
    then Web.warning_timer s' = (Web.warning_timer s - sf_dt f)%Q /\
         Web.dropped s' = Qle_bool (Web.warning_timer s - sf_dt f) 0
    else Web.warning_timer s' = Web.warning_timer s /\
         Web.dropped s' = Web.dropped s)).
Proof.
  unfold Web_stone_frame.
  destruct (Web.near 1000 (Web.fs_rect s) (sf_x f));
    (split; [intro Hn | intro Hn]); try discriminate; [|reflexivity].
  unfold Web.FallingStone_update.
  destruct (Web_trigger_check_core s (sf_x f)) as (T1 & T2 & T3 & T4 & T5).
  set (s0 := Web.trigger_check s (sf_x f)) in *.
  pose proof (Web_countdown_core s0 (sf_dt f) (sf_rng f)) as C.
  destruct (Web.countdown s0 (sf_dt f) (sf_rng f)) as [s1 g1].
  cbn [fst] in C. destruct C as (C1 & C2 & C3).
  destruct (Web_fall_core s1 (sf_dt f) (sf_platforms f) (sf_particles f) g1)
    as (F1 & F2 & F3 & F4).
  set (s2 := fst (fst (Web.fall s1 (sf_dt f) (sf_platforms f)
                                (sf_particles f) g1))) in *.
  rewrite F4, C2, T3, F2, C1, F3, F1.
  split; [reflexivity|]. split; [exact T4|]. split; [exact T5|].
  rewrite <- T1.
  destruct (Web.warning s0 && negb (Web.dropped s0)).
  - destruct C3 as [C3 C4]. rewrite C3, C4, T2. auto.
  - rewrite C3. auto.
Qed.

Lemma Web_stone_frame_drop (s : Web.FallingStone)
      (f : StoneFrame Web.ParticleSystem) :
  Web.dropped s = false ->
  let s' := Web_stone_frame s f in
  (Web.dropped s' = true <->
   Web.near 1000 (Web.fs_rect s) (sf_x f) = true /\
   Web.warning s' = true /\ (Web.warning_timer s' <= 0)%Q) /\
  (Web.dropped s' = true ->
   Web.warning_timer s' = (Web.warning_timer s - sf_dt f)%Q).
Proof.
  intros Hd s'.
  destruct (Web_stone_frame_core s f) as [Hfar Hnear]. fold s' in Hfar, Hnear.
  destruct (Web.near 1000 (Web.fs_rect s) (sf_x f)).
  - destruct (Hnear eq_refl) as (_ & _ & _ & H).
    rewrite Hd in H. cbn [negb] in H. rewrite andb_true_r in H.
    destruct (Web.warning s').
    + destruct H as [Ht Hdr]. rewrite Hdr, Ht. split.
      * rewrite Qle_bool_iff. tauto.
      * auto.
    + destruct H as [Ht Hdr]. rewrite Hdr. split.
      * split; [discriminate | intros (_ & H & _); discriminate].
      * discriminate.
  - rewrite (Hfar eq_refl), Hd. split.
    + split; [discriminate | intros (H & _); discriminate].
    + discriminate.
Qed.

Lemma Web_stone_inv_step (wt : Q) (range : Z * Z)
      (fs : list (StoneFrame Web.ParticleSystem)) (s : Web.FallingStone)
      (f : StoneFrame Web.ParticleSystem) :
  Web_stone_inv wt range fs s ->
  Web_stone_inv wt range (fs ++ [f]) (Web_stone_frame s f).
Proof.
  intros (Ir & Id & It & Iw).
  destruct (Web_stone_frame_core s f) as [Hfar Hnear].
  set (s' := Web_stone_frame s f) in *.
  destruct (Web.near 1000 (Web.fs_rect s) (sf_x f)).
  2:{ rewrite (Hfar eq_refl). unfold Web_stone_inv.
      repeat split; try tauto.
      intro Hw. destruct (Iw Hw) as [f0 [Hin Hr]].
      exists f0. split; [apply in_or_app; left; exact Hin | exact Hr]. }
  destruct (Hnear eq_refl) as (Cr & Cw1 & Cw2 & Cc). clear Hfar Hnear.
  unfold Web_stone_inv. rewrite Cr, Ir. split; [reflexivity|].
  destruct (Web.dropped s) eqn:Hd.
  - destruct (proj1 Id eq_refl) as [Hw Ht].
    rewrite (Cw1 Hw) in *. cbn in Cc. destruct Cc as [Ct Cd].
    rewrite Ct, Cd. repeat split; auto; try discriminate.
    intros _. destruct (Iw Hw) as [f0 [Hin Hr]].
    exists f0. split; [apply in_or_app; left; exact Hin | exact Hr].
  - cbn [negb] in Cc. rewrite andb_true_r in Cc.
    destruct (Web.warning s') eqn:Hw'.
    + destruct Cc as [Ct Cd]. rewrite Ct, Cd. split; [|split].
      * rewrite Qle_bool_iff. tauto.
      * discriminate.
      * intros _. destruct (Web.warning s) eqn:Hw.
        -- destruct (Iw eq_refl) as [f0 [Hin Hr]].
           exists f0. split; [apply in_or_app; left; exact Hin | exact Hr].
        -- exists f. split; [apply in_or_app; right; left; reflexivity|].
           rewrite <- Ir. apply Cw2; reflexivity.
    + destruct Cc as [Ct Cd]. rewrite Ct, Cd. split; [|split].
      * split; [discriminate | intros [H _]; discriminate].
      * intros _. apply It. destruct (Web.warning s) eqn:Hw; [|reflexivity].
        specialize (Cw1 eq_refl). congruence.
      * discriminate.
Qed.

Lemma Web_stone_run_inv (x top_y : Z) (range : Z * Z) (wt : Q)
      (fs : list (StoneFrame Web.ParticleSystem)) :
  Web_stone_inv wt range fs
    (Web_stone_run (Web.new_FallingStone x top_y range wt) fs).
Proof.
  induction fs as [|f fs IH] using rev_ind.
  - cbn. unfold Web_stone_inv. cbn. repeat split; try discriminate.
    intros [H _]. discriminate.
  - unfold Web_stone_run in *. rewrite fold_left_app. cbn [fold_left].
    apply Web_stone_inv_step, IH.
Qed.

(** The stone loop of a frame runs every stone through one stone frame. *)
Lemma Desktop_update_stones_frames (stones : list Desktop.FallingStone) (x : Z)
      (dt : Q) (pfs : list Platform) :
  forall (ps : Desktop.ParticleSystem) (r : Rng),
    Forall2 (fun s s' => exists f, sf_x f = x /\ sf_dt f = dt /\
                                   s' = Desktop_stone_frame s f)
            stones (fst (fst (Desktop.update_stones stones x dt pfs ps r))).
Proof.
  induction stones as [|s rest IH]; intros ps r; cbn [Desktop.update_stones].
  - constructor.
  - destruct (Desktop.FallingStone_update _ _ _ _ _) as [[s' ps1] r1] eqn:E.
    specialize (IH ps1 r1).
    destruct (Desktop.update_stones rest x dt pfs ps1 r1) as [[rest' ps2] r2].
    cbn [fst] in *. constructor; [|exact IH].
    exists (mkStoneFrame x dt pfs ps r). unfold Desktop_stone_frame. cbn.
    rewrite E. auto.
Qed.

Lemma Web_update_stones_frames (stones : list Web.FallingStone) (x : Z)
      (dt : Q) (pfs : list Platform) :
  forall (ps : Web.ParticleSystem) (r : Rng),
    Forall2 (fun s s' => exists f, sf_x f = x /\ sf_dt f = dt /\
                                   s' = Web_stone_frame s f)
            stones (fst (fst (Web.update_stones stones x dt pfs ps r))).
Proof.
  induction stones as [|s rest IH]; intros ps r; cbn [Web.update_stones].
  - constructor.
  - destruct (if Web.near 1000 (Web.fs_rect s) x
              then Web.FallingStone_update _ _ _ _ _ else (s, ps, r))
      as [[s' ps1] r1] eqn:E.
    specialize (IH ps1 r1).
    destruct (Web.update_stones rest x dt pfs ps1 r1) as [[rest' ps2] r2].
    cbn [fst] in *. constructor; [|exact IH].
    exists (mkStoneFrame x dt pfs ps r). unfold Web_stone_frame. cbn.
    destruct (Web.near 1000 (Web.fs_rect s) x).
    + rewrite E. auto.
    + injection E as <- _ _. auto.
Qed.

(** C3.  A stone is created with its warning timer at the configured
    duration.  After any sequence of frames: the stone has dropped exactly
    when it is warned and its timer is at or below zero; while it is not
    warned the timer still holds the configured duration; and a dropped
    stone has seen, in one of the frames played so far, the player's x
    position inside its trigger range.  In the frame in which the flag
    turns true the timer has just been decreased by the frame's elapsed
    time to a value at or below zero. *)
Theorem stone_drops_when_timer_runs_out :
  (forall (x top_y : Z) (range : Z * Z) (wt : Q)
          (fs : list (StoneFrame Desktop.ParticleSystem)),
      let s := Desktop_stone_run (Desktop.new_FallingStone x top_y range wt) fs in
      (Desktop.dropped s = true <->
       Desktop.warning s = true /\ (Desktop.warning_timer s <= 0)%Q) /\
      (Desktop.warning s = false -> Desktop.warning_timer s = wt) /\
      (Desktop.dropped s = true ->
       exists f, In f fs /\ in_range range (sf_x f))) /\
  (forall (s : Desktop.FallingStone) (f : StoneFrame Desktop.ParticleSystem),
      Desktop.dropped s = false ->
      let s' := Desktop_stone_frame s f in
      (Desktop.dropped s' = true <->
       Desktop.warning s' = true /\ (Desktop.warning_timer s' <= 0)%Q) /\
      (Desktop.dropped s' = true ->
       Desktop.warning_timer s' = (Desktop.warning_timer s - sf_dt f)%Q)) /\
  (forall (x top_y : Z) (range : Z * Z) (wt : Q)
          (fs : list (StoneFrame Web.ParticleSystem)),
      let s := Web_stone_run (Web.new_FallingStone x top_y range wt) fs in
      (Web.dropped s = true <->
       Web.warning s = true /\ (Web.warning_timer s <= 0)%Q) /\
      (Web.warning s = false -> Web.warning_timer s = wt) /\
      (Web.dropped s = true ->
       exists f, In f fs /\ in_range range (sf_x f))) /\
  (forall (s : Web.FallingStone) (f : StoneFrame Web.ParticleSystem),
      Web.dropped s = false ->
      let s' := Web_stone_frame s f in
      (Web.dropped s' = true <->
       Web.near 1000 (Web.fs_rect s) (sf_x f) = true /\
       Web.warning s' = true /\ (Web.warning_timer s' <= 0)%Q) /\
      (Web.dropped s' = true ->
       Web.warning_timer s' = (Web.warning_timer s - sf_dt f)%Q)).
Proof.
  split; [|split; [|split]].
  - intros x top_y range wt fs s.
    destruct (Desktop_stone_run_inv x top_y range wt fs) as (_ & Id & It & Iw).
    fold s in Id, It, Iw. split; [exact Id|]. split; [exact It|].
    intro Hd. apply Iw. apply Id. exact Hd.
  - exact Desktop_stone_frame_drop.
  - intros x top_y range wt fs s.
    destruct (Web_stone_run_inv x top_y range wt fs) as (_ & Id & It & Iw).
    fold s in Id, It, Iw. split; [exact Id|]. split; [exact It|].
    intro Hd. apply Iw. apply Id. exact Hd.
  - exact Web_stone_frame_drop.
Qed.

(** ** The troll door *)

Lemma Rect_eqb_refl (r : Rect) : Rect_eqb r r = true.
Proof. unfold Rect_eqb. rewrite !Z.eqb_refl. reflexivity. Qed.

Lemma Desktop_maybe_troll_spec (d : Desktop.Door) (pr : Rect)
      (ps : Desktop.ParticleSystem) (g : Rng) :
  let d' := fst (fst (Desktop.maybe_troll d pr ps g)) in
  (Desktop.troll_fires d pr = true ->
   Desktop.trolled_once d' = true /\
   Desktop.d_rect d' = set_topleft (Desktop.d_rect d) (Desktop.alt_pos d) /\
   Desktop.alt_pos d' = Desktop.alt_pos d) /\
  (Desktop.troll_fires d pr = false -> Desktop.maybe_troll d pr ps g = (d, ps, g)).
Proof.
  unfold Desktop.maybe_troll.
  destruct (Desktop.troll_fires d pr).
  - repeat break_let. cbn. split; [auto | discriminate].
  - cbn. split; [discriminate | auto].
Qed.

Lemma Desktop_troll_fires_once (d : Desktop.Door) (pr : Rect) :
  Desktop.trolled_once d = true -> Desktop.troll_fires d pr = false.
Proof. intro H. unfold Desktop.troll_fires. rewrite H. reflexivity. Qed.

Lemma Desktop_door_rel_refl (d : Desktop.Door) : Desktop_door_rel d d.
Proof. unfold Desktop_door_rel. auto. Qed.

Lemma Desktop_door_rel_trans (a b c : Desktop.Door) :
  Desktop_door_rel a b -> Desktop_door_rel b c -> Desktop_door_rel a c.
Proof.
  intros (A1 & A2 & A3) (B1 & B2 & B3). unfold Desktop_door_rel.
  split; [congruence|]. split.
  - intro H. destruct (A2 H) as [H1 H2]. destruct (B2 H1) as [H3 H4].
    split; congruence.
  - intro H. rewrite (B3 H). apply A3.
    destruct (Desktop.trolled_once b) eqn:E; [|reflexivity].
    destruct (B2 eq_refl). congruence.
Qed.

Lemma Desktop_door_rel_troll (d : Desktop.Door) (pr : Rect)
      (ps : Desktop.ParticleSystem) (g : Rng) :
  Desktop_door_rel d (fst (fst (Desktop.maybe_troll d pr ps g))).
Proof.
  destruct (Desktop_maybe_troll_spec d pr ps g) as [Hf Hn].
  destruct (Desktop.troll_fires d pr) eqn:E.
  - destruct (Hf eq_refl) as (H1 & H2 & H3). unfold Desktop_door_rel.
    split; [exact H3|]. split.
    + intro Ht. rewrite (Desktop_troll_fires_once d pr Ht) in E. discriminate.
    + intro Ht. congruence.
  - rewrite (Hn eq_refl). apply Desktop_door_rel_refl.
Qed.

Lemma Desktop_door_rel_set_open (d : Desktop.Door) :
  Desktop_door_rel d (Desktop.set_open d).
Proof. unfold Desktop_door_rel. cbn. auto. Qed.

Lemma Desktop_door_rel_update (d : Desktop.Door) (dt : Q) :
  Desktop_door_rel d (Desktop.Door_update d dt).
Proof. unfold Desktop_door_rel. cbn. auto. Qed.

Lemma Desktop_door_interactions_door (g : Desktop.Game) (now : Q) (r : Rng) :
  Desktop_door_rel (Desktop.door g)
                   (Desktop.door (fst (Desktop.door_interactions g now r))).
Proof.
  unfold Desktop.door_interactions.
  pose proof (Desktop_door_rel_troll (Desktop.door g)
                (Desktop.rect (Desktop.player g)) (Desktop.particles g) r) as Ht.
  destruct (Desktop.maybe_troll _ _ _ _) as [[d ps] r1]. cbn [fst] in Ht.
  set (d1 := if colliderect (Desktop.rect (Desktop.player g))
                            (Desktop.win_trigger g)
             then Desktop.set_open d else d).
  assert (H1 : Desktop_door_rel (Desktop.door g) d1).
  { unfold d1. destruct (colliderect _ _); [|exact Ht].
    eapply Desktop_door_rel_trans; [exact Ht | apply Desktop_door_rel_set_open]. }
  destruct (Desktop.check_win_collision d1 _).
  - destruct (Desktop_win_game_spec (Desktop.set_door g d1 ps) now r1)
      as (_ & _ & _ & Hd).
    cbn zeta in Hd. rewrite Hd. exact H1.
  - exact H1.
Qed.

Lemma Desktop_handle_collisions_door (g : Desktop.Game) (now : Q) (r : Rng) :
  Desktop_door_rel (Desktop.door g)
                   (Desktop.door (fst (Desktop.handle_collisions g now r))).
Proof.
  unfold Desktop.handle_collisions.
  destruct (negb (GameState_eqb (Desktop.state g) PLAYING));
    [apply Desktop_door_rel_refl|].
  destruct (Desktop_wall_collision_frame g r) as (_ & _ & _ & Hd & _).
  destruct (Desktop.wall_collision g r) as [g1 r1]. cbn [fst] in Hd.
  rewrite <- Hd.
  repeat break_if.
  - destruct (Desktop_kill_player_spec g1 now r1) as (_ & _ & _ & H & _).
    cbn zeta in H. rewrite H. apply Desktop_door_rel_refl.
  - destruct (Desktop_kill_player_spec g1 now r1) as (_ & _ & _ & H & _).
    cbn zeta in H. rewrite H. apply Desktop_door_rel_refl.
  - apply Desktop_door_interactions_door.
Qed.

Lemma Desktop_update_door (m : Math) (g : Desktop.Game) (f : Frame) :
  K_r (f_keys f) = false ->
  Desktop_door_rel (Desktop.door g) (Desktop.door (fst (Desktop.update m g f))).
Proof.
  intro Hr. destruct (K_ESCAPE (f_keys f)) eqn:He.
  - unfold Desktop.update. rewrite Hr, He. apply Desktop_door_rel_refl.
  - destruct (Desktop_update_shape m g f Hr He)
      as (g' & r & Hu & _ & _ & _ & _ & Hd & _).
    rewrite Hu. cbn [fst].
    eapply Desktop_door_rel_trans; [|apply Desktop_handle_collisions_door].
    rewrite Hd. apply Desktop_door_rel_update.
Qed.

Lemma Desktop_run_door (m : Math) (fs : list Frame) :
  forall g : Desktop.Game,
    no_reset fs ->
    Desktop_door_rel (Desktop.door g) (Desktop.door (Desktop.run m g fs)).
Proof.
  induction fs as [|f fs IH]; intros g Hn; cbn [Desktop.run].
  - apply Desktop_door_rel_refl.
  - inversion Hn as [|? ? Hf Hrest]; subst.
    pose proof (Desktop_update_door m g f Hf) as H1.
    destruct (Desktop.update m g f) as [g' running]. cbn [fst] in H1.
    destruct running; [|exact H1].
    eapply Desktop_door_rel_trans; [exact H1 | apply IH; exact Hrest].
Qed.

Lemma Desktop_door_moves_trolled (m : Math) (fs : list Frame) :
  forall g : Desktop.Game,
    no_reset fs -> Desktop.trolled_once (Desktop.door g) = true ->
    Desktop_door_moves m g fs = 0%nat.
Proof.
  induction fs as [|f fs IH]; intros g Hn Ht; cbn [Desktop_door_moves];
    [reflexivity|].
  inversion Hn as [|? ? Hf Hrest]; subst.
  destruct (Desktop_update_door m g f Hf) as (_ & H2 & _).
  destruct (H2 Ht) as [Ht' Hr'].
  destruct (Desktop.update m g f) as [g' running]. cbn [fst] in *.
  rewrite Hr', Rect_eqb_refl.
  destruct running; [apply IH; assumption | reflexivity].
Qed.

Lemma Desktop_door_moves_once (m : Math) (fs : list Frame) :
  forall g : Desktop.Game,
    no_reset fs -> (Desktop_door_moves m g fs <= 1)%nat.
Proof.
  induction fs as [|f fs IH]; intros g Hn; cbn [Desktop_door_moves]; [lia|].
  inversion Hn as [|? ? Hf Hrest]; subst.
  destruct (Desktop_update_door m g f Hf) as (_ & _ & H3).
  destruct (Desktop.update m g f) as [g' running]. cbn [fst] in *.
  destruct (Desktop.trolled_once (Desktop.door g')) eqn:Ht.
  - assert (E : (if running then Desktop_door_moves m g' fs else 0%nat) = 0%nat).
    { destruct running; [|reflexivity].
      apply Desktop_door_moves_trolled; assumption. }
    rewrite E. destruct (Rect_eqb _ _); lia.
  - rewrite (H3 eq_refl), Rect_eqb_refl.
    destruct running; [apply IH; assumption | lia].
Qed.

Lemma Web_maybe_troll_spec (d : Web.Door) (pr : Rect)
      (ps : Web.ParticleSystem) (g : Rng) :
  let d' := fst (fst (Web.maybe_troll d pr ps g)) in
  (Web.troll_fires d pr = true ->
   Web.trolled_once d' = true /\
   Web.active_rect d' = Web.rect2 d /\
   Web.rect1 d' = Web.rect1 d /\ Web.rect2 d' = Web.rect2 d) /\
  (Web.troll_fires d pr = false -> Web.maybe_troll d pr ps g = (d, ps, g)).
Proof.
  unfold Web.maybe_troll, Web.troll_fires.
  destruct (Web.trolled_once d || Web.d_open d || Qgt_bool (Web.troll_cooldown d) 0).
  - cbn. split; [discriminate | auto].
  - cbn [negb andb].
    destruct (colliderect pr (inflate (Web.rect1 d) 60 60)).
    + repeat break_let. cbn. split; [auto | discriminate].
    + cbn. split; [discriminate | auto].
Qed.

Lemma Web_troll_fires_once (d : Web.Door) (pr : Rect) :
  Web.trolled_once d = true -> Web.troll_fires d pr = false.
Proof. intro H. unfold Web.troll_fires. rewrite H. reflexivity. Qed.

Lemma Web_door_rel_refl (d : Web.Door) : Web_door_rel d d.
Proof. unfold Web_door_rel. auto. Qed.

Lemma Web_door_rel_trans (a b c : Web.Door) :
  Web_door_rel a b -> Web_door_rel b c -> Web_door_rel a c.
Proof.
  intros (A0 & A1 & A2 & A3) (B0 & B1 & B2 & B3). unfold Web_door_rel.
  split; [congruence|]. split; [congruence|]. split.
  - intro H. destruct (A2 H) as [H1 H2]. destruct (B2 H1) as [H3 H4].
    split; congruence.
  - intro H. rewrite (B3 H). apply A3.
    destruct (Web.trolled_once b) eqn:E; [|reflexivity].
    destruct (B2 eq_refl). congruence.
Qed.

Lemma Web_door_rel_troll (d : Web.Door) (pr : Rect)
      (ps : Web.ParticleSystem) (g : Rng) :
  Web_door_rel d (fst (fst (Web.maybe_troll d pr ps g))).
Proof.
  destruct (Web_maybe_troll_spec d pr ps g) as [Hf Hn].
  destruct (Web.troll_fires d pr) eqn:E.
  - destruct (Hf eq_refl) as (H1 & H2 & H3 & H4). unfold Web_door_rel.
    split; [exact H3|]. split; [exact H4|]. split.
    + intro Ht. rewrite (Web_troll_fires_once d pr Ht) in E. discriminate.
    + intro Ht. congruence.
  - rewrite (Hn eq_refl). apply Web_door_rel_refl.
Qed.

Lemma Web_door_rel_set_open (d : Web.Door) : Web_door_rel d (Web.set_open d).
Proof. unfold Web_door_rel. cbn. auto. Qed.

Lemma Web_door_rel_update (d : Web.Door) (dt : Q) :
  Web_door_rel d (Web.Door_update d dt).
Proof. unfold Web_door_rel. cbn. auto. Qed.

Lemma Web_door_interactions_door (g : Web.Game) (now : Q) (r : Rng) :
  Web_door_rel (Web.door g) (Web.door (fst (Web.door_interactions g now r))).
Proof.
  unfold Web.door_interactions.
  pose proof (Web_door_rel_troll (Web.door g) (Web.rect (Web.player g))
                                 (Web.g_particles g) r) as Ht.
  destruct (Web.maybe_troll _ _ _ _) as [[d ps] r1]. cbn [fst] in Ht.
  set (d1 := if colliderect (Web.rect (Web.player g)) (Web.win_trigger g)
             then Web.set_open d else d).
  assert (H1 : Web_door_rel (Web.door g) d1).
  { unfold d1. destruct (colliderect _ _); [|exact Ht].
    eapply Web_door_rel_trans; [exact Ht | apply Web_door_rel_set_open]. }
  destruct (Web.check_win_collision d1 _).
  - destruct (Web_win_game_spec (Web.set_door g d1 ps) now r1)
      as (_ & _ & _ & Hd).
    cbn zeta in Hd. rewrite Hd. exact H1.
  - exact H1.
Qed.

Lemma Web_handle_collisions_door (g : Web.Game) (now : Q) (r : Rng) :
  Web_door_rel (Web.door g) (Web.door (fst (Web.handle_collisions g now r))).
Proof.
  unfold Web.handle_collisions.
  destruct (negb (GameState_eqb (Web.state g) PLAYING));
    [apply Web_door_rel_refl|].
  destruct (Web_before_kill_checks_frame g r) as (_ & _ & _ & _ & Hd & _).
  destruct (Web.before_kill_checks g r) as [g1 r1]. cbn [fst] in Hd.
  rewrite <- Hd.
  break_if.
  - destruct (Web_kill_player_spec g1 now r1) as (_ & _ & _ & H & _).
    cbn zeta in H. rewrite H. apply Web_door_rel_refl.
  - apply Web_door_interactions_door.
Qed.

Lemma Web_update_door (m : Math) (g : Web.Game) (f : Frame) :
  K_r (f_keys f) = false ->
  Web_door_rel (Web.door g) (Web.door (fst (Web.update m g f))).
Proof.
  intro Hr. destruct (K_ESCAPE (f_keys f)) eqn:He.
  - unfold Web.update. rewrite Hr, He. apply Web_door_rel_refl.
  - destruct (Web_update_shape m g f Hr He)
      as (g' & r & Hu & _ & _ & _ & _ & Hd & _).
    rewrite Hu. cbn [fst].
    eapply Web_door_rel_trans; [|apply Web_handle_collisions_door].
    rewrite Hd. apply Web_door_rel_update.
Qed.

Lemma Web_run_door (m : Math) (fs : list Frame) :
  forall g : Web.Game,
    no_reset fs -> Web_door_rel (Web.door g) (Web.door (Web.run m g fs)).
Proof.
  induction fs as [|f fs IH]; intros g Hn; cbn [Web.run].
  - apply Web_door_rel_refl.
  - inversion Hn as [|? ? Hf Hrest]; subst.
    pose proof (Web_update_door m g f Hf) as H1.
    destruct (Web.update m g f) as [g' running]. cbn [fst] in H1.
    destruct running; [|exact H1].
    eapply Web_door_rel_trans; [exact H1 | apply IH; exact Hrest].
Qed.

Lemma Web_door_moves_trolled (m : Math) (fs : list Frame) :
  forall g : Web.Game,
    no_reset fs -> Web.trolled_once (Web.door g) = true ->
    Web_door_moves m g fs = 0%nat.
Proof.
  induction fs as [|f fs IH]; intros g Hn Ht; cbn [Web_door_moves];
    [reflexivity|].
  inversion Hn as [|? ? Hf Hrest]; subst.
  destruct (Web_update_door m g f Hf) as (_ & _ & H2 & _).
  destruct (H2 Ht) as [Ht' Hr'].
  destruct (Web.update m g f) as [g' running]. cbn [fst] in *.
  rewrite Hr', Rect_eqb_refl.
  destruct running; [apply IH; assumption | reflexivity].
Qed.

Lemma Web_door_moves_once (m : Math) (fs : list Frame) :
  forall g : Web.Game, no_reset fs -> (Web_door_moves m g fs <= 1)%nat.
Proof.
  induction fs as [|f fs IH]; intros g Hn; cbn [Web_door_moves]; [lia|].
  inversion Hn as [|? ? Hf Hrest]; subst.
  destruct (Web_update_door m g f Hf) as (_ & _ & _ & H3).
  destruct (Web.update m g f) as [g' running]. cbn [fst] in *.
  destruct (Web.trolled_once (Web.door g')) eqn:Ht.
  - assert (E : (if running then Web_door_moves m g' fs else 0%nat) = 0%nat).
    { destruct running; [|reflexivity].
      apply Web_door_moves_trolled; assumption. }
    rewrite E. destruct (Rect_eqb _ _); lia.
  - rewrite (H3 eq_refl), Rect_eqb_refl.
    destruct running; [apply IH; assumption | lia].
Qed.

(** C4.  In both variants: a call of [maybe_troll] whose test holds sets
    [trolled_once] and moves the door to its alternate rectangle; once
    [trolled_once] is set, [maybe_troll] changes nothing; through every
    session without reset a door that is trolled stays trolled at the same
    place; and the door changes place in at most one frame of the
    session. *)
Theorem door_trolls_at_most_once :
  (forall (d : Desktop.Door) (pr : Rect) (ps : Desktop.ParticleSystem) (g : Rng),
      Desktop.troll_fires d pr = true ->
      let d' := fst (fst (Desktop.maybe_troll d pr ps g)) in
      Desktop.trolled_once d' = true /\
      Desktop.d_rect d' = set_topleft (Desktop.d_rect d) (Desktop.alt_pos d)) /\
  (forall (d : Desktop.Door) (pr : Rect) (ps : Desktop.ParticleSystem) (g : Rng),
      Desktop.trolled_once d = true ->
      Desktop.maybe_troll d pr ps g = (d, ps, g)) /\
  (forall (m : Math) (g : Desktop.Game) (fs : list Frame),
      no_reset fs ->
      (Desktop.trolled_once (Desktop.door g) = true ->
       Desktop.trolled_once (Desktop.door (Desktop.run m g fs)) = true /\
       Desktop.d_rect (Desktop.door (Desktop.run m g fs)) =
       Desktop.d_rect (Desktop.door g)) /\
      (Desktop_door_moves m g fs <= 1)%nat) /\
  (forall (d : Web.Door) (pr : Rect) (ps : Web.ParticleSystem) (g : Rng),
      Web.troll_fires d pr = true ->
      let d' := fst (fst (Web.maybe_troll d pr ps g)) in
      Web.trolled_once d' = true /\ Web.active_rect d' = Web.rect2 d) /\
  (forall (d : Web.Door) (pr : Rect) (ps : Web.ParticleSystem) (g : Rng),
      Web.trolled_once d = true ->
      Web.maybe_troll d pr ps g = (d, ps, g)) /\
  (forall (m : Math) (g : Web.Game) (fs : list Frame),
      no_reset fs ->
      (Web.trolled_once (Web.door g) = true ->
       Web.trolled_once (Web.door (Web.run m g fs)) = true /\
       Web.active_rect (Web.door (Web.run m g fs)) =
       Web.active_rect (Web.door g)) /\
      (Web_door_moves m g fs <= 1)%nat).
Proof.
  split; [|split; [|split; [|split; [|split]]]].
  - intros d pr ps g H d'.
    destruct (proj1 (Desktop_maybe_troll_spec d pr ps g) H) as (H1 & H2 & _).
    auto.
  - intros d pr ps g H.
    apply (proj2 (Desktop_maybe_troll_spec d pr ps g)).
    apply Desktop_troll_fires_once, H.
  - intros m g fs Hn. split.
    + apply (Desktop_run_door m fs g Hn).
    + apply Desktop_door_moves_once, Hn.
  - intros d pr ps g H d'.
    destruct (proj1 (Web_maybe_troll_spec d pr ps g) H) as (H1 & H2 & _).
    auto.
  - intros d pr ps g H.
    apply (proj2 (Web_maybe_troll_spec d pr ps g)).
    apply Web_troll_fires_once, H.
  - intros m g fs Hn. split.
    + apply (Web_run_door m fs g Hn).
    + apply Web_door_moves_once, Hn.
Qed.

Lemma door_trolls_at_most_once_witness :
  Desktop.trolled_once
    (fst (fst (Desktop.maybe_troll desktop_door at_the_door [] some_rng))) = true /\
  Web.active_rect
    (fst (fst (Web.maybe_troll web_door at_the_door Web.new_ParticleSystem
                               some_rng))) = Web.rect2 web_door /\
  (Desktop_door_moves trivial_math (Desktop.new_Game 0)
                      [idle_frame; idle_frame] <= 1)%nat.
Proof.
  split; [|split].
  - apply (proj1 door_trolls_at_most_once desktop_door at_the_door [] some_rng).
    vm_compute. reflexivity.
  - apply (proj1 (proj2 (proj2 (proj2 door_trolls_at_most_once)))
             web_door at_the_door Web.new_ParticleSystem some_rng).
    vm_compute. reflexivity.
  - apply (proj1 (proj2 (proj2 door_trolls_at_most_once))
             trivial_math (Desktop.new_Game 0) [idle_frame; idle_frame]).
    repeat constructor.
Defined.

Lemma stone_drops_when_timer_runs_out_witness :
  Desktop.dropped (Desktop_stone_frame desktop_stone desktop_stone_frame) = true /\
  Desktop.warning_timer (Desktop_stone_frame desktop_stone desktop_stone_frame) =
    (Desktop.warning_timer desktop_stone - sf_dt desktop_stone_frame)%Q /\
  Web.warning_timer (Web_stone_frame web_stone web_stone_frame) =
    (Web.warning_timer web_stone - sf_dt web_stone_frame)%Q.
Proof.
  split; [|split].
  - apply (proj1 (proj1 (proj2 stone_drops_when_timer_runs_out)
                        desktop_stone desktop_stone_frame eq_refl)).
    vm_compute. split; [reflexivity | discriminate].
  - apply (proj2 (proj1 (proj2 stone_drops_when_timer_runs_out)
                        desktop_stone desktop_stone_frame eq_refl)).
    vm_compute. reflexivity.
  - apply (proj2 (proj2 (proj2 (proj2 stone_drops_when_timer_runs_out))
                        web_stone web_stone_frame eq_refl)).
    vm_compute. reflexivity.
Defined.

(** ** Jumping *)

Lemma Desktop_first_jump (p : Desktop.Player) (k : Keys) (dt : Q) :
  Desktop_standing p -> jump_pressed k = true ->
  let p' := Desktop.control p k dt in
  Desktop.vy p' = JUMP_VELOCITY /\ Desktop.on_ground p' = false /\
  Desktop_airborne_fresh p'.
Proof.
  intros (Hg & Hc & Hb & Hd) Hj. unfold Desktop.control.
  rewrite Hj.
  apply Qgt_bool_iff in Hb. apply Qgt_bool_iff in Hc. rewrite Hb, Hc.
  cbn. unfold Desktop_airborne_fresh. cbn.
  repeat split; auto.
  - discriminate.
  - apply Qgt_bool_iff. exact Hb.
Qed.

Lemma Desktop_second_jump (p : Desktop.Player) (k : Keys) (dt : Q) :
  Desktop_airborne_fresh p -> jump_pressed k = true ->
  let p' := Desktop.control p k dt in
  Desktop.vy p' = DOUBLE_JUMP_VELOCITY /\
  Desktop.has_double_jumped p' = true /\
  Desktop_airborne_spent p'.
Proof.
  intros (Hg & Hc & Hb & Hcd & Hd) Hj. unfold Desktop.control.
  rewrite Hj.
  pose proof Hb as Hb'. apply Qgt_bool_iff in Hb'.
  pose proof Hc as Hc'. apply Qgt_bool_false_iff in Hc'.
  rewrite Hb', Hc', Hcd, Hd. cbn. rewrite Hc'.
  unfold Desktop_airborne_spent. cbn. repeat split; auto.
Qed.

Lemma Desktop_third_jump (p : Desktop.Player) (k : Keys) (dt : Q) :
  Desktop_airborne_spent p -> jump_pressed k = true ->
  let p' := Desktop.control p k dt in
  Desktop.vy p' = Desktop.vy p /\
  Desktop_airborne_spent p' /\
  (no_direction k -> (Desktop.vx p == 0)%Q -> (Desktop.vx p' == 0)%Q).
Proof.
  intros (Hg & Hc & Hb & Hcd & Hd) Hj. unfold Desktop.control.
  rewrite Hj.
  pose proof Hb as Hb'. apply Qgt_bool_iff in Hb'.
  pose proof Hc as Hc'. apply Qgt_bool_false_iff in Hc'.
  rewrite Hb', Hc', Hcd, Hd, Hg. cbn -[Qmult Qplus Qminus]. rewrite Hc'.
  unfold Desktop_airborne_spent. cbn -[Qmult Qplus Qminus].
  repeat split; auto.
  intros (K1 & K2 & K3 & K4) Hx. rewrite K1, K2, K3, K4.
  cbn -[Qmult Qplus Qminus]. rewrite Hx. reflexivity.
Qed.

Lemma Web_first_jump (p : Web.Player) (k : Keys) (dt : Q) :
  Web_standing p -> jump_pressed k = true ->
  let p' := Web.control p k dt in
  Web.vy p' = JUMP_VELOCITY /\ Web.on_ground p' = false /\
  Web_airborne_fresh p'.
Proof.
  intros (Hd & Hw & Hg) Hj. unfold Web.control.
  rewrite Hd, Hw, Hg. cbn [orb].
  assert (E : K_UP k || K_w k || K_SPACE k = true).
  { unfold jump_pressed in Hj. destruct (K_UP k), (K_w k), (K_SPACE k);
      auto. }
  rewrite E. cbn. unfold Web_airborne_fresh. cbn.
  repeat split; auto. discriminate.
Qed.

Lemma Web_second_jump (p : Web.Player) (k : Keys) (dt : Q) :
  Web_airborne_fresh p -> jump_pressed k = true ->
  let p' := Web.control p k dt in
  Web.vy p' = DOUBLE_JUMP_VELOCITY /\
  Web.has_double_jumped p' = true /\
  Web_airborne_spent p'.
Proof.
  intros (Hd & Hw & Hg & Hc & Hcd & Hdj) Hj. unfold Web.control.
  rewrite Hd, Hw, Hg, Hcd, Hdj. cbn [orb andb negb].
  assert (E : K_UP k || K_w k || K_SPACE k = true).
  { unfold jump_pressed in Hj. destruct (K_UP k), (K_w k), (K_SPACE k);
      auto. }
  rewrite E.
  pose proof Hc as Hc'. apply Qgt_bool_false_iff in Hc'. rewrite Hc', Hc'.
  cbn. unfold Web_airborne_spent. cbn. repeat split; auto.
Qed.

Lemma Web_third_jump (p : Web.Player) (k : Keys) (dt : Q) :
  Web_airborne_spent p -> jump_pressed k = true ->
  let p' := Web.control p k dt in
  Web.vy p' = Web.vy p /\
  Web_airborne_spent p' /\
  (no_direction k -> (Web.vx p' == Web.vx p)%Q).
Proof.
  intros (Hd & Hw & Hg & Hc & Hcd & Hdj) Hj. unfold Web.control.
  rewrite Hd, Hw, Hg, Hcd, Hdj. cbn [orb andb negb].
  assert (E : K_UP k || K_w k || K_SPACE k = true).
  { unfold jump_pressed in Hj. destruct (K_UP k), (K_w k), (K_SPACE k);
      auto. }
  rewrite E.
  pose proof Hc as Hc'. apply Qgt_bool_false_iff in Hc'. rewrite Hc', Hc'.
  cbn -[Qmult Qplus]. unfold Web_airborne_spent. cbn -[Qmult Qplus].
  repeat split; auto.
  intros (K1 & K2 & K3 & K4). rewrite K1, K2, K3, K4.
  cbn -[Qmult Qplus]. ring.
Qed.

(** *** A frame of physics that does not land keeps the jump state *)

Lemma Desktop_horizontal_fold_flags (platforms : list Platform) :
  forall p : Desktop.Player,
    let p' := fold_left Desktop.horizontal_step platforms p in
    Desktop_flags p' = Desktop_flags p /\
    Desktop.on_ground p' = Desktop.on_ground p /\
    Desktop.vy p' = Desktop.vy p.
Proof.
  induction platforms as [|q rest IH]; intros p; cbn [fold_left].
  - auto.
  - destruct (IH (Desktop.horizontal_step p q)) as (A1 & A2 & A3).
    cbn zeta. rewrite A1, A2, A3. unfold Desktop.horizontal_step.
    repeat break_if; cbn; auto.
Qed.

Lemma Desktop_vertical_step_cases (p : Desktop.Player)
      (ps : Desktop.ParticleSystem) (g : Rng) (q : Platform) :
  let p' := fst (fst (Desktop.vertical_step (p, ps, g) q)) in
  (Desktop.on_ground p' = true /\ Desktop.vy p' = 0%Q) \/
  (Desktop_flags p' = Desktop_flags p /\
   Desktop.on_ground p' = Desktop.on_ground p).
Proof.
  unfold Desktop.vertical_step.
  destruct (colliderect _ _); [|right; cbn; auto].
  destruct (Qgt_bool (Desktop.vy p) 0).
  - left. break_let. cbn. auto.
  - right. destruct (Qlt_bool (Desktop.vy p) 0); cbn; auto.
Qed.

Lemma Desktop_vertical_fold_cases (platforms : list Platform) :
  forall (p : Desktop.Player) (ps : Desktop.ParticleSystem) (g : Rng),
    let p' := fst (fst (fold_left Desktop.vertical_step platforms (p, ps, g))) in
    Desktop.on_ground p' = true \/
    (Desktop_flags p' = Desktop_flags p /\
     Desktop.on_ground p' = Desktop.on_ground p).
Proof.
  induction platforms as [|q rest IH]; intros p ps g; cbn [fold_left].
  - right. cbn. auto.
  - pose proof (Desktop_vertical_step_cases p ps g q) as Hs.
    destruct (Desktop.vertical_step (p, ps, g) q) as [[p1 ps1] g1].
    cbn [fst] in Hs. destruct Hs as [[Hg Hz] | [Hf Hg]].
    + left. rewrite Desktop_vertical_fold_still by (rewrite Hz; reflexivity).
      exact Hg.
    + destruct (IH p1 ps1 g1) as [H | [H1 H2]]; [left; exact H | right].
      cbn zeta. split; congruence.
Qed.

Lemma Desktop_keep_in_bounds_flags (p : Desktop.Player) :
  let p' := Desktop.keep_in_bounds p in
  Desktop_flags p' = Desktop_flags p /\
  (Desktop.on_ground p' = false -> Desktop.on_ground p = false).
Proof.
  unfold Desktop.keep_in_bounds.
  repeat break_if; cbn; (split; [reflexivity | first [discriminate | auto]]).
Qed.

Lemma Desktop_walking_dust_flags (dt : Q) (p : Desktop.Player)
      (ps : Desktop.ParticleSystem) (g : Rng) :
  let p' := fst (fst (Desktop.walking_dust dt (p, ps, g))) in
  Desktop_flags p' = Desktop_flags p /\
  Desktop.on_ground p' = Desktop.on_ground p.
Proof.
  unfold Desktop.walking_dust. repeat first [break_if | break_let]; cbn; auto.
Qed.

Lemma Desktop_animate_flags (dt : Q) (p : Desktop.Player) :
  let p' := Desktop.animate dt p in
  Desktop_flags p' = Desktop_flags p /\
  Desktop.on_ground p' = Desktop.on_ground p.
Proof.
  unfold Desktop.animate. break_if; cbn; auto.
Qed.

Lemma Desktop_after_collisions_airborne (dt : Q) (p : Desktop.Player)
      (ps : Desktop.ParticleSystem) (g : Rng) :
  let p' := fst (fst (Desktop.after_collisions false dt (p, ps, g))) in
  Desktop.on_ground p' = false ->
  Desktop.on_ground p = false /\ Desktop_flags p' = Desktop_flags p.
Proof.
  unfold Desktop.after_collisions.
  set (p1 := Desktop.coyote_update false p).
  destruct (Desktop_keep_in_bounds_flags p1) as [B1 B2].
  set (p2 := Desktop.keep_in_bounds p1) in *.
  pose proof (Desktop_walking_dust_flags dt p2 ps g) as W.
  destruct (Desktop.walking_dust dt (p2, ps, g)) as [[p3 ps3] g3].
  cbn [fst] in *. destruct W as [W1 W2].
  destruct (Desktop_animate_flags dt p3) as [A1 A2].
  intro H. rewrite A2, W2 in H. specialize (B2 H).
  assert (Hp : Desktop.on_ground p = false /\ p1 = p).
  { unfold p1, Desktop.coyote_update in B2 |- *. cbn [andb] in *.
    destruct (Desktop.on_ground p) eqn:E0; [cbn in B2; congruence | auto]. }
  destruct Hp as [Hg E]. split; [exact Hg|].
  rewrite A1, W1, B1, E. reflexivity.
Qed.

Lemma Desktop_physics_airborne (p : Desktop.Player) (dt : Q)
      (platforms : list Platform) (ps : Desktop.ParticleSystem) (g : Rng) :
  Desktop.on_ground p = false ->
  let p' := fst (fst (Desktop.physics p dt platforms ps g)) in
  Desktop.on_ground p' = false ->
  Desktop_flags p' = Desktop_flags p.
Proof.
  intros Hg. unfold Desktop.physics.
  set (p1 := Desktop.gravity_step p).
  assert (G : Desktop_flags p1 = Desktop_flags p /\ Desktop.on_ground p1 = false).
  { unfold p1, Desktop.gravity_step. rewrite Hg. cbn. auto. }
  set (p2 := Desktop.move_x p1).
  destruct (Desktop_horizontal_fold_flags platforms p2) as (H1 & H2 & _).
  set (p3 := fold_left Desktop.horizontal_step platforms p2) in *.
  assert (E3 : Desktop.on_ground (Desktop.move_y p3) = false).
  { cbn. rewrite H2. cbn. apply G. }
  rewrite E3.
  pose proof (Desktop_vertical_fold_cases platforms
                (Desktop.set_on_ground (Desktop.move_y p3) false) ps g) as V.
  unfold Desktop.vertical_collisions.
  destruct (fold_left Desktop.vertical_step platforms _) as [[p4 ps4] g4].
  cbn [fst] in V.
  intros Hp'.
  destruct (Desktop_after_collisions_airborne dt p4 ps4 g4 Hp') as [A1 A2].
  rewrite A2. destruct V as [V | [V1 V2]]; [congruence|].
  rewrite V1. change (Desktop_flags p3 = Desktop_flags p).
  rewrite H1. change (Desktop_flags p1 = Desktop_flags p). apply G.
Qed.

Lemma Web_horizontal_fold_flags (platforms : list Platform) :
  forall p : Web.Player,
    let p' := fold_left Web.horizontal_step platforms p in
    Web_flags p' = Web_flags p /\
    Web.on_ground p' = Web.on_ground p /\
    Web.vy p' = Web.vy p /\
    Web.jump_buffer p' = Web.jump_buffer p.
Proof.
  induction platforms as [|q rest IH]; intros p; cbn [fold_left].
  - auto.
  - destruct (IH (Web.horizontal_step p q)) as (A1 & A2 & A3 & A4).
    cbn zeta. rewrite A1, A2, A3, A4. unfold Web.horizontal_step.
    repeat break_if; cbn; auto.
Qed.

(** A step of the vertical loop, for a player that cannot fire a buffered
    jump: it lands, or it keeps the jump state. *)
Lemma Web_vertical_step_cases (p : Web.Player) (ps : Web.ParticleSystem)
      (g : Rng) (q : Platform) :
  (Web.jump_buffer p <= 0)%Q \/ (Web.vy p <= 0)%Q ->
  let p' := fst (fst (Web.vertical_step (p, ps, g) q)) in
  (Web.on_ground p' = true /\ Web.vy p' = 0%Q) \/
  (Web_flags p' = Web_flags p /\
   Web.on_ground p' = Web.on_ground p /\
   ((Web.jump_buffer p' <= 0)%Q \/ (Web.vy p' <= 0)%Q)).
Proof.
  intro H. unfold Web.vertical_step.
  destruct (colliderect _ _); [|right; cbn; auto].
  destruct (Qgt_bool (Web.vy p) 0) eqn:Hv.
  - apply Qgt_bool_iff in Hv.
    destruct H as [Hb | Hle]; [|exfalso; exact (Qlt_not_le _ _ Hv Hle)].
    apply Qgt_bool_false_iff in Hb. rewrite Hb. left. cbn. auto.
  - right. destruct (Qlt_bool (Web.vy p) 0); cbn; auto.
    repeat split; auto. right. apply Qle_refl.
Qed.

Lemma Web_vertical_fold_cases (platforms : list Platform) :
  forall (p : Web.Player) (ps : Web.ParticleSystem) (g : Rng),
    (Web.jump_buffer p <= 0)%Q \/ (Web.vy p <= 0)%Q ->
    let p' := fst (fst (fold_left Web.vertical_step platforms (p, ps, g))) in
    Web.on_ground p' = true \/
    (Web_flags p' = Web_flags p /\ Web.on_ground p' = Web.on_ground p).
Proof.
  induction platforms as [|q rest IH]; intros p ps g H; cbn [fold_left].
  - right. cbn. auto.
  - pose proof (Web_vertical_step_cases p ps g q H) as Hs.
    destruct (Web.vertical_step (p, ps, g) q) as [[p1 ps1] g1].
    cbn [fst] in Hs. destruct Hs as [[Hg Hz] | (Hf & Hg & H')].
    + left. rewrite Web_vertical_fold_still by (rewrite Hz; reflexivity).
      exact Hg.
    + destruct (IH p1 ps1 g1 H') as [H1 | [H1 H2]]; [left; exact H1 | right].
      cbn zeta. split; congruence.
Qed.

Lemma Web_physics_airborne (p : Web.Player) (dt : Q)
      (platforms : list Platform) (ps : Web.ParticleSystem) (g : Rng) :
  Web.on_ground p = false ->
  (Web.jump_buffer p <= 0)%Q \/ (Web.vy p + GRAVITY <= 0)%Q ->
  let p' := fst (fst (Web.physics p dt platforms ps g)) in
  Web.on_ground p' = false ->
  Web_flags p' = Web_flags p.
Proof.
  intros Hg Hb. unfold Web.physics.
  destruct (Web.dead p || Web.win p); [cbn; auto|].
  set (p1 := Web.friction_gravity p).
  assert (G : Web_flags p1 = Web_flags p /\ Web.on_ground p1 = false /\
              ((Web.jump_buffer p1 <= 0)%Q \/ (Web.vy p1 <= 0)%Q)).
  { unfold p1, Web.friction_gravity. cbn. repeat split; auto.
    destruct Hb as [Hb | Hb]; [left; exact Hb | right].
    destruct (Qgt_bool (Web.vy p + GRAVITY) TERMINAL_VELOCITY) eqn:E;
      [|exact Hb].
    apply Qgt_bool_iff in E. exfalso.
    assert (Ht : (0 < TERMINAL_VELOCITY)%Q) by reflexivity.
    apply (Qlt_not_le _ _ (Qlt_trans _ _ _ Ht E)). exact Hb. }
  destruct G as (G1 & G2 & G3).
  set (p2 := Web.move_x p1).
  destruct (Web_horizontal_fold_flags platforms p2) as (H1 & H2 & H3 & H4).
  set (p3 := fold_left Web.horizontal_step platforms p2) in *.
  assert (E3 : Web.on_ground p3 = false) by (rewrite H2; exact G2).
  rewrite E3.
  set (q0 := Web.move_y (Web.set_on_ground p3 false)).
  assert (Hq : (Web.jump_buffer q0 <= 0)%Q \/ (Web.vy q0 <= 0)%Q).
  { change ((Web.jump_buffer p3 <= 0)%Q \/ (Web.vy p3 <= 0)%Q).
    rewrite H3, H4. exact G3. }
  pose proof (Web_vertical_fold_cases platforms q0 ps g Hq) as V.
  unfold Web.vertical_collisions.
  destruct (fold_left Web.vertical_step platforms _) as [[p4 ps4] g4].
  cbn [fst] in *.
  unfold Web.after_collisions. cbn [andb Web.on_ground Web_flags Web.dead
    Web.win Web.coyote_time Web.can_double_jump Web.has_double_jumped].
  intro Hp'. destruct V as [V | [V1 V2]]; [congruence|].
  change (Web_flags p4 = Web_flags p). rewrite V1.
  change (Web_flags p3 = Web_flags p). rewrite H1.
  change (Web_flags p1 = Web_flags p). exact G1.
Qed.

Lemma Desktop_airborne_kept (p : Desktop.Player) (dt : Q)
      (platforms : list Platform) (ps : Desktop.ParticleSystem) (g : Rng) :
  let p' := fst (fst (Desktop.physics p dt platforms ps g)) in
  Desktop.on_ground p' = false ->
  (Desktop_airborne_fresh p -> Desktop_airborne_fresh p') /\
  (Desktop_airborne_spent p -> Desktop_airborne_spent p').
Proof.
  intros p' Hg'. split.
  - intros (Hg & Hc & Hb & Hcd & Hd).
    pose proof (Desktop_physics_airborne p dt platforms ps g Hg Hg') as F.
    fold p' in F. unfold Desktop_flags in F. injection F as F1 F2 F3 F4.
    unfold Desktop_airborne_fresh. rewrite F1, F2, F3, F4. auto.
  - intros (Hg & Hc & Hb & Hcd & Hd).
    pose proof (Desktop_physics_airborne p dt platforms ps g Hg Hg') as F.
    fold p' in F. unfold Desktop_flags in F. injection F as F1 F2 F3 F4.
    unfold Desktop_airborne_spent. rewrite F1, F2, F3, F4. auto.
Qed.

Lemma Web_airborne_kept (p : Web.Player) (dt : Q)
      (platforms : list Platform) (ps : Web.ParticleSystem) (g : Rng) :
  (Web.jump_buffer p <= 0)%Q \/ (Web.vy p + GRAVITY <= 0)%Q ->
  let p' := fst (fst (Web.physics p dt platforms ps g)) in
  Web.on_ground p' = false ->
  (Web_airborne_fresh p -> Web_airborne_fresh p') /\
  (Web_airborne_spent p -> Web_airborne_spent p').
Proof.
  intros Hb p' Hg'. split.
  - intros (Hd & Hw & Hg & Hc & Hcd & Hdj).
    pose proof (Web_physics_airborne p dt platforms ps g Hg Hb Hg') as F.
    fold p' in F. unfold Web_flags in F. injection F as F1 F2 F3 F4 F5.
    unfold Web_airborne_fresh. rewrite F1, F2, F3, F4, F5. auto 10.
  - intros (Hd & Hw & Hg & Hc & Hcd & Hdj).
    pose proof (Web_physics_airborne p dt platforms ps g Hg Hb Hg') as F.
    fold p' in F. unfold Web_flags in F. injection F as F1 F2 F3 F4 F5.
    unfold Web_airborne_spent. rewrite F1, F2, F3, F4, F5. auto 10.
Qed.

(** C5.  In both variants, with a jump key down: a standing player leaves
    [control] with vertical velocity JUMP_VELOCITY, no longer grounded, and
    airborne with the double jump available; an airborne player with the
    double jump available leaves it with DOUBLE_JUMP_VELOCITY and the double
    jump marked used; an airborne player whose double jump is used keeps its
    vertical velocity (and its horizontal velocity, when no direction key is
    down and, in the desktop variant, it is zero).  A frame of physics that
    leaves the player off the ground keeps both airborne states (in the web
    variant for a player that is rising or has no jump buffered). *)
Theorem jump_double_jump_then_nothing :
  (forall (p : Desktop.Player) (k : Keys) (dt : Q),
      Desktop_standing p -> jump_pressed k = true ->
      let p' := Desktop.control p k dt in
      Desktop.vy p' = JUMP_VELOCITY /\ Desktop.on_ground p' = false /\
      Desktop_airborne_fresh p') /\
  (forall (p : Desktop.Player) (k : Keys) (dt : Q),
      Desktop_airborne_fresh p -> jump_pressed k = true ->
      let p' := Desktop.control p k dt in
      Desktop.vy p' = DOUBLE_JUMP_VELOCITY /\
      Desktop.has_double_jumped p' = true /\
      Desktop_airborne_spent p') /\
  (forall (p : Desktop.Player) (k : Keys) (dt : Q),
      Desktop_airborne_spent p -> jump_pressed k = true ->
      let p' := Desktop.control p k dt in
      Desktop.vy p' = Desktop.vy p /\
      Desktop_airborne_spent p' /\
      (no_direction k -> (Desktop.vx p == 0)%Q -> (Desktop.vx p' == 0)%Q)) /\
  (forall (p : Desktop.Player) (dt : Q) (platforms : list Platform)
          (ps : Desktop.ParticleSystem) (g : Rng),
      let p' := fst (fst (Desktop.physics p dt platforms ps g)) in
      Desktop.on_ground p' = false ->
      (Desktop_airborne_fresh p -> Desktop_airborne_fresh p') /\
      (Desktop_airborne_spent p -> Desktop_airborne_spent p')) /\
  (forall (p : Web.Player) (k : Keys) (dt : Q),
      Web_standing p -> jump_pressed k = true ->
      let p' := Web.control p k dt in
      Web.vy p' = JUMP_VELOCITY /\ Web.on_ground p' = false /\
      Web_airborne_fresh p') /\
  (forall (p : Web.Player) (k : Keys) (dt : Q),
      Web_airborne_fresh p -> jump_pressed k = true ->
      let p' := Web.control p k dt in
      Web.vy p' = DOUBLE_JUMP_VELOCITY /\
      Web.has_double_jumped p' = true /\
      Web_airborne_spent p') /\
  (forall (p : Web.Player) (k : Keys) (dt : Q),
      Web_airborne_spent p -> jump_pressed k = true ->
      let p' := Web.control p k dt in
      Web.vy p' = Web.vy p /\
      Web_airborne_spent p' /\
      (no_direction k -> (Web.vx p' == Web.vx p)%Q)) /\
  (forall (p : Web.Player) (dt : Q) (platforms : list Platform)
          (ps : Web.ParticleSystem) (g : Rng),
      (Web.jump_buffer p <= 0)%Q \/ (Web.vy p + GRAVITY <= 0)%Q ->
      let p' := fst (fst (Web.physics p dt platforms ps g)) in
      Web.on_ground p' = false ->
      (Web_airborne_fresh p -> Web_airborne_fresh p') /\
      (Web_airborne_spent p -> Web_airborne_spent p')).
Proof.
  split; [exact Desktop_first_jump|].
  split; [exact Desktop_second_jump|].
  split; [exact Desktop_third_jump|].
  split; [exact Desktop_airborne_kept|].
  split; [exact Web_first_jump|].
  split; [exact Web_second_jump|].
  split; [exact Web_third_jump|].
  exact Web_airborne_kept.
Qed.

Lemma jump_double_jump_then_nothing_witness :
  Desktop.vy (Desktop.control desktop_landed jump_key (1 # 60)) = JUMP_VELOCITY /\
  Desktop.vy (Desktop.control
                (Desktop.control desktop_landed jump_key (1 # 60))
                jump_key (1 # 60)) = DOUBLE_JUMP_VELOCITY /\
  Web.vy (Web.control web_landed jump_key (1 # 60)) = JUMP_VELOCITY.
Proof.
  assert (Hs : Desktop_standing desktop_landed).
  { vm_compute. repeat split; reflexivity. }
  split; [|split].
  - apply (proj1 jump_double_jump_then_nothing desktop_landed jump_key (1 # 60));
      [exact Hs | reflexivity].
  - apply (proj1 (proj2 jump_double_jump_then_nothing)
             (Desktop.control desktop_landed jump_key (1 # 60)) jump_key (1 # 60));
      [|reflexivity].
    apply (proj1 jump_double_jump_then_nothing desktop_landed jump_key (1 # 60));
      [exact Hs | reflexivity].
  - apply (proj1 (proj2 (proj2 (proj2 (proj2 jump_double_jump_then_nothing))))
             web_landed jump_key (1 # 60)).
    + vm_compute. repeat split; reflexivity.
    + reflexivity.
Defined.

(** ** Death by spike *)

Lemma Desktop_spike_hits_iff (pr : Rect) (s : Spike) :
  Desktop.spike_hits pr s = true <-> overlaps_spike pr s.
Proof.
  unfold Desktop.spike_hits, overlaps_spike, point_in_triangle_collision.
  destruct (get_danger_zone s) as [zone|].
  - rewrite existsb_exists. split.
    + intros [pt [H1 H2]]. exists zone, pt. auto.
    + intros (z & pt & Hz & H1 & H2). injection Hz as <-. exists pt. auto.
  - split; [discriminate | intros (z & pt & Hz & _); discriminate].
Qed.

Lemma Web_spike_hits_iff (pr : Rect) (s : Spike) :
  Web.spike_hits pr s = true <-> overlaps_spike pr s.
Proof.
  unfold Web.spike_hits, overlaps_spike, point_in_triangle_collision.
  destruct (get_danger_zone s) as [zone|].
  - rewrite existsb_exists. split.
    + intros [pt [H1 H2]]. exists zone, pt. auto.
    + intros (z & pt & Hz & H1 & H2). injection Hz as <-. exists pt. auto.
  - split; [discriminate | intros (z & pt & Hz & _); discriminate].
Qed.

Lemma Desktop_spike_kills (g : Desktop.Game) (now : Q) (r : Rng) :
  Desktop.state g = PLAYING ->
  (exists s, In s (Desktop.spikes g) /\
             overlaps_spike (Desktop.rect (Desktop.player g)) s) ->
  let g' := fst (Desktop.handle_collisions g now r) in
  Desktop.state g' = DEAD /\ Desktop.attempts g' = Desktop.attempts g + 1.
Proof.
  intros Hs (s & Hin & Ho). unfold Desktop.handle_collisions. rewrite Hs.
  cbn [GameState_eqb negb].
  destruct (Desktop_wall_collision_frame g r)
    as (_ & Ha & _ & _ & Hp & Hsp & _).
  destruct (Desktop.wall_collision g r) as [g1 r1]. cbn [fst] in *.
  assert (E : existsb (Desktop.spike_hits (Desktop.rect (Desktop.player g1)))
                      (Desktop.spikes g1) = true).
  { apply existsb_exists. exists s. rewrite Hsp, Hp. split; [exact Hin|].
    apply Desktop_spike_hits_iff. exact Ho. }
  rewrite E.
  destruct (Desktop_kill_player_spec g1 now r1) as (K1 & K2 & _).
  cbn zeta in *. rewrite K1, K2, Ha. auto.
Qed.

Lemma Web_spike_kills (g : Web.Game) (now : Q) (r : Rng) :
  Web.state g = PLAYING ->
  (exists s, In s (Web.spikes g) /\
             overlaps_spike
               (Web.rect (Web.player (fst (Web.before_kill_checks g r)))) s) ->
  let g' := fst (Web.handle_collisions g now r) in
  Web.state g' = DEAD /\ Web.attempts g' = Web.attempts g + 1.
Proof.
  intros Hs (s & Hin & Ho). unfold Web.handle_collisions. rewrite Hs.
  cbn [GameState_eqb negb].
  destruct (Web_before_kill_checks_frame g r)
    as (_ & Ha & _ & _ & _ & Hsp & _).
  destruct (Web.before_kill_checks g r) as [g1 r1]. cbn [fst] in *.
  assert (E : Web.player_killed g1 = true).
  { unfold Web.player_killed. apply orb_true_iff. left.
    apply orb_true_iff. right.
    apply existsb_exists. exists s. rewrite Hsp. split; [exact Hin|].
    apply Web_spike_hits_iff. exact Ho. }
  rewrite E.
  destruct (Web_kill_player_spec g1 now r1) as (K1 & K2 & _).
  cbn zeta in *. rewrite K1, K2, Ha. auto.
Qed.

Lemma Web_teleport_loop_idle (traps : list Web.TeleportTrap) :
  forall (pl : Web.Player) (c : Camera) (ps : Web.ParticleSystem) (r : Rng),
    (forall t, In t traps -> trap_fires t (Web.rect pl) = false) ->
    Web.teleport_loop traps pl c ps r = (traps, pl, c, ps, r).
Proof.
  induction traps as [|t rest IH]; intros pl c ps r H; cbn [Web.teleport_loop].
  - reflexivity.
  - assert (Ht : trap_fires t (Web.rect pl) = false) by (apply H; left; auto).
    unfold trap_fires in Ht. unfold Web.check_teleport. rewrite Ht.
    rewrite IH by (intros t' Hin; apply H; right; exact Hin).
    reflexivity.
Qed.

Lemma Web_before_kill_checks_player (g : Web.Game) (r : Rng) :
  (forall t, In t (Web.teleport_traps g) ->
             trap_fires t (Web.rect (Web.player g)) = false) ->
  Web.player (fst (Web.before_kill_checks g r)) = Web.player g.
Proof.
  intro H. unfold Web.before_kill_checks.
  destruct (Web_wall_collision_frame g r)
    as (_ & _ & _ & _ & Hp & _ & _ & _ & Ht).
  destruct (Web.wall_collision g r) as [g1 r1]. cbn [fst] in *.
  destruct (Web_fake_platform_collisions_frame g1)
    as (_ & _ & _ & _ & _ & Hp2 & _ & _ & _ & Ht2).
  cbn zeta in *.
  unfold Web.teleport_collisions.
  rewrite Web_teleport_loop_idle.
  - cbn. congruence.
  - intros t Hin. rewrite Hp2, Hp. apply H. rewrite <- Ht, <- Ht2. exact Hin.
Qed.

Lemma Desktop_advance_fields (m : Math) (g : Desktop.Game) (f : Frame) :
  let g' := fst (Desktop.advance m g f) in
  Desktop.state g' = Desktop.state g /\
  Desktop.attempts g' = Desktop.attempts g.
Proof.
  unfold Desktop.advance.
  destruct (Desktop.physics _ _ _ _ _) as [[p ps] r].
  destruct (Desktop.update_stones _ _ _ _ _ _) as [[st ps'] r'].
  cbn. auto.
Qed.

Lemma Web_advance_fields (m : Math) (g : Web.Game) (f : Frame) :
  let g' := fst (Web.advance m g f) in
  Web.state g' = Web.state g /\ Web.attempts g' = Web.attempts g.
Proof.
  unfold Web.advance.
  destruct (Web.physics _ _ _ _ _) as [[p ps] r].
  destruct (Web.update_stones _ _ _ _ _ _) as [[st ps'] r'].
  cbn. auto.
Qed.

Lemma Desktop_update_dead (m : Math) (g : Desktop.Game) (f : Frame) :
  Desktop.state g = DEAD -> K_r (f_keys f) = false ->
  Desktop.state (fst (Desktop.update m g f)) = DEAD /\
  Desktop.attempts (fst (Desktop.update m g f)) = Desktop.attempts g.
Proof.
  intros Hs Hr. unfold Desktop.update. rewrite Hr.
  destruct (K_ESCAPE (f_keys f)); [cbn; auto|].
  destruct (Desktop_advance_fields m g f) as [A1 A2].
  destruct (Desktop.advance m g f) as [g1 r1]. cbn [fst] in *.
  rewrite Desktop_handle_collisions_not_playing by (rewrite A1, Hs; discriminate).
  cbn [fst]. rewrite A1, A2. auto.
Qed.

Lemma Web_update_dead (m : Math) (g : Web.Game) (f : Frame) :
  Web.state g = DEAD -> K_r (f_keys f) = false ->
  Web.state (fst (Web.update m g f)) = DEAD /\
  Web.attempts (fst (Web.update m g f)) = Web.attempts g.
Proof.
  intros Hs Hr. unfold Web.update. rewrite Hr.
  destruct (K_ESCAPE (f_keys f)); [cbn; auto|].
  destruct (Web_advance_fields m g f) as [A1 A2].
  destruct (Web.advance m g f) as [g1 r1]. cbn [fst] in *.
  rewrite Web_handle_collisions_not_playing by (rewrite A1, Hs; discriminate).
  cbn [fst]. rewrite A1, A2. auto.
Qed.

Lemma Desktop_run_dead (m : Math) (fs : list Frame) :
  forall g : Desktop.Game,
    Desktop.state g = DEAD -> no_reset fs ->
    Desktop.state (Desktop.run m g fs) = DEAD /\
    Desktop.attempts (Desktop.run m g fs) = Desktop.attempts g.
Proof.
  induction fs as [|f fs IH]; intros g Hs Hn; cbn [Desktop.run]; [auto|].
  inversion Hn as [|? ? Hf Hrest]; subst.
  destruct (Desktop_update_dead m g f Hs Hf) as [U1 U2].
  destruct (Desktop.update m g f) as [g' running]. cbn [fst] in *.
  destruct running; [|auto].
  destruct (IH g' U1 Hrest) as [I1 I2]. split; congruence.
Qed.

Lemma Web_run_dead (m : Math) (fs : list Frame) :
  forall g : Web.Game,
    Web.state g = DEAD -> no_reset fs ->
    Web.state (Web.run m g fs) = DEAD /\
    Web.attempts (Web.run m g fs) = Web.attempts g.
Proof.
  induction fs as [|f fs IH]; intros g Hs Hn; cbn [Web.run]; [auto|].
  inversion Hn as [|? ? Hf Hrest]; subst.
  destruct (Web_update_dead m g f Hs Hf) as [U1 U2].
  destruct (Web.update m g f) as [g' running]. cbn [fst] in *.
  destruct running; [|auto].
  destruct (IH g' U1 Hrest) as [I1 I2]. split; congruence.
Qed.

Lemma Desktop_frame_spike_death (m : Math) (g : Desktop.Game) (f : Frame) :
  Desktop.state g = PLAYING ->
  K_r (f_keys f) = false -> K_ESCAPE (f_keys f) = false ->
  (exists s, In s (Desktop.spikes (fst (Desktop.advance m g f))) /\
             overlaps_spike
               (Desktop.rect (Desktop.player (fst (Desktop.advance m g f)))) s) ->
  Desktop.state (fst (Desktop.update m g f)) = DEAD /\
  Desktop.attempts (fst (Desktop.update m g f)) = Desktop.attempts g + 1.
Proof.
  intros Hs Hr He Ho. unfold Desktop.update. rewrite Hr, He.
  destruct (Desktop_advance_fields m g f) as [A1 A2].
  destruct (Desktop.advance m g f) as [g1 r1]. cbn [fst] in *.
  destruct (Desktop_spike_kills g1 (f_now f) r1) as [K1 K2];
    [congruence | exact Ho |].
  cbn zeta in *. rewrite K1, K2, A2. auto.
Qed.

Lemma Web_frame_spike_death (m : Math) (g : Web.Game) (f : Frame) :
  Web.state g = PLAYING ->
  K_r (f_keys f) = false -> K_ESCAPE (f_keys f) = false ->
  (exists s,
      In s (Web.spikes (fst (Web.advance m g f))) /\
      overlaps_spike
        (Web.rect (Web.player (fst (Web.before_kill_checks
                                      (fst (Web.advance m g f))
                                      (snd (Web.advance m g f)))))) s) ->
  Web.state (fst (Web.update m g f)) = DEAD /\
  Web.attempts (fst (Web.update m g f)) = Web.attempts g + 1.
Proof.
  intros Hs Hr He Ho. unfold Web.update. rewrite Hr, He.
  destruct (Web_advance_fields m g f) as [A1 A2].
  destruct (Web.advance m g f) as [g1 r1]. cbn [fst snd] in *.
  destruct (Web_spike_kills g1 (f_now f) r1) as [K1 K2];
    [congruence | exact Ho |].
  cbn zeta in *. rewrite K1, K2, A2. auto.
Qed.

Lemma Web_spike_kills_no_teleport (g : Web.Game) (now : Q) (r : Rng) :
  Web.state g = PLAYING ->
  (forall t, In t (Web.teleport_traps g) ->
             trap_fires t (Web.rect (Web.player g)) = false) ->
  (exists s, In s (Web.spikes g) /\
             overlaps_spike (Web.rect (Web.player g)) s) ->
  let g' := fst (Web.handle_collisions g now r) in
  Web.state g' = DEAD /\ Web.attempts g' = Web.attempts g + 1.
Proof.
  intros Hs Ht Ho. apply Web_spike_kills; [exact Hs|].
  rewrite Web_before_kill_checks_player by exact Ht. exact Ho.
Qed.

(** *** The rectangle the spike check samples is the one the frame ends with *)

Lemma Desktop_kill_player_rect (g : Desktop.Game) (now : Q) (r : Rng) :
  let g' := fst (Desktop.kill_player g now r) in
  Desktop.rect (Desktop.player g') = Desktop.rect (Desktop.player g) /\
  Desktop.spikes g' = Desktop.spikes g.
Proof. unfold Desktop.kill_player. break_let. cbn. auto. Qed.

Lemma Desktop_door_interactions_rect (g : Desktop.Game) (now : Q) (r : Rng) :
  let g' := fst (Desktop.door_interactions g now r) in
  Desktop.rect (Desktop.player g') = Desktop.rect (Desktop.player g) /\
  Desktop.spikes g' = Desktop.spikes g.
Proof.
  unfold Desktop.door_interactions, Desktop.win_game.
  repeat first [break_let | break_if]; cbn; auto.
Qed.

Lemma Desktop_handle_collisions_rect (g : Desktop.Game) (now : Q) (r : Rng) :
  let g' := fst (Desktop.handle_collisions g now r) in
  Desktop.rect (Desktop.player g') = Desktop.rect (Desktop.player g) /\
  Desktop.spikes g' = Desktop.spikes g.
Proof.
  unfold Desktop.handle_collisions.
  destruct (negb (GameState_eqb (Desktop.state g) PLAYING)); [cbn; auto|].
  destruct (Desktop_wall_collision_frame g r)
    as (_ & _ & _ & _ & Hp & Hsp & _).
  destruct (Desktop.wall_collision g r) as [g1 r1]. cbn [fst] in *.
  rewrite <- Hp, <- Hsp.
  repeat break_if.
  - apply Desktop_kill_player_rect.
  - apply Desktop_kill_player_rect.
  - apply Desktop_door_interactions_rect.
Qed.

Lemma Web_kill_player_rect (g : Web.Game) (now : Q) (r : Rng) :
  let g' := fst (Web.kill_player g now r) in
  Web.rect (Web.player g') = Web.rect (Web.player g) /\
  Web.spikes g' = Web.spikes g.
Proof. unfold Web.kill_player. break_let. cbn. auto. Qed.

Lemma Web_door_interactions_rect (g : Web.Game) (now : Q) (r : Rng) :
  let g' := fst (Web.door_interactions g now r) in
  Web.rect (Web.player g') = Web.rect (Web.player g) /\
  Web.spikes g' = Web.spikes g.
Proof.
  unfold Web.door_interactions, Web.win_game.
  repeat first [break_let | break_if]; cbn; auto.
Qed.

Lemma Web_handle_collisions_rect (g : Web.Game) (now : Q) (r : Rng) :
  Web.state g = PLAYING ->
  let g' := fst (Web.handle_collisions g now r) in
  Web.rect (Web.player g') =
    Web.rect (Web.player (fst (Web.before_kill_checks g r))) /\
  Web.spikes g' = Web.spikes g.
Proof.
  intro Hs. unfold Web.handle_collisions. rewrite Hs.
  cbn [GameState_eqb negb].
  destruct (Web_before_kill_checks_frame g r)
    as (_ & _ & _ & _ & _ & Hsp & _).
  destruct (Web.before_kill_checks g r) as [g1 r1]. cbn [fst] in *.
  rewrite <- Hsp.
  break_if.
  - apply Web_kill_player_rect.
  - apply Web_door_interactions_rect.
Qed.

Lemma Desktop_frame_end_on_spike (m : Math) (g : Desktop.Game) (f : Frame) :
  Desktop.state g = PLAYING ->
  K_r (f_keys f) = false -> K_ESCAPE (f_keys f) = false ->
  let g' := fst (Desktop.update m g f) in
  (exists s, In s (Desktop.spikes g') /\
             overlaps_spike (Desktop.rect (Desktop.player g')) s) ->
  Desktop.state g' = DEAD /\ Desktop.attempts g' = Desktop.attempts g + 1.
Proof.
  intros Hs Hr He g' Ho.
  apply (Desktop_frame_spike_death m g f Hs Hr He).
  unfold g', Desktop.update in Ho. rewrite Hr, He in Ho.
  destruct (Desktop.advance m g f) as [g1 r1]. cbn [fst] in *.
  destruct (Desktop_handle_collisions_rect g1 (f_now f) r1) as [R1 R2].
  cbn zeta in *. rewrite R1, R2 in Ho. exact Ho.
Qed.

Lemma Web_frame_end_on_spike (m : Math) (g : Web.Game) (f : Frame) :
  Web.state g = PLAYING ->
  K_r (f_keys f) = false -> K_ESCAPE (f_keys f) = false ->
  let g' := fst (Web.update m g f) in
  (exists s, In s (Web.spikes g') /\
             overlaps_spike (Web.rect (Web.player g')) s) ->
  Web.state g' = DEAD /\ Web.attempts g' = Web.attempts g + 1.
Proof.
  intros Hs Hr He g' Ho.
  apply (Web_frame_spike_death m g f Hs Hr He).
  unfold g', Web.update in Ho. rewrite Hr, He in Ho.
  destruct (Web_advance_fields m g f) as [A1 _].
  destruct (Web.advance m g f) as [g1 r1]. cbn [fst snd] in *.
  destruct (Web_handle_collisions_rect g1 (f_now f) r1) as [R1 R2];
    [congruence|].
  cbn zeta in *. rewrite R1, R2 in Ho. exact Ho.
Qed.

(** C6.  Take a frame played in state PLAYING that neither resets nor
    quits.  If, as the frame ends, one of the five sample points of the
    player's rectangle lies inside the danger triangle of an active spike,
    then the frame ends in state DEAD with the attempts counter one higher
    than at its start.  The spike check samples the rectangle the frame ends
    with: the desktop variant as [handle_collisions] receives it, the web
    variant once the teleport traps have had their turn (the received
    rectangle when no trap fires).  From DEAD every session without reset
    stays DEAD with the same attempts counter, and a frame with the reset
    key down returns to PLAYING. *)
Theorem spike_kills_within_the_frame :
  (forall (m : Math) (g : Desktop.Game) (f : Frame),
      Desktop.state g = PLAYING ->
      K_r (f_keys f) = false -> K_ESCAPE (f_keys f) = false ->
      let g' := fst (Desktop.update m g f) in
      (exists s, In s (Desktop.spikes g') /\
                 overlaps_spike (Desktop.rect (Desktop.player g')) s) ->
      Desktop.state g' = DEAD /\ Desktop.attempts g' = Desktop.attempts g + 1) /\
  (forall (m : Math) (g : Web.Game) (f : Frame),
      Web.state g = PLAYING ->
      K_r (f_keys f) = false -> K_ESCAPE (f_keys f) = false ->
      let g' := fst (Web.update m g f) in
      (exists s, In s (Web.spikes g') /\
                 overlaps_spike (Web.rect (Web.player g')) s) ->
      Web.state g' = DEAD /\ Web.attempts g' = Web.attempts g + 1) /\
  (forall (g : Desktop.Game) (now : Q) (r : Rng),
      Desktop.state g = PLAYING ->
      (exists s, In s (Desktop.spikes g) /\
                 overlaps_spike (Desktop.rect (Desktop.player g)) s) ->
      let g' := fst (Desktop.handle_collisions g now r) in
      Desktop.state g' = DEAD /\ Desktop.attempts g' = Desktop.attempts g + 1) /\
  (forall (g : Web.Game) (now : Q) (r : Rng),
      Web.state g = PLAYING ->
      (exists s, In s (Web.spikes g) /\
                 overlaps_spike
                   (Web.rect (Web.player (fst (Web.before_kill_checks g r)))) s) ->
      let g' := fst (Web.handle_collisions g now r) in
      Web.state g' = DEAD /\ Web.attempts g' = Web.attempts g + 1) /\
  (forall (g : Web.Game) (now : Q) (r : Rng),
      Web.state g = PLAYING ->
      (forall t, In t (Web.teleport_traps g) ->
                 trap_fires t (Web.rect (Web.player g)) = false) ->
      (exists s, In s (Web.spikes g) /\
                 overlaps_spike (Web.rect (Web.player g)) s) ->
      let g' := fst (Web.handle_collisions g now r) in
      Web.state g' = DEAD /\ Web.attempts g' = Web.attempts g + 1) /\
  (forall (m : Math) (g : Desktop.Game) (fs : list Frame),
      Desktop.state g = DEAD -> no_reset fs ->
      Desktop.state (Desktop.run m g fs) = DEAD /\
      Desktop.attempts (Desktop.run m g fs) = Desktop.attempts g) /\
  (forall (m : Math) (g : Web.Game) (fs : list Frame),
      Web.state g = DEAD -> no_reset fs ->
      Web.state (Web.run m g fs) = DEAD /\
      Web.attempts (Web.run m g fs) = Web.attempts g) /\
  (forall (m : Math) (g : Desktop.Game) (f : Frame),
      K_r (f_keys f) = true ->
      Desktop.state (fst (Desktop.update m g f)) = PLAYING) /\
  (forall (m : Math) (g : Web.Game) (f : Frame),
      K_r (f_keys f) = true ->
      Web.state (fst (Web.update m g f)) = PLAYING).
Proof.
  split; [exact Desktop_frame_end_on_spike|].
  split; [exact Web_frame_end_on_spike|].
  split; [exact Desktop_spike_kills|].
  split; [exact Web_spike_kills|].
  split; [exact Web_spike_kills_no_teleport|].
  split; [intros m g fs Hs Hn; apply Desktop_run_dead; assumption|].
  split; [intros m g fs Hs Hn; apply Web_run_dead; assumption|].
  split.
  - intros m g f Hr. unfold Desktop.update. rewrite Hr. reflexivity.
  - intros m g f Hr. unfold Web.update. rewrite Hr. reflexivity.
Qed.

Lemma spike_kills_within_the_frame_witness :
  (Desktop.state (fst (Desktop.update trivial_math desktop_on_spike idle_frame))
   = DEAD /\
   Desktop.attempts (fst (Desktop.update trivial_math desktop_on_spike idle_frame))
   = Desktop.attempts desktop_on_spike + 1) /\
  (Web.state (fst (Web.update trivial_math web_on_spike idle_frame)) = DEAD /\
   Web.attempts (fst (Web.update trivial_math web_on_spike idle_frame))
   = Web.attempts web_on_spike + 1) /\
  (Web.state (fst (Web.handle_collisions web_on_spike 1 some_rng)) = DEAD /\
   Web.attempts (fst (Web.handle_collisions web_on_spike 1 some_rng))
   = Web.attempts web_on_spike + 1).
Proof.
  split; [|split].
  - apply (proj1 spike_kills_within_the_frame
             trivial_math desktop_on_spike idle_frame);
      [reflexivity | reflexivity | reflexivity |].
    exists (Spike_update trivial_math first_spike (1 # 60)).
    split; [vm_compute; left; reflexivity|].
    exists (ZPoint 196 542, ZPoint 184 564, ZPoint 208 564), (ZPoint 202 560).
    split; [reflexivity|]. split; [|reflexivity].
    vm_compute. right. right. right. left. reflexivity.
  - apply (proj1 (proj2 spike_kills_within_the_frame)
             trivial_math web_on_spike idle_frame);
      [reflexivity | reflexivity | reflexivity |].
    exists (Spike_update trivial_math first_spike (1 # 60)).
    split; [vm_compute; left; reflexivity|].
    exists (ZPoint 196 542, ZPoint 184 564, ZPoint 208 564), (ZPoint 202 560).
    split; [reflexivity|]. split; [|reflexivity].
    vm_compute. right. right. right. left. reflexivity.
  - apply (proj1 (proj2 (proj2 (proj2 (proj2 spike_kills_within_the_frame))))
             web_on_spike 1%Q some_rng).
    + reflexivity.
    + intros t [<- | []]. vm_compute. reflexivity.
    + exists first_spike. split; [left; reflexivity|].
      exists (ZPoint 196 542, ZPoint 184 564, ZPoint 208 564), (ZPoint 202 560).
      split; [reflexivity|]. split; [|reflexivity].
      right. right. right. left. reflexivity.
Defined.

(** In the web variant the teleport traps act before the spike check: a
    player that a trap moves away from a spike is not killed by that spike
    in that call, and leaves [handle_collisions] at the trap's destination
    with the game still being played. *)
Lemma web_teleport_precedes_spike_check :
  overlaps_spike (Web.rect (Web.player web_trap_and_spike)) popped_spike /\
  (let g' := fst (Web.handle_collisions web_trap_and_spike 1 some_rng) in
   Web.state g' = PLAYING /\
   Web.rect (Web.player g') = mkRect 600 (HEIGHT - 340) 30 50 /\
   ~ overlaps_spike (Web.rect (Web.player g')) popped_spike).
Proof.
  split.
  - exists (ZPoint 966 502, ZPoint 954 524, ZPoint 978 524), (ZPoint 957 520).
    split; [reflexivity|]. split; [|vm_compute; reflexivity].
    right. right. right. left. reflexivity.
  - intro g'.
    assert (E : Web.rect (Web.player g') = mkRect 600 380 30 50)
      by (vm_compute; reflexivity).
    split; [vm_compute; reflexivity|]. split; [exact E|].
    intros (zone & pt & Hz & Hin & Hp). injection Hz as <-.
    rewrite E in Hin.
    repeat (destruct Hin as [<- | Hin]; [vm_compute in Hp; discriminate|]).
    exact Hin.
Qed.

(** * Further properties *)

(** ** The barycentric test *)

Lemma Qabs_guard_nonzero (d : Q) : ((1 # 1000) <= Qabs d)%Q -> ~ (d == 0)%Q.
Proof.
  intros H E. rewrite E in H. cbn in H. apply Qle_not_lt in H. apply H.
  reflexivity.
Qed.

Lemma integer_guard (x1 y1 x2 y2 x3 y3 : Z) :
  ~ (denominator (ZPoint x1 y1, ZPoint x2 y2, ZPoint x3 y3) == 0)%Q ->
  ((1 # 1000) <= Qabs (denominator (ZPoint x1 y1, ZPoint x2 y2, ZPoint x3 y3)))%Q.
Proof.
  intro Hn.
  assert (E : (denominator (ZPoint x1 y1, ZPoint x2 y2, ZPoint x3 y3)
               == inject_Z ((y2 - y3) * (x1 - x3) + (x3 - x2) * (y1 - y3)))%Q).
  { unfold denominator, ZPoint.
    rewrite inject_Z_plus, !inject_Z_mult. unfold Z.sub.
    rewrite !inject_Z_plus, !inject_Z_opp. ring. }
  rewrite E in *.
  set (k := (y2 - y3) * (x1 - x3) + (x3 - x2) * (y1 - y3)) in *.
  assert (K : k <> 0) by (intro K; apply Hn; rewrite K; reflexivity).
  unfold Qabs, inject_Z, Qle. cbn [Qnum Qden]. lia.
Qed.

Lemma Zabs_mul_le (a b A B : Z) :
  Z.abs a <= A -> Z.abs b <= B -> Z.abs (a * b) <= A * B.
Proof.
  intros Ha Hb. rewrite Z.abs_mul.
  apply Z.mul_le_mono_nonneg; auto using Z.abs_nonneg.
Qed.

Lemma integer_denominator (x1 y1 x2 y2 x3 y3 : Z) :
  grid_point x1 y1 -> grid_point x2 y2 -> grid_point x3 y3 ->
  exists k : Z,
    (denominator (ZPoint x1 y1, ZPoint x2 y2, ZPoint x3 y3) == inject_Z k)%Q /\
    Z.abs k <= 8000000000000.
Proof.
  intros [A1 B1] [A2 B2] [A3 B3].
  exists ((y2 - y3) * (x1 - x3) + (x3 - x2) * (y1 - y3)). split.
  - unfold denominator, ZPoint.
    rewrite inject_Z_plus, !inject_Z_mult. unfold Z.sub.
    rewrite !inject_Z_plus, !inject_Z_opp. ring.
  - assert (P : Z.abs ((y2 - y3) * (x1 - x3)) <= 2000000 * 2000000)
      by (apply Zabs_mul_le; lia).
    assert (Q : Z.abs ((x3 - x2) * (y1 - y3)) <= 2000000 * 2000000)
      by (apply Zabs_mul_le; lia).
    lia.
Qed.

(** X1.  [point_in_triangle] on the points of the game, which have
    whole-number coordinates: when it answers True the point is a
    combination of the three vertices with non-negative weights summing to
    one, so it lies in the closed triangle; and for a triangle that is not
    degenerate every such combination whose third weight is positive is
    answered True.  The denominator is then a whole number of at most
    8 000 000 000 000 in size, far below 2^53.  The program divides in
    floating point: on whole numbers of this size the numerators and the
    denominator are exact and the first two weights keep their sign, while
    the third, computed as [1 - a - b], can come out on either side of zero
    for a point on the edge opposite the third vertex; the second half
    therefore leaves that edge out. *)
Theorem point_in_triangle_barycentric :
  (forall x y x1 y1 x2 y2 x3 y3 : Z,
      grid_point x y -> grid_point x1 y1 -> grid_point x2 y2 -> grid_point x3 y3 ->
      point_in_triangle (ZPoint x y) (ZPoint x1 y1, ZPoint x2 y2, ZPoint x3 y3)
      = true ->
      exists a b c,
        convex_combination (ZPoint x y)
                           (ZPoint x1 y1, ZPoint x2 y2, ZPoint x3 y3) a b c) /\
  (forall (x y x1 y1 x2 y2 x3 y3 : Z) (a b c : Q),
      grid_point x y -> grid_point x1 y1 -> grid_point x2 y2 -> grid_point x3 y3 ->
      ~ (denominator (ZPoint x1 y1, ZPoint x2 y2, ZPoint x3 y3) == 0)%Q ->
      convex_combination (ZPoint x y)
                         (ZPoint x1 y1, ZPoint x2 y2, ZPoint x3 y3) a b c ->
      (0 < c)%Q ->
      point_in_triangle (ZPoint x y) (ZPoint x1 y1, ZPoint x2 y2, ZPoint x3 y3)
      = true) /\
  (forall x1 y1 x2 y2 x3 y3 : Z,
      grid_point x1 y1 -> grid_point x2 y2 -> grid_point x3 y3 ->
      exists k : Z,
        (denominator (ZPoint x1 y1, ZPoint x2 y2, ZPoint x3 y3) == inject_Z k)%Q /\
        Z.abs k <= 8000000000000).
Proof.
  split; [|split; [|exact integer_denominator]].
  - intros x y x1 y1 x2 y2 x3 y3 _ _ _ _.
    unfold ZPoint, point_in_triangle.
    set (X := inject_Z x). set (Y := inject_Z y).
    set (X1 := inject_Z x1). set (Y1 := inject_Z y1).
    set (X2 := inject_Z x2). set (Y2 := inject_Z y2).
    set (X3 := inject_Z x3). set (Y3 := inject_Z y3).
    set (den := ((Y2 - Y3) * (X1 - X3) + (X3 - X2) * (Y1 - Y3))%Q).
    destruct (Qlt_bool (Qabs den) (1 # 1000)) eqn:G; [discriminate|].
    apply Qlt_bool_false_iff in G. apply Qabs_guard_nonzero in G.
    intro H. apply andb_true_iff in H. destruct H as [H Hc].
    apply andb_true_iff in H. destruct H as [Ha Hb].
    unfold Qge_bool in *.
    apply Qle_bool_iff in Ha. apply Qle_bool_iff in Hb. apply Qle_bool_iff in Hc.
    set (a := (((Y2 - Y3) * (X - X3) + (X3 - X2) * (Y - Y3)) / den)%Q) in *.
    set (b := (((Y3 - Y1) * (X - X3) + (X1 - X3) * (Y - Y3)) / den)%Q) in *.
    exists a, b, (1 - a - b)%Q. unfold convex_combination.
    split; [exact Ha|]. split; [exact Hb|]. split; [exact Hc|].
    split; [ring|]. unfold a, b, den in *. split; field; exact G.
  - intros x y x1 y1 x2 y2 x3 y3 a b c _ _ _ _ Hn.
    pose proof (integer_guard x1 y1 x2 y2 x3 y3 Hn) as Hg. clear Hn.
    unfold ZPoint, convex_combination, denominator in *.
    set (X := inject_Z x) in *. set (Y := inject_Z y) in *.
    set (X1 := inject_Z x1) in *. set (Y1 := inject_Z y1) in *.
    set (X2 := inject_Z x2) in *. set (Y2 := inject_Z y2) in *.
    set (X3 := inject_Z x3) in *. set (Y3 := inject_Z y3) in *.
    intros (Ha & Hb & _ & Hs & Hx & Hy) Hc. unfold point_in_triangle.
    set (den := ((Y2 - Y3) * (X1 - X3) + (X3 - X2) * (Y1 - Y3))%Q) in *.
    pose proof (Qabs_guard_nonzero den Hg) as Hn.
    apply Qlt_bool_false_iff in Hg. rewrite Hg.
    assert (Ec : (c == 1 - a - b)%Q) by (rewrite <- Hs; ring).
    assert (Ea : (((Y2 - Y3) * (X - X3) + (X3 - X2) * (Y - Y3)) / den == a)%Q).
    { rewrite Hx, Hy, Ec. unfold den in *. field. exact Hn. }
    assert (Eb : (((Y3 - Y1) * (X - X3) + (X1 - X3) * (Y - Y3)) / den == b)%Q).
    { rewrite Hx, Hy, Ec. unfold den in *. field. exact Hn. }
    unfold Qge_bool.
    apply andb_true_iff. split; [apply andb_true_iff; split|];
      apply Qle_bool_iff.
    + rewrite Ea. exact Ha.
    + rewrite Eb. exact Hb.
    + rewrite Ea, Eb, <- Ec. apply Qlt_le_weak, Hc.
Qed.

Lemma point_in_triangle_barycentric_witness :
  (exists a b c, convex_combination (ZPoint 2 2) right_triangle a b c) /\
  point_in_triangle (ZPoint 2 2) right_triangle = true.
Proof.
  split.
  - apply (proj1 point_in_triangle_barycentric 2 2 0 0 0 10 10 0).
    + split; vm_compute; discriminate.
    + split; vm_compute; discriminate.
    + split; vm_compute; discriminate.
    + split; vm_compute; discriminate.
    + vm_compute. reflexivity.
  - apply (proj1 (proj2 point_in_triangle_barycentric) 2 2 0 0 0 10 10 0
                 (6 # 10) (2 # 10) (2 # 10)).
    + split; vm_compute; discriminate.
    + split; vm_compute; discriminate.
    + split; vm_compute; discriminate.
    + split; vm_compute; discriminate.
    + vm_compute. discriminate.
    + unfold convex_combination, ZPoint. repeat split; vm_compute; congruence.
    + reflexivity.
Defined.

(** ** Spikes *)

Lemma Spike_update_active (m : Math) (s : Spike) (dt : Q) :
  popup (Spike_update m s dt) = popup s /\
  sp_active (Spike_update m s dt) =
    (sp_active s || (popup s && Qle_bool (sp_timer s - dt) 0)) /\
  (sp_active (Spike_update m s dt) = false ->
   popup s = true -> sp_timer (Spike_update m s dt) = (sp_timer s - dt)%Q).
Proof.
  unfold Spike_update. cbn [popup sp_active sp_timer].
  destruct (popup s), (sp_active s); cbn [andb orb negb];
    try destruct (Qle_bool (sp_timer s - dt) 0);
    repeat split; intros; try reflexivity; congruence.
Qed.

Lemma Spike_updates_stay_active (m : Math) (dts : list Q) :
  forall s, sp_active s = true -> sp_active (Spike_updates m s dts) = true.
Proof.
  unfold Spike_updates.
  induction dts as [|d rest IH]; intros s H; cbn [fold_left]; [exact H|].
  apply IH. destruct (Spike_update_active m s d) as (_ & E & _).
  rewrite E, H. reflexivity.
Qed.

Lemma Spike_update_timer (m : Math) (s : Spike) (dt : Q) :
  sp_timer (Spike_update m s dt) =
  if popup s && negb (sp_active s) then (sp_timer s - dt)%Q else sp_timer s.
Proof. reflexivity. Qed.

Lemma Spike_popup_once (m : Math) (s : Spike) (d : Q) :
  popup s = true -> sp_active s = false ->
  (sp_active (Spike_update m s d) = true <-> (sp_timer s <= d)%Q).
Proof.
  intros P A. destruct (Spike_update_active m s d) as (_ & E & _).
  rewrite E, P, A. cbn [orb andb]. rewrite Qle_bool_iff. split; intro H; lra.
Qed.

(** Idle or not, a pop-up spike that has been updated is active exactly
    when its timer has run out. *)
Lemma Spike_update_armed (m : Math) (s : Spike) (d : Q) :
  popup s = true ->
  (sp_active s = true -> (sp_timer s <= 0)%Q) ->
  (sp_active (Spike_update m s d) = true <->
   (sp_timer (Spike_update m s d) <= 0)%Q).
Proof.
  intros P I. rewrite Spike_update_timer.
  destruct (Spike_update_active m s d) as (_ & E & _). rewrite E, P.
  destruct (sp_active s); cbn [orb andb negb].
  - split; [intros _; apply I; reflexivity | reflexivity].
  - apply Qle_bool_iff.
Qed.

Lemma Spike_updates_armed (m : Math) (dts : list Q) :
  forall s,
    popup s = true ->
    (sp_active s = true <-> (sp_timer s <= 0)%Q) ->
    (sp_active (Spike_updates m s dts) = true <->
     (sp_timer (Spike_updates m s dts) <= 0)%Q).
Proof.
  unfold Spike_updates.
  induction dts as [|d rest IH]; intros s P I; cbn [fold_left]; [exact I|].
  apply IH.
  - destruct (Spike_update_active m s d) as (E & _). congruence.
  - apply Spike_update_armed; [exact P | apply I].
Qed.

Lemma Spike_updates_timer_falls (m : Math) (dts : list Q) :
  forall s,
    nonneg dts -> (sp_timer (Spike_updates m s dts) <= sp_timer s)%Q.
Proof.
  unfold Spike_updates.
  induction dts as [|d rest IH]; intros s N; cbn [fold_left]; [apply Qle_refl|].
  inversion N as [|? ? Hd Hrest]; subst.
  apply Qle_trans with (y := sp_timer (Spike_update m s d));
    [apply IH, Hrest|].
  rewrite Spike_update_timer. destruct (popup s && negb (sp_active s)); lra.
Qed.

(** X2.  The life of a spike.  An active spike stays active through every
    update; a spike that is not active has no danger zone and hits no
    rectangle in either variant.  One update arms an idle pop-up spike
    exactly when the frame is at least as long as what its timer holds;
    after any updates of an idle pop-up spike, it is active exactly when
    its timer has run out; and with frames of non-negative length the timer
    never rises. *)
Theorem spike_lifecycle :
  (forall (m : Math) (s : Spike) (dts : list Q),
      sp_active s = true -> sp_active (Spike_updates m s dts) = true) /\
  (forall (s : Spike) (pr : Rect),
      sp_active s = false ->
      get_danger_zone s = None /\
      Desktop.spike_hits pr s = false /\ Web.spike_hits pr s = false) /\
  (forall (m : Math) (s : Spike) (d : Q),
      popup s = true -> sp_active s = false ->
      (sp_active (Spike_update m s d) = true <-> (sp_timer s <= d)%Q)) /\
  (forall (m : Math) (s : Spike) (dts : list Q),
      popup s = true -> sp_active s = false -> dts <> [] ->
      (sp_active (Spike_updates m s dts) = true <->
       (sp_timer (Spike_updates m s dts) <= 0)%Q)) /\
  (forall (m : Math) (s : Spike) (dts : list Q),
      nonneg dts -> (sp_timer (Spike_updates m s dts) <= sp_timer s)%Q).
Proof.
  split; [intros m s dts H; apply Spike_updates_stay_active, H|]. split.
  { intros s pr H. unfold Desktop.spike_hits, Web.spike_hits, get_danger_zone.
    rewrite H. cbn. auto. }
  split; [exact Spike_popup_once|].
  split; [|intros m s dts; apply Spike_updates_timer_falls].
  intros m s dts P A N. destruct dts as [|d rest]; [congruence|].
  change (Spike_updates m s (d :: rest))
    with (Spike_updates m (Spike_update m s d) rest).
  apply Spike_updates_armed.
  - destruct (Spike_update_active m s d) as (E & _). congruence.
  - apply Spike_update_armed; [exact P | rewrite A; discriminate].
Qed.

Lemma spike_lifecycle_witness :
  sp_active (Spike_update trivial_math
               (new_Spike 450 462 32 26 true 2 MoveNone) (5 # 2)) = true /\
  (sp_timer (Spike_updates trivial_math
               (new_Spike 450 462 32 26 true 2 MoveNone) [1; 1 # 2; 1 # 2]%Q)
   <= 0)%Q.
Proof.
  split.
  - apply (proj1 (proj2 (proj2 spike_lifecycle)) trivial_math
                 (new_Spike 450 462 32 26 true 2 MoveNone) (5 # 2)).
    + reflexivity.
    + reflexivity.
    + vm_compute. discriminate.
  - apply (proj1 (proj2 (proj2 (proj2 spike_lifecycle))) trivial_math
                 (new_Spike 450 462 32 26 true 2 MoveNone) [1; 1 # 2; 1 # 2]%Q).
    + reflexivity.
    + reflexivity.
    + discriminate.
    + vm_compute. reflexivity.
Defined.

(** ** The bookkeeping of a session *)

(** *** The player's two flags are set by the game only *)

Lemma Desktop_control_life (p : Desktop.Player) (k : Keys) (dt : Q) :
  Desktop_life (Desktop.control p k dt) = Desktop_life p.
Proof.
  unfold Desktop.control, Desktop_life.
  repeat break_if; reflexivity.
Qed.

Lemma Desktop_horizontal_fold_life (platforms : list Platform) :
  forall p : Desktop.Player,
    Desktop_life (fold_left Desktop.horizontal_step platforms p) = Desktop_life p.
Proof.
  induction platforms as [|q rest IH]; intros p; cbn [fold_left]; [reflexivity|].
  rewrite IH. unfold Desktop.horizontal_step. repeat break_if; reflexivity.
Qed.

Lemma Desktop_vertical_fold_life (platforms : list Platform) :
  forall (p : Desktop.Player) (ps : Desktop.ParticleSystem) (g : Rng),
    Desktop_life (fst (fst (fold_left Desktop.vertical_step platforms (p, ps, g))))
    = Desktop_life p.
Proof.
  induction platforms as [|q rest IH]; intros p ps g; cbn [fold_left];
    [reflexivity|].
  destruct (Desktop.vertical_step (p, ps, g) q) as [[p1 ps1] g1] eqn:E.
  rewrite IH. unfold Desktop.vertical_step in E.
  repeat match type of E with
         | context [if ?b then _ else _] => destruct b
         | context [let (_, _) := ?x in _] => destruct x
         end; inversion E; reflexivity.
Qed.

Lemma Desktop_physics_life (p : Desktop.Player) (dt : Q)
      (platforms : list Platform) (ps : Desktop.ParticleSystem) (g : Rng) :
  Desktop_life (fst (fst (Desktop.physics p dt platforms ps g))) = Desktop_life p.
Proof.
  unfold Desktop.physics.
  set (p3 := fold_left Desktop.horizontal_step platforms _).
  assert (H3 : Desktop_life p3 = Desktop_life p).
  { unfold p3. rewrite Desktop_horizontal_fold_life.
    unfold Desktop.gravity_step. break_if; reflexivity. }
  pose proof (Desktop_vertical_fold_life platforms
                (Desktop.set_on_ground (Desktop.move_y p3) false) ps g) as V.
  unfold Desktop.vertical_collisions.
  destruct (fold_left Desktop.vertical_step platforms _) as [[p4 ps4] g4].
  cbn [fst] in V.
  assert (H4 : Desktop_life p4 = Desktop_life p) by (rewrite V; exact H3).
  clear V. rewrite <- H4.
  unfold Desktop.after_collisions.
  set (p5 := Desktop.keep_in_bounds _).
  assert (H5 : Desktop_life p5 = Desktop_life p4).
  { unfold p5, Desktop.keep_in_bounds, Desktop.coyote_update.
    repeat break_if; reflexivity. }
  rewrite <- H5.
  destruct (Desktop.walking_dust dt (p5, ps4, g4)) as [[p6 ps6] g6] eqn:E.
  assert (H6 : Desktop_life p6 = Desktop_life p5).
  { unfold Desktop.walking_dust in E.
    repeat match type of E with
           | context [if ?b then _ else _] => destruct b
           | context [let (_, _) := ?x in _] => destruct x
           end; inversion E; reflexivity. }
  rewrite <- H6. cbn [fst]. unfold Desktop.animate. break_if; reflexivity.
Qed.

Lemma Web_control_life (p : Web.Player) (k : Keys) (dt : Q) :
  Web_life (Web.control p k dt) = Web_life p.
Proof.
  unfold Web.control, Web_life.
  repeat break_if; reflexivity.
Qed.

Lemma Web_horizontal_fold_life (platforms : list Platform) :
  forall p : Web.Player,
    Web_life (fold_left Web.horizontal_step platforms p) = Web_life p.
Proof.
  induction platforms as [|q rest IH]; intros p; cbn [fold_left]; [reflexivity|].
  rewrite IH. unfold Web.horizontal_step. repeat break_if; reflexivity.
Qed.

Lemma Web_vertical_fold_life (platforms : list Platform) :
  forall (p : Web.Player) (ps : Web.ParticleSystem) (g : Rng),
    Web_life (fst (fst (fold_left Web.vertical_step platforms (p, ps, g))))
    = Web_life p.
Proof.
  induction platforms as [|q rest IH]; intros p ps g; cbn [fold_left];
    [reflexivity|].
  destruct (Web.vertical_step (p, ps, g) q) as [[p1 ps1] g1] eqn:E.
  rewrite IH. unfold Web.vertical_step in E.
  repeat match type of E with
         | context [if ?b then _ else _] => destruct b
         | context [let (_, _) := ?x in _] => destruct x
         end; inversion E; reflexivity.
Qed.

Lemma Web_physics_life (p : Web.Player) (dt : Q)
      (platforms : list Platform) (ps : Web.ParticleSystem) (g : Rng) :
  Web_life (fst (fst (Web.physics p dt platforms ps g))) = Web_life p.
Proof.
  unfold Web.physics. destruct (Web.dead p || Web.win p); [reflexivity|].
  set (p3 := fold_left Web.horizontal_step platforms _).
  assert (H3 : Web_life p3 = Web_life p).
  { unfold p3. rewrite Web_horizontal_fold_life. reflexivity. }
  pose proof (Web_vertical_fold_life platforms
                (Web.move_y (Web.set_on_ground p3 false)) ps g) as V.
  unfold Web.vertical_collisions.
  destruct (fold_left Web.vertical_step platforms _) as [[p4 ps4] g4].
  cbn [fst] in V |- *.
  transitivity (Web_life p4); [reflexivity|].
  rewrite V. exact H3.
Qed.

(** *** What each stage of a frame does to the bookkeeping *)

Lemma Desktop_advance_book (m : Math) (g : Desktop.Game) (f : Frame) :
  Desktop_book (fst (Desktop.advance m g f)) = Desktop_book g.
Proof.
  pose proof (Desktop_advance_physics m g f) as Hp.
  pose proof (Desktop_physics_life (Desktop_controlled g f) (f_dt f)
                (Desktop.platforms_for_collision g) (Desktop.particles g)
                (f_rng f)) as Hl.
  rewrite <- Hp in Hl.
  assert (Hc : Desktop_life (Desktop_controlled g f) = Desktop_life (Desktop.player g)).
  { unfold Desktop_controlled. break_if; [apply Desktop_control_life | reflexivity]. }
  rewrite Hc in Hl. clear Hp Hc.
  unfold Desktop.advance in *.
  destruct (Desktop.physics _ _ _ _ _) as [[p ps] r].
  destruct (Desktop.update_stones _ _ _ _ _ _) as [[st ps'] r'].
  unfold Desktop_book, Desktop_life in *. cbn in *.
  inversion Hl as [[H1 H2]]. rewrite H1, H2. reflexivity.
Qed.

Lemma Desktop_wall_collision_book (g : Desktop.Game) (r : Rng) :
  Desktop_book (fst (Desktop.wall_collision g r)) = Desktop_book g /\
  Desktop.door (fst (Desktop.wall_collision g r)) = Desktop.door g.
Proof.
  unfold Desktop.wall_collision.
  repeat first [break_if | break_let]; cbn; auto.
Qed.

Lemma Desktop_kill_player_book (g : Desktop.Game) (now : Q) (r : Rng) :
  Desktop_book (fst (Desktop.kill_player g now r)) =
  book_killed now (Desktop_book g).
Proof.
  unfold Desktop.kill_player. break_let. reflexivity.
Qed.

Lemma Desktop_door_interactions_book (g : Desktop.Game) (now : Q) (r : Rng) :
  let g' := fst (Desktop.door_interactions g now r) in
  (Desktop_book g' = Desktop_book g /\ Desktop.state g' = Desktop.state g) \/
  (Desktop_book g' = book_won now (Desktop_book g) /\
   Desktop.d_open (Desktop.door g') = true).
Proof.
  unfold Desktop.door_interactions.
  destruct (Desktop.maybe_troll _ _ _ _) as [[d ps] r1].
  match goal with
  | |- context [Desktop.check_win_collision ?d ?p] =>
      destruct (Desktop.check_win_collision d p) eqn:W
  end.
  - right. unfold Desktop.check_win_collision in W.
    apply andb_prop in W. destruct W as [W _].
    apply andb_prop in W. destruct W as [W _].
    unfold Desktop.win_game. break_let. cbn. auto.
  - left. cbn. auto.
Qed.

Lemma Desktop_handle_collisions_book (g : Desktop.Game) (now : Q) (r : Rng) :
  let g' := fst (Desktop.handle_collisions g now r) in
  (Desktop_book g' = Desktop_book g /\
   (Desktop.state g <> PLAYING -> g' = g)) \/
  (Desktop.state g = PLAYING /\
   (Desktop_book g' = book_killed now (Desktop_book g) \/
    (Desktop_book g' = book_won now (Desktop_book g) /\
     Desktop.d_open (Desktop.door g') = true))).
Proof.
  unfold Desktop.handle_collisions.
  destruct (Desktop.state g) eqn:S; cbn [GameState_eqb negb];
    try (left; cbn; auto; fail).
  destruct (Desktop_wall_collision_book g r) as [Hw _].
  destruct (Desktop.wall_collision g r) as [g1 r1]. cbn [fst] in *.
  assert (Hs : Desktop.state g1 = PLAYING).
  { change (b_state (Desktop_book g1) = PLAYING). rewrite Hw. exact S. }
  repeat break_if.
  - right. split; [reflexivity|]. left.
    rewrite Desktop_kill_player_book, Hw. reflexivity.
  - right. split; [reflexivity|]. left.
    rewrite Desktop_kill_player_book, Hw. reflexivity.
  - destruct (Desktop_door_interactions_book g1 now r1) as [[H _] | [H O]].
    + left. split; [congruence | intros; congruence].
    + right. split; [reflexivity|]. right. rewrite <- Hw. auto.
Qed.

Lemma Desktop_update_book (m : Math) (g : Desktop.Game) (f : Frame) :
  book_step f (Desktop_book g) (Desktop_book (fst (Desktop.update m g f))).
Proof.
  unfold book_step, Desktop.update.
  destruct (K_r (f_keys f)); [reflexivity|].
  destruct (K_ESCAPE (f_keys f)); [left; reflexivity|].
  pose proof (Desktop_advance_book m g f) as Ha.
  destruct (Desktop.advance m g f) as [g1 r1]. cbn [fst] in *.
  destruct (Desktop_handle_collisions_book g1 (f_now f) r1)
    as [[H _] | [S [H | [H _]]]].
  - left. congruence.
  - right. rewrite <- Ha. auto.
  - right. rewrite <- Ha. auto.
Qed.

Lemma Desktop_run_path (m : Math) (fs : list Frame) :
  forall g : Desktop.Game,
    book_path fs (Desktop_book g) (Desktop_book (Desktop.run m g fs)).
Proof.
  induction fs as [|f rest IH]; intros g; cbn [Desktop.run book_path];
    [reflexivity|].
  pose proof (Desktop_update_book m g f) as Hu.
  destruct (Desktop.update m g f) as [g' running]. cbn [fst] in Hu.
  exists (Desktop_book g'). split; [exact Hu|].
  destruct running; [right; apply IH | left; reflexivity].
Qed.

Lemma Web_advance_book (m : Math) (g : Web.Game) (f : Frame) :
  Web_book (fst (Web.advance m g f)) = Web_book g.
Proof.
  pose proof (Web_advance_physics m g f) as Hp.
  pose proof (Web_physics_life (Web_controlled g f) (f_dt f)
                (Web_frame_collision_list g f) (Web.g_particles g)
                (f_rng f)) as Hl.
  rewrite <- Hp in Hl.
  assert (Hc : Web_life (Web_controlled g f) = Web_life (Web.player g)).
  { unfold Web_controlled. break_if; [apply Web_control_life | reflexivity]. }
  rewrite Hc in Hl. clear Hp Hc.
  unfold Web.advance in *.
  destruct (Web.physics _ _ _ _ _) as [[p ps] r].
  destruct (Web.update_stones _ _ _ _ _ _) as [[st ps'] r'].
  unfold Web_book, Web_life in *. cbn in *.
  inversion Hl as [[H1 H2]]. rewrite H1, H2. reflexivity.
Qed.

Lemma Web_teleport_loop_life (traps : list Web.TeleportTrap) :
  forall (pl : Web.Player) (c : Camera) (ps : Web.ParticleSystem) (r : Rng),
    let '(_, pl', _, _, _) := Web.teleport_loop traps pl c ps r in
    Web_life pl' = Web_life pl.
Proof.
  induction traps as [|t rest IH]; intros pl c ps r; cbn [Web.teleport_loop];
    [reflexivity|].
  destruct (Web.check_teleport t (Web.rect pl) ps r) as [[[t' dest] ps'] r'].
  destruct dest as [new_pos|]; [reflexivity|].
  specialize (IH pl c ps' r').
  destruct (Web.teleport_loop rest pl c ps' r') as [[[[rest' pl'] c'] ps''] r''].
  exact IH.
Qed.

Lemma Web_before_kill_checks_book (g : Web.Game) (r : Rng) :
  Web_book (fst (Web.before_kill_checks g r)) = Web_book g.
Proof.
  unfold Web.before_kill_checks.
  assert (Hw : Web_book (fst (Web.wall_collision g r)) = Web_book g).
  { unfold Web.wall_collision.
    repeat first [break_if | break_let]; reflexivity. }
  destruct (Web.wall_collision g r) as [g1 r1]. cbn [fst] in Hw.
  rewrite <- Hw.
  assert (Hf : Web_book (Web.fake_platform_collisions g1) = Web_book g1).
  { unfold Web.fake_platform_collisions. break_let. reflexivity. }
  rewrite <- Hf.
  set (g2 := Web.fake_platform_collisions g1).
  unfold Web.teleport_collisions.
  pose proof (Web_teleport_loop_life (Web.teleport_traps g2) (Web.player g2)
                (Web.camera g2) (Web.g_particles g2) r1) as Ht.
  destruct (Web.teleport_loop _ _ _ _ _) as [[[[tr pl] c] ps] r'].
  unfold Web_book, Web_life in *. cbn in *.
  inversion Ht as [[H1 H2]]. rewrite H1, H2. reflexivity.
Qed.

Lemma Web_kill_player_book (g : Web.Game) (now : Q) (r : Rng) :
  Web_book (fst (Web.kill_player g now r)) = book_killed now (Web_book g).
Proof.
  unfold Web.kill_player. break_let. reflexivity.
Qed.

Lemma Web_door_interactions_book (g : Web.Game) (now : Q) (r : Rng) :
  let g' := fst (Web.door_interactions g now r) in
  (Web_book g' = Web_book g /\ Web.state g' = Web.state g) \/
  (Web_book g' = book_won now (Web_book g) /\
   Web.d_open (Web.door g') = true).
Proof.
  unfold Web.door_interactions.
  destruct (Web.maybe_troll _ _ _ _) as [[d ps] r1].
  match goal with
  | |- context [Web.check_win_collision ?d ?p] =>
      destruct (Web.check_win_collision d p) eqn:W
  end.
  - right. unfold Web.check_win_collision in W.
    apply andb_prop in W. destruct W as [W _].
    unfold Web.win_game. break_let. cbn. auto.
  - left. cbn. auto.
Qed.

Lemma Web_handle_collisions_book (g : Web.Game) (now : Q) (r : Rng) :
  let g' := fst (Web.handle_collisions g now r) in
  (Web_book g' = Web_book g /\ (Web.state g <> PLAYING -> g' = g)) \/
  (Web.state g = PLAYING /\
   (Web_book g' = book_killed now (Web_book g) \/
    (Web_book g' = book_won now (Web_book g) /\
     Web.d_open (Web.door g') = true))).
Proof.
  unfold Web.handle_collisions.
  destruct (Web.state g) eqn:S; cbn [GameState_eqb negb];
    try (left; cbn; auto; fail).
  pose proof (Web_before_kill_checks_book g r) as Hw.
  destruct (Web.before_kill_checks g r) as [g1 r1]. cbn [fst] in *.
  break_if.
  - right. split; [reflexivity|]. left.
    rewrite Web_kill_player_book, Hw. reflexivity.
  - destruct (Web_door_interactions_book g1 now r1) as [[H _] | [H O]].
    + left. split; [congruence | intros; congruence].
    + right. split; [reflexivity|]. right. rewrite <- Hw. auto.
Qed.

Lemma Web_update_book (m : Math) (g : Web.Game) (f : Frame) :
  book_step f (Web_book g) (Web_book (fst (Web.update m g f))).
Proof.
  unfold book_step, Web.update.
  destruct (K_r (f_keys f)); [reflexivity|].
  destruct (K_ESCAPE (f_keys f)); [left; reflexivity|].
  pose proof (Web_advance_book m g f) as Ha.
  destruct (Web.advance m g f) as [g1 r1]. cbn [fst] in *.
  destruct (Web_handle_collisions_book g1 (f_now f) r1)
    as [[H _] | [S [H | [H _]]]].
  - left. congruence.
  - right. rewrite <- Ha. auto.
  - right. rewrite <- Ha. auto.
Qed.

Lemma Web_run_path (m : Math) (fs : list Frame) :
  forall g : Web.Game,
    book_path fs (Web_book g) (Web_book (Web.run m g fs)).
Proof.
  induction fs as [|f rest IH]; intros g; cbn [Web.run book_path];
    [reflexivity|].
  pose proof (Web_update_book m g f) as Hu.
  destruct (Web.update m g f) as [g' running]. cbn [fst] in Hu.
  exists (Web_book g'). split; [exact Hu|].
  destruct running; [right; apply IH | left; reflexivity].
Qed.

(** *** Sessions, seen through their bookkeeping *)

Lemma book_step_cases (f : Frame) (b b' : Book) :
  book_step f b b' ->
  (K_r (f_keys f) = true /\ b' = book_reset (f_now f) b) \/
  (K_r (f_keys f) = false /\ b' = b) \/
  (K_r (f_keys f) = false /\ b_state b = PLAYING /\
   b' = book_killed (f_now f) b) \/
  (K_r (f_keys f) = false /\ b_state b = PLAYING /\
   b' = book_won (f_now f) b).
Proof.
  unfold book_step. destruct (K_r (f_keys f)); [auto|].
  intros [H | [S [H | H]]]; auto 6.
Qed.

Lemma book_step_attempts (f : Frame) (b b' : Book) :
  book_step f b b' ->
  b_attempts b' =
  b_attempts b +
  (if GameState_eqb (b_state b) PLAYING && GameState_eqb (b_state b') DEAD
   then 1 else 0).
Proof.
  intro H. apply book_step_cases in H.
  destruct H as [[_ H] | [[_ H] | [(_ & S & H) | (_ & S & H)]]]; subst b'.
  - cbn. rewrite andb_false_r. lia.
  - destruct (b_state b); cbn; lia.
  - cbn. rewrite S. cbn. reflexivity.
  - cbn. rewrite S. cbn. lia.
Qed.

Lemma book_path_attempts (fs : list Frame) :
  forall b b',
    book_path fs b b' ->
    b_attempts b <= b_attempts b' <= b_attempts b + Z.of_nat (length fs).
Proof.
  induction fs as [|f rest IH]; intros b b' H.
  - cbn in H. subst. cbn. lia.
  - cbn [book_path] in H. destruct H as (b1 & Hs & H).
    apply book_step_attempts in Hs.
    assert (Hb : b_attempts b <= b_attempts b1 <= b_attempts b + 1)
      by (destruct (_ && _) in Hs; lia).
    cbn [length]. rewrite Nat2Z.inj_succ.
    destruct H as [H | H]; [subst; lia|].
    apply IH in H. lia.
Qed.

Lemma best_le_refl (o : option Q) : best_le o o.
Proof. destruct o; cbn; [apply Qle_refl | exact I]. Qed.

Lemma best_le_trans (a b c : option Q) :
  best_le a b -> best_le b c -> best_le a c.
Proof.
  destruct a, b, c; cbn; try tauto. apply Qle_trans.
Qed.

Lemma improved_best_le (now : Q) (b : Book) : best_le (improved now b) (b_best b).
Proof.
  unfold improved. destruct (b_best b) as [t|]; cbn; [|exact I].
  destruct (Qlt_bool (now - b_start b) t) eqn:E; cbn.
  - apply Qlt_bool_iff in E. apply Qlt_le_weak, E.
  - apply Qle_refl.
Qed.

Lemma book_step_best (f : Frame) (b b' : Book) :
  book_step f b b' -> best_le (b_best b') (b_best b).
Proof.
  intro H. apply book_step_cases in H.
  destruct H as [[_ H] | [[_ H] | [(_ & S & H) | (_ & S & H)]]]; subst b';
    cbn; try apply best_le_refl.
  apply improved_best_le.
Qed.

Lemma book_path_best (fs : list Frame) :
  forall b b', book_path fs b b' -> best_le (b_best b') (b_best b).
Proof.
  induction fs as [|f rest IH]; intros b b' H.
  - cbn in H. subst. apply best_le_refl.
  - cbn [book_path] in H. destruct H as (b1 & Hs & H).
    apply book_step_best in Hs.
    destruct H as [H | H]; [subst; exact Hs|].
    apply IH in H. eapply best_le_trans; eassumption.
Qed.

Lemma improved_bound (now : Q) (b : Book) :
  exists t, improved now b = Some t /\ (t <= now - b_start b)%Q.
Proof.
  unfold improved. destruct (b_best b) as [t|].
  - destruct (Qlt_bool (now - b_start b) t) eqn:E.
    + eexists. split; [reflexivity | apply Qle_refl].
    + exists t. split; [reflexivity|]. apply Qlt_bool_false_iff, E.
  - eexists. split; [reflexivity | apply Qle_refl].
Qed.

Lemma book_step_ok (f : Frame) (b b' : Book) :
  book_ok b -> book_step f b b' -> book_ok b'.
Proof.
  intros (O1 & O2 & O3 & O4 & O5 & O6) H. apply book_step_cases in H.
  destruct H as [[_ H] | [[_ H] | [(_ & S & H) | (_ & S & H)]]]; subst b'.
  - unfold book_ok. cbn. repeat split; try congruence; try discriminate.
  - unfold book_ok. auto 6.
  - unfold book_ok. cbn. rewrite S in *.
    repeat split; try congruence; try discriminate.
    + intro H. apply O3 in H. discriminate.
    + intro H. apply O5 in H. discriminate.
  - unfold book_ok. cbn. rewrite S in *.
    repeat split; try congruence; try discriminate.
    + intro H. apply O2 in H. discriminate.
    + intro H. apply O4 in H. discriminate.
    + intros _. destruct (improved_bound (f_now f) b) as (t & E & L).
      exists t, (f_now f). auto.
Qed.

Lemma book_path_ok (fs : list Frame) :
  forall b b', book_ok b -> book_path fs b b' -> book_ok b'.
Proof.
  induction fs as [|f rest IH]; intros b b' O H.
  - cbn in H. subst. exact O.
  - cbn [book_path] in H. destruct H as (b1 & Hs & H).
    pose proof (book_step_ok f b b1 O Hs) as O1.
    destruct H as [H | H]; [subst; exact O1|].
    eapply IH; eassumption.
Qed.

Lemma book_step_finished (f : Frame) (b b' : Book) :
  b_state b <> PLAYING -> K_r (f_keys f) = false ->
  book_step f b b' -> b' = b.
Proof.
  intros S R H. apply book_step_cases in H.
  destruct H as [[H _] | [[_ H] | [(_ & S' & _) | (_ & S' & _)]]]; congruence.
Qed.

Lemma book_path_finished (fs : list Frame) :
  forall b b',
    b_state b <> PLAYING -> no_reset fs -> book_path fs b b' -> b' = b.
Proof.
  induction fs as [|f rest IH]; intros b b' S N H.
  - exact H.
  - inversion N as [|? ? Hf Hrest]; subst.
    cbn [book_path] in H. destruct H as (b1 & Hs & H).
    apply (book_step_finished f b b1 S Hf) in Hs. subst b1.
    destruct H as [H | H]; [exact H | apply IH; assumption].
Qed.

(** *** A won game has an open door *)

Lemma Desktop_update_won_door (m : Math) (g : Desktop.Game) (f : Frame) :
  (Desktop.state g = WON -> Desktop.d_open (Desktop.door g) = true) ->
  Desktop.state (fst (Desktop.update m g f)) = WON ->
  Desktop.d_open (Desktop.door (fst (Desktop.update m g f))) = true.
Proof.
  intros J. unfold Desktop.update.
  destruct (K_r (f_keys f)); [cbn; discriminate|].
  destruct (K_ESCAPE (f_keys f)); [exact J|].
  assert (J1 : Desktop.state (fst (Desktop.advance m g f)) = WON ->
               Desktop.d_open (Desktop.door (fst (Desktop.advance m g f))) = true).
  { unfold Desktop.advance.
    destruct (Desktop.physics _ _ _ _ _) as [[p ps] r].
    destruct (Desktop.update_stones _ _ _ _ _ _) as [[st ps'] r'].
    cbn. exact J. }
  destruct (Desktop.advance m g f) as [g1 r1]. cbn [fst] in *.
  destruct (Desktop_handle_collisions_book g1 (f_now f) r1)
    as [[H E] | [S [H | [H O]]]].
  - intro W. destruct (Desktop.state g1) eqn:S1.
    + change (b_state (Desktop_book (fst (Desktop.handle_collisions g1 (f_now f) r1)))
              = WON) in W.
      rewrite H in W. cbn in W. congruence.
    + rewrite E by discriminate. apply J1. rewrite E in W by discriminate.
      congruence.
    + rewrite E by discriminate. apply J1. reflexivity.
    + rewrite E by discriminate. apply J1. rewrite E in W by discriminate.
      congruence.
  - intro W.
    change (b_state (Desktop_book (fst (Desktop.handle_collisions g1 (f_now f) r1)))
            = WON) in W.
    rewrite H in W. discriminate.
  - intros _. exact O.
Qed.

Lemma Desktop_run_won_door (m : Math) (fs : list Frame) :
  forall g : Desktop.Game,
    (Desktop.state g = WON -> Desktop.d_open (Desktop.door g) = true) ->
    Desktop.state (Desktop.run m g fs) = WON ->
    Desktop.d_open (Desktop.door (Desktop.run m g fs)) = true.
Proof.
  induction fs as [|f rest IH]; intros g J; cbn [Desktop.run]; [exact J|].
  pose proof (Desktop_update_won_door m g f J) as J1.
  destruct (Desktop.update m g f) as [g' running]. cbn [fst] in J1.
  destruct running; [apply IH; exact J1 | exact J1].
Qed.

Lemma Web_update_won_door (m : Math) (g : Web.Game) (f : Frame) :
  (Web.state g = WON -> Web.d_open (Web.door g) = true) ->
  Web.state (fst (Web.update m g f)) = WON ->
  Web.d_open (Web.door (fst (Web.update m g f))) = true.
Proof.
  intros J. unfold Web.update.
  destruct (K_r (f_keys f)); [cbn; discriminate|].
  destruct (K_ESCAPE (f_keys f)); [exact J|].
  assert (J1 : Web.state (fst (Web.advance m g f)) = WON ->
               Web.d_open (Web.door (fst (Web.advance m g f))) = true).
  { unfold Web.advance.
    destruct (Web.physics _ _ _ _ _) as [[p ps] r].
    destruct (Web.update_stones _ _ _ _ _ _) as [[st ps'] r'].
    cbn. exact J. }
  destruct (Web.advance m g f) as [g1 r1]. cbn [fst] in *.
  destruct (Web_handle_collisions_book g1 (f_now f) r1)
    as [[H E] | [S [H | [H O]]]].
  - intro W. destruct (Web.state g1) eqn:S1.
    + change (b_state (Web_book (fst (Web.handle_collisions g1 (f_now f) r1)))
              = WON) in W.
      rewrite H in W. cbn in W. congruence.
    + rewrite E by discriminate. apply J1. rewrite E in W by discriminate.
      congruence.
    + rewrite E by discriminate. apply J1. reflexivity.
    + rewrite E by discriminate. apply J1. rewrite E in W by discriminate.
      congruence.
  - intro W.
    change (b_state (Web_book (fst (Web.handle_collisions g1 (f_now f) r1)))
            = WON) in W.
    rewrite H in W. discriminate.
  - intros _. exact O.
Qed.

Lemma Web_run_won_door (m : Math) (fs : list Frame) :
  forall g : Web.Game,
    (Web.state g = WON -> Web.d_open (Web.door g) = true) ->
    Web.state (Web.run m g fs) = WON ->
    Web.d_open (Web.door (Web.run m g fs)) = true.
Proof.
  induction fs as [|f rest IH]; intros g J; cbn [Web.run]; [exact J|].
  pose proof (Web_update_won_door m g f J) as J1.
  destruct (Web.update m g f) as [g' running]. cbn [fst] in J1.
  destruct running; [apply IH; exact J1 | exact J1].
Qed.

(** *** The web variant leaves a dead or winning player alone *)

Lemma Web_update_frozen (m : Math) (g : Web.Game) (f : Frame) :
  Web.state g <> PLAYING ->
  Web.dead (Web.player g) || Web.win (Web.player g) = true ->
  K_r (f_keys f) = false ->
  Web.player (fst (Web.update m g f)) = Web.player g.
Proof.
  intros S L R. unfold Web.update. rewrite R.
  destruct (K_ESCAPE (f_keys f)); [reflexivity|].
  pose proof (Web_advance_physics m g f) as Hp.
  destruct (Web_advance_fields m g f) as [A1 _].
  destruct (Web.advance m g f) as [g1 r1]. cbn [fst] in *.
  rewrite Web_handle_collisions_not_playing by congruence.
  cbn [fst]. rewrite Hp.
  assert (Hc : Web_controlled g f = Web.player g).
  { unfold Web_controlled. destruct (Web.state g); try reflexivity. congruence. }
  rewrite Hc. unfold Web.physics. rewrite L. reflexivity.
Qed.

(** X3.  The attempts counter counts deaths.  In both variants a frame
    raises it by one exactly when the frame takes the game from PLAYING to
    DEAD and leaves it alone otherwise, so over any session, resets and
    wins included, the counter never goes down and rises by at most one per
    frame. *)
Theorem deaths_are_counted :
  (forall (m : Math) (g : Desktop.Game) (f : Frame),
      let g' := fst (Desktop.update m g f) in
      Desktop.attempts g' =
      Desktop.attempts g +
      (if GameState_eqb (Desktop.state g) PLAYING &&
          GameState_eqb (Desktop.state g') DEAD then 1 else 0)) /\
  (forall (m : Math) (g : Desktop.Game) (fs : list Frame),
      Desktop.attempts g <= Desktop.attempts (Desktop.run m g fs)
      <= Desktop.attempts g + Z.of_nat (length fs)) /\
  (forall (m : Math) (g : Web.Game) (f : Frame),
      let g' := fst (Web.update m g f) in
      Web.attempts g' =
      Web.attempts g +
      (if GameState_eqb (Web.state g) PLAYING &&
          GameState_eqb (Web.state g') DEAD then 1 else 0)) /\
  (forall (m : Math) (g : Web.Game) (fs : list Frame),
      Web.attempts g <= Web.attempts (Web.run m g fs)
      <= Web.attempts g + Z.of_nat (length fs)).
Proof.
  split; [|split; [|split]].
  - intros m g f. exact (book_step_attempts f _ _ (Desktop_update_book m g f)).
  - intros m g fs.
    exact (book_path_attempts fs _ _ (Desktop_run_path m fs g)).
  - intros m g f. exact (book_step_attempts f _ _ (Web_update_book m g f)).
  - intros m g fs. exact (book_path_attempts fs _ _ (Web_run_path m fs g)).
Qed.

Lemma book_step_won (f : Frame) (b b' : Book) :
  book_step f b b' -> b_state b = PLAYING -> b_state b' = WON ->
  b' = book_won (f_now f) b.
Proof.
  intros H S W. apply book_step_cases in H.
  destruct H as [[_ H] | [[_ H] | [(_ & _ & H) | (_ & _ & H)]]]; subst b';
    cbn in W; congruence.
Qed.

(** X4.  The record never gets worse.  Over any session of either variant
    the best time at the end is at least as good as at the start, and a
    frame that wins the game stamps the win with the frame's clock reading
    and leaves as record the smaller of the old record and the time just
    played. *)
Theorem record_never_worsens :
  (forall (m : Math) (g : Desktop.Game) (fs : list Frame),
      best_le (Desktop.best_time (Desktop.run m g fs)) (Desktop.best_time g)) /\
  (forall (m : Math) (g : Desktop.Game) (f : Frame),
      let g' := fst (Desktop.update m g f) in
      Desktop.state g = PLAYING -> Desktop.state g' = WON ->
      Desktop.win_time g' = Some (f_now f) /\
      Desktop.best_time g' = improved (f_now f) (Desktop_book g)) /\
  (forall (m : Math) (g : Web.Game) (fs : list Frame),
      best_le (Web.best_time (Web.run m g fs)) (Web.best_time g)) /\
  (forall (m : Math) (g : Web.Game) (f : Frame),
      let g' := fst (Web.update m g f) in
      Web.state g = PLAYING -> Web.state g' = WON ->
      Web.win_time g' = Some (f_now f) /\
      Web.best_time g' = improved (f_now f) (Web_book g)).
Proof.
  split; [|split; [|split]].
  - intros m g fs. exact (book_path_best fs _ _ (Desktop_run_path m fs g)).
  - intros m g f g' S W.
    pose proof (book_step_won f _ _ (Desktop_update_book m g f) S W) as H.
    fold g' in H. split.
    + change (b_won_at (Desktop_book g') = Some (f_now f)). rewrite H. reflexivity.
    + change (b_best (Desktop_book g') = improved (f_now f) (Desktop_book g)).
      rewrite H. reflexivity.
  - intros m g fs. exact (book_path_best fs _ _ (Web_run_path m fs g)).
  - intros m g f g' S W.
    pose proof (book_step_won f _ _ (Web_update_book m g f) S W) as H.
    fold g' in H. split.
    + change (b_won_at (Web_book g') = Some (f_now f)). rewrite H. reflexivity.
    + change (b_best (Web_book g') = improved (f_now f) (Web_book g)).
      rewrite H. reflexivity.
Qed.

Lemma record_never_worsens_witness :
  (let g' := fst (Desktop.update trivial_math desktop_at_open_door late_frame) in
   Desktop.win_time g' = Some 25%Q /\
   Desktop.best_time g' = improved 25 (Desktop_book desktop_at_open_door)) /\
  (let g' := fst (Web.update trivial_math web_at_open_door late_frame) in
   Web.win_time g' = Some 25%Q /\
   Web.best_time g' = improved 25 (Web_book web_at_open_door)).
Proof.
  split.
  - apply (proj1 (proj2 record_never_worsens)
             trivial_math desktop_at_open_door late_frame).
    + reflexivity.
    + vm_compute. reflexivity.
  - apply (proj2 (proj2 (proj2 record_never_worsens))
             trivial_math web_at_open_door late_frame).
    + reflexivity.
    + vm_compute. reflexivity.
Defined.

Lemma new_games_ok (now : Q) :
  book_ok (Desktop_book (Desktop.new_Game now)) /\
  book_ok (Web_book (Web.new_Game now)).
Proof.
  split; unfold book_ok; cbn; repeat split; try congruence; try discriminate.
Qed.

(** X5.  However a session of either variant goes from a new game, its
    bookkeeping stays consistent: the game is never PAUSED; the player's
    dead flag is set and a death time is recorded exactly in state DEAD;
    the win flag is set and a win time is recorded exactly in state WON;
    and in state WON the door is open and the record is no worse than the
    time between the start and the win. *)
Theorem session_bookkeeping_consistent :
  (forall (m : Math) (now : Q) (fs : list Frame),
      let g := Desktop.run m (Desktop.new_Game now) fs in
      book_ok (Desktop_book g) /\
      (Desktop.state g = WON -> Desktop.d_open (Desktop.door g) = true)) /\
  (forall (m : Math) (now : Q) (fs : list Frame),
      let g := Web.run m (Web.new_Game now) fs in
      book_ok (Web_book g) /\
      (Web.state g = WON -> Web.d_open (Web.door g) = true)).
Proof.
  split; intros m now fs g; split.
  - exact (book_path_ok fs _ _ (proj1 (new_games_ok now))
             (Desktop_run_path m fs (Desktop.new_Game now))).
  - apply Desktop_run_won_door. cbn. discriminate.
  - exact (book_path_ok fs _ _ (proj2 (new_games_ok now))
             (Web_run_path m fs (Web.new_Game now))).
  - apply Web_run_won_door. cbn. discriminate.
Qed.

(** *** The web loop draws after every update *)

Lemma Web_set_blink_twice (p : Web.Player) (a b : Q) :
  Web_set_blink_timer (Web_set_blink_timer p a) b = Web_set_blink_timer p b.
Proof. reflexivity. Qed.

Lemma Web_set_blink_same (p : Web.Player) :
  Web_set_blink_timer p (Web.blink_timer p) = p.
Proof. destruct p. reflexivity. Qed.

Lemma Web_Player_draw_cases (p : Web.Player) (u : option Q) :
  Web_Player_draw p u = p \/
  Web_Player_draw p u = Web_set_blink_timer p (1 # 10).
Proof.
  unfold Web_Player_draw. destruct u as [x|]; [|auto].
  destruct (Qlt_bool x (2 # 1000) && Qle_bool (Web.blink_timer p) 0); auto.
Qed.

Lemma Web_Game_draw_book (g : Web.Game) (u : option Q) :
  Web_book (Web_Game_draw g u) = Web_book g.
Proof.
  unfold Web_book, Web_Game_draw. cbn.
  destruct (Web_Player_draw_cases (Web.player g) u) as [-> | ->]; reflexivity.
Qed.

Lemma Web_main_path (m : Math) (fs : list (Frame * option Q)) :
  forall g : Web.Game,
    book_path (map fst fs) (Web_book g) (Web_book (Web_main m g fs)).
Proof.
  induction fs as [|[f u] rest IH]; intros g; cbn [Web_main book_path map fst];
    [reflexivity|].
  pose proof (Web_update_book m g f) as Hu.
  destruct (Web.update m g f) as [g' running]. cbn [fst] in Hu.
  exists (Web_book g'). split; [exact Hu|].
  destruct running.
  - right. rewrite <- (Web_Game_draw_book g' u). apply IH.
  - left. apply Web_Game_draw_book.
Qed.

Lemma Web_main_frozen (m : Math) (fs : list (Frame * option Q)) :
  forall g : Web.Game,
    Web.state g <> PLAYING ->
    Web.dead (Web.player g) || Web.win (Web.player g) = true ->
    no_reset (map fst fs) ->
    Web_set_blink_timer (Web.player (Web_main m g fs))
                        (Web.blink_timer (Web.player g)) = Web.player g /\
    (Web.blink_timer (Web.player (Web_main m g fs))
     = Web.blink_timer (Web.player g) \/
     Web.blink_timer (Web.player (Web_main m g fs)) = 1 # 10).
Proof.
  induction fs as [|[f u] rest IH]; intros g S L N; cbn [Web_main map fst] in *.
  - split; [apply Web_set_blink_same | left; reflexivity].
  - inversion N as [|? ? Hf Hrest]; subst.
    pose proof (Web_update_frozen m g f S L Hf) as Hp.
    pose proof (Web_update_book m g f) as Hb.
    apply (book_step_finished f) in Hb; [|exact S | exact Hf].
    destruct (Web.update m g f) as [g' running]. cbn [fst] in *.
    assert (S' : Web.state (Web_Game_draw g' u) <> PLAYING).
    { change (b_state (Web_book g') <> PLAYING). rewrite Hb. exact S. }
    assert (D : Web.player (Web_Game_draw g' u)
                = Web_Player_draw (Web.player g) u)
      by (cbn; rewrite Hp; reflexivity).
    assert (L' : Web.dead (Web.player (Web_Game_draw g' u)) ||
                 Web.win (Web.player (Web_Game_draw g' u)) = true).
    { rewrite D.
      destruct (Web_Player_draw_cases (Web.player g) u) as [-> | ->]; exact L. }
    assert (One : Web_set_blink_timer (Web.player (Web_Game_draw g' u))
                                      (Web.blink_timer (Web.player g))
                  = Web.player g /\
                  (Web.blink_timer (Web.player (Web_Game_draw g' u))
                   = Web.blink_timer (Web.player g) \/
                   Web.blink_timer (Web.player (Web_Game_draw g' u)) = 1 # 10)).
    { rewrite D.
      destruct (Web_Player_draw_cases (Web.player g) u) as [-> | ->].
      - split; [apply Web_set_blink_same | left; reflexivity].
      - split; [rewrite Web_set_blink_twice; apply Web_set_blink_same|].
        right. reflexivity. }
    destruct running; [|exact One].
    destruct (IH (Web_Game_draw g' u) S' L' Hrest) as [I1 I2].
    destruct One as [O1 O2].
    set (p' := Web.player (Web_main m (Web_Game_draw g' u) rest)) in *.
    set (p1 := Web.player (Web_Game_draw g' u)) in *.
    split.
    + rewrite <- O1, <- I1. rewrite !Web_set_blink_twice. reflexivity.
    + destruct I2 as [I2 | I2]; [|right; exact I2].
      rewrite I2. exact O2.
Qed.

(** X6.  A finished game waits for the reset key.  From a state other
    than PLAYING a session without reset changes neither the state, the
    attempts counter, the record, the time stamps nor the player's flags,
    in either variant.  In the web variant [Game.update] does not touch a
    dead or winning player at all; the main loop draws after every update,
    and [Player.draw] may start a blink, so over the loop with its drawing
    the bookkeeping is unchanged as well and the player is unchanged but
    for its blink timer, which either is as it was or holds the 0.1 that
    [draw] wrote. *)
Theorem finished_game_waits_for_reset :
  (forall (m : Math) (g : Desktop.Game) (fs : list Frame),
      Desktop.state g <> PLAYING -> no_reset fs ->
      Desktop_book (Desktop.run m g fs) = Desktop_book g) /\
  (forall (m : Math) (g : Web.Game) (fs : list Frame),
      Web.state g <> PLAYING -> no_reset fs ->
      Web_book (Web.run m g fs) = Web_book g) /\
  (forall (m : Math) (g : Web.Game) (f : Frame),
      Web.state g <> PLAYING ->
      Web.dead (Web.player g) || Web.win (Web.player g) = true ->
      K_r (f_keys f) = false ->
      Web.player (fst (Web.update m g f)) = Web.player g) /\
  (forall (m : Math) (g : Web.Game) (fs : list (Frame * option Q)),
      Web.state g <> PLAYING -> no_reset (map fst fs) ->
      Web_book (Web_main m g fs) = Web_book g) /\
  (forall (m : Math) (g : Web.Game) (fs : list (Frame * option Q)),
      Web.state g <> PLAYING ->
      Web.dead (Web.player g) || Web.win (Web.player g) = true ->
      no_reset (map fst fs) ->
      Web_set_blink_timer (Web.player (Web_main m g fs))
                          (Web.blink_timer (Web.player g)) = Web.player g /\
      (Web.blink_timer (Web.player (Web_main m g fs))
       = Web.blink_timer (Web.player g) \/
       Web.blink_timer (Web.player (Web_main m g fs)) = 1 # 10)).
Proof.
  split; [|split; [|split; [|split]]].
  - intros m g fs S N.
    exact (book_path_finished fs (Desktop_book g) _ S N (Desktop_run_path m fs g)).
  - intros m g fs S N.
    exact (book_path_finished fs (Web_book g) _ S N (Web_run_path m fs g)).
  - exact Web_update_frozen.
  - intros m g fs S N.
    exact (book_path_finished (map fst fs) (Web_book g) _ S N
             (Web_main_path m fs g)).
  - intros m g fs. apply Web_main_frozen.
Qed.

Lemma finished_game_waits_for_reset_witness :
  Desktop_book (Desktop.run trivial_math desktop_won [idle_frame; idle_frame])
  = Desktop_book desktop_won /\
  Web_book (Web.run trivial_math web_lost [idle_frame; idle_frame])
  = Web_book web_lost /\
  Web_book (Web_main trivial_math web_lost blinking_frames) = Web_book web_lost /\
  Web_set_blink_timer
    (Web.player (Web_main trivial_math web_lost blinking_frames))
    (Web.blink_timer (Web.player web_lost)) = Web.player web_lost.
Proof.
  split; [|split; [|split]].
  - apply (proj1 finished_game_waits_for_reset trivial_math desktop_won
                 [idle_frame; idle_frame]).
    + vm_compute. discriminate.
    + repeat constructor.
  - apply (proj1 (proj2 finished_game_waits_for_reset) trivial_math web_lost
                 [idle_frame; idle_frame]).
    + vm_compute. discriminate.
    + repeat constructor.
  - apply (proj1 (proj2 (proj2 (proj2 finished_game_waits_for_reset)))
                 trivial_math web_lost blinking_frames).
    + vm_compute. discriminate.
    + repeat constructor.
  - apply (proj2 (proj2 (proj2 (proj2 finished_game_waits_for_reset)))
                 trivial_math web_lost blinking_frames).
    + vm_compute. discriminate.
    + vm_compute. reflexivity.
    + repeat constructor.
Defined.

(** ** The camera *)

Lemma Qmax_cases (a b : Q) :
  ((a <= b)%Q /\ Qmax a b = b) \/ ((b < a)%Q /\ Qmax a b = a).
Proof.
  unfold Qmax. destruct (Qle_bool a b) eqn:E.
  - left. split; [apply Qle_bool_iff, E | reflexivity].
  - right. split; [|reflexivity].
    apply Qnot_le_lt. intro H. apply Qle_bool_iff in H. congruence.
Qed.

Lemma Qmin_cases (a b : Q) :
  ((a <= b)%Q /\ Qmin a b = a) \/ ((b < a)%Q /\ Qmin a b = b).
Proof.
  unfold Qmin. destruct (Qle_bool a b) eqn:E.
  - left. split; [apply Qle_bool_iff, E | reflexivity].
  - right. split; [|reflexivity].
    apply Qnot_le_lt. intro H. apply Qle_bool_iff in H. congruence.
Qed.

Lemma Camera_follow_inv (c : Camera) (target : Rect) (smooth : Q) :
  Camera_inv c -> Camera_inv (Camera_follow c target smooth).
Proof.
  intros (_ & _ & _ & I1 & I2 & I3).
  unfold Camera_inv, Camera_follow.
  cbn [cam_x cam_y shake_intensity shake_duration].
  change (inject_Z (WIDTH - WIDTH)) with 0%Q.
  change (inject_Z (- HEIGHT / 4)) with (- (180 # 1))%Q.
  change (inject_Z (HEIGHT / 4)) with (180 # 1)%Q.
  repeat split; try assumption.
  - match goal with |- (Qmax 0 (Qmin ?x 0) == 0)%Q =>
      destruct (Qmin_cases x 0) as [[A ->] | [A ->]] end.
    + match goal with |- (Qmax 0 ?x == 0)%Q =>
        destruct (Qmax_cases 0 x) as [[B ->] | [B ->]] end; lra.
    + destruct (Qmax_cases 0 0) as [[B ->] | [B ->]]; lra.
  - match goal with |- (_ <= Qmax ?a ?b)%Q =>
      destruct (Qmax_cases a b) as [[A ->] | [A ->]] end; lra.
  - match goal with |- (Qmax ?a (Qmin ?y ?b) <= _)%Q =>
      destruct (Qmin_cases y b) as [[A E] | [A E]]; rewrite E;
      match goal with |- (Qmax ?a ?z <= _)%Q =>
        destruct (Qmax_cases a z) as [[B ->] | [B ->]] end end; lra.
Qed.

Lemma Camera_update_inv (c : Camera) (dt : Q) :
  Camera_inv c -> Camera_inv (Camera_update c dt).
Proof.
  intros (I1 & I2 & I3 & I4 & I5 & I6).
  unfold Camera_update. destruct (Qgt_bool (shake_duration c) 0) eqn:E;
    [|unfold Camera_inv; auto 6].
  unfold Camera_inv. cbn [cam_x cam_y shake_intensity shake_duration].
  destruct (Qle_bool (shake_duration c - dt) 0) eqn:D.
  - repeat split; try assumption; try lra; try (intros _; reflexivity).
  - repeat split; try assumption.
    intro H. apply Qle_bool_iff in H. congruence.
Qed.

Lemma Camera_add_shake_inv (c : Camera) (i d : Q) :
  (0 <= i)%Q -> (i <= 12 # 1)%Q -> (0 < d)%Q ->
  Camera_inv c -> Camera_inv (Camera_add_shake c i d).
Proof.
  intros Hi Hi' Hd (I1 & I2 & I3 & I4 & I5 & I6).
  unfold Camera_inv, Camera_add_shake.
  cbn [cam_x cam_y shake_intensity shake_duration].
  destruct (Qmax_cases (shake_intensity c) i) as [[A ->] | [A ->]];
    destruct (Qmax_cases (shake_duration c) d) as [[B ->] | [B ->]];
    repeat split; try assumption; try lra; intro H; exfalso; lra.
Qed.

Lemma new_Camera_inv : Camera_inv new_Camera.
Proof.
  unfold Camera_inv. cbn. repeat split; try lra; try (intros _; reflexivity).
Qed.

Ltac shake_inv :=
  apply Camera_add_shake_inv; [lra | lra | lra | assumption].

Lemma Desktop_advance_camera (m : Math) (g : Desktop.Game) (f : Frame) :
  Camera_inv (Desktop.camera g) ->
  Camera_inv (Desktop.camera (fst (Desktop.advance m g f))).
Proof.
  intro I. unfold Desktop.advance.
  destruct (Desktop.physics _ _ _ _ _) as [[p ps] r].
  destruct (Desktop.update_stones _ _ _ _ _ _) as [[st ps'] r'].
  cbn. apply Camera_update_inv, Camera_follow_inv, I.
Qed.

Lemma Desktop_kill_player_camera (g : Desktop.Game) (now : Q) (r : Rng) :
  Camera_inv (Desktop.camera g) ->
  Camera_inv (Desktop.camera (fst (Desktop.kill_player g now r))).
Proof.
  intro I. unfold Desktop.kill_player. break_let. cbn. shake_inv.
Qed.

Lemma Desktop_handle_collisions_camera (g : Desktop.Game) (now : Q) (r : Rng) :
  Camera_inv (Desktop.camera g) ->
  Camera_inv (Desktop.camera (fst (Desktop.handle_collisions g now r))).
Proof.
  intro I. unfold Desktop.handle_collisions.
  destruct (negb _); [exact I|].
  assert (I1 : Camera_inv (Desktop.camera (fst (Desktop.wall_collision g r)))).
  { unfold Desktop.wall_collision.
    repeat first [break_if | break_let]; cbn; try exact I; shake_inv. }
  destruct (Desktop.wall_collision g r) as [g1 r1]. cbn [fst] in I1.
  repeat break_if; try (apply Desktop_kill_player_camera; exact I1).
  unfold Desktop.door_interactions.
  destruct (Desktop.maybe_troll _ _ _ _) as [[d ps] r2].
  break_if; [|exact I1].
  unfold Desktop.win_game. break_let. cbn. shake_inv.
Qed.

Lemma Desktop_update_camera (m : Math) (g : Desktop.Game) (f : Frame) :
  Camera_inv (Desktop.camera g) ->
  Camera_inv (Desktop.camera (fst (Desktop.update m g f))).
Proof.
  intro I. unfold Desktop.update.
  destruct (K_r (f_keys f)); [exact new_Camera_inv|].
  destruct (K_ESCAPE (f_keys f)); [exact I|].
  pose proof (Desktop_advance_camera m g f I) as I1.
  destruct (Desktop.advance m g f) as [g1 r1]. cbn [fst] in *.
  apply Desktop_handle_collisions_camera, I1.
Qed.

Lemma Desktop_run_camera (m : Math) (fs : list Frame) :
  forall g : Desktop.Game,
    Camera_inv (Desktop.camera g) ->
    Camera_inv (Desktop.camera (Desktop.run m g fs)).
Proof.
  induction fs as [|f rest IH]; intros g I; cbn [Desktop.run]; [exact I|].
  pose proof (Desktop_update_camera m g f I) as I1.
  destruct (Desktop.update m g f) as [g' running]. cbn [fst] in I1.
  destruct running; [apply IH, I1 | exact I1].
Qed.

Lemma Web_advance_camera (m : Math) (g : Web.Game) (f : Frame) :
  Camera_inv (Web.camera g) ->
  Camera_inv (Web.camera (fst (Web.advance m g f))).
Proof.
  intro I. unfold Web.advance.
  destruct (Web.physics _ _ _ _ _) as [[p ps] r].
  destruct (Web.update_stones _ _ _ _ _ _) as [[st ps'] r'].
  cbn. apply Camera_update_inv, Camera_follow_inv, I.
Qed.

Lemma Web_fake_platform_fold_camera (pl : Web.Player) (fps : list Web.FakePlatform) :
  forall (done : list Web.FakePlatform) (c : Camera),
    Camera_inv c ->
    Camera_inv (snd (fold_left (Web.fake_platform_step pl) fps (done, c))).
Proof.
  induction fps as [|x rest IH]; intros done c I; cbn [fold_left]; [exact I|].
  unfold Web.fake_platform_step at 2. break_if; apply IH; [shake_inv | exact I].
Qed.

Lemma Web_teleport_loop_camera (traps : list Web.TeleportTrap) :
  forall (pl : Web.Player) (c : Camera) (ps : Web.ParticleSystem) (r : Rng),
    Camera_inv c ->
    let '(_, _, c', _, _) := Web.teleport_loop traps pl c ps r in
    Camera_inv c'.
Proof.
  induction traps as [|t rest IH]; intros pl c ps r I; cbn [Web.teleport_loop];
    [exact I|].
  destruct (Web.check_teleport t (Web.rect pl) ps r) as [[[t' dest] ps'] r'].
  destruct dest as [new_pos|]; [shake_inv|].
  specialize (IH pl c ps' r' I).
  destruct (Web.teleport_loop rest pl c ps' r') as [[[[rest' pl'] c'] ps''] r''].
  exact IH.
Qed.

Lemma Web_kill_player_camera (g : Web.Game) (now : Q) (r : Rng) :
  Camera_inv (Web.camera g) ->
  Camera_inv (Web.camera (fst (Web.kill_player g now r))).
Proof.
  intro I. unfold Web.kill_player. break_let. cbn. shake_inv.
Qed.

Lemma Web_handle_collisions_camera (g : Web.Game) (now : Q) (r : Rng) :
  Camera_inv (Web.camera g) ->
  Camera_inv (Web.camera (fst (Web.handle_collisions g now r))).
Proof.
  intro I. unfold Web.handle_collisions.
  destruct (negb _); [exact I|].
  assert (I3 : Camera_inv (Web.camera (fst (Web.before_kill_checks g r)))).
  { unfold Web.before_kill_checks.
    assert (I1 : Camera_inv (Web.camera (fst (Web.wall_collision g r)))).
    { unfold Web.wall_collision.
      repeat first [break_if | break_let]; cbn; try exact I; shake_inv. }
    destruct (Web.wall_collision g r) as [g1 r1]. cbn [fst] in I1.
    assert (I2 : Camera_inv (Web.camera (Web.fake_platform_collisions g1))).
    { unfold Web.fake_platform_collisions.
      pose proof (Web_fake_platform_fold_camera (Web.player g1)
                    (Web.fake_platforms g1) [] (Web.camera g1) I1) as H.
      destruct (fold_left _ _ _) as [fps c]. exact H. }
    set (g2 := Web.fake_platform_collisions g1) in *.
    unfold Web.teleport_collisions.
    pose proof (Web_teleport_loop_camera (Web.teleport_traps g2) (Web.player g2)
                  (Web.camera g2) (Web.g_particles g2) r1 I2) as H.
    destruct (Web.teleport_loop _ _ _ _ _) as [[[[tr pl] c] ps] r'].
    exact H. }
  destruct (Web.before_kill_checks g r) as [g1 r1]. cbn [fst] in I3.
  break_if; [apply Web_kill_player_camera; exact I3|].
  unfold Web.door_interactions.
  destruct (Web.maybe_troll _ _ _ _) as [[d ps] r2].
  break_if; [|exact I3].
  unfold Web.win_game. break_let. cbn. shake_inv.
Qed.

Lemma Web_update_camera (m : Math) (g : Web.Game) (f : Frame) :
  Camera_inv (Web.camera g) ->
  Camera_inv (Web.camera (fst (Web.update m g f))).
Proof.
  intro I. unfold Web.update.
  destruct (K_r (f_keys f)); [exact new_Camera_inv|].
  destruct (K_ESCAPE (f_keys f)); [exact I|].
  pose proof (Web_advance_camera m g f I) as I1.
  destruct (Web.advance m g f) as [g1 r1]. cbn [fst] in *.
  apply Web_handle_collisions_camera, I1.
Qed.

Lemma Web_run_camera (m : Math) (fs : list Frame) :
  forall g : Web.Game,
    Camera_inv (Web.camera g) ->
    Camera_inv (Web.camera (Web.run m g fs)).
Proof.
  induction fs as [|f rest IH]; intros g I; cbn [Web.run]; [exact I|].
  pose proof (Web_update_camera m g f I) as I1.
  destruct (Web.update m g f) as [g' running]. cbn [fst] in I1.
  destruct running; [apply IH, I1 | exact I1].
Qed.

(** X7.  Whatever is played from a new game, in either variant the camera
    never scrolls sideways, its height stays within 180 pixels of the
    origin, the shake is never stronger than twelve pixels, and a shake
    whose duration has run out has no strength left. *)
Theorem camera_stays_in_bounds :
  (forall (m : Math) (now : Q) (fs : list Frame),
      Camera_inv (Desktop.camera (Desktop.run m (Desktop.new_Game now) fs))) /\
  (forall (m : Math) (now : Q) (fs : list Frame),
      Camera_inv (Web.camera (Web.run m (Web.new_Game now) fs))).
Proof.
  split; intros m now fs.
  - apply Desktop_run_camera. exact new_Camera_inv.
  - apply Web_run_camera. exact new_Camera_inv.
Qed.

Lemma to_int_bound (q : Q) (n : Z) :
  (- inject_Z n <= q)%Q -> (q <= inject_Z n)%Q -> - n <= to_int q <= n.
Proof.
  destruct q as [a d]. unfold to_int, Qle. cbn [Qnum Qden inject_Z Qopp].
  intros L U.
  assert (Hd : 0 < Z.pos d) by lia.
  destruct (Z_le_gt_dec 0 a) as [Ha | Ha].
  - rewrite Z.quot_div_nonneg by lia.
    pose proof (Z.div_pos a (Z.pos d) Ha Hd).
    assert (a / Z.pos d <= n); [|lia].
    apply Z.div_le_upper_bound; lia.
  - replace a with (- (- a)) by lia.
    rewrite Z.quot_opp_l by lia.
    rewrite Z.quot_div_nonneg by lia.
    pose proof (Z.div_pos (- a) (Z.pos d) ltac:(lia) Hd).
    assert (- a / Z.pos d <= n); [|lia].
    apply Z.div_le_upper_bound; lia.
Qed.

Lemma to_int_zero (q : Q) : (q == 0)%Q -> to_int q = 0.
Proof.
  destruct q as [a d]. unfold to_int, Qeq. cbn [Qnum Qden].
  intro H. assert (a = 0) by lia. subst. reflexivity.
Qed.

Lemma uniform_range (a b : Q) (g : Rng) :
  unit_samples g -> (a <= b)%Q ->
  (a <= fst (uniform a b g))%Q /\ (fst (uniform a b g) <= b)%Q /\
  unit_samples (snd (uniform a b g)).
Proof.
  intros U H. unfold uniform, random. cbn [fst snd].
  destruct (U (cursor g)) as [U0 U1].
  split; [|split].
  - nra.
  - nra.
  - exact U.
Qed.

(** X8.  The offset the scene is drawn with.  For a camera within its
    bounds and a random source of unit samples, [get_offset] shifts the
    scene by at most 12 pixels sideways and at most 192 pixels up or down;
    without a running shake it draws no random sample and the sideways
    shift is zero. *)
Theorem view_offset_bounded (c : Camera) (g : Rng) :
  Camera_inv c -> unit_samples g ->
  let '((ox, oy), g') := get_offset c g in
  - 12 <= ox <= 12 /\ - 192 <= oy <= 192 /\
  ((shake_intensity c == 0)%Q -> ox = 0 /\ g' = g).
Proof.
  intros (I1 & I2 & I3 & I4 & I5 & I6) U. unfold get_offset.
  destruct (Qgt_bool (shake_intensity c) 0) eqn:E.
  - apply Qgt_bool_iff in E.
    assert (R : (- shake_intensity c <= shake_intensity c)%Q) by lra.
    destruct (uniform_range _ _ g U R) as (A1 & A2 & U1).
    destruct (uniform (- shake_intensity c) (shake_intensity c) g) as [sx g1].
    cbn [fst snd] in *.
    destruct (uniform_range _ _ g1 U1 R) as (B1 & B2 & _).
    destruct (uniform (- shake_intensity c) (shake_intensity c) g1) as [sy g2].
    cbn [fst snd] in *.
    split; [|split].
    + apply (to_int_bound _ 12); unfold inject_Z; lra.
    + apply (to_int_bound _ 192); unfold inject_Z; lra.
    + intro H. exfalso. lra.
  - split; [|split].
    + rewrite to_int_zero by lra. lia.
    + apply (to_int_bound _ 192); unfold inject_Z; lra.
    + intros _. split; [apply to_int_zero; lra | reflexivity].
Qed.

Lemma view_offset_bounded_witness :
  - 12 <= 6 <= 12 /\ - 192 <= -94 <= 192 /\
  ((12 # 1 == 0)%Q ->
   6 = 0 /\ mkRng (fun _ => 3 # 4) 2 = mkRng (fun _ => 3 # 4) 0).
Proof.
  refine (view_offset_bounded (mkCamera 0 100 0 0 12 (8 # 10))
                              (mkRng (fun _ => 3 # 4) 0) _ _).
  - unfold Camera_inv. cbn. repeat split; lra.
  - intro n. cbn. split; lra.
Defined.

(** ** The fake platforms of the web variant *)

Lemma Web_vertical_step_settled (p : Web.Player) (ps : Web.ParticleSystem)
      (g : Rng) (pl : Platform) :
  Qgt_bool (Web.vy p) 0 = false ->
  Qgt_bool (Web.vy (fst (fst (Web.vertical_step (p, ps, g) pl)))) 0 = false.
Proof.
  intro V. unfold Web.vertical_step. rewrite V.
  repeat break_if; cbn; auto.
Qed.

Lemma Web_vertical_fold_settled (platforms : list Platform) :
  forall (p : Web.Player) (ps : Web.ParticleSystem) (g : Rng),
    Qgt_bool (Web.vy p) 0 = false ->
    Qgt_bool (Web.vy (fst (fst (fold_left Web.vertical_step platforms (p, ps, g)))))
             0 = false.
Proof.
  induction platforms as [|q rest IH]; intros p ps g V; cbn [fold_left];
    [exact V|].
  pose proof (Web_vertical_step_settled p ps g q V) as V1.
  destruct (Web.vertical_step (p, ps, g) q) as [[p1 ps1] g1].
  apply IH. exact V1.
Qed.

Lemma Web_vertical_step_landed (p : Web.Player) (ps : Web.ParticleSystem)
      (g : Rng) (pl : Platform) :
  colliderect (Web.rect p) (p_rect pl) = true ->
  Qgt_bool (Web.vy (fst (fst (Web.vertical_step (p, ps, g) pl)))) 0 = false.
Proof.
  intro C. unfold Web.vertical_step. rewrite C.
  destruct (Qgt_bool (Web.vy p) 0) eqn:V.
  - repeat first [break_if | break_let]; reflexivity.
  - repeat break_if; cbn; auto.
Qed.

Lemma Web_vertical_fold_falling (platforms : list Platform) :
  forall (p : Web.Player) (ps : Web.ParticleSystem) (g : Rng),
    let p' := fst (fst (fold_left Web.vertical_step platforms (p, ps, g))) in
    Qgt_bool (Web.vy p') 0 = true ->
    Web.rect p' = Web.rect p /\
    forall pl, In pl platforms -> colliderect (Web.rect p) (p_rect pl) = false.
Proof.
  induction platforms as [|q rest IH]; intros p ps g; cbn [fold_left].
  - intros _. split; [reflexivity | intros pl []].
  - destruct (colliderect (Web.rect p) (p_rect q)) eqn:C.
    + pose proof (Web_vertical_step_landed p ps g q C) as V1.
      destruct (Web.vertical_step (p, ps, g) q) as [[p1 ps1] g1].
      cbn [fst] in V1.
      pose proof (Web_vertical_fold_settled rest p1 ps1 g1 V1) as V2.
      cbn zeta. intro H. congruence.
    + assert (E : Web.vertical_step (p, ps, g) q = (p, ps, g)).
      { unfold Web.vertical_step. rewrite C. reflexivity. }
      rewrite E. intro H. destruct (IH p ps g H) as [R N].
      split; [exact R|]. intros pl [<- | Hin]; [exact C | apply N, Hin].
Qed.

Lemma Web_physics_falling_clear (p : Web.Player) (dt : Q)
      (platforms : list Platform) (ps : Web.ParticleSystem) (g : Rng) :
  Web.dead p || Web.win p = false ->
  let p' := fst (fst (Web.physics p dt platforms ps g)) in
  Qgt_bool (Web.vy p') 0 = true ->
  forall pl, In pl platforms -> colliderect (Web.rect p') (p_rect pl) = false.
Proof.
  intro L. unfold Web.physics. rewrite L.
  set (p3 := fold_left Web.horizontal_step platforms _).
  pose proof (Web_vertical_fold_falling platforms
                (Web.move_y (Web.set_on_ground p3 false)) ps g) as V.
  unfold Web.vertical_collisions.
  destruct (fold_left Web.vertical_step platforms _) as [[p4 ps4] g4].
  cbn [fst] in V |- *. cbn [Web.after_collisions Web.vy Web.rect].
  intros H pl Hin. destruct (V H) as [R N]. rewrite R. apply N, Hin.
Qed.

Lemma Web_fake_fold_untouched (pl : Web.Player) (fps : list Web.FakePlatform) :
  forall (done : list Web.FakePlatform) (c : Camera),
    (forall f, In f fps ->
               Web.fp_active f && negb (Web.fp_triggered f) &&
               colliderect (Web.rect pl) (Web.fp_rect f) &&
               Qgt_bool (Web.vy pl) 0 = false) ->
    fold_left (Web.fake_platform_step pl) fps (done, c) = (done ++ fps, c).
Proof.
  induction fps as [|x rest IH]; intros done c H; cbn [fold_left].
  - rewrite app_nil_r. reflexivity.
  - unfold Web.fake_platform_step at 2. rewrite (H x) by (left; reflexivity).
    rewrite IH by (intros f Hin; apply H; right; exact Hin).
    rewrite <- app_assoc. reflexivity.
Qed.

Lemma Web_control_rect (p : Web.Player) (k : Keys) (dt : Q) :
  Web.rect (Web.control p k dt) = Web.rect p.
Proof.
  unfold Web.control. repeat break_if; reflexivity.
Qed.

Lemma Web_controlled_rect (g : Web.Game) (f : Frame) :
  Web.rect (Web_controlled g f) = Web.rect (Web.player g).
Proof.
  unfold Web_controlled. break_if; [apply Web_control_rect | reflexivity].
Qed.

Lemma Web_advance_fakes (m : Math) (g : Web.Game) (f : Frame) :
  Web.fake_platforms (fst (Web.advance m g f)) =
  map (fun x => if Web.near 800 (Web.fp_rect x)
                            (centerx (Web.rect (Web_controlled g f)))
                then Web.FakePlatform_update x (f_dt f) else x)
      (Web.fake_platforms g).
Proof.
  unfold Web.advance. fold (Web_controlled g f).
  destruct (Web.physics _ _ _ _ _) as [[p ps] r].
  destruct (Web.update_stones _ _ _ _ _ _) as [[st ps'] r'].
  reflexivity.
Qed.

Lemma Web_untriggered_update (fps : list Web.FakePlatform) (x : Z) (dt : Q) :
  (forall fp, In fp fps -> Web.fp_triggered fp = false) ->
  map (fun fp => if Web.near 800 (Web.fp_rect fp) x
                 then Web.FakePlatform_update fp dt else fp) fps = fps.
Proof.
  induction fps as [|a rest IH]; intro H; cbn [map]; [reflexivity|].
  rewrite IH by (intros fp Hin; apply H; right; exact Hin).
  unfold Web.FakePlatform_update. rewrite (H a) by (left; reflexivity).
  destruct (Web.near 800 (Web.fp_rect a) x); reflexivity.
Qed.

Lemma Web_after_fakes_frame (g : Web.Game) (now : Q) (r : Rng) :
  Web.fake_platforms (fst (Web.teleport_collisions g r)) = Web.fake_platforms g /\
  Web.fake_platforms (fst (Web.kill_player g now r)) = Web.fake_platforms g /\
  Web.fake_platforms (fst (Web.door_interactions g now r)) = Web.fake_platforms g /\
  Web.fake_platforms (fst (Web.wall_collision g r)) = Web.fake_platforms g.
Proof.
  split; [|split; [|split]].
  - unfold Web.teleport_collisions.
    destruct (Web.teleport_loop _ _ _ _ _) as [[[[tr pl] c] ps] r']. reflexivity.
  - unfold Web.kill_player. break_let. reflexivity.
  - unfold Web.door_interactions.
    destruct (Web.maybe_troll _ _ _ _) as [[d ps] r1].
    break_if; [|reflexivity]. unfold Web.win_game. break_let. reflexivity.
  - unfold Web.wall_collision.
    repeat first [break_if | break_let]; reflexivity.
Qed.

Lemma as_platform_rect (r : Rect) : p_rect (Web.as_platform r) = r.
Proof. destruct r. reflexivity. Qed.

(** X9.  The fake platforms of the web variant.  A player that leaves
    [physics] still moving down overlaps none of the platforms it was
    resolved against.  A fake platform is triggered only under a player
    that overlaps it while moving down, and an untriggered fake platform
    within 800 pixels of the player is one of those platforms: so a frame
    played with the fake platforms untriggered and within 800 pixels
    leaves every one of them as it was, untriggered and solid. *)
Theorem web_fake_platforms_never_trigger :
  (forall (p : Web.Player) (dt : Q) (platforms : list Platform)
          (ps : Web.ParticleSystem) (g : Rng),
      Web.dead p || Web.win p = false ->
      let p' := fst (fst (Web.physics p dt platforms ps g)) in
      Qgt_bool (Web.vy p') 0 = true ->
      forall pl, In pl platforms ->
                 colliderect (Web.rect p') (p_rect pl) = false) /\
  (forall (m : Math) (g : Web.Game) (f : Frame),
      K_r (f_keys f) = false ->
      Web.dead (Web.player g) || Web.win (Web.player g) = false ->
      (forall fp, In fp (Web.fake_platforms g) ->
                  Web.fp_triggered fp = false /\
                  Web.near 800 (Web.fp_rect fp)
                           (centerx (Web.rect (Web.player g))) = true) ->
      Web.fake_platforms (fst (Web.update m g f)) = Web.fake_platforms g).
Proof.
  split; [exact Web_physics_falling_clear|].
  intros m g f R L H. unfold Web.update. rewrite R.
  destruct (K_ESCAPE (f_keys f)); [reflexivity|].
  pose proof (Web_advance_physics m g f) as Hp.
  pose proof (Web_advance_fakes m g f) as Hf.
  destruct (Web_advance_fields m g f) as [Hs _].
  rewrite Web_untriggered_update in Hf by (intros fp Hin; apply H, Hin).
  assert (Hl : Web.dead (Web_controlled g f) || Web.win (Web_controlled g f) = false).
  { pose proof (Web_control_life (Web.player g) (f_keys f) (f_dt f)) as E.
    unfold Web_controlled. break_if; [|exact L].
    unfold Web_life in E. inversion E as [[E1 E2]]. rewrite E1, E2. exact L. }
  pose proof (Web_physics_falling_clear (Web_controlled g f) (f_dt f)
                (Web_frame_collision_list g f) (Web.g_particles g) (f_rng f) Hl)
    as Hc.
  cbn zeta in Hc. rewrite <- Hp in Hc.
  destruct (Web.advance m g f) as [g1 r1]. cbn [fst] in *.
  unfold Web.handle_collisions.
  destruct (negb _); [exact Hf|].
  unfold Web.before_kill_checks.
  destruct (Web_wall_collision_frame g1 r1)
    as (_ & _ & _ & _ & Wp & _).
  destruct (Web_after_fakes_frame g1 (f_now f) r1) as (_ & _ & _ & Wf).
  destruct (Web.wall_collision g1 r1) as [g2 r2]. cbn [fst] in *.
  assert (E : Web.fake_platforms (Web.fake_platform_collisions g2)
              = Web.fake_platforms g2).
  { unfold Web.fake_platform_collisions.
    rewrite Web_fake_fold_untouched; [reflexivity|].
    intros fp Hin. rewrite Wp. rewrite Wf, Hf in Hin.
    destruct (H fp Hin) as [Ht Hn].
    destruct (Web.fp_active fp) eqn:A; [|reflexivity].
    rewrite Ht. cbn [negb andb].
    destruct (Qgt_bool (Web.vy (Web.player g1)) 0) eqn:V;
      [|apply andb_false_r].
    rewrite andb_true_r.
    rewrite <- (as_platform_rect (Web.fp_rect fp)).
    apply Hc; [reflexivity|].
    unfold Web_frame_collision_list, Web.platforms_for_collision.
    cbn [Web.fake_platforms Web.set_fake_platforms].
    rewrite Web_untriggered_update by (intros fp' Hin'; apply H, Hin').
    apply in_or_app. right. apply in_or_app. left.
    apply (in_map (fun x => Web.as_platform (Web.fp_rect x))). apply filter_In. split; [exact Hin|].
    rewrite A, Ht, Web_controlled_rect, Hn. reflexivity. }
  set (g3 := Web.fake_platform_collisions g2) in *.
  destruct (Web_after_fakes_frame g3 (f_now f) r2) as (Tf & _).
  destruct (Web.teleport_collisions g3 r2) as [g4 r4]. cbn [fst] in *.
  destruct (Web_after_fakes_frame g4 (f_now f) r4) as (_ & Kf & Df & _).
  break_if; [rewrite Kf | rewrite Df]; congruence.
Qed.

Lemma web_fake_platforms_never_trigger_witness :
  Web.fake_platforms (fst (Web.update trivial_math web_start idle_frame))
  = Web.fake_platforms web_start.
Proof.
  apply (proj2 web_fake_platforms_never_trigger trivial_math web_start idle_frame).
  - reflexivity.
  - reflexivity.
  - intros fp [<- | [<- | []]]; split; reflexivity.
Defined.

(** ** The traps of the web variant *)

Lemma to_int_nonneg (q : Q) : (0 <= q)%Q -> 0 <= to_int q.
Proof.
  destruct q as [a d]. unfold to_int, Qle. cbn [Qnum Qden].
  intro H. rewrite Z.quot_div_nonneg by lia.
  apply Z.div_pos; lia.
Qed.

Lemma FakePlatform_updates_idle (dts : list Q) :
  forall f, Web.fp_triggered f = false -> FakePlatform_updates f dts = f.
Proof.
  unfold FakePlatform_updates.
  induction dts as [|d rest IH]; intros f H; cbn [fold_left]; [reflexivity|].
  assert (E : Web.FakePlatform_update f d = f)
    by (unfold Web.FakePlatform_update; rewrite H; reflexivity).
  rewrite E. apply IH, H.
Qed.

Lemma FakePlatform_update_kept (f : Web.FakePlatform) (d : Q) :
  Web.fp_triggered (Web.FakePlatform_update f d) = Web.fp_triggered f /\
  Web.fp_rect (Web.FakePlatform_update f d) = Web.fp_rect f /\
  Web.disappear_delay (Web.FakePlatform_update f d) = Web.disappear_delay f /\
  (Web.fp_active f = false -> Web.fp_active (Web.FakePlatform_update f d) = false).
Proof.
  unfold Web.FakePlatform_update. repeat break_if; cbn; auto.
Qed.

Lemma FakePlatform_updates_kept (dts : list Q) :
  forall f,
    Web.fp_triggered (FakePlatform_updates f dts) = Web.fp_triggered f /\
    Web.fp_rect (FakePlatform_updates f dts) = Web.fp_rect f /\
    Web.disappear_delay (FakePlatform_updates f dts) = Web.disappear_delay f /\
    (Web.fp_active f = false ->
     Web.fp_active (FakePlatform_updates f dts) = false).
Proof.
  unfold FakePlatform_updates.
  induction dts as [|d rest IH]; intros f; cbn [fold_left]; [auto|].
  destruct (FakePlatform_update_kept f d) as (A1 & A2 & A3 & A4).
  destruct (IH (Web.FakePlatform_update f d)) as (B1 & B2 & B3 & B4).
  repeat split; try congruence. auto.
Qed.

Lemma fade_range (t D : Q) :
  (0 < D)%Q -> (0 <= t)%Q -> (t <= D)%Q ->
  0 <= to_int (255 * (t / D))%Q <= 255.
Proof.
  intros HD H0 H1.
  assert (A : (0 <= t / D)%Q).
  { apply Qle_shift_div_l; [exact HD | lra]. }
  assert (B : (t / D <= 1)%Q).
  { apply Qle_shift_div_r; [exact HD | lra]. }
  set (x := (t / D)%Q) in *.
  split.
  - apply to_int_nonneg. lra.
  - apply (to_int_bound _ 255); unfold inject_Z; lra.
Qed.

Lemma FakePlatform_updates_alpha (dts : list Q) :
  forall f,
    nonneg dts -> (0 < Web.disappear_delay f)%Q ->
    (Web.disappear_timer f <= Web.disappear_delay f)%Q ->
    0 <= Web.alpha f <= 255 ->
    0 <= Web.alpha (FakePlatform_updates f dts) <= 255.
Proof.
  unfold FakePlatform_updates.
  induction dts as [|d rest IH]; intros f N D T A; cbn [fold_left]; [exact A|].
  inversion N as [|? ? Hd Hrest]; subst.
  apply IH; [exact Hrest | | |];
    unfold Web.FakePlatform_update;
    destruct (Web.fp_triggered f); try assumption;
    destruct (Qle_bool (Web.disappear_timer f - d) 0) eqn:E;
    cbn [Web.disappear_delay Web.disappear_timer Web.alpha];
    try assumption; try lra.
  apply fade_range; [exact D | | lra].
  apply Qlt_le_weak, Qnot_le_lt. intro H. apply Qle_bool_iff in H. congruence.
Qed.

Lemma FakePlatform_update_once (f : Web.FakePlatform) (d : Q) :
  Web.fp_triggered f = true -> Web.fp_active f = true ->
  (Web.fp_active (Web.FakePlatform_update f d) = true <->
   (d < Web.disappear_timer f)%Q).
Proof.
  intros T A. unfold Web.FakePlatform_update. rewrite T.
  destruct (Qle_bool (Web.disappear_timer f - d) 0) eqn:E;
    cbn [Web.fp_active].
  - apply Qle_bool_iff in E. split; [discriminate | intro H; lra].
  - assert (G : ~ (Web.disappear_timer f - d <= 0)%Q).
    { intro H. apply Qle_bool_iff in H. congruence. }
    split; [intros _; lra | intros _; exact A].
Qed.

Lemma FakePlatform_updates_timed (dts : list Q) :
  forall f,
    Web.fp_triggered f = true -> nonneg dts ->
    (Web.fp_active f = true <-> (0 < Web.disappear_timer f)%Q) ->
    (Web.fp_active (FakePlatform_updates f dts) = true <->
     (0 < Web.disappear_timer (FakePlatform_updates f dts))%Q).
Proof.
  unfold FakePlatform_updates.
  induction dts as [|d rest IH]; intros f T N I; cbn [fold_left]; [exact I|].
  inversion N as [|? ? Hd Hrest]; subst.
  apply IH; [|exact Hrest|].
  - unfold Web.FakePlatform_update. rewrite T. break_if; reflexivity.
  - unfold Web.FakePlatform_update. rewrite T.
    destruct (Qle_bool (Web.disappear_timer f - d) 0) eqn:E;
      cbn [Web.fp_active Web.disappear_timer].
    + apply Qle_bool_iff in E. split; [discriminate | intro H; lra].
    + assert (G : ~ (Web.disappear_timer f - d <= 0)%Q).
      { intro H. apply Qle_bool_iff in H. congruence. }
      split; [intros _; lra|]. intros _. apply I. lra.
Qed.

(** X10.  The life of a fake platform.  Triggering twice is triggering
    once, and until it is triggered no update changes it.  One update
    leaves a triggered, active platform active exactly when the frame is
    shorter than what its timer holds, and a platform that is gone never
    comes back.  Once an active platform with a positive delay is
    triggered, after any updates of non-negative length it is active
    exactly while its timer is positive; it stays triggered and in place,
    and its opacity stays within 0 and 255. *)
Theorem fake_platform_fades_out :
  (forall f : Web.FakePlatform, Web.trigger (Web.trigger f) = Web.trigger f) /\
  (forall (f : Web.FakePlatform) (dts : list Q),
      Web.fp_triggered f = false -> FakePlatform_updates f dts = f) /\
  (forall (f : Web.FakePlatform) (d : Q),
      Web.fp_triggered f = true -> Web.fp_active f = true ->
      (Web.fp_active (Web.FakePlatform_update f d) = true <->
       (d < Web.disappear_timer f)%Q)) /\
  (forall (f : Web.FakePlatform) (dts : list Q),
      Web.fp_active f = false ->
      Web.fp_active (FakePlatform_updates f dts) = false) /\
  (forall (f : Web.FakePlatform) (dts : list Q),
      Web.fp_active f = true -> Web.fp_triggered f = false ->
      (0 < Web.disappear_delay f)%Q -> 0 <= Web.alpha f <= 255 ->
      nonneg dts ->
      let f' := FakePlatform_updates (Web.trigger f) dts in
      (Web.fp_active f' = true <-> (0 < Web.disappear_timer f')%Q) /\
      Web.fp_triggered f' = true /\
      Web.fp_rect f' = Web.fp_rect f /\
      0 <= Web.alpha f' <= 255).
Proof.
  split; [|split; [|split; [|split]]].
  - intro f. unfold Web.trigger.
    destruct (Web.fp_active f && negb (Web.fp_triggered f)) eqn:E;
      [|rewrite E; reflexivity].
    cbn. rewrite andb_false_r. reflexivity.
  - intros f dts. apply FakePlatform_updates_idle.
  - exact FakePlatform_update_once.
  - intros f dts. apply FakePlatform_updates_kept.
  - intros f dts A T D B N f'.
    assert (E : Web.trigger f =
                Web.mkFakePlatform (Web.fp_rect f) true true (Web.disappear_delay f)
                                   (Web.disappear_delay f) (Web.alpha f)).
    { unfold Web.trigger. rewrite A, T. reflexivity. }
    destruct (FakePlatform_updates_kept dts (Web.trigger f)) as (K1 & K2 & _).
    split; [|split; [|split]].
    + unfold f'. apply FakePlatform_updates_timed; rewrite ?E; cbn; auto.
      split; [intros _; exact D | reflexivity].
    + unfold f'. rewrite K1, E. reflexivity.
    + unfold f'. rewrite K2, E. reflexivity.
    + unfold f'. apply FakePlatform_updates_alpha; rewrite ?E; cbn; auto.
      apply Qle_refl.
Qed.

Lemma fake_platform_fades_out_witness :
  Web.fp_active
    (Web.FakePlatform_update
       (Web.trigger (Web.new_FakePlatform 220 520 60 16 (8 # 10))) (1 # 2))
  = true /\
  Web.fp_triggered
    (FakePlatform_updates
       (Web.trigger (Web.new_FakePlatform 220 520 60 16 (8 # 10)))
       [1 # 2; 1 # 2]%Q) = true.
Proof.
  split.
  - apply (proj1 (proj2 (proj2 fake_platform_fades_out))
                 (Web.trigger (Web.new_FakePlatform 220 520 60 16 (8 # 10)))
                 (1 # 2)).
    + reflexivity.
    + reflexivity.
    + reflexivity.
  - apply (proj2 (proj2 (proj2 (proj2 fake_platform_fades_out)))
                 (Web.new_FakePlatform 220 520 60 16 (8 # 10)) [1 # 2; 1 # 2]%Q).
    + reflexivity.
    + reflexivity.
    + reflexivity.
    + cbn. lia.
    + repeat constructor; discriminate.
Defined.

(** *** Teleport traps *)

Lemma TeleportTrap_update_kept (m : Math) (t : Web.TeleportTrap) (d : Q) :
  Web.tt_rect (Web.TeleportTrap_update m t d) = Web.tt_rect t /\
  Web.destination (Web.TeleportTrap_update m t d) = Web.destination t /\
  Web.cooldown_max (Web.TeleportTrap_update m t d) = Web.cooldown_max t.
Proof. repeat split. Qed.

Lemma TeleportTrap_update_ready (m : Math) (t : Web.TeleportTrap) (d : Q) :
  (0 <= d)%Q ->
  (Qle_bool (Web.cooldown (Web.TeleportTrap_update m t d)) 0 = true <->
   (Web.cooldown t <= d)%Q).
Proof.
  intro D. unfold Web.TeleportTrap_update. cbn [Web.cooldown].
  rewrite Qle_bool_iff.
  destruct (Qgt_bool (Web.cooldown t) 0) eqn:E.
  - split; intro H; lra.
  - apply Qgt_bool_false_iff in E. split; intro H; lra.
Qed.

Lemma TeleportTrap_updates_kept (m : Math) (dts : list Q) :
  forall t,
    Web.tt_rect (TeleportTrap_updates m t dts) = Web.tt_rect t /\
    Web.destination (TeleportTrap_updates m t dts) = Web.destination t /\
    Web.cooldown_max (TeleportTrap_updates m t dts) = Web.cooldown_max t /\
    ((Web.cooldown t <= 0)%Q ->
     Web.cooldown (TeleportTrap_updates m t dts) = Web.cooldown t) /\
    (nonneg dts ->
     (Web.cooldown (TeleportTrap_updates m t dts) <= Web.cooldown t)%Q).
Proof.
  unfold TeleportTrap_updates.
  induction dts as [|d rest IH]; intros t; cbn [fold_left].
  - repeat split; auto. intros _. apply Qle_refl.
  - destruct (IH (Web.TeleportTrap_update m t d)) as (I1 & I2 & I3 & I4 & I5).
    rewrite I1, I2, I3. repeat split.
    + intro H. rewrite I4; unfold Web.TeleportTrap_update; cbn [Web.cooldown];
        apply Qgt_bool_false_iff in H; rewrite H; [reflexivity|].
      apply Qgt_bool_false_iff in H. exact H.
    + intro N. inversion N as [|? ? Hd Hrest]; subst.
      apply Qle_trans with (y := Web.cooldown (Web.TeleportTrap_update m t d));
        [apply I5, Hrest|].
      unfold Web.TeleportTrap_update. cbn [Web.cooldown].
      destruct (Qgt_bool (Web.cooldown t) 0); lra.
Qed.

Lemma Web_teleport_loop_cases (traps : list Web.TeleportTrap) :
  forall (pl : Web.Player) (c : Camera) (ps : Web.ParticleSystem) (r : Rng),
    let '(traps', pl', _, _, _) := Web.teleport_loop traps pl c ps r in
    ((forall t, In t traps -> trap_fires t (Web.rect pl) = false) /\
     traps' = traps /\ pl' = pl) \/
    (exists pre t post,
        traps = pre ++ t :: post /\
        (forall u, In u pre -> trap_fires u (Web.rect pl) = false) /\
        trap_fires t (Web.rect pl) = true /\
        traps' = pre ++ fired t :: post /\
        pl' = teleported pl t).
Proof.
  induction traps as [|t rest IH]; intros pl c ps r; cbn [Web.teleport_loop].
  - left. split; [intros t []| auto].
  - unfold Web.check_teleport. fold (trap_fires t (Web.rect pl)).
    destruct (trap_fires t (Web.rect pl)) eqn:F.
    + destruct (Web.add_explosion _ _ _ _ _ _) as [ps' r'].
      right. exists [], t, rest. cbn [app].
      split; [reflexivity|]. split; [intros u []|]. split; [exact F|].
      split; reflexivity.
    + specialize (IH pl c ps r).
      destruct (Web.teleport_loop rest pl c ps r) as [[[[rest' pl'] c'] ps''] r''].
      destruct IH as [(N & E1 & E2) | (pre & u & post & E & N & Fu & E1 & E2)].
      * left. split; [|split; congruence].
        intros x [<- | Hin]; [exact F | apply N, Hin].
      * right. exists (t :: pre), u, post. cbn [app].
        split; [congruence|]. split; [|split; [exact Fu|split; congruence]].
        intros x [<- | Hin]; [exact F | apply N, Hin].
Qed.

(** X11.  Teleport traps.  One pass over the traps teleports the player
    at most once: either no trap fires and nothing changes, or the first
    trap that is ready and overlaps the player fires alone, starts its
    cooldown, and puts the player at its destination, standing still and
    with its size unchanged.  A trap that has just fired, with a positive
    [cooldown_max], does not fire again at once.  After one update of
    non-negative length a trap fires on a rectangle exactly when the frame
    was at least as long as its cooldown and the rectangle overlaps it; a
    trap that is ready stays ready through every update, firing on exactly
    the rectangles that overlap it; and with updates of non-negative length
    the cooldown never rises. *)
Theorem teleport_trap_fires_once_then_cools :
  (forall (traps : list Web.TeleportTrap) (pl : Web.Player) (c : Camera)
          (ps : Web.ParticleSystem) (r : Rng),
      let '(traps', pl', _, _, _) := Web.teleport_loop traps pl c ps r in
      ((forall t, In t traps -> trap_fires t (Web.rect pl) = false) /\
       traps' = traps /\ pl' = pl) \/
      (exists pre t post,
          traps = pre ++ t :: post /\
          (forall u, In u pre -> trap_fires u (Web.rect pl) = false) /\
          trap_fires t (Web.rect pl) = true /\
          traps' = pre ++ fired t :: post /\
          pl' = teleported pl t)) /\
  (forall (t : Web.TeleportTrap) (pr : Rect),
      (0 < Web.cooldown_max t)%Q -> trap_fires (fired t) pr = false) /\
  (forall (m : Math) (t : Web.TeleportTrap) (d : Q) (pr : Rect),
      (0 <= d)%Q ->
      (trap_fires (Web.TeleportTrap_update m t d) pr = true <->
       (Web.cooldown t <= d)%Q /\ colliderect pr (Web.tt_rect t) = true)) /\
  (forall (m : Math) (t : Web.TeleportTrap) (dts : list Q) (pr : Rect),
      (Web.cooldown t <= 0)%Q ->
      trap_fires (TeleportTrap_updates m t dts) pr
      = colliderect pr (Web.tt_rect t)) /\
  (forall (m : Math) (t : Web.TeleportTrap) (dts : list Q),
      nonneg dts ->
      (Web.cooldown (TeleportTrap_updates m t dts) <= Web.cooldown t)%Q).
Proof.
  split; [exact Web_teleport_loop_cases|]. split; [|split; [|split]].
  - intros t pr H. unfold trap_fires, fired. cbn [Web.cooldown].
    assert (E : Qle_bool (Web.cooldown_max t) 0 = false).
    { destruct (Qle_bool (Web.cooldown_max t) 0) eqn:E; [|reflexivity].
      apply Qle_bool_iff in E. lra. }
    rewrite E. reflexivity.
  - intros m t d pr D. unfold trap_fires.
    rewrite andb_true_iff, (TeleportTrap_update_ready m t d D). tauto.
  - intros m t dts pr H.
    destruct (TeleportTrap_updates_kept m dts t) as (K1 & _ & _ & K4 & _).
    unfold trap_fires. rewrite K1, (K4 H).
    apply Qle_bool_iff in H. rewrite H. reflexivity.
  - intros m t dts N. apply TeleportTrap_updates_kept, N.
Qed.

Lemma teleport_trap_fires_once_then_cools_witness :
  trap_fires (fired (Web.new_TeleportTrap 900 500 30 10 (600, 380)))
             (mkRect 905 495 30 50) = false /\
  trap_fires (Web.TeleportTrap_update trivial_math
                (fired (Web.new_TeleportTrap 900 500 30 10 (600, 380))) 3%Q)
             (mkRect 905 495 30 50) = true.
Proof.
  split.
  - apply (proj1 (proj2 teleport_trap_fires_once_then_cools)
                 (Web.new_TeleportTrap 900 500 30 10 (600, 380))
                 (mkRect 905 495 30 50)).
    reflexivity.
  - apply (proj1 (proj2 (proj2 teleport_trap_fires_once_then_cools)) trivial_math
                 (fired (Web.new_TeleportTrap 900 500 30 10 (600, 380)))
                 3%Q (mkRect 905 495 30 50)).
    + vm_compute. discriminate.
    + split; [vm_compute; discriminate | reflexivity].
Defined.

(** ** Death comes from a hazard, and from nothing else *)

Lemma Desktop_hazards_frame (g : Desktop.Game) (now : Q) (r : Rng) :
  Desktop_player_killed (fst (Desktop.wall_collision g r)) = Desktop_player_killed g /\
  Desktop_player_killed (fst (Desktop.kill_player g now r)) = Desktop_player_killed g /\
  Desktop_player_killed (fst (Desktop.door_interactions g now r))
  = Desktop_player_killed g.
Proof.
  split; [|split].
  - unfold Desktop.wall_collision.
    repeat first [break_if | break_let]; reflexivity.
  - unfold Desktop.kill_player. break_let. reflexivity.
  - unfold Desktop.door_interactions.
    destruct (Desktop.maybe_troll _ _ _ _) as [[d ps] r1].
    break_if; [|reflexivity]. unfold Desktop.win_game. break_let. reflexivity.
Qed.

Lemma Desktop_handle_collisions_death (g : Desktop.Game) (now : Q) (r : Rng) :
  Desktop.state g = PLAYING ->
  let g' := fst (Desktop.handle_collisions g now r) in
  Desktop_player_killed g' = Desktop_player_killed g /\
  (Desktop.state g' = DEAD <-> Desktop_player_killed g = true).
Proof.
  intro S. unfold Desktop.handle_collisions. rewrite S.
  cbn [GameState_eqb negb].
  destruct (Desktop_hazards_frame g now r) as (W & _).
  destruct (Desktop_wall_collision_book g r) as [Wb _].
  destruct (Desktop.wall_collision g r) as [g1 r1]. cbn [fst] in *.
  assert (S1 : Desktop.state g1 = PLAYING).
  { change (b_state (Desktop_book g1) = PLAYING). rewrite Wb. exact S. }
  destruct (Desktop_hazards_frame g1 now r1) as (_ & K & D).
  rewrite <- W.
  assert (Hk : Desktop_player_killed g1 =
               existsb (Desktop.spike_hits (Desktop.rect (Desktop.player g1)))
                       (Desktop.spikes g1) ||
               existsb (fun st => colliderect (Desktop.fs_rect st)
                                              (Desktop.rect (Desktop.player g1)))
                       (Desktop.falling_stones g1)) by reflexivity.
  destruct (existsb (Desktop.spike_hits _) _) eqn:E1.
  - rewrite K, Hk. split; [reflexivity|].
    destruct (Desktop_kill_player_spec g1 now r1) as (H & _).
    cbn zeta in H. rewrite H. cbn. tauto.
  - destruct (existsb _ (Desktop.falling_stones g1)) eqn:E2.
    + rewrite K, Hk. split; [reflexivity|].
      destruct (Desktop_kill_player_spec g1 now r1) as (H & _).
      cbn zeta in H. rewrite H. cbn. tauto.
    + rewrite D, Hk. split; [reflexivity|]. cbn [orb].
      destruct (Desktop_door_interactions_spec g1 now r1) as ([H | H] & _);
        cbn zeta in H; rewrite H; rewrite ?S1; split; discriminate.
Qed.

Lemma Web_hazards_frame (g : Web.Game) (now : Q) (r : Rng) :
  Web.player_killed (fst (Web.kill_player g now r)) = Web.player_killed g /\
  Web.player_killed (fst (Web.door_interactions g now r)) = Web.player_killed g.
Proof.
  split.
  - unfold Web.kill_player. break_let. reflexivity.
  - unfold Web.door_interactions.
    destruct (Web.maybe_troll _ _ _ _) as [[d ps] r1].
    break_if; [|reflexivity]. unfold Web.win_game. break_let. reflexivity.
Qed.

Lemma Web_handle_collisions_death (g : Web.Game) (now : Q) (r : Rng) :
  Web.state g = PLAYING ->
  let g' := fst (Web.handle_collisions g now r) in
  Web.player_killed g' = Web.player_killed (fst (Web.before_kill_checks g r)) /\
  (Web.state g' = DEAD <-> Web.player_killed g' = true).
Proof.
  intro S. unfold Web.handle_collisions. rewrite S.
  cbn [GameState_eqb negb].
  destruct (Web_before_kill_checks_frame g r) as (S1 & _).
  destruct (Web.before_kill_checks g r) as [g1 r1]. cbn [fst] in *.
  destruct (Web_hazards_frame g1 now r1) as (K & D).
  destruct (Web.player_killed g1) eqn:E.
  - rewrite K. split; [reflexivity|].
    destruct (Web_kill_player_spec g1 now r1) as (H & _).
    cbn zeta in H. rewrite H. tauto.
  - rewrite D. split; [reflexivity|].
    destruct (Web_door_interactions_spec g1 now r1) as ([H | H] & _);
      cbn zeta in H; rewrite H; rewrite ?S1, ?S; split; discriminate.
Qed.

(** X12.  Death comes from a hazard, and from nothing else.  A frame
    played in state PLAYING that neither resets nor quits ends in state
    DEAD exactly when, as it ends, the player overlaps a hazard: in the
    desktop variant a sample point in the danger zone of a spike or the
    rectangle of a falling stone; in the web variant these or the inner
    rectangle of a fake door.  A stone counts whether it hangs, falls or
    has settled.  Nothing else kills: leaving the screen does not. *)
Theorem death_needs_a_hazard :
  (forall (m : Math) (g : Desktop.Game) (f : Frame),
      Desktop.state g = PLAYING ->
      K_r (f_keys f) = false -> K_ESCAPE (f_keys f) = false ->
      let g' := fst (Desktop.update m g f) in
      Desktop.state g' = DEAD <-> Desktop_player_killed g' = true) /\
  (forall (m : Math) (g : Web.Game) (f : Frame),
      Web.state g = PLAYING ->
      K_r (f_keys f) = false -> K_ESCAPE (f_keys f) = false ->
      let g' := fst (Web.update m g f) in
      Web.state g' = DEAD <-> Web.player_killed g' = true).
Proof.
  split.
  - intros m g f S R E. unfold Desktop.update. rewrite R, E.
    destruct (Desktop_advance_fields m g f) as [A _].
    destruct (Desktop.advance m g f) as [g1 r1]. cbn [fst] in *.
    destruct (Desktop_handle_collisions_death g1 (f_now f) r1) as [H1 H2];
      [congruence|].
    cbn zeta in *. rewrite H1. exact H2.
  - intros m g f S R E. unfold Web.update. rewrite R, E.
    destruct (Web_advance_fields m g f) as [A _].
    destruct (Web.advance m g f) as [g1 r1]. cbn [fst] in *.
    destruct (Web_handle_collisions_death g1 (f_now f) r1) as [H1 H2];
      [congruence|].
    exact H2.
Qed.

Lemma death_needs_a_hazard_witness :
  (Desktop.state (fst (Desktop.update trivial_math desktop_on_spike idle_frame))
   = DEAD <->
   Desktop_player_killed (fst (Desktop.update trivial_math desktop_on_spike idle_frame))
   = true) /\
  (Web.state (fst (Web.update trivial_math web_on_spike idle_frame)) = DEAD <->
   Web.player_killed (fst (Web.update trivial_math web_on_spike idle_frame)) = true).
Proof.
  split.
  - apply (proj1 death_needs_a_hazard trivial_math desktop_on_spike idle_frame);
      reflexivity.
  - apply (proj2 death_needs_a_hazard trivial_math web_on_spike idle_frame);
      reflexivity.
Defined.

(** ** Winning *)

Lemma Desktop_door_interactions_win (g : Desktop.Game) (now : Q) (r : Rng) :
  Desktop.state g = PLAYING ->
  let g' := fst (Desktop.door_interactions g now r) in
  (Desktop.state g' = WON <->
   Desktop.check_win_collision (Desktop.door g') (Desktop.rect (Desktop.player g'))
   = true) /\
  Desktop.d_open (Desktop.door g') =
  Desktop.d_open (Desktop.door g) ||
  colliderect (Desktop.rect (Desktop.player g)) (Desktop.win_trigger g) /\
  Desktop.rect (Desktop.player g') = Desktop.rect (Desktop.player g) /\
  Desktop.win_trigger g' = Desktop.win_trigger g.
Proof.
  intro S. unfold Desktop.door_interactions.
  assert (T : Desktop.d_open (fst (fst (Desktop.maybe_troll
                (Desktop.door g) (Desktop.rect (Desktop.player g))
                (Desktop.particles g) r))) = Desktop.d_open (Desktop.door g)).
  { unfold Desktop.maybe_troll. repeat first [break_if | break_let]; reflexivity. }
  destruct (Desktop.maybe_troll _ _ _ _) as [[d ps] r1]. cbn [fst] in T.
  set (d' := if colliderect _ _ then Desktop.set_open d else d).
  assert (O : Desktop.d_open d' =
              Desktop.d_open (Desktop.door g) ||
              colliderect (Desktop.rect (Desktop.player g)) (Desktop.win_trigger g)).
  { unfold d'. destruct (colliderect _ _); cbn; rewrite <- T;
      [rewrite orb_true_r | rewrite orb_false_r]; reflexivity. }
  cbn [Desktop.player Desktop.set_door].
  destruct (Desktop.check_win_collision d' (Desktop.rect (Desktop.player g))) eqn:W.
  - unfold Desktop.win_game. break_let. cbn. rewrite W. tauto.
  - cbn. rewrite W, S. repeat split; auto; discriminate.
Qed.

Lemma Desktop_handle_collisions_win (g : Desktop.Game) (now : Q) (r : Rng) :
  Desktop.state g = PLAYING ->
  let g' := fst (Desktop.handle_collisions g now r) in
  (Desktop.state g' = WON <->
   Desktop_player_killed g' = false /\
   Desktop.check_win_collision (Desktop.door g') (Desktop.rect (Desktop.player g'))
   = true) /\
  Desktop.d_open (Desktop.door g') =
  Desktop.d_open (Desktop.door g) ||
  (negb (Desktop_player_killed g') &&
   colliderect (Desktop.rect (Desktop.player g')) (Desktop.win_trigger g')).
Proof.
  intro S.
  destruct (Desktop_handle_collisions_death g now r S) as [K1 K2].
  cbn zeta in *. revert K1 K2.
  unfold Desktop.handle_collisions. rewrite S. cbn [GameState_eqb negb].
  destruct (Desktop_hazards_frame g now r) as (W & _).
  destruct (Desktop_wall_collision_book g r) as [Wb Wd].
  destruct (Desktop_wall_collision_frame g r)
    as (_ & _ & _ & _ & Wp & _ & _ & _ & Wt).
  destruct (Desktop.wall_collision g r) as [g1 r1]. cbn [fst] in *.
  assert (S1 : Desktop.state g1 = PLAYING).
  { change (b_state (Desktop_book g1) = PLAYING). rewrite Wb. exact S. }
  rewrite <- Wd.
  assert (Hk : Desktop_player_killed g1 =
               existsb (Desktop.spike_hits (Desktop.rect (Desktop.player g1)))
                       (Desktop.spikes g1) ||
               existsb (fun st => colliderect (Desktop.fs_rect st)
                                              (Desktop.rect (Desktop.player g1)))
                       (Desktop.falling_stones g1)) by reflexivity.
  rewrite <- W in *.
  assert (Kill : forall g',
             g' = fst (Desktop.kill_player g1 now r1) ->
             Desktop_player_killed g' = Desktop_player_killed g1 ->
             (Desktop.state g' = DEAD <-> Desktop_player_killed g1 = true) ->
             Desktop_player_killed g1 = true ->
             (Desktop.state g' = WON <->
              Desktop_player_killed g' = false /\
              Desktop.check_win_collision (Desktop.door g')
                (Desktop.rect (Desktop.player g')) = true) /\
             Desktop.d_open (Desktop.door g') =
             Desktop.d_open (Desktop.door g1) ||
             (negb (Desktop_player_killed g') &&
              colliderect (Desktop.rect (Desktop.player g')) (Desktop.win_trigger g'))).
  { intros g' E K1 K2 T. rewrite K1, T. cbn [negb andb]. rewrite orb_false_r.
    split.
    - apply K2 in T. rewrite T. split; [discriminate | intros [H _]; discriminate].
    - subst g'. destruct (Desktop_kill_player_spec g1 now r1) as (_ & _ & _ & D & _).
      cbn zeta in D. rewrite D. reflexivity. }
  destruct (existsb (Desktop.spike_hits _) _) eqn:E1.
  - intros K1 K2. apply Kill; auto; try (rewrite Hk; reflexivity).
  - destruct (existsb _ (Desktop.falling_stones g1)) eqn:E2.
    + intros K1 K2. apply Kill; auto; try (rewrite Hk; reflexivity).
    + intros K1 K2. cbn [orb] in Hk. rewrite K1, Hk. cbn [negb andb].
      destruct (Desktop_door_interactions_win g1 now r1 S1) as (A & B & C & D).
      cbn zeta in *. rewrite C, D. split; [|exact B].
      rewrite A, C. tauto.
Qed.

Lemma Web_door_interactions_win (g : Web.Game) (now : Q) (r : Rng) :
  Web.state g = PLAYING ->
  let g' := fst (Web.door_interactions g now r) in
  (Web.state g' = WON <->
   Web.check_win_collision (Web.door g') (Web.rect (Web.player g')) = true) /\
  Web.d_open (Web.door g') =
  Web.d_open (Web.door g) ||
  colliderect (Web.rect (Web.player g)) (Web.win_trigger g) /\
  Web.rect (Web.player g') = Web.rect (Web.player g) /\
  Web.win_trigger g' = Web.win_trigger g.
Proof.
  intro S. unfold Web.door_interactions.
  assert (T : Web.d_open (fst (fst (Web.maybe_troll
                (Web.door g) (Web.rect (Web.player g))
                (Web.g_particles g) r))) = Web.d_open (Web.door g)).
  { unfold Web.maybe_troll. repeat first [break_if | break_let]; reflexivity. }
  destruct (Web.maybe_troll _ _ _ _) as [[d ps] r1]. cbn [fst] in T.
  set (d' := if colliderect _ _ then Web.set_open d else d).
  assert (O : Web.d_open d' =
              Web.d_open (Web.door g) ||
              colliderect (Web.rect (Web.player g)) (Web.win_trigger g)).
  { unfold d'. destruct (colliderect _ _); cbn; rewrite <- T;
      [rewrite orb_true_r | rewrite orb_false_r]; reflexivity. }
  cbn [Web.player Web.set_door].
  destruct (Web.check_win_collision d' (Web.rect (Web.player g))) eqn:W.
  - unfold Web.win_game. break_let. cbn. rewrite W. tauto.
  - cbn. rewrite W, S. repeat split; auto; discriminate.
Qed.

Lemma Web_before_kill_checks_door (g : Web.Game) (r : Rng) :
  Web.door (fst (Web.before_kill_checks g r)) = Web.door g /\
  Web.win_trigger (fst (Web.before_kill_checks g r)) = Web.win_trigger g.
Proof.
  unfold Web.before_kill_checks.
  assert (W : Web.door (fst (Web.wall_collision g r)) = Web.door g /\
              Web.win_trigger (fst (Web.wall_collision g r)) = Web.win_trigger g).
  { unfold Web.wall_collision.
    repeat first [break_if | break_let]; cbn; auto. }
  destruct (Web.wall_collision g r) as [g1 r1]. cbn [fst] in W.
  destruct W as [W1 W2]. rewrite <- W1, <- W2.
  unfold Web.teleport_collisions, Web.fake_platform_collisions.
  destruct (fold_left _ _ _) as [fps c].
  destruct (Web.teleport_loop _ _ _ _ _) as [[[[tr pl] c'] ps] r'].
  cbn. auto.
Qed.

Lemma Web_handle_collisions_win (g : Web.Game) (now : Q) (r : Rng) :
  Web.state g = PLAYING ->
  let g' := fst (Web.handle_collisions g now r) in
  (Web.state g' = WON <->
   Web.player_killed g' = false /\
   Web.check_win_collision (Web.door g') (Web.rect (Web.player g')) = true) /\
  Web.d_open (Web.door g') =
  Web.d_open (Web.door g) ||
  (negb (Web.player_killed g') &&
   colliderect (Web.rect (Web.player g')) (Web.win_trigger g')).
Proof.
  intro S.
  destruct (Web_handle_collisions_death g now r S) as [K1 K2].
  cbn zeta in *. revert K1 K2.
  unfold Web.handle_collisions. rewrite S. cbn [GameState_eqb negb].
  destruct (Web_before_kill_checks_frame g r) as (S1 & _).
  destruct (Web_before_kill_checks_door g r) as [Bd _].
  destruct (Web.before_kill_checks g r) as [g1 r1]. cbn [fst] in *.
  rewrite <- Bd.
  destruct (Web.player_killed g1) eqn:E.
  - intros K1 K2. rewrite K1. cbn [negb andb]. rewrite orb_false_r. split.
    + assert (T : Web.state (fst (Web.kill_player g1 now r1)) = DEAD)
        by (apply K2; exact K1).
      rewrite T. split; [discriminate | intros [H _]; discriminate].
    + destruct (Web_kill_player_spec g1 now r1) as (_ & _ & _ & D & _).
      cbn zeta in D. rewrite D. reflexivity.
  - intros K1 K2. rewrite K1. cbn [negb andb].
    destruct (Web_door_interactions_win g1 now r1) as (A & B & C & D);
      [congruence|].
    cbn zeta in *. rewrite C, D. split; [|exact B].
    rewrite A, C. tauto.
Qed.

Lemma Desktop_advance_door_open (m : Math) (g : Desktop.Game) (f : Frame) :
  Desktop.d_open (Desktop.door (fst (Desktop.advance m g f)))
  = Desktop.d_open (Desktop.door g).
Proof.
  unfold Desktop.advance.
  destruct (Desktop.physics _ _ _ _ _) as [[p ps] r].
  destruct (Desktop.update_stones _ _ _ _ _ _) as [[st ps'] r'].
  reflexivity.
Qed.

Lemma Web_advance_door_open (m : Math) (g : Web.Game) (f : Frame) :
  Web.d_open (Web.door (fst (Web.advance m g f))) = Web.d_open (Web.door g).
Proof.
  unfold Web.advance.
  destruct (Web.physics _ _ _ _ _) as [[p ps] r].
  destruct (Web.update_stones _ _ _ _ _ _) as [[st ps'] r'].
  reflexivity.
Qed.

(** X13.  Winning takes the open door.  A frame played in state PLAYING
    that neither resets nor quits ends in state WON exactly when, as it
    ends, no hazard has the player and the player passes the door's win
    test, which asks for an open door; and the door is open at the end of
    the frame exactly when it was open before or the surviving player
    overlaps the win trigger. *)
Theorem winning_takes_the_open_door :
  (forall (m : Math) (g : Desktop.Game) (f : Frame),
      Desktop.state g = PLAYING ->
      K_r (f_keys f) = false -> K_ESCAPE (f_keys f) = false ->
      let g' := fst (Desktop.update m g f) in
      (Desktop.state g' = WON <->
       Desktop_player_killed g' = false /\
       Desktop.check_win_collision (Desktop.door g')
                                   (Desktop.rect (Desktop.player g')) = true) /\
      Desktop.d_open (Desktop.door g') =
      Desktop.d_open (Desktop.door g) ||
      (negb (Desktop_player_killed g') &&
       colliderect (Desktop.rect (Desktop.player g')) (Desktop.win_trigger g'))) /\
  (forall (m : Math) (g : Web.Game) (f : Frame),
      Web.state g = PLAYING ->
      K_r (f_keys f) = false -> K_ESCAPE (f_keys f) = false ->
      let g' := fst (Web.update m g f) in
      (Web.state g' = WON <->
       Web.player_killed g' = false /\
       Web.check_win_collision (Web.door g') (Web.rect (Web.player g')) = true) /\
      Web.d_open (Web.door g') =
      Web.d_open (Web.door g) ||
      (negb (Web.player_killed g') &&
       colliderect (Web.rect (Web.player g')) (Web.win_trigger g'))).
Proof.
  split.
  - intros m g f S R E. unfold Desktop.update. rewrite R, E.
    destruct (Desktop_advance_fields m g f) as [A _].
    pose proof (Desktop_advance_door_open m g f) as O.
    destruct (Desktop.advance m g f) as [g1 r1]. cbn [fst] in *.
    rewrite <- O. apply Desktop_handle_collisions_win. congruence.
  - intros m g f S R E. unfold Web.update. rewrite R, E.
    destruct (Web_advance_fields m g f) as [A _].
    pose proof (Web_advance_door_open m g f) as O.
    destruct (Web.advance m g f) as [g1 r1]. cbn [fst] in *.
    rewrite <- O. apply Web_handle_collisions_win. congruence.
Qed.

Lemma winning_takes_the_open_door_witness :
  Desktop.state (fst (Desktop.update trivial_math desktop_at_open_door late_frame))
  = WON /\
  Web.state (fst (Web.update trivial_math web_at_open_door late_frame)) = WON.
Proof.
  split.
  - apply (proj1 (proj1 winning_takes_the_open_door
                    trivial_math desktop_at_open_door late_frame
                    eq_refl eq_refl eq_refl)).
    vm_compute. split; reflexivity.
  - apply (proj1 (proj2 winning_takes_the_open_door
                    trivial_math web_at_open_door late_frame
                    eq_refl eq_refl eq_refl)).
    vm_compute. split; reflexivity.
Defined.

(** ** The player over a session *)

(** A property of the player that the steps of a frame preserve holds of
    the player of every session started from a new game. *)
Lemma Desktop_handle_collisions_player (g : Desktop.Game) (now : Q) (r : Rng) :
  let p' := Desktop.player (fst (Desktop.handle_collisions g now r)) in
  p' = Desktop.player g \/
  p' = Desktop.set_dead (Desktop.player g) true \/
  p' = Desktop.set_win (Desktop.player g) true.
Proof.
  unfold Desktop.handle_collisions.
  destruct (negb _); [left; reflexivity|].
  destruct (Desktop_wall_collision_frame g r) as (_ & _ & _ & _ & Wp & _).
  destruct (Desktop.wall_collision g r) as [g1 r1]. cbn [fst] in *.
  rewrite <- Wp.
  assert (K : Desktop.player (fst (Desktop.kill_player g1 now r1))
              = Desktop.set_dead (Desktop.player g1) true).
  { unfold Desktop.kill_player. break_let. reflexivity. }
  repeat break_if; try (right; left; exact K).
  unfold Desktop.door_interactions.
  destruct (Desktop.maybe_troll _ _ _ _) as [[d ps] r2].
  break_if; [|left; reflexivity].
  right. right. unfold Desktop.win_game. break_let. reflexivity.
Qed.

Lemma Desktop_run_player_inv (P : Desktop.Player -> Prop) :
  P (Desktop.l_player Desktop.setup_level) ->
  (forall p k dt, P p -> P (Desktop.control p k dt)) ->
  (forall p dt pfs ps g, P p -> P (fst (fst (Desktop.physics p dt pfs ps g)))) ->
  (forall p, P p -> P (Desktop.set_dead p true)) ->
  (forall p, P p -> P (Desktop.set_win p true)) ->
  forall (m : Math) (fs : list Frame) (g : Desktop.Game),
    P (Desktop.player g) -> P (Desktop.player (Desktop.run m g fs)).
Proof.
  intros P0 Pc Pp Pd Pw m.
  assert (U : forall g f, P (Desktop.player g) ->
                          P (Desktop.player (fst (Desktop.update m g f)))).
  { intros g f H. unfold Desktop.update.
    destruct (K_r (f_keys f)); [exact P0|].
    destruct (K_ESCAPE (f_keys f)); [exact H|].
    pose proof (Desktop_advance_physics m g f) as Hp.
    destruct (Desktop.advance m g f) as [g1 r1]. cbn [fst] in *.
    assert (H1 : P (Desktop.player g1)).
    { rewrite Hp. apply Pp. unfold Desktop_controlled.
      break_if; [apply Pc, H | exact H]. }
    destruct (Desktop_handle_collisions_player g1 (f_now f) r1) as [E | [E | E]];
      cbn zeta in E; rewrite E; auto. }
  induction fs as [|f rest IH]; intros g H; cbn [Desktop.run]; [exact H|].
  pose proof (U g f H) as H1.
  destruct (Desktop.update m g f) as [g' running]. cbn [fst] in H1.
  destruct running; [apply IH, H1 | exact H1].
Qed.

Lemma Web_handle_collisions_player (g : Web.Game) (now : Q) (r : Rng) :
  let p' := Web.player (fst (Web.handle_collisions g now r)) in
  exists p, (p = Web.player g \/ exists t, p = teleported (Web.player g) t) /\
            (p' = p \/ p' = Web.set_dead p true \/ p' = Web.set_win p true).
Proof.
  unfold Web.handle_collisions.
  destruct (negb _); [exists (Web.player g); auto|].
  assert (B : Web.player (fst (Web.before_kill_checks g r)) = Web.player g \/
              exists t, Web.player (fst (Web.before_kill_checks g r))
                        = teleported (Web.player g) t).
  { unfold Web.before_kill_checks.
    destruct (Web_wall_collision_frame g r) as (_ & _ & _ & _ & Wp & _).
    destruct (Web.wall_collision g r) as [g1 r1]. cbn [fst] in *.
    destruct (Web_fake_platform_collisions_frame g1)
      as (_ & _ & _ & _ & _ & Fp & _).
    cbn zeta in Fp. rewrite <- Wp, <- Fp.
    set (g2 := Web.fake_platform_collisions g1).
    unfold Web.teleport_collisions.
    pose proof (Web_teleport_loop_cases (Web.teleport_traps g2) (Web.player g2)
                  (Web.camera g2) (Web.g_particles g2) r1) as T.
    destruct (Web.teleport_loop _ _ _ _ _) as [[[[tr pl] c] ps] r'].
    cbn [fst Web.player Web.set_teleport].
    destruct T as [(_ & _ & E) | (pre & t & post & _ & _ & _ & _ & E)].
    - left. exact E.
    - right. exists t. exact E. }
  destruct (Web.before_kill_checks g r) as [g1 r1]. cbn [fst] in *.
  exists (Web.player g1). split; [exact B|].
  break_if.
  - right. left. unfold Web.kill_player. break_let. reflexivity.
  - unfold Web.door_interactions.
    destruct (Web.maybe_troll _ _ _ _) as [[d ps] r2].
    break_if; [|left; reflexivity].
    right. right. unfold Web.win_game. break_let. reflexivity.
Qed.

Lemma Web_run_player_inv (P : Web.Player -> Prop) :
  P (Web.l_player Web.setup_level) ->
  (forall p k dt pfs ps g,
      P p -> P (fst (fst (Web.physics (Web.control p k dt) dt pfs ps g)))) ->
  (forall p dt pfs ps g, P p -> P (fst (fst (Web.physics p dt pfs ps g)))) ->
  (forall p t, P p -> P (teleported p t)) ->
  (forall p, P p -> P (Web.set_dead p true)) ->
  (forall p, P p -> P (Web.set_win p true)) ->
  forall (m : Math) (fs : list Frame) (g : Web.Game),
    P (Web.player g) -> P (Web.player (Web.run m g fs)).
Proof.
  intros P0 Pc Pp Pt Pd Pw m.
  assert (U : forall g f, P (Web.player g) ->
                          P (Web.player (fst (Web.update m g f)))).
  { intros g f H. unfold Web.update.
    destruct (K_r (f_keys f)); [exact P0|].
    destruct (K_ESCAPE (f_keys f)); [exact H|].
    pose proof (Web_advance_physics m g f) as Hp.
    destruct (Web.advance m g f) as [g1 r1]. cbn [fst] in *.
    assert (H1 : P (Web.player g1)).
    { rewrite Hp. unfold Web_controlled.
      break_if; [apply Pc, H | apply Pp, H]. }
    destruct (Web_handle_collisions_player g1 (f_now f) r1)
      as (p & [E0 | [t E0]] & [E | [E | E]]);
      cbn zeta in E; rewrite E; subst p; auto. }
  induction fs as [|f rest IH]; intros g H; cbn [Web.run]; [exact H|].
  pose proof (U g f H) as H1.
  destruct (Web.update m g f) as [g' running]. cbn [fst] in H1.
  destruct running; [apply IH, H1 | exact H1].
Qed.

(** *** The desktop player stays on the screen *)

Lemma Desktop_horizontal_fold_size (platforms : list Platform) :
  forall p : Desktop.Player,
    let r' := Desktop.rect (fold_left Desktop.horizontal_step platforms p) in
    rw r' = rw (Desktop.rect p) /\ rh r' = rh (Desktop.rect p).
Proof.
  induction platforms as [|q rest IH]; intros p; cbn [fold_left]; [auto|].
  destruct (IH (Desktop.horizontal_step p q)) as [A B]. cbn zeta.
  rewrite A, B. unfold Desktop.horizontal_step.
  repeat break_if; cbn; auto.
Qed.

Lemma Desktop_vertical_fold_size (platforms : list Platform) :
  forall (p : Desktop.Player) (ps : Desktop.ParticleSystem) (g : Rng),
    let r' := Desktop.rect
                (fst (fst (fold_left Desktop.vertical_step platforms (p, ps, g)))) in
    rw r' = rw (Desktop.rect p) /\ rh r' = rh (Desktop.rect p).
Proof.
  induction platforms as [|q rest IH]; intros p ps g; cbn [fold_left]; [auto|].
  destruct (Desktop.vertical_step (p, ps, g) q) as [[p1 ps1] g1] eqn:E.
  destruct (IH p1 ps1 g1) as [A B]. cbn zeta. rewrite A, B.
  unfold Desktop.vertical_step in E.
  repeat match type of E with
         | context [if ?b then _ else _] => destruct b
         | context [let (_, _) := ?x in _] => destruct x
         end; inversion E; cbn; auto.
Qed.

Lemma Desktop_keep_in_bounds_on_screen (p : Desktop.Player) :
  rw (Desktop.rect p) = 32 -> rh (Desktop.rect p) = 44 ->
  let r' := Desktop.rect (Desktop.keep_in_bounds p) in
  rw r' = 32 /\ rh r' = 44 /\ on_screen r'.
Proof.
  intros W H. unfold Desktop.keep_in_bounds, on_screen.
  destruct (Desktop.rect p) as [x y w h] eqn:R. cbn in W, H. subst w h.
  cbn [Desktop.rect Desktop.set_rect set_left set_right set_x left right rx ry rw rh].
  unfold WIDTH, HEIGHT.
  repeat (match goal with
          | |- context [?a <? ?b] => destruct (Z.ltb_spec a b)
          | |- context [?a >? ?b] =>
              rewrite (Z.gtb_ltb a b); destruct (Z.ltb_spec b a)
          end);
    cbv [Desktop.rect Desktop.set_rect Desktop.set_vy Desktop.set_on_ground
         set_top set_bottom set_left set_right set_y set_x top bottom left right
         rx ry rw rh] in *;
    lia.
Qed.

Lemma Desktop_physics_on_screen (p : Desktop.Player) (dt : Q)
      (pfs : list Platform) (ps : Desktop.ParticleSystem) (g : Rng) :
  rw (Desktop.rect p) = 32 -> rh (Desktop.rect p) = 44 ->
  let r' := Desktop.rect (fst (fst (Desktop.physics p dt pfs ps g))) in
  rw r' = 32 /\ rh r' = 44 /\ on_screen r'.
Proof.
  intros W H. unfold Desktop.physics.
  set (p3 := fold_left Desktop.horizontal_step pfs _).
  assert (S3 : rw (Desktop.rect p3) = 32 /\ rh (Desktop.rect p3) = 44).
  { destruct (Desktop_horizontal_fold_size pfs
                (Desktop.move_x (Desktop.gravity_step p))) as [A B].
    unfold p3. cbn zeta in A, B. rewrite A, B.
    unfold Desktop.gravity_step. break_if; cbn; auto. }
  destruct (Desktop_vertical_fold_size pfs
              (Desktop.set_on_ground (Desktop.move_y p3) false) ps g) as [A B].
  unfold Desktop.vertical_collisions.
  destruct (fold_left Desktop.vertical_step pfs _) as [[p4 ps4] g4].
  cbn [fst] in A, B. cbn in A, B.
  unfold Desktop.after_collisions.
  set (p5 := Desktop.coyote_update _ p4).
  assert (S5 : rw (Desktop.rect p5) = 32 /\ rh (Desktop.rect p5) = 44).
  { unfold p5, Desktop.coyote_update. repeat break_if; cbn; split; lia. }
  destruct (Desktop_keep_in_bounds_on_screen p5 (proj1 S5) (proj2 S5)) as (K1 & K2 & K3).
  cbn zeta in *.
  set (p6 := Desktop.keep_in_bounds p5) in *.
  destruct (Desktop.walking_dust dt (p6, ps4, g4)) as [[p7 ps7] g7] eqn:E.
  assert (R7 : Desktop.rect p7 = Desktop.rect p6).
  { unfold Desktop.walking_dust in E.
    repeat match type of E with
           | context [if ?b then _ else _] => destruct b
           | context [let (_, _) := ?x in _] => destruct x
           end; inversion E; reflexivity. }
  cbn [fst].
  assert (R8 : Desktop.rect (Desktop.animate dt p7) = Desktop.rect p7).
  { unfold Desktop.animate. break_if; reflexivity. }
  rewrite R8, R7. auto.
Qed.

(** X14.  The desktop player cannot leave the screen.  Through every
    session started from a new game the player keeps its size of 32 by 44
    pixels and its rectangle stays within the 1280 by 720 screen. *)
Theorem desktop_player_stays_on_screen (m : Math) (now : Q) (fs : list Frame) :
  let r := Desktop.rect (Desktop.player (Desktop.run m (Desktop.new_Game now) fs)) in
  rw r = 32 /\ rh r = 44 /\ on_screen r.
Proof.
  apply (Desktop_run_player_inv
           (fun p => rw (Desktop.rect p) = 32 /\ rh (Desktop.rect p) = 44 /\
                     on_screen (Desktop.rect p))).
  - unfold on_screen. repeat split; vm_compute; congruence.
  - intros p k dt H.
    assert (E : Desktop.rect (Desktop.control p k dt) = Desktop.rect p).
    { unfold Desktop.control. repeat break_if; reflexivity. }
    rewrite E. exact H.
  - intros p dt pfs ps g (W & H & _). apply Desktop_physics_on_screen; assumption.
  - intros p H. exact H.
  - intros p H. exact H.
  - unfold on_screen. repeat split; vm_compute; congruence.
Qed.

(** *** Speed limits *)

Lemma Desktop_control_speed (p : Desktop.Player) (k : Keys) (dt : Q) :
  speed_ok (Desktop.vx p) (Desktop.vy p) ->
  speed_ok (Desktop.vx (Desktop.control p k dt)) (Desktop.vy (Desktop.control p k dt)).
Proof.
  unfold speed_ok, MOVE_SPEED, JUMP_VELOCITY, TERMINAL_VELOCITY.
  intros (A & B & C & D). unfold Desktop.control.
  split; [|split; [|split]].
  - repeat break_if; cbn [Desktop.vx];
      unfold MOVE_SPEED, AIR_CONTROL, AIR_RESISTANCE, FRICTION, inject_Z;
      cbn [Z.add Z.opp Z.pos_sub Pos.pred_double]; lra.
  - repeat break_if; cbn [Desktop.vx];
      unfold MOVE_SPEED, AIR_CONTROL, AIR_RESISTANCE, FRICTION, inject_Z;
      cbn [Z.add Z.opp Z.pos_sub Pos.pred_double]; lra.
  - repeat break_if; cbn [Desktop.vy];
      unfold JUMP_VELOCITY, DOUBLE_JUMP_VELOCITY; lra.
  - repeat break_if; cbn [Desktop.vy];
      unfold JUMP_VELOCITY, DOUBLE_JUMP_VELOCITY; lra.
Qed.

Lemma Desktop_horizontal_fold_speed (platforms : list Platform) :
  forall p : Desktop.Player,
    speed_ok (Desktop.vx p) (Desktop.vy p) ->
    let p' := fold_left Desktop.horizontal_step platforms p in
    speed_ok (Desktop.vx p') (Desktop.vy p').
Proof.
  induction platforms as [|q rest IH]; intros p H; cbn [fold_left]; [exact H|].
  apply IH. unfold Desktop.horizontal_step.
  repeat break_if; cbn; try exact H;
    destruct H as (A & B & C & D); unfold speed_ok, MOVE_SPEED in *;
    repeat split; try assumption; lra.
Qed.

Lemma Desktop_vertical_fold_speed (platforms : list Platform) :
  forall (p : Desktop.Player) (ps : Desktop.ParticleSystem) (g : Rng),
    speed_ok (Desktop.vx p) (Desktop.vy p) ->
    let p' := fst (fst (fold_left Desktop.vertical_step platforms (p, ps, g))) in
    speed_ok (Desktop.vx p') (Desktop.vy p').
Proof.
  induction platforms as [|q rest IH]; intros p ps g H; cbn [fold_left];
    [exact H|].
  destruct (Desktop.vertical_step (p, ps, g) q) as [[p1 ps1] g1] eqn:E.
  apply IH. unfold Desktop.vertical_step in E.
  destruct H as (A & B & C & D).
  unfold speed_ok, MOVE_SPEED, JUMP_VELOCITY, TERMINAL_VELOCITY in *.
  repeat match type of E with
         | context [if ?b then _ else _] => destruct b
         | context [let (_, _) := ?x in _] => destruct x
         end; inversion E; subst;
    cbn [Desktop.vx Desktop.vy Desktop.set_vy Desktop.set_vx Desktop.set_rect];
    repeat split; try assumption; lra.
Qed.

Lemma Desktop_physics_speed (p : Desktop.Player) (dt : Q)
      (pfs : list Platform) (ps : Desktop.ParticleSystem) (g : Rng) :
  speed_ok (Desktop.vx p) (Desktop.vy p) ->
  let p' := fst (fst (Desktop.physics p dt pfs ps g)) in
  speed_ok (Desktop.vx p') (Desktop.vy p').
Proof.
  intro H. unfold Desktop.physics.
  assert (H1 : speed_ok (Desktop.vx (Desktop.gravity_step p))
                        (Desktop.vy (Desktop.gravity_step p))).
  { unfold Desktop.gravity_step. break_if; [|exact H].
    cbn [Desktop.set_vy Desktop.vx Desktop.vy].
    destruct H as (A & B & C & D).
    unfold speed_ok, JUMP_VELOCITY, TERMINAL_VELOCITY, GRAVITY in *.
    repeat split; try assumption;
      match goal with
      | |- context [Qmin ?a ?b] => destruct (Qmin_cases a b) as [[L ->] | [L ->]]
      end; lra. }
  pose proof (Desktop_horizontal_fold_speed pfs
                (Desktop.move_x (Desktop.gravity_step p)) H1) as H3.
  cbn zeta in H3.
  set (p3 := fold_left Desktop.horizontal_step pfs _) in *.
  pose proof (Desktop_vertical_fold_speed pfs
                (Desktop.set_on_ground (Desktop.move_y p3) false) ps g H3) as H4.
  unfold Desktop.vertical_collisions.
  destruct (fold_left Desktop.vertical_step pfs _) as [[p4 ps4] g4].
  cbn [fst] in H4. cbn zeta in H4.
  unfold Desktop.after_collisions.
  set (p5 := Desktop.coyote_update _ p4).
  assert (H5 : speed_ok (Desktop.vx p5) (Desktop.vy p5)).
  { unfold p5, Desktop.coyote_update. repeat break_if; exact H4. }
  assert (H6 : speed_ok (Desktop.vx (Desktop.keep_in_bounds p5))
                        (Desktop.vy (Desktop.keep_in_bounds p5))).
  { unfold Desktop.keep_in_bounds.
    destruct H5 as (A & B & C & D).
    unfold speed_ok, JUMP_VELOCITY, TERMINAL_VELOCITY in *.
    repeat break_if; cbn; repeat split; try assumption; try lra;
      match goal with
      | |- context [Qmax ?a ?b] => destruct (Qmax_cases a b) as [[L ->] | [L ->]]
      end; lra. }
  set (p6 := Desktop.keep_in_bounds p5) in *.
  destruct (Desktop.walking_dust dt (p6, ps4, g4)) as [[p7 ps7] g7] eqn:E.
  assert (H7 : speed_ok (Desktop.vx p7) (Desktop.vy p7)).
  { unfold Desktop.walking_dust in E.
    repeat match type of E with
           | context [if ?b then _ else _] => destruct b
           | context [let (_, _) := ?x in _] => destruct x
           end; inversion E; exact H6. }
  cbn [fst]. unfold Desktop.animate. break_if; exact H7.
Qed.

Lemma Web_control_vy (p : Web.Player) (k : Keys) (dt : Q) :
  (JUMP_VELOCITY <= Web.vy p)%Q /\ (Web.vy p <= TERMINAL_VELOCITY)%Q ->
  (JUMP_VELOCITY <= Web.vy (Web.control p k dt))%Q /\
  (Web.vy (Web.control p k dt) <= TERMINAL_VELOCITY)%Q.
Proof.
  unfold JUMP_VELOCITY, TERMINAL_VELOCITY. intros [C D]. unfold Web.control.
  repeat break_if; cbn [Web.vy];
    unfold JUMP_VELOCITY, DOUBLE_JUMP_VELOCITY; split; lra.
Qed.

Lemma Web_horizontal_fold_speed (platforms : list Platform) :
  forall p : Web.Player,
    speed_ok (Web.vx p) (Web.vy p) ->
    let p' := fold_left Web.horizontal_step platforms p in
    speed_ok (Web.vx p') (Web.vy p').
Proof.
  induction platforms as [|q rest IH]; intros p H; cbn [fold_left]; [exact H|].
  apply IH. unfold Web.horizontal_step.
  repeat break_if; cbn; try exact H;
    destruct H as (A & B & C & D); unfold speed_ok, MOVE_SPEED in *;
    repeat split; try assumption; lra.
Qed.

Lemma Web_vertical_fold_speed (platforms : list Platform) :
  forall (p : Web.Player) (ps : Web.ParticleSystem) (g : Rng),
    speed_ok (Web.vx p) (Web.vy p) ->
    let p' := fst (fst (fold_left Web.vertical_step platforms (p, ps, g))) in
    speed_ok (Web.vx p') (Web.vy p').
Proof.
  induction platforms as [|q rest IH]; intros p ps g H; cbn [fold_left];
    [exact H|].
  destruct (Web.vertical_step (p, ps, g) q) as [[p1 ps1] g1] eqn:E.
  apply IH. unfold Web.vertical_step in E.
  destruct H as (A & B & C & D).
  unfold speed_ok, MOVE_SPEED, JUMP_VELOCITY, TERMINAL_VELOCITY in *.
  repeat match type of E with
         | context [if ?b then _ else _] => destruct b
         | context [let (_, _) := ?x in _] => destruct x
         end; inversion E; subst;
    cbn [Web.vx Web.vy Web.set_vy Web.set_vx Web.set_rect];
    repeat split; try assumption; lra.
Qed.

Lemma Web_physics_speed (p : Web.Player) (dt : Q)
      (pfs : list Platform) (ps : Web.ParticleSystem) (g : Rng) :
  (JUMP_VELOCITY <= Web.vy p)%Q /\ (Web.vy p <= TERMINAL_VELOCITY)%Q ->
  (Web.dead p || Web.win p = true -> speed_ok (Web.vx p) (Web.vy p)) ->
  let p' := fst (fst (Web.physics p dt pfs ps g)) in
  speed_ok (Web.vx p') (Web.vy p').
Proof.
  intros [C D] F. unfold Web.physics.
  destruct (Web.dead p || Web.win p); [apply F; reflexivity|].
  assert (H1 : speed_ok (Web.vx (Web.friction_gravity p))
                        (Web.vy (Web.friction_gravity p))).
  { unfold Web.friction_gravity. cbn [Web.set_vy Web.set_vx Web.vx Web.vy].
    unfold speed_ok, JUMP_VELOCITY, TERMINAL_VELOCITY, MOVE_SPEED, GRAVITY in *.
    repeat split.
    - match goal with
      | |- context [Qmax ?a ?b] => destruct (Qmax_cases a b) as [[L ->] | [L ->]]
      end; lra.
    - match goal with
      | |- context [Qmax ?a (Qmin ?b ?c)] =>
          destruct (Qmin_cases b c) as [[L E] | [L E]]; rewrite E;
          match goal with
          | |- context [Qmax ?a ?z] => destruct (Qmax_cases a z) as [[M ->] | [M ->]]
          end
      end; lra.
    - break_if; lra.
    - match goal with
      | |- context [Qgt_bool ?a ?b] => destruct (Qgt_bool a b) eqn:G
      end; [lra|]. apply Qgt_bool_false_iff in G. exact G. }
  pose proof (Web_horizontal_fold_speed pfs
                (Web.move_x (Web.friction_gravity p)) H1) as H3.
  cbn zeta in H3.
  set (p3 := fold_left Web.horizontal_step pfs _) in *.
  pose proof (Web_vertical_fold_speed pfs
                (Web.move_y (Web.set_on_ground p3 false)) ps g H3) as H4.
  unfold Web.vertical_collisions.
  destruct (fold_left Web.vertical_step pfs _) as [[p4 ps4] g4].
  cbn [fst] in H4 |- *. exact H4.
Qed.

(** X15.  Speed limits.  Through every session started from a new game,
    in both variants, the player's horizontal velocity stays within the
    walking speed of 6.5 either way and its vertical velocity between the
    jump velocity of -15 and the terminal velocity of 18. *)
Theorem player_speed_limits :
  (forall (m : Math) (now : Q) (fs : list Frame),
      let p := Desktop.player (Desktop.run m (Desktop.new_Game now) fs) in
      speed_ok (Desktop.vx p) (Desktop.vy p)) /\
  (forall (m : Math) (now : Q) (fs : list Frame),
      let p := Web.player (Web.run m (Web.new_Game now) fs) in
      speed_ok (Web.vx p) (Web.vy p)).
Proof.
  assert (Z0 : speed_ok 0 0).
  { unfold speed_ok, MOVE_SPEED, JUMP_VELOCITY, TERMINAL_VELOCITY.
    repeat split; lra. }
  split; intros m now fs.
  - apply (Desktop_run_player_inv
             (fun p => speed_ok (Desktop.vx p) (Desktop.vy p))).
    + exact Z0.
    + intros p k dt. apply Desktop_control_speed.
    + intros p dt pfs ps g. apply Desktop_physics_speed.
    + intros p H. exact H.
    + intros p H. exact H.
    + exact Z0.
  - apply (Web_run_player_inv (fun p => speed_ok (Web.vx p) (Web.vy p))).
    + exact Z0.
    + intros p k dt pfs ps g H. apply Web_physics_speed.
      * apply Web_control_vy. destruct H as (_ & _ & C & D). auto.
      * intro L.
        pose proof (Web_control_life p k dt) as E.
        unfold Web_life in E. inversion E as [[E1 E2]].
        rewrite E1, E2 in L.
        unfold Web.control. rewrite L. exact H.
    + intros p dt pfs ps g H. apply Web_physics_speed.
      * destruct H as (_ & _ & C & D). auto.
      * intros _. exact H.
    + intros p t H. exact Z0.
    + intros p H. exact H.
    + intros p H. exact H.
    + exact Z0.
Qed.

(** ** The clock of the user interface *)

Lemma book_step_stamps (f : Frame) (b b' : Book) :
  (0 < f_now f)%Q -> stamps_positive b -> book_step f b b' -> stamps_positive b'.
Proof.
  intros N [S1 S2] H. apply book_step_cases in H.
  destruct H as [[_ H] | [[_ H] | [(_ & _ & H) | (_ & _ & H)]]]; subst b';
    split; cbn; intros x E; try discriminate; auto;
    injection E as <-; exact N.
Qed.

Lemma book_path_stamps (fs : list Frame) :
  forall b b',
    clock_runs fs -> stamps_positive b -> book_path fs b b' -> stamps_positive b'.
Proof.
  induction fs as [|f rest IH]; intros b b' C S H.
  - cbn in H. subst. exact S.
  - inversion C as [|? ? Hf Hrest]; subst.
    cbn [book_path] in H. destruct H as (b1 & Hs & H).
    pose proof (book_step_stamps f b b1 Hf S Hs) as S1.
    destruct H as [H | H]; [subst; exact S1|].
    eapply IH; eassumption.
Qed.

Lemma truthy_positive (d : Q) : (0 < d)%Q -> truthy (Some d) = Some d.
Proof.
  intro H. cbn. destruct (Qeq_bool d 0) eqn:E; [|reflexivity].
  apply Qeq_bool_iff in E. rewrite E in H. exfalso. lra.
Qed.

Lemma shown_time_of_book (b : Book) :
  book_ok b -> stamps_positive b ->
  (b_state b = PLAYING -> forall now, shown_time b now = (now - b_start b)%Q) /\
  (b_state b = DEAD ->
   exists d, b_death b = Some d /\
             forall now, shown_time b now = (d - b_start b)%Q) /\
  (b_state b = WON ->
   exists w t, b_won_at b = Some w /\ b_best b = Some t /\
               (forall now, shown_time b now = (w - b_start b)%Q) /\
               (t <= w - b_start b)%Q).
Proof.
  intros (O1 & O2 & O3 & O4 & O5 & O6) [S1 S2].
  split; [|split]; intro S.
  - intro now. unfold shown_time. rewrite S. reflexivity.
  - destruct (b_death b) as [d|] eqn:E.
    + exists d. split; [reflexivity|]. intro now. unfold shown_time.
      rewrite S, E, (truthy_positive d (S1 d eq_refl)). reflexivity.
    + exfalso. apply O4 in S. apply S. reflexivity.
  - destruct (O6 S) as (t & w & B & W & L).
    exists w, t. split; [exact W|]. split; [exact B|]. split; [|exact L].
    intro now. unfold shown_time.
    rewrite S, W, (truthy_positive w (S2 w W)). reflexivity.
Qed.

(** X16.  The clock on screen stops with the game.  Take any session of
    either variant started from a new game in which the clock of every
    frame reads a positive time.  While the game is played [draw_ui] shows
    the running time; in state DEAD it shows the time of death, whatever
    the clock reads; in state WON it shows the time of the win, and the
    record is no larger than that time. *)
Theorem shown_clock_stops_with_the_game :
  (forall (m : Math) (start : Q) (fs : list Frame),
      clock_runs fs ->
      let b := Desktop_book (Desktop.run m (Desktop.new_Game start) fs) in
      (b_state b = PLAYING ->
       forall now, shown_time b now = (now - b_start b)%Q) /\
      (b_state b = DEAD ->
       exists d, b_death b = Some d /\
                 forall now, shown_time b now = (d - b_start b)%Q) /\
      (b_state b = WON ->
       exists w t, b_won_at b = Some w /\ b_best b = Some t /\
                   (forall now, shown_time b now = (w - b_start b)%Q) /\
                   (t <= w - b_start b)%Q)) /\
  (forall (m : Math) (start : Q) (fs : list Frame),
      clock_runs fs ->
      let b := Web_book (Web.run m (Web.new_Game start) fs) in
      (b_state b = PLAYING ->
       forall now, shown_time b now = (now - b_start b)%Q) /\
      (b_state b = DEAD ->
       exists d, b_death b = Some d /\
                 forall now, shown_time b now = (d - b_start b)%Q) /\
      (b_state b = WON ->
       exists w t, b_won_at b = Some w /\ b_best b = Some t /\
                   (forall now, shown_time b now = (w - b_start b)%Q) /\
                   (t <= w - b_start b)%Q)).
Proof.
  assert (S0 : forall b, b_death b = None -> b_won_at b = None -> stamps_positive b).
  { intros b D W. split; intros x E; congruence. }
  split; intros m start fs C b; apply shown_time_of_book.
  - exact (book_path_ok fs _ _ (proj1 (new_games_ok start))
             (Desktop_run_path m fs (Desktop.new_Game start))).
  - apply (book_path_stamps fs (Desktop_book (Desktop.new_Game start)) _ C);
      [apply S0; reflexivity | apply Desktop_run_path].
  - exact (book_path_ok fs _ _ (proj2 (new_games_ok start))
             (Web_run_path m fs (Web.new_Game start))).
  - apply (book_path_stamps fs (Web_book (Web.new_Game start)) _ C);
      [apply S0; reflexivity | apply Web_run_path].
Qed.

Lemma shown_clock_stops_with_the_game_witness :
  shown_time (Desktop_book (Desktop.run trivial_math (Desktop.new_Game 1)
                                        [late_frame; late_frame])) 30
  = (30 - 1)%Q.
Proof.
  apply (proj1 (proj1 shown_clock_stops_with_the_game trivial_math 1%Q
                      [late_frame; late_frame] ltac:(repeat constructor))).
  vm_compute. reflexivity.
Defined.

(** ** Which hazards a frame moves on *)

Lemma Desktop_handle_collisions_spikes (g : Desktop.Game) (now : Q) (r : Rng) :
  Desktop.spikes (fst (Desktop.handle_collisions g now r)) = Desktop.spikes g.
Proof. apply Desktop_handle_collisions_rect. Qed.

Lemma Web_handle_collisions_spikes (g : Web.Game) (now : Q) (r : Rng) :
  Web.spikes (fst (Web.handle_collisions g now r)) = Web.spikes g /\
  Web.fake_doors (fst (Web.handle_collisions g now r)) = Web.fake_doors g /\
  Web.falling_stones (fst (Web.handle_collisions g now r)) = Web.falling_stones g.
Proof.
  unfold Web.handle_collisions.
  destruct (negb _); [auto|].
  destruct (Web_before_kill_checks_frame g r)
    as (_ & _ & _ & _ & _ & B1 & B2 & B3).
  destruct (Web.before_kill_checks g r) as [g1 r1]. cbn [fst] in *.
  rewrite <- B1, <- B2, <- B3.
  break_if.
  - unfold Web.kill_player. break_let. cbn. auto.
  - unfold Web.door_interactions.
    destruct (Web.maybe_troll _ _ _ _) as [[d ps] r2].
    break_if; [|cbn; auto]. unfold Web.win_game. break_let. cbn. auto.
Qed.

Lemma Web_update_stones_far (stones : list Web.FallingStone) (x : Z)
      (dt : Q) (pfs : list Platform) :
  forall (ps : Web.ParticleSystem) (r : Rng) (i : nat) (s : Web.FallingStone),
    nth_error stones i = Some s ->
    Web.near 1000 (Web.fs_rect s) x = false ->
    nth_error (fst (fst (Web.update_stones stones x dt pfs ps r))) i = Some s.
Proof.
  induction stones as [|a rest IH]; intros ps r i s Hn Hf;
    [destruct i; discriminate|].
  cbn [Web.update_stones].
  destruct (if Web.near 1000 (Web.fs_rect a) x
            then Web.FallingStone_update _ _ _ _ _ else (a, ps, r))
    as [[s' ps1] r1] eqn:E.
  specialize (IH ps1 r1).
  destruct (Web.update_stones rest x dt pfs ps1 r1) as [[rest' ps2] r2].
  cbn [fst] in *. destruct i as [|i]; cbn [nth_error] in *.
  - injection Hn as ->. rewrite Hf in E. injection E as <- _ _. reflexivity.
  - apply IH; assumption.
Qed.

(** X17.  Which hazards a frame moves on.  In the desktop variant a frame
    that neither resets nor quits updates every spike.  In the web variant
    it updates the spikes and fake doors whose centre is less than 800
    pixels from the centre of the player as the frame starts, and leaves
    the others exactly as they were, pop-up timers included; a falling
    stone 1000 pixels or more away is left as it was, too. *)
Theorem hazards_a_frame_moves_on :
  (forall (m : Math) (g : Desktop.Game) (f : Frame),
      K_r (f_keys f) = false -> K_ESCAPE (f_keys f) = false ->
      Desktop.spikes (fst (Desktop.update m g f)) =
      map (fun s => Spike_update m s (f_dt f)) (Desktop.spikes g)) /\
  (forall (m : Math) (g : Web.Game) (f : Frame),
      K_r (f_keys f) = false -> K_ESCAPE (f_keys f) = false ->
      let x := centerx (Web.rect (Web.player g)) in
      let g' := fst (Web.update m g f) in
      Web.spikes g' =
      map (fun s => if Web.near 800 (sp_rect s) x
                    then Spike_update m s (f_dt f) else s) (Web.spikes g) /\
      Web.fake_doors g' =
      map (fun d => if Web.near 800 (Web.fd_rect d) x
                    then Web.FakeDoor_update d (f_dt f) else d) (Web.fake_doors g) /\
      forall i s, nth_error (Web.falling_stones g) i = Some s ->
                  Web.near 1000 (Web.fs_rect s) x = false ->
                  nth_error (Web.falling_stones g') i = Some s).
Proof.
  split.
  - intros m g f R E. unfold Desktop.update. rewrite R, E.
    assert (A : Desktop.spikes (fst (Desktop.advance m g f)) =
                map (fun s => Spike_update m s (f_dt f)) (Desktop.spikes g)).
    { unfold Desktop.advance.
      destruct (Desktop.physics _ _ _ _ _) as [[p ps] r].
      destruct (Desktop.update_stones _ _ _ _ _ _) as [[st ps'] r'].
      reflexivity. }
    destruct (Desktop.advance m g f) as [g1 r1]. cbn [fst] in *.
    rewrite Desktop_handle_collisions_spikes. exact A.
  - intros m g f R E x g'. unfold g', Web.update. rewrite R, E.
    assert (A : Web.spikes (fst (Web.advance m g f)) =
                map (fun s => if Web.near 800 (sp_rect s) x
                              then Spike_update m s (f_dt f) else s)
                    (Web.spikes g) /\
                Web.fake_doors (fst (Web.advance m g f)) =
                map (fun d => if Web.near 800 (Web.fd_rect d) x
                              then Web.FakeDoor_update d (f_dt f) else d)
                    (Web.fake_doors g) /\
                forall i s, nth_error (Web.falling_stones g) i = Some s ->
                            Web.near 1000 (Web.fs_rect s) x = false ->
                            nth_error (Web.falling_stones (fst (Web.advance m g f))) i
                            = Some s).
    { unfold x. rewrite <- (Web_controlled_rect g f).
      unfold Web.advance. fold (Web_controlled g f).
      destruct (Web.physics _ _ _ _ _) as [[p ps] r].
      match goal with
      | |- context [Web.update_stones ?a ?b ?c ?d ?e ?h] =>
          pose proof (fun i s => Web_update_stones_far a b c d e h i s) as F;
          destruct (Web.update_stones a b c d e h) as [[st ps'] r']
      end.
      cbn [fst] in *. cbn. auto. }
    destruct (Web.advance m g f) as [g1 r1]. cbn [fst] in *.
    destruct (Web_handle_collisions_spikes g1 (f_now f) r1) as (H1 & H2 & H3).
    rewrite H1, H2, H3. exact A.
Qed.

Lemma hazards_a_frame_moves_on_witness :
  nth_error (Web.spikes (fst (Web.update trivial_math web_start idle_frame))) 3
  = Some (new_Spike 950 (HEIGHT - 218) 32 26 true (12 # 10) MoveNone).
Proof.
  destruct (proj2 hazards_a_frame_moves_on trivial_math web_start idle_frame
                  eq_refl eq_refl) as (H & _).
  cbn zeta in H. rewrite H. reflexivity.
Defined.

(** ** Where the spikes are *)

Lemma to_int_between (q : Q) (lo hi : Z) :
  (inject_Z lo <= q)%Q -> (q <= inject_Z hi)%Q -> lo <= to_int q <= hi.
Proof.
  destruct q as [a d]. unfold to_int, Qle. cbn [Qnum Qden inject_Z].
  intros L U.
  assert (Hd : 0 < Z.pos d) by lia.
  destruct (Z_le_gt_dec 0 a) as [Ha | Ha].
  - rewrite Z.quot_div_nonneg by lia. split.
    + destruct (Z_le_gt_dec lo 0); [pose proof (Z.div_pos a (Z.pos d)); lia|].
      apply Z.div_le_lower_bound; lia.
    + apply Z.div_le_upper_bound; [lia|]. nia.
  - replace a with (- (- a)) by lia.
    rewrite Z.quot_opp_l by lia.
    rewrite Z.quot_div_nonneg by lia.
    pose proof (Z.div_pos (- a) (Z.pos d) ltac:(lia) Hd).
    split.
    + assert (- a / Z.pos d <= - lo); [|lia].
      apply Z.div_le_upper_bound; [lia|]. nia.
    + destruct (Z_le_gt_dec 0 hi); [lia|].
      assert (- hi <= - a / Z.pos d); [|lia].
      apply Z.div_le_lower_bound; [lia|]. nia.
Qed.

Lemma sine_swing (m : Math) (t range : Q) (o R : Z) :
  sine_bounded m -> 0 <= R -> (range == inject_Z R)%Q ->
  o - R <= to_int (inject_Z o + m_sin m t * range)%Q <= o + R.
Proof.
  intros B HR E. destruct (B t) as [L U].
  assert (HR' : (0 <= inject_Z R)%Q).
  { unfold Qle. cbn. lia. }
  apply to_int_between; rewrite E;
    unfold Z.sub; rewrite ?inject_Z_plus, ?inject_Z_opp; nra.
Qed.

Lemma new_Spike_in_place (x y w h : Z) (pop : bool) (delay : Q) (mp : MovePattern) :
  spike_in_place (new_Spike x y w h pop delay mp).
Proof.
  unfold spike_in_place, new_Spike. cbn.
  destruct mp; cbn; split; auto; intros; lia.
Qed.

Lemma Spike_update_in_place (m : Math) (s : Spike) (dt : Q) :
  sine_bounded m -> spike_in_place s -> spike_in_place (Spike_update m s dt).
Proof.
  intros B H. unfold spike_in_place, Spike_update in *.
  cbn [move_pattern sp_rect original_pos].
  destruct (move_pattern s) as [|speed range|speed range]; cbn [set_x set_y rx ry].
  - exact H.
  - destruct H as [H1 H2]. split; [exact H1|].
    intros R HR E. apply sine_swing; assumption.
  - destruct H as [H1 H2]. split; [exact H1|].
    intros R HR E. apply sine_swing; assumption.
Qed.

Lemma Desktop_update_spikes_in_place (m : Math) (g : Desktop.Game) (f : Frame) :
  sine_bounded m ->
  Forall spike_in_place (Desktop.spikes g) ->
  Forall spike_in_place (Desktop.spikes (fst (Desktop.update m g f))).
Proof.
  intros B H. unfold Desktop.update.
  destruct (K_r (f_keys f)).
  { cbn. repeat (apply Forall_cons; [apply new_Spike_in_place|]). apply Forall_nil. }
  destruct (K_ESCAPE (f_keys f)); [exact H|].
  assert (A : Desktop.spikes (fst (Desktop.advance m g f)) =
              map (fun s => Spike_update m s (f_dt f)) (Desktop.spikes g)).
  { unfold Desktop.advance.
    destruct (Desktop.physics _ _ _ _ _) as [[p ps] r].
    destruct (Desktop.update_stones _ _ _ _ _ _) as [[st ps'] r'].
    reflexivity. }
  destruct (Desktop.advance m g f) as [g1 r1]. cbn [fst] in *.
  rewrite Desktop_handle_collisions_spikes, A.
  apply Forall_map. revert H. apply Forall_impl.
  intros s. apply Spike_update_in_place, B.
Qed.

Lemma Web_update_spikes_in_place (m : Math) (g : Web.Game) (f : Frame) :
  sine_bounded m ->
  Forall spike_in_place (Web.spikes g) ->
  Forall spike_in_place (Web.spikes (fst (Web.update m g f))).
Proof.
  intros B H. unfold Web.update.
  destruct (K_r (f_keys f)).
  { cbn. repeat (apply Forall_cons; [apply new_Spike_in_place|]). apply Forall_nil. }
  destruct (K_ESCAPE (f_keys f)); [exact H|].
  assert (A : exists x, Web.spikes (fst (Web.advance m g f)) =
              map (fun s => if Web.near 800 (sp_rect s) x
                            then Spike_update m s (f_dt f) else s) (Web.spikes g)).
  { unfold Web.advance.
    destruct (Web.physics _ _ _ _ _) as [[p ps] r].
    destruct (Web.update_stones _ _ _ _ _ _) as [[st ps'] r'].
    eexists. reflexivity. }
  destruct A as [x A].
  destruct (Web.advance m g f) as [g1 r1]. cbn [fst] in *.
  rewrite (proj1 (Web_handle_collisions_spikes g1 (f_now f) r1)), A.
  apply Forall_map. revert H. apply Forall_impl.
  intros s Hs. break_if; [apply Spike_update_in_place; assumption | exact Hs].
Qed.

(** X18.  Where the spikes are.  With a sine that stays within minus one
    and one, through every session of either variant started from a new
    game: a spike without a move pattern sits where it was built; a spike
    that moves sideways keeps its height and stays within its range of the
    place it was built at, and likewise a spike that moves up and down. *)
Theorem spikes_stay_in_place :
  (forall (m : Math) (now : Q) (fs : list Frame),
      sine_bounded m ->
      Forall spike_in_place
             (Desktop.spikes (Desktop.run m (Desktop.new_Game now) fs))) /\
  (forall (m : Math) (now : Q) (fs : list Frame),
      sine_bounded m ->
      Forall spike_in_place (Web.spikes (Web.run m (Web.new_Game now) fs))).
Proof.
  split; intros m now fs B.
  - assert (R : forall g, Forall spike_in_place (Desktop.spikes g) ->
                          Forall spike_in_place (Desktop.spikes (Desktop.run m g fs))).
    { induction fs as [|f rest IH]; intros g H; cbn [Desktop.run]; [exact H|].
      pose proof (Desktop_update_spikes_in_place m g f B H) as H1.
      destruct (Desktop.update m g f) as [g' running]. cbn [fst] in H1.
      destruct running; [apply IH, H1 | exact H1]. }
    apply R. cbn. repeat (apply Forall_cons; [apply new_Spike_in_place|]). apply Forall_nil.
  - assert (R : forall g, Forall spike_in_place (Web.spikes g) ->
                          Forall spike_in_place (Web.spikes (Web.run m g fs))).
    { induction fs as [|f rest IH]; intros g H; cbn [Web.run]; [exact H|].
      pose proof (Web_update_spikes_in_place m g f B H) as H1.
      destruct (Web.update m g f) as [g' running]. cbn [fst] in H1.
      destruct running; [apply IH, H1 | exact H1]. }
    apply R. cbn. repeat (apply Forall_cons; [apply new_Spike_in_place|]). apply Forall_nil.
Qed.

Lemma spikes_stay_in_place_witness :
  Forall spike_in_place
         (Desktop.spikes (Desktop.run trivial_math (Desktop.new_Game 0)
                                      [idle_frame; idle_frame])).
Proof.
  apply (proj1 spikes_stay_in_place trivial_math 0%Q [idle_frame; idle_frame]).
  intro t. cbn. split; lra.
Defined.

(** ** Falling stones, from the ceiling to the ground *)

Lemma Desktop_stone_frame_ok (x y : Z) (s : Desktop.FallingStone)
      (f : StoneFrame Desktop.ParticleSystem) :
  Desktop_stone_ok x y s -> Desktop_stone_ok x y (Desktop_stone_frame s f).
Proof.
  intros (W & H & M & B & D & S).
  unfold Desktop_stone_frame, Desktop.FallingStone_update.
  set (s1 := Desktop.trigger_check s (sf_x f)).
  assert (O1 : Desktop_stone_ok x y s1).
  { unfold s1, Desktop.trigger_check, Desktop_stone_ok.
    repeat break_if; cbn; auto 8. }
  clearbody s1. clear W H M B D S s.
  destruct (Desktop.countdown s1 (sf_dt f) (sf_rng f)) as [s2 g2] eqn:E.
  assert (O2 : Desktop_stone_ok x y s2).
  { destruct O1 as (W & H & M & B & D & S).
    unfold Desktop.countdown in E. unfold Desktop_stone_ok.
    destruct (Desktop.warning s1 && negb (Desktop.dropped s1)) eqn:C;
      [|inversion E; subst; auto 8].
    apply andb_prop in C. destruct C as [_ C]. apply negb_true_iff in C.
    destruct (D C) as [D1 D2].
    destruct (Qle_bool _ 0); [destruct (uniform _ _ _)|];
      inversion E; subst; cbn; repeat split; auto; try lia;
      try discriminate; try congruence. }
  clear O1 E s1.
  destruct O2 as (W & H & M & B & D & S).
  unfold Desktop.fall.
  destruct (Desktop.dropped s2 && negb (Desktop.settled s2)) eqn:C;
    [|cbn; unfold Desktop_stone_ok; auto 8].
  apply andb_prop in C. destruct C as [C1 C2].
  unfold Desktop_stone_ok.
  destruct (find _ _) as [p|].
  - destruct (Desktop.bounces s2 <? Desktop.max_bounces s2) eqn:L.
    + apply Z.ltb_lt in L.
      destruct (uniform _ _ _) as [dvx g1].
      destruct (Desktop.add_explosion _ _ _ _ _ _) as [ps' g3].
      cbn. repeat split; auto; try lia; congruence.
    + destruct (Desktop.add_explosion _ _ _ _ _ _) as [ps' g3].
      cbn. repeat split; auto; try lia; congruence.
  - cbn. repeat split; auto; try lia; congruence.
Qed.

Lemma Desktop_stone_settled_fixed (s : Desktop.FallingStone)
      (f : StoneFrame Desktop.ParticleSystem) :
  Desktop.settled s = true -> Desktop.dropped s = true ->
  Desktop_stone_frame s f = s.
Proof.
  intros S D.
  unfold Desktop_stone_frame, Desktop.FallingStone_update.
  assert (T : Desktop.trigger_check s (sf_x f) = s)
    by (unfold Desktop.trigger_check; rewrite D; reflexivity).
  assert (C : Desktop.countdown s (sf_dt f) (sf_rng f) = (s, sf_rng f))
    by (unfold Desktop.countdown; rewrite D, andb_false_r; reflexivity).
  rewrite T, C. unfold Desktop.fall. rewrite D, S. reflexivity.
Qed.

Lemma Web_bounce_fold_ok (x y : Z) (platforms : list Platform) :
  forall (s : Web.FallingStone) (ps : Web.ParticleSystem) (g : Rng),
    Web.dropped s = true -> Web_stone_ok x y s ->
    let s' := fst (fst (fold_left Web.bounce_step platforms (s, ps, g))) in
    Web.dropped s' = true /\ Web_stone_ok x y s'.
Proof.
  induction platforms as [|q rest IH]; intros s ps g Dr O; cbn [fold_left];
    [auto|].
  destruct (Web.bounce_step (s, ps, g) q) as [[s1 ps1] g1] eqn:E.
  assert (O1 : Web.dropped s1 = true /\ Web_stone_ok x y s1).
  { destruct O as (W & H & M & B & D & S & X & V & U & Z0).
    unfold Web.bounce_step in E.
    destruct (colliderect _ _ && Qgt_bool (Web.fs_vy s) 0) eqn:C;
      [|inversion E; subst; unfold Web_stone_ok; auto 12].
    apply andb_prop in C. destruct C as [_ C].
    assert (Su : Web.settled s = false).
    { destruct (Web.settled s); [|reflexivity].
      rewrite Z0 in C by reflexivity. discriminate. }
    specialize (U Su).
    destruct (Web.add_explosion _ _ _ _ _ _) as [ps' g'].
    destruct ((Web.bounces s + 1 >=? Web.max_bounces s) || _) eqn:T;
      inversion E; subst; unfold Web_stone_ok; cbn;
      (split; [exact Dr|]).
    - repeat split; auto; try lia; try congruence; try reflexivity.
    - apply orb_false_iff in T. destruct T as [T _].
      rewrite Z.geb_leb in T. apply Z.leb_gt in T.
      repeat split; auto; try lia; try congruence;
        try (rewrite V; reflexivity); try (intros; discriminate). }
  destruct O1 as [D1 O1]. apply IH; assumption.
Qed.

Lemma Web_stone_frame_ok (x y : Z) (s : Web.FallingStone)
      (f : StoneFrame Web.ParticleSystem) :
  Web_stone_ok x y s -> Web_stone_ok x y (Web_stone_frame s f).
Proof.
  intro O. unfold Web_stone_frame. break_if; [|exact O].
  unfold Web.FallingStone_update.
  set (s1 := Web.trigger_check s (sf_x f)).
  assert (O1 : Web_stone_ok x y s1).
  { destruct O as (W & H & M & B & D & S & X & V & U & Z0).
    unfold s1, Web.trigger_check, Web_stone_ok.
    repeat break_if; cbn; auto 12. }
  clearbody s1. clear O.
  destruct (Web.countdown s1 (sf_dt f) (sf_rng f)) as [s2 g2] eqn:E.
  assert (O2 : Web_stone_ok x y s2).
  { destruct O1 as (W & H & M & B & D & S & X & V & U & Z0).
    unfold Web.countdown in E. unfold Web_stone_ok.
    destruct (Web.warning s1 && negb (Web.dropped s1)) eqn:C;
      [|inversion E; subst; auto 12].
    apply andb_prop in C. destruct C as [_ C]. apply negb_true_iff in C.
    destruct (D C) as [D1 D2].
    destruct (Qle_bool _ 0); [destruct (uniform _ _ _)|];
      inversion E; subst; cbn; repeat split; auto; try lia;
      try discriminate; try congruence. }
  clear O1 E s1.
  unfold Web.fall.
  destruct (Web.dropped s2 && negb (Web.settled s2)) eqn:C; [|exact O2].
  apply andb_prop in C. destruct C as [C1 C2]. apply negb_true_iff in C2.
  apply Web_bounce_fold_ok; [exact C1|].
  destruct O2 as (W & H & M & B & D & S & X & V & U & Z0).
  unfold Web_stone_ok. cbn.
  assert (T : to_int (Web.fs_vx s2) = 0) by (apply to_int_zero, V).
  rewrite T. repeat split; auto; try lia; try congruence.
Qed.

Lemma Web_stone_settled_fixed (s : Web.FallingStone)
      (f : StoneFrame Web.ParticleSystem) :
  Web.settled s = true -> Web.dropped s = true ->
  Web_stone_frame s f = s.
Proof.
  intros S D.
  unfold Web_stone_frame, Web.FallingStone_update.
  assert (T : Web.trigger_check s (sf_x f) = s)
    by (unfold Web.trigger_check; rewrite D; reflexivity).
  assert (C : Web.countdown s (sf_dt f) (sf_rng f) = (s, sf_rng f))
    by (unfold Web.countdown; rewrite D, andb_false_r; reflexivity).
  rewrite T, C. unfold Web.fall. rewrite D, S.
  break_if; reflexivity.
Qed.

(** X19.  Falling stones, from the ceiling to the ground.  Through all
    the frames of a stone of either variant: it keeps its size of 45 by 45
    pixels; it has bounced at most twice; until it is dropped it hangs
    exactly where it was built; it is settled only after it was dropped,
    and once settled no frame changes it.  The stone of the web variant
    moreover falls straight down: its x position never changes. *)
Theorem stone_from_ceiling_to_ground :
  (forall (x y : Z) (range : Z * Z) (wt : Q)
          (fs : list (StoneFrame Desktop.ParticleSystem)),
      let s := Desktop_stone_run (Desktop.new_FallingStone x y range wt) fs in
      Desktop_stone_ok x y s /\
      (Desktop.settled s = true -> forall f, Desktop_stone_frame s f = s)) /\
  (forall (x y : Z) (range : Z * Z) (wt : Q)
          (fs : list (StoneFrame Web.ParticleSystem)),
      let s := Web_stone_run (Web.new_FallingStone x y range wt) fs in
      Web_stone_ok x y s /\
      (Web.settled s = true -> forall f, Web_stone_frame s f = s)).
Proof.
  split; intros x y range wt fs.
  - assert (R : forall s, Desktop_stone_ok x y s ->
                          Desktop_stone_ok x y (Desktop_stone_run s fs)).
    { unfold Desktop_stone_run.
      induction fs as [|f rest IH]; intros s O; cbn [fold_left]; [exact O|].
      apply IH, Desktop_stone_frame_ok, O. }
    assert (O : Desktop_stone_ok x y
                  (Desktop_stone_run (Desktop.new_FallingStone x y range wt) fs)).
    { apply R. unfold Desktop_stone_ok. cbn.
      repeat split; auto; try lia; try discriminate. }
    cbn zeta. split; [exact O|].
    intros S f. apply Desktop_stone_settled_fixed; [exact S|].
    destruct O as (_ & _ & _ & _ & _ & O). apply O, S.
  - assert (R : forall s, Web_stone_ok x y s ->
                          Web_stone_ok x y (Web_stone_run s fs)).
    { unfold Web_stone_run.
      induction fs as [|f rest IH]; intros s O; cbn [fold_left]; [exact O|].
      apply IH, Web_stone_frame_ok, O. }
    assert (O : Web_stone_ok x y
                  (Web_stone_run (Web.new_FallingStone x y range wt) fs)).
    { apply R. unfold Web_stone_ok. cbn.
      repeat split; auto; try lia; try discriminate. }
    cbn zeta. split; [exact O|].
    intros S f. apply Web_stone_settled_fixed; [exact S|].
    destruct O as (_ & _ & _ & _ & _ & O & _). apply O, S.
Qed.

(** ** Particles on screen *)

Lemma uniform_unit (a b : Q) (g : Rng) :
  unit_samples g -> (a <= b)%Q ->
  forall v g', uniform a b g = (v, g') ->
               (a <= v)%Q /\ (v <= b)%Q /\ unit_samples g'.
Proof.
  intros U H v g' E. pose proof (uniform_range a b g U H) as R.
  rewrite E in R. exact R.
Qed.

Lemma Desktop_explosion_particle_ok (pos : Q * Q) (color : Color) (vr : Q * Q)
      (g : Rng) :
  unit_samples g ->
  particle_ok (12 # 10) 5 (fst (Desktop.explosion_particle pos color vr g)) /\
  unit_samples (snd (Desktop.explosion_particle pos color vr g)).
Proof.
  intro U. unfold Desktop.explosion_particle, uniform, random.
  cbn [fst snd source cursor]. unfold particle_ok, unit_samples in *.
  cbn [fst snd source cursor pt_life pt_max_life pt_size].
  pose proof (U (S (S (cursor g)))) as [A1 A2].
  pose proof (U (S (S (S (cursor g))))) as [B1 B2].
  repeat split; try nra; apply U.
Qed.

Lemma Desktop_dust_particle_ok (pos : Q * Q) (g : Rng) :
  unit_samples g ->
  particle_ok (12 # 10) 5 (fst (Desktop.dust_particle pos g)) /\
  unit_samples (snd (Desktop.dust_particle pos g)).
Proof.
  intro U. unfold Desktop.dust_particle, uniform, random.
  cbn [fst snd source cursor]. unfold particle_ok, unit_samples in *.
  cbn [fst snd source cursor pt_life pt_max_life pt_size].
  pose proof (U (S (S (cursor g)))) as [A1 A2].
  pose proof (U (S (S (S (cursor g))))) as [B1 B2].
  repeat split; try nra; apply U.
Qed.

Lemma Desktop_explosion_loop_ok (n : nat) (pos : Q * Q) (color : Color)
      (vr : Q * Q) :
  forall (ps : Desktop.ParticleSystem) (g : Rng),
    unit_samples g -> Forall (particle_ok (12 # 10) 5) ps ->
    Forall (particle_ok (12 # 10) 5)
           (fst (Desktop.add_explosion_loop n pos color vr ps g)) /\
    unit_samples (snd (Desktop.add_explosion_loop n pos color vr ps g)).
Proof.
  induction n as [|n IH]; intros ps g U F; cbn [Desktop.add_explosion_loop];
    [auto|].
  destruct (Desktop_explosion_particle_ok pos color vr g U) as [P U'].
  destruct (Desktop.explosion_particle pos color vr g) as [p g'].
  cbn [fst snd] in *. apply IH; [exact U'|].
  apply Forall_app. split; [exact F | constructor; [exact P | constructor]].
Qed.

Lemma Desktop_dust_loop_ok (n : nat) (pos : Q * Q) :
  forall (ps : Desktop.ParticleSystem) (g : Rng),
    unit_samples g -> Forall (particle_ok (12 # 10) 5) ps ->
    Forall (particle_ok (12 # 10) 5) (fst (Desktop.add_dust_loop n pos ps g)) /\
    unit_samples (snd (Desktop.add_dust_loop n pos ps g)).
Proof.
  induction n as [|n IH]; intros ps g U F; cbn [Desktop.add_dust_loop]; [auto|].
  destruct (Desktop_dust_particle_ok pos g U) as [P U'].
  destruct (Desktop.dust_particle pos g) as [p g'].
  cbn [fst snd] in *. apply IH; [exact U'|].
  apply Forall_app. split; [exact F | constructor; [exact P | constructor]].
Qed.

Lemma step_particle_ok (cap big dt : Q) (p : Particle) :
  (0 <= dt)%Q -> particle_ok cap big p ->
  (0 < pt_life (step_particle dt p))%Q ->
  particle_ok cap big (step_particle dt p).
Proof.
  intros D (A & B & C & E & F) L. unfold particle_ok, step_particle in *.
  cbn [pt_life pt_max_life pt_size] in *. repeat split; try assumption. lra.
Qed.

Lemma Desktop_update_ok (ps : Desktop.ParticleSystem) (dt : Q) :
  (0 <= dt)%Q -> Forall (particle_ok (12 # 10) 5) ps ->
  Forall (particle_ok (12 # 10) 5) (Desktop.ParticleSystem_update ps dt).
Proof.
  intros D F. unfold Desktop.ParticleSystem_update.
  apply Forall_forall. intros p' Hin.
  apply filter_In in Hin. destruct Hin as [Hin L].
  apply in_map_iff in Hin. destruct Hin as (p & <- & Hp).
  rewrite Forall_forall in F. apply step_particle_ok; [exact D | apply F, Hp|].
  apply negb_true_iff in L. apply Qnot_le_lt. intro H.
  apply Qle_bool_iff in H. congruence.
Qed.

Lemma Desktop_apply_ok (st : Desktop.ParticleSystem * Rng) (op : ParticleOp) :
  (forall dt, op = OpUpdate dt -> (0 <= dt)%Q) ->
  unit_samples (snd st) -> Forall (particle_ok (12 # 10) 5) (fst st) ->
  Forall (particle_ok (12 # 10) 5) (fst (Desktop_apply st op)) /\
  unit_samples (snd (Desktop_apply st op)).
Proof.
  intros D U F. destruct op as [pos count color vr | pos count | dt];
    cbn [Desktop_apply].
  - apply Desktop_explosion_loop_ok; assumption.
  - apply Desktop_dust_loop_ok; assumption.
  - cbn [fst snd]. split; [|exact U].
    apply Desktop_update_ok; [apply D; reflexivity | exact F].
Qed.

Lemma Web_explosion_particle_ok (pos : Q * Q) (color : Color) (vr : Q * Q)
      (g : Rng) :
  unit_samples g ->
  particle_ok 1 4 (fst (Web.explosion_particle pos color vr g)) /\
  unit_samples (snd (Web.explosion_particle pos color vr g)).
Proof.
  intro U. unfold Web.explosion_particle, uniform, random.
  cbn [fst snd source cursor]. unfold particle_ok, unit_samples in *.
  cbn [fst snd source cursor pt_life pt_max_life pt_size].
  pose proof (U (S (S (cursor g)))) as [A1 A2].
  pose proof (U (S (S (S (cursor g))))) as [B1 B2].
  repeat split; try nra; apply U.
Qed.

Lemma Web_dust_particle_ok (pos : Q * Q) (g : Rng) :
  unit_samples g ->
  particle_ok 1 4 (fst (Web.dust_particle pos g)) /\
  unit_samples (snd (Web.dust_particle pos g)).
Proof.
  intro U. unfold Web.dust_particle, uniform, random.
  cbn [fst snd source cursor]. unfold particle_ok, unit_samples in *.
  cbn [fst snd source cursor pt_life pt_max_life pt_size].
  pose proof (U (S (S (cursor g)))) as [A1 A2].
  pose proof (U (S (S (S (cursor g))))) as [B1 B2].
  repeat split; try nra; apply U.
Qed.

Lemma Web_explosion_loop_ok (n : nat) (pos : Q * Q) (color : Color) (vr : Q * Q) :
  forall (l : list Particle) (g : Rng),
    unit_samples g -> Forall (particle_ok 1 4) l ->
    Forall (particle_ok 1 4) (fst (Web.add_explosion_loop n pos color vr l g)) /\
    unit_samples (snd (Web.add_explosion_loop n pos color vr l g)).
Proof.
  induction n as [|n IH]; intros l g U F; cbn [Web.add_explosion_loop]; [auto|].
  destruct (Web_explosion_particle_ok pos color vr g U) as [P U'].
  destruct (Web.explosion_particle pos color vr g) as [p g'].
  cbn [fst snd] in *. apply IH; [exact U'|].
  apply Forall_app. split; [exact F | constructor; [exact P | constructor]].
Qed.

Lemma Web_dust_loop_ok (n : nat) (pos : Q * Q) :
  forall (l : list Particle) (g : Rng),
    unit_samples g -> Forall (particle_ok 1 4) l ->
    Forall (particle_ok 1 4) (fst (Web.add_dust_loop n pos l g)) /\
    unit_samples (snd (Web.add_dust_loop n pos l g)).
Proof.
  induction n as [|n IH]; intros l g U F; cbn [Web.add_dust_loop]; [auto|].
  destruct (Web_dust_particle_ok pos g U) as [P U'].
  destruct (Web.dust_particle pos g) as [p g'].
  cbn [fst snd] in *. apply IH; [exact U'|].
  apply Forall_app. split; [exact F | constructor; [exact P | constructor]].
Qed.

Lemma Forall_skipn_kept {A : Type} (P : A -> Prop) (n : nat) :
  forall l : list A, Forall P l -> Forall P (skipn n l).
Proof.
  induction n as [|n IH]; intros l F; [exact F|].
  destruct l as [|a l]; [exact F|]. cbn [skipn]. apply IH.
  inversion F; assumption.
Qed.

Lemma Web_apply_ok (st : Web.ParticleSystem * Rng) (op : ParticleOp) :
  (forall dt, op = OpUpdate dt -> (0 <= dt)%Q) ->
  unit_samples (snd st) -> Forall (particle_ok 1 4) (Web.particles (fst st)) ->
  Forall (particle_ok 1 4) (Web.particles (fst (Web_apply st op))) /\
  unit_samples (snd (Web_apply st op)).
Proof.
  intros D U F. destruct op as [pos count color vr | pos count | dt];
    cbn [Web_apply].
  - unfold Web.add_explosion.
    match goal with
    | |- context [Web.add_explosion_loop ?n ?a ?b ?c ?l ?g] =>
        assert (K : Forall (particle_ok 1 4) l);
        [| destruct (Web_explosion_loop_ok n a b c l g U K) as [R1 R2];
           destruct (Web.add_explosion_loop n a b c l g) as [l' g'] ]
    end.
    + break_if; [|exact F]. unfold Web.slice_from. apply Forall_skipn_kept, F.
    + cbn [fst snd Web.particles] in *. auto.
  - unfold Web.add_dust. break_if; [auto|].
    match goal with
    | |- context [Web.add_dust_loop ?n ?a ?l ?g] =>
        destruct (Web_dust_loop_ok n a l g U F) as [R1 R2];
        destruct (Web.add_dust_loop n a l g) as [l' g']
    end.
    cbn [fst snd Web.particles] in *. auto.
  - cbn [fst snd]. split; [|exact U].
    unfold Web.ParticleSystem_update. cbn [Web.particles].
    apply Forall_forall. intros p' Hin.
    apply filter_In in Hin. destruct Hin as [Hin L].
    apply in_map_iff in Hin. destruct Hin as (p & <- & Hp).
    rewrite Forall_forall in F.
    apply step_particle_ok; [apply D; reflexivity | apply F, Hp|].
    apply Qgt_bool_iff, L.
Qed.

Lemma particle_ok_drawn (cap big : Q) (B : Z) (p : Particle) :
  (big <= inject_Z B)%Q -> 1 <= B ->
  particle_ok cap big p ->
  0 <= particle_alpha p <= 255 /\ 1 <= particle_radius p <= B.
Proof.
  intros HB H1 (L & M & _ & S0 & S1).
  assert (D : (0 < pt_max_life p)%Q) by lra.
  unfold particle_alpha, particle_radius. split.
  - apply fade_range; [exact D | lra | exact M].
  - assert (A : (0 <= pt_life p / pt_max_life p)%Q).
    { apply Qle_shift_div_l; [exact D | lra]. }
    assert (C : (pt_life p / pt_max_life p <= 1)%Q).
    { apply Qle_shift_div_r; [exact D | lra]. }
    set (x := (pt_life p / pt_max_life p)%Q) in *.
    assert (T : 0 <= to_int (pt_size p * x)%Q <= B).
    { apply to_int_between.
      - change (inject_Z 0) with 0%Q. nra.
      - set (b := inject_Z B) in *. nra. }
    lia.
Qed.

Lemma step_particle_alive (dt : Q) (p : Particle) :
  Qgt_bool (pt_life (step_particle dt p)) 0 = outlives dt p.
Proof.
  unfold outlives, step_particle. cbn [pt_life].
  destruct (Qgt_bool (pt_life p) dt) eqn:E.
  - apply Qgt_bool_iff in E. apply Qgt_bool_iff. lra.
  - apply Qgt_bool_false_iff in E. apply Qgt_bool_false_iff. lra.
Qed.

Lemma filter_map_swap {A B : Type} (f : A -> B) (P : B -> bool) (l : list A) :
  filter P (map f l) = map f (filter (fun a => P (f a)) l).
Proof.
  induction l as [|a l IH]; cbn [map filter]; [reflexivity|].
  destruct (P (f a)); cbn [map]; rewrite IH; reflexivity.
Qed.

Lemma Desktop_update_survivors (ps : Desktop.ParticleSystem) (dt : Q) :
  Desktop.ParticleSystem_update ps dt
  = map (step_particle dt) (filter (outlives dt) ps).
Proof.
  unfold Desktop.ParticleSystem_update. rewrite filter_map_swap.
  f_equal. apply filter_ext. intro p. apply step_particle_alive.
Qed.

Lemma Web_update_survivors (ps : Web.ParticleSystem) (dt : Q) :
  Web.particles (Web.ParticleSystem_update ps dt)
  = map (step_particle dt) (filter (outlives dt) (Web.particles ps)).
Proof.
  unfold Web.ParticleSystem_update. cbn [Web.particles].
  rewrite filter_map_swap.
  f_equal. apply filter_ext. intro p. apply step_particle_alive.
Qed.

Lemma none_outlives (dt : Q) (l : list Particle) :
  (forall p, In p l -> (pt_life p <= dt)%Q) -> filter (outlives dt) l = [].
Proof.
  induction l as [|a l IH]; intro H; cbn [filter]; [reflexivity|].
  assert (E : outlives dt a = false).
  { apply Qgt_bool_false_iff, H. left. reflexivity. }
  rewrite E. apply IH. intros p Hp. apply H. right. exact Hp.
Qed.

(** X20.  Particles on screen.  Take any sequence of calls of
    [add_explosion], [add_dust] and [update] on a new particle system, with
    unit samples from the random source and no update going back in time.
    Every particle then in the system has life left, no more than it was
    created with, so [draw] gives it an opacity within 0 and 255 and a
    radius of at least one pixel and at most five (four in the web
    variant).  And particles expire: [update] keeps, stepped and in their
    order, exactly the particles with more life left than the frame takes,
    so a frame at least as long as the life of every particle present
    leaves the system empty. *)
Theorem particles_fade_and_expire :
  (forall (ops : list ParticleOp) (g : Rng) (p : Particle),
      unit_samples g -> ops_forward ops ->
      In p (fst (Desktop_particle_run ops g)) ->
      particle_ok (12 # 10) 5 p /\
      0 <= particle_alpha p <= 255 /\ 1 <= particle_radius p <= 5) /\
  (forall (ops : list ParticleOp) (g : Rng) (p : Particle),
      unit_samples g -> ops_forward ops ->
      In p (Web.particles (fst (Web_particle_run ops g))) ->
      particle_ok 1 4 p /\
      0 <= particle_alpha p <= 255 /\ 1 <= particle_radius p <= 4) /\
  (forall (ps : Desktop.ParticleSystem) (dt : Q),
      Desktop.ParticleSystem_update ps dt
      = map (step_particle dt) (filter (outlives dt) ps)) /\
  (forall (ps : Web.ParticleSystem) (dt : Q),
      Web.particles (Web.ParticleSystem_update ps dt)
      = map (step_particle dt) (filter (outlives dt) (Web.particles ps))) /\
  (forall (ps : Desktop.ParticleSystem) (dt : Q),
      (forall p, In p ps -> (pt_life p <= dt)%Q) ->
      Desktop.ParticleSystem_update ps dt = []) /\
  (forall (ps : Web.ParticleSystem) (dt : Q),
      (forall p, In p (Web.particles ps) -> (pt_life p <= dt)%Q) ->
      Web.particles (Web.ParticleSystem_update ps dt) = []).
Proof.
  split; [|split; [|split; [|split; [|split]]]].
  - intros ops g p U W Hin.
    assert (R : forall st,
               unit_samples (snd st) ->
               Forall (particle_ok (12 # 10) 5) (fst st) ->
               Forall (particle_ok (12 # 10) 5) (fst (fold_left Desktop_apply ops st))).
    { revert W. clear. induction ops as [|op rest IH]; intros W st U F;
        cbn [fold_left]; [exact F|].
      destruct (Desktop_apply_ok st op) as [F1 U1]; auto.
      - intros dt ->. apply W. left. reflexivity.
      - apply IH; auto. intros dt Hd. apply W. right. exact Hd. }
    specialize (R (Desktop.new_ParticleSystem, g) U (Forall_nil _)).
    rewrite Forall_forall in R. pose proof (R p Hin) as O.
    split; [exact O|].
    apply (particle_ok_drawn (12 # 10) 5 5); [apply Qle_refl | lia | exact O].
  - intros ops g p U W Hin.
    assert (R : forall st,
               unit_samples (snd st) ->
               Forall (particle_ok 1 4) (Web.particles (fst st)) ->
               Forall (particle_ok 1 4)
                      (Web.particles (fst (fold_left Web_apply ops st)))).
    { revert W. clear. induction ops as [|op rest IH]; intros W st U F;
        cbn [fold_left]; [exact F|].
      destruct (Web_apply_ok st op) as [F1 U1]; auto.
      - intros dt ->. apply W. left. reflexivity.
      - apply IH; auto. intros dt Hd. apply W. right. exact Hd. }
    specialize (R (Web.new_ParticleSystem, g) U (Forall_nil _)).
    rewrite Forall_forall in R. pose proof (R p Hin) as O.
    split; [exact O|].
    apply (particle_ok_drawn 1 4 4); [apply Qle_refl | lia | exact O].
  - exact Desktop_update_survivors.
  - exact Web_update_survivors.
  - intros ps dt H. rewrite Desktop_update_survivors, none_outlives by exact H.
    reflexivity.
  - intros ps dt H. rewrite Web_update_survivors, none_outlives by exact H.
    reflexivity.
Qed.

Lemma particles_fade_and_expire_witness :
  Desktop.ParticleSystem_update
    (fst (Desktop.add_dust Desktop.new_ParticleSystem (0, 0)%Q 2 some_rng))
    (8 # 10) = [].
Proof.
  apply (proj1 (proj2 (proj2 (proj2 (proj2 particles_fade_and_expire))))
               (fst (Desktop.add_dust Desktop.new_ParticleSystem (0, 0)%Q 2 some_rng))
               (8 # 10)).
  intros p [<- | [<- | []]]; vm_compute; discriminate.
Defined.

(** ** Landing dust in the web variant *)

Lemma Web_vertical_step_quiet (p : Web.Player) (ps : Web.ParticleSystem)
      (g : Rng) (pl : Platform) :
  snd (fst (Web.vertical_step (p, ps, g) pl)) = ps /\
  snd (Web.vertical_step (p, ps, g) pl) = g.
Proof.
  unfold Web.vertical_step.
  destruct (colliderect _ _); [|auto].
  destruct (Qgt_bool (Web.vy p) 0); [|destruct (Qlt_bool _ _); auto].
  destruct (Qgt_bool (Web.jump_buffer p) 0); [auto|].
  change (Qgt_bool (Qabs 0) 2) with false. cbn. auto.
Qed.

Lemma Web_vertical_fold_quiet (platforms : list Platform) :
  forall (p : Web.Player) (ps : Web.ParticleSystem) (g : Rng),
    snd (fst (fold_left Web.vertical_step platforms (p, ps, g))) = ps /\
    snd (fold_left Web.vertical_step platforms (p, ps, g)) = g.
Proof.
  induction platforms as [|q rest IH]; intros p ps g; cbn [fold_left]; [auto|].
  destruct (Web_vertical_step_quiet p ps g q) as [A B].
  destruct (Web.vertical_step (p, ps, g) q) as [[p1 ps1] g1].
  cbn [fst snd] in A, B. subst. apply IH.
Qed.

(** X21.  No landing dust in the web variant.  [Player.physics] tests the
    landing speed after it has set the vertical velocity to zero, so the
    dust of a landing is never added: whatever the player and the
    platforms, [physics] hands back the particle system and the random
    state it was given. *)
Theorem web_physics_adds_no_particles
        (p : Web.Player) (dt : Q) (platforms : list Platform)
        (ps : Web.ParticleSystem) (g : Rng) :
  snd (fst (Web.physics p dt platforms ps g)) = ps /\
  snd (Web.physics p dt platforms ps g) = g.
Proof.
  unfold Web.physics. destruct (Web.dead p || Web.win p); [auto|].
  unfold Web.vertical_collisions.
  match goal with
  | |- context [fold_left Web.vertical_step platforms (?q, ps, g)] =>
      destruct (Web_vertical_fold_quiet platforms q ps g) as [A B];
      destruct (fold_left Web.vertical_step platforms (q, ps, g)) as [[p4 ps4] g4]
  end.
  cbn [fst snd] in *. auto.
Qed.

(** ** Drawing in the web loop *)

Lemma Web_control_blink (p : Web.Player) (b : Q) (k : Keys) (dt : Q) :
  Web.control (Web_set_blink_timer p b) k dt
  = Web_set_blink_timer (Web.control p k dt) b.
Proof.
  unfold Web.control.
  cbn [Web_set_blink_timer Web.dead Web.win Web.on_ground Web.vx Web.vy Web.rect
         Web.jump_buffer Web.coyote_time Web.can_double_jump
         Web.has_double_jumped Web.facing_right Web.blink_timer Web.squash
         Web.stretch].
  repeat break_if; reflexivity.
Qed.

Lemma Web_horizontal_step_blink (p : Web.Player) (b : Q) (pl : Platform) :
  Web.horizontal_step (Web_set_blink_timer p b) pl
  = Web_set_blink_timer (Web.horizontal_step p pl) b.
Proof.
  unfold Web.horizontal_step. cbn [Web_set_blink_timer Web.rect Web.vx].
  repeat break_if; reflexivity.
Qed.

Lemma Web_horizontal_fold_blink (platforms : list Platform) (b : Q) :
  forall p : Web.Player,
    fold_left Web.horizontal_step platforms (Web_set_blink_timer p b)
    = Web_set_blink_timer (fold_left Web.horizontal_step platforms p) b.
Proof.
  induction platforms as [|q rest IH]; intros p; cbn [fold_left]; [reflexivity|].
  rewrite Web_horizontal_step_blink. apply IH.
Qed.

Lemma Web_vertical_step_blink (p : Web.Player) (b : Q) (ps : Web.ParticleSystem)
      (g : Rng) (pl : Platform) :
  Web.vertical_step (Web_set_blink_timer p b, ps, g) pl =
  (Web_set_blink_timer (fst (fst (Web.vertical_step (p, ps, g) pl))) b,
   snd (fst (Web.vertical_step (p, ps, g) pl)),
   snd (Web.vertical_step (p, ps, g) pl)).
Proof.
  unfold Web.vertical_step. cbn [Web_set_blink_timer Web.rect Web.vy Web.jump_buffer].
  repeat first [break_if | break_let]; reflexivity.
Qed.

Lemma Web_vertical_fold_blink (platforms : list Platform) (b : Q) :
  forall (p : Web.Player) (ps : Web.ParticleSystem) (g : Rng),
    fold_left Web.vertical_step platforms (Web_set_blink_timer p b, ps, g) =
    (Web_set_blink_timer (fst (fst (fold_left Web.vertical_step platforms (p, ps, g)))) b,
     snd (fst (fold_left Web.vertical_step platforms (p, ps, g))),
     snd (fold_left Web.vertical_step platforms (p, ps, g))).
Proof.
  induction platforms as [|q rest IH]; intros p ps g; cbn [fold_left];
    [reflexivity|].
  rewrite Web_vertical_step_blink.
  destruct (Web.vertical_step (p, ps, g) q) as [[p1 ps1] g1]. cbn [fst snd].
  apply IH.
Qed.

Lemma Web_physics_blink (p : Web.Player) (b : Q) (dt : Q)
      (platforms : list Platform) (ps : Web.ParticleSystem) (g : Rng) :
  exists b',
    Web.physics (Web_set_blink_timer p b) dt platforms ps g =
    (Web_set_blink_timer (fst (fst (Web.physics p dt platforms ps g))) b',
     snd (fst (Web.physics p dt platforms ps g)),
     snd (Web.physics p dt platforms ps g)).
Proof.
  unfold Web.physics. cbn [Web_set_blink_timer Web.dead Web.win].
  destruct (Web.dead p || Web.win p); [exists b; reflexivity|].
  assert (E : Web.move_y
                (Web.set_on_ground
                   (fold_left Web.horizontal_step platforms
                      (Web.move_x
                         (Web.friction_gravity (Web_set_blink_timer p b))))
                   false)
              = Web_set_blink_timer (Web.move_y
                      (Web.set_on_ground
                         (fold_left Web.horizontal_step platforms
                            (Web.move_x (Web.friction_gravity p))) false)) b).
  { change (Web.move_x (Web.friction_gravity (Web_set_blink_timer p b)))
      with (Web_set_blink_timer (Web.move_x (Web.friction_gravity p)) b).
    rewrite Web_horizontal_fold_blink. reflexivity. }
  rewrite E. unfold Web.vertical_collisions. rewrite Web_vertical_fold_blink.
  assert (W : Web.on_ground
                (fold_left Web.horizontal_step platforms
                   (Web.move_x (Web.friction_gravity (Web_set_blink_timer p b))))
              = Web.on_ground
                  (fold_left Web.horizontal_step platforms
                     (Web.move_x (Web.friction_gravity p)))).
  { change (Web.move_x (Web.friction_gravity (Web_set_blink_timer p b)))
      with (Web_set_blink_timer (Web.move_x (Web.friction_gravity p)) b).
    rewrite Web_horizontal_fold_blink. reflexivity. }
  rewrite W.
  destruct (fold_left Web.vertical_step platforms _) as [[p1 ps1] g1].
  cbn [fst snd]. eexists. unfold Web.after_collisions.
  cbn [Web_set_blink_timer Web.dead Web.win Web.on_ground Web.vx Web.vy Web.rect
         Web.jump_buffer Web.coyote_time Web.can_double_jump
         Web.has_double_jumped Web.facing_right Web.blink_timer Web.squash
         Web.stretch].
  reflexivity.
Qed.

Lemma Web_advance_blink (m : Math) (g : Web.Game) (b : Q) (f : Frame) :
  exists b',
    Web.advance m (Web_with_blink g b) f =
    (Web_with_blink (fst (Web.advance m g f)) b', snd (Web.advance m g f)).
Proof.
  unfold Web.advance, Web.platforms_for_collision.
  cbn [Web_with_blink Web.state Web.start_time Web.death_time Web.win_time Web.attempts
         Web.best_time Web.g_particles Web.camera Web.platforms
         Web.fake_platforms Web.magic_wall Web.spikes Web.falling_stones
         Web.teleport_traps Web.door Web.fake_doors Web.win_trigger Web.player].
  set (p0 := if GameState_eqb (Web.state g) PLAYING
             then Web.control (Web.player g) (f_keys f) (f_dt f)
             else Web.player g).
  assert (E : (if GameState_eqb (Web.state g) PLAYING
               then Web.control (Web_set_blink_timer (Web.player g) b) (f_keys f) (f_dt f)
               else Web_set_blink_timer (Web.player g) b) = Web_set_blink_timer p0 b).
  { unfold p0. destruct (GameState_eqb (Web.state g) PLAYING);
      [apply Web_control_blink | reflexivity]. }
  rewrite E. clear E.
  change (Web.rect (Web_set_blink_timer p0 b)) with (Web.rect p0).
  match goal with
  | |- context [Web.physics (Web_set_blink_timer p0 b) ?dt ?pfc ?ps ?r] =>
      set (P := pfc);
      destruct (Web_physics_blink p0 b dt P ps r) as [b' Hb];
      rewrite Hb;
      destruct (Web.physics p0 dt P ps r) as [[p1 ps1] r1]
  end.
  cbn [fst snd].
  destruct (Web.update_stones _ _ _ _ _ _) as [[stones' ps2] r2].
  exists b'. reflexivity.
Qed.

Ltac game_fields :=
  cbn [Web_with_blink Web.state Web.start_time Web.death_time Web.win_time Web.attempts
         Web.best_time Web.g_particles Web.camera Web.platforms
         Web.fake_platforms Web.magic_wall Web.spikes Web.falling_stones
         Web.teleport_traps Web.door Web.fake_doors Web.win_trigger Web.player
         Web.set_magic_wall Web.set_fake_platforms Web.set_teleport Web.set_door
         Web_set_blink_timer Web.rect Web.vx Web.vy Web.dead Web.win
         Web.set_dead Web.set_win
         Web.set_rect Web.set_vx Web.set_vy fst snd].

Lemma Web_wall_collision_blink (g : Web.Game) (b : Q) (r : Rng) :
  Web.wall_collision (Web_with_blink g b) r =
  (Web_with_blink (fst (Web.wall_collision g r)) b, snd (Web.wall_collision g r)).
Proof.
  unfold Web.wall_collision. game_fields.
  repeat first [break_if | break_let]; game_fields; reflexivity.
Qed.

Lemma Web_fake_platform_collisions_blink (g : Web.Game) (b : Q) :
  Web.fake_platform_collisions (Web_with_blink g b)
  = Web_with_blink (Web.fake_platform_collisions g) b.
Proof.
  unfold Web.fake_platform_collisions. game_fields.
  assert (E : fold_left (Web.fake_platform_step (Web_set_blink_timer (Web.player g) b))
                        (Web.fake_platforms g) ([], Web.camera g)
              = fold_left (Web.fake_platform_step (Web.player g))
                          (Web.fake_platforms g) ([], Web.camera g)).
  { generalize (@nil Web.FakePlatform, Web.camera g).
    induction (Web.fake_platforms g) as [|x rest IH]; intro st; cbn [fold_left];
      [reflexivity|].
    rewrite IH. reflexivity. }
  rewrite E. break_let. reflexivity.
Qed.

Lemma Web_teleport_loop_blink (traps : list Web.TeleportTrap) (b : Q) :
  forall (pl : Web.Player) (c : Camera) (ps : Web.ParticleSystem) (r : Rng),
    Web.teleport_loop traps (Web_set_blink_timer pl b) c ps r =
    let '(traps', pl', c', ps', r') := Web.teleport_loop traps pl c ps r in
    (traps', Web_set_blink_timer pl' b, c', ps', r').
Proof.
  induction traps as [|t rest IH]; intros pl c ps r; cbn [Web.teleport_loop];
    [reflexivity|].
  change (Web.rect (Web_set_blink_timer pl b)) with (Web.rect pl).
  destruct (Web.check_teleport t (Web.rect pl) ps r) as [[[t' dest] ps'] r'].
  destruct dest as [new_pos|]; [reflexivity|].
  rewrite IH.
  destruct (Web.teleport_loop rest pl c ps' r') as [[[[rest' pl'] c'] ps''] r''].
  reflexivity.
Qed.

Lemma Web_teleport_collisions_blink (g : Web.Game) (b : Q) (r : Rng) :
  Web.teleport_collisions (Web_with_blink g b) r =
  (Web_with_blink (fst (Web.teleport_collisions g r)) b,
   snd (Web.teleport_collisions g r)).
Proof.
  unfold Web.teleport_collisions. game_fields.
  rewrite Web_teleport_loop_blink.
  destruct (Web.teleport_loop _ _ _ _ _) as [[[[traps pl] c] ps] r'].
  reflexivity.
Qed.

Lemma Web_handle_collisions_blink (g : Web.Game) (b : Q) (now : Q) (r : Rng) :
  Web.handle_collisions (Web_with_blink g b) now r =
  (Web_with_blink (fst (Web.handle_collisions g now r)) b,
   snd (Web.handle_collisions g now r)).
Proof.
  unfold Web.handle_collisions. game_fields.
  destruct (negb (GameState_eqb (Web.state g) PLAYING)); [reflexivity|].
  unfold Web.before_kill_checks.
  rewrite Web_wall_collision_blink.
  destruct (Web.wall_collision g r) as [g1 r1]. cbn [fst snd].
  rewrite Web_fake_platform_collisions_blink, Web_teleport_collisions_blink.
  destruct (Web.teleport_collisions (Web.fake_platform_collisions g1) r1)
    as [g2 r2]. cbn [fst snd].
  change (Web.player_killed (Web_with_blink g2 b)) with (Web.player_killed g2).
  destruct (Web.player_killed g2).
  - unfold Web.kill_player. game_fields. break_let. reflexivity.
  - unfold Web.door_interactions. game_fields.
    destruct (Web.maybe_troll _ _ _ _) as [[d ps] r3].
    game_fields. break_if; [|reflexivity].
    unfold Web.win_game. game_fields. break_let. reflexivity.
Qed.

Lemma Web_update_blink (m : Math) (g : Web.Game) (b : Q) (f : Frame) :
  exists b',
    Web.update m (Web_with_blink g b) f =
    (Web_with_blink (fst (Web.update m g f)) b', snd (Web.update m g f)).
Proof.
  unfold Web.update.
  destruct (K_r (f_keys f)).
  - exists (Web.blink_timer (Web.player (Web.reset_game g (f_now f)))).
    reflexivity.
  - destruct (K_ESCAPE (f_keys f)); [exists b; reflexivity|].
    destruct (Web_advance_blink m g b f) as [b' E]. rewrite E.
    destruct (Web.advance m g f) as [g1 r1]. cbn [fst snd].
    rewrite Web_handle_collisions_blink. exists b'. reflexivity.
Qed.

Lemma Web_with_blink_same (g : Web.Game) :
  Web_with_blink g (Web.blink_timer (Web.player g)) = g.
Proof. destruct g as [? ? ? ? ? ? ? ? ? ? ? ? ? ? ? ? ? p]. destruct p. reflexivity. Qed.

Lemma Web_Game_draw_blink (g : Web.Game) (b : Q) (u : option Q) :
  exists b', Web_Game_draw (Web_with_blink g b) u = Web_with_blink g b'.
Proof.
  unfold Web_Game_draw. game_fields.
  destruct (Web_Player_draw_cases (Web_set_blink_timer (Web.player g) b) u) as [-> | ->].
  - exists b. reflexivity.
  - exists (1 # 10)%Q. reflexivity.
Qed.

Lemma Web_main_run (m : Math) (fs : list (Frame * option Q)) :
  forall (g : Web.Game) (b : Q),
    exists b',
      Web_main m (Web_with_blink g b) fs
      = Web_with_blink (Web.run m g (map fst fs)) b'.
Proof.
  induction fs as [|[f u] rest IH]; intros g b;
    cbn [Web_main Web.run map fst].
  - exists b. reflexivity.
  - destruct (Web_update_blink m g b f) as [b1 E]. rewrite E.
    destruct (Web.update m g f) as [g' running]. cbn [fst snd].
    destruct (Web_Game_draw_blink g' b1 u) as [b2 D]. rewrite D.
    destruct running; [apply IH | exists b2; reflexivity].
Qed.

Lemma Web_main_blinks (m : Math) (g : Web.Game) (f : Frame) (x : Q) :
  (x < 2 # 1000)%Q ->
  (Web.blink_timer (Web.player (fst (Web.update m g f))) <= 0)%Q ->
  Web.blink_timer (Web.player (Web_main m g [(f, Some x)])) = 1 # 10.
Proof.
  intros X L. cbn [Web_main].
  destruct (Web.update m g f) as [g' running]. cbn [fst] in L.
  assert (E : Web.blink_timer (Web.player (Web_Game_draw g' (Some x))) = 1 # 10).
  { cbn [Web_Game_draw Web.player Web_Player_draw].
    apply Qlt_bool_iff in X. apply Qle_bool_iff in L. rewrite X, L. reflexivity. }
  destruct running; exact E.
Qed.

(** X22.  Drawing only blinks.  The web main loop draws after every update,
    and [Player.draw] may write the player's blink timer; nothing else that
    [update] computes reads that timer.  So a session of the loop with its
    drawing ends in the game that the same frames give without drawing,
    but for the blink timer of the player.  And the blink does start: a
    frame drawn with a sample below 0.002 while no blink is running leaves
    the blink timer at 0.1. *)
Theorem drawing_only_blinks :
  (forall (m : Math) (g : Web.Game) (fs : list (Frame * option Q)),
      exists b : Q,
        Web_main m g fs = Web_with_blink (Web.run m g (map fst fs)) b) /\
  (forall (m : Math) (g : Web.Game) (f : Frame) (x : Q),
      (x < 2 # 1000)%Q ->
      (Web.blink_timer (Web.player (fst (Web.update m g f))) <= 0)%Q ->
      Web.blink_timer (Web.player (Web_main m g [(f, Some x)])) = 1 # 10).
Proof.
  split; [|exact Web_main_blinks].
  intros m g fs.
  destruct (Web_main_run m fs g (Web.blink_timer (Web.player g))) as [b E].
  rewrite Web_with_blink_same in E. exists b. exact E.
Qed.

Lemma drawing_only_blinks_witness :
  Web.blink_timer
    (Web.player (Web_main trivial_math web_lost [(idle_frame, Some (1 # 1000))]))
  = 1 # 10.
Proof.
  apply (proj2 drawing_only_blinks trivial_math web_lost idle_frame (1 # 1000)).
  - reflexivity.
  - vm_compute. discriminate.
Defined.
